(** * MegaDeviceBridge: a shallow embedding of the capture core

    The development follows the C++ sources of the bridge firmware
    (Arduino Mega 2560, avr-gcc): the ring buffer and the IEEE-1284
    strobe handler, the flat file system on the W25Q128 flash, the hex
    streaming protocol on the UART, the storage manager and the capture
    step of the main loop.

    Conventions.
    - Unsigned machine integers are [Z] with the wrap-around written out
      ([u8], [u16], [u32]).  On the target [int] and [size_t] are 16 bits
      wide, [uint32_t] is [unsigned long].
    - A [uint8_t] and a [char] are both a [Z] in [0, 256); a C string is
      the list of its characters before the terminating NUL, a [char]
      array is the list of all its cells.
    - Objects are records, member functions take the object and return
      the updated object next to their result.
    - What a function does to the outside world (pins, SPI flash,
      UART) is either an explicit device state or a list of events in
      program order. *)

From Stdlib Require Import ZArith String Ascii Bool Lia.
From stdpp Require Import base list.

Open Scope Z_scope.

(** ** Machine arithmetic *)

Definition wrap (bits x : Z) : Z := x mod 2 ^ bits.
Definition u8 (x : Z) : Z := wrap 8 x.
Definition u16 (x : Z) : Z := wrap 16 x.
Definition u32 (x : Z) : Z := wrap 32 x.

(** [size_t] on the AVR target. *)
Definition SIZE_T_BITS : Z := 16.
Definition usize (x : Z) : Z := wrap SIZE_T_BITS x.

(** The Arduino [min] macro. *)
Definition min (a b : Z) : Z := if a <? b then a else b.

(** A character literal and a string literal as C sees them. *)
Definition chr (a : ascii) : Z := Z.of_N (N_of_ascii a).
Definition cstr (s : string) : list Z := map chr (list_ascii_of_string s).

(** ** HardwareConfig.h *)

Module HardwareConfig.
Definition LPT_ACTIVITY_LED_PIN : Z := 30.
Definition LPT_STROBE_PIN : Z := 18.
Definition LPT_DATA0_PIN : Z := 25.
Definition LPT_DATA1_PIN : Z := 27.
Definition LPT_DATA2_PIN : Z := 29.
Definition LPT_DATA3_PIN : Z := 31.
Definition LPT_DATA4_PIN : Z := 33.
Definition LPT_DATA5_PIN : Z := 35.
Definition LPT_DATA6_PIN : Z := 37.
Definition LPT_DATA7_PIN : Z := 39.
Definition LPT_ACKNOWLEDGE_PIN : Z := 41.
Definition LPT_BUSY_PIN : Z := 43.
Definition LPT_PAPER_OUT_PIN : Z := 45.
Definition LPT_SELECT_PIN : Z := 47.
Definition LPT_ERROR_PIN : Z := 24.
Definition RING_BUFFER_SIZE : Z := 96.
Definition TRANSFER_BUFFER_SIZE : Z := 32.
Definition MAX_FILENAME_LENGTH : Z := 8.
Definition ACK_PULSE_WIDTH : Z := 20.
Definition HARDWARE_DELAY : Z := 5.
Definition EEPROM_SIZE : Z := 16777216.
Definition EEPROM_PAGE_SIZE : Z := 256.
Definition EEPROM_SECTOR_SIZE : Z := 4096.
Definition STATUS_OK : Z := 0.
Definition STATUS_ERROR : Z := 1.
Definition STATUS_NOT_INITIALIZED : Z := 2.
End HardwareConfig.
Import HardwareConfig.

Definition HIGH : bool := true.
Definition LOW : bool := false.

(** What the firmware does to the board, in program order.  [RingWrite]
    records the attempt to enqueue a byte and whether it was stored; the
    display is driven by a component outside this development and shows
    up as the requests made to it. *)
Inductive Event : Type :=
| DigitalWrite (pin : Z) (level : bool)
| DigitalRead (pin : Z) (level : bool)
| DelayMicroseconds (us : Z)
| RingWrite (data : Z) (stored : bool)
| AttachInterrupt
| DetachInterrupt
| SerialPrintln (s : string)
| DisplayMessage (line1 line2 : string)
| DisplayError (message : string).

(** ** RingBuffer (RingBuffer.h, RingBuffer.cpp)

    [RING_BUFFER_SIZE] is a macro; the functions take it as a variable so
    that the 16-byte configuration of the test build can be stated next
    to the 96-byte one of HardwareConfig.h. *)

Module RingBuffer.

Record t : Type := mk {
  buffer : list Z;
  head : Z;
  tail : Z;
  count : Z;
  overflowFlag : bool
}.

Section WithCapacity.
Variable RING_BUFFER_SIZE : Z.

Definition ctor : t :=
  mk (replicate (Z.to_nat RING_BUFFER_SIZE) 0) 0 0 0 false.

Definition write (rb : t) (data : Z) : t * bool :=
  if RING_BUFFER_SIZE <=? count rb then
    (mk (buffer rb) (head rb) (tail rb) (count rb) true, false)
  else
    (mk (<[Z.to_nat (head rb) := data]> (buffer rb))
        ((head rb + 1) mod RING_BUFFER_SIZE)
        (tail rb)
        (count rb + 1)
        (overflowFlag rb),
     true).

Definition read (rb : t) : t * option Z :=
  if count rb =? 0 then (rb, None)
  else
    (mk (buffer rb) (head rb) ((tail rb + 1) mod RING_BUFFER_SIZE)
        (count rb - 1) (overflowFlag rb),
     Some (default 0 (buffer rb !! Z.to_nat (tail rb)))).

Definition available (rb : t) : Z := count rb.

Definition isFull (rb : t) : bool := RING_BUFFER_SIZE <=? count rb.

Definition clear (rb : t) : t := mk (buffer rb) 0 0 0 false.

Definition hasOverflow (rb : t) : bool := overflowFlag rb.

Definition clearOverflow (rb : t) : t :=
  mk (buffer rb) (head rb) (tail rb) (count rb) false.

(** The loop of [readBytes]: at most [n] further iterations. *)
Fixpoint readBytes_loop (n : nat) (rb : t) : t * list Z :=
  match n with
  | O => (rb, [])
  | S n' =>
      if 0 <? count rb then
        let b := default 0 (buffer rb !! Z.to_nat (tail rb)) in
        let rb1 := mk (buffer rb) (head rb)
                      ((tail rb + 1) mod RING_BUFFER_SIZE)
                      (count rb - 1) (overflowFlag rb) in
        let '(rb2, bs) := readBytes_loop n' rb1 in
        (rb2, b :: bs)
      else (rb, [])
  end.

(** [readBytes(dest, maxBytes)]: the bytes stored to [dest], in order;
    their number is the return value. *)
Definition readBytes (rb : t) (maxBytes : Z) : t * list Z :=
  if maxBytes =? 0 then (rb, [])
  else readBytes_loop (Z.to_nat maxBytes) rb.

Definition getUtilization (rb : t) : Z :=
  u8 (usize (count rb * 100) / RING_BUFFER_SIZE).

(** [peek(data)]: [Some data] when it returns true. *)
Definition peek (rb : t) : option Z :=
  if count rb =? 0 then None
  else Some (default 0 (buffer rb !! Z.to_nat (tail rb))).

Definition free (rb : t) : Z := usize (RING_BUFFER_SIZE - count rb).

Definition isEmpty (rb : t) : bool := count rb =? 0.

Definition capacity : Z := RING_BUFFER_SIZE.

(** The loop of [writeBytes]: at most [n] further iterations. *)
Fixpoint writeBytes_loop (n : nat) (rb : t) (src : list Z)
  (bytesWritten numBytes : Z) : t * Z :=
  match n with
  | O => (rb, bytesWritten)
  | S n' =>
      if (bytesWritten <? numBytes) && (count rb <? RING_BUFFER_SIZE) then
        writeBytes_loop n'
          (mk (<[Z.to_nat (head rb) :=
                   default 0 (src !! Z.to_nat bytesWritten)]> (buffer rb))
              ((head rb + 1) mod RING_BUFFER_SIZE)
              (tail rb) (count rb + 1) (overflowFlag rb))
          src (bytesWritten + 1) numBytes
      else (rb, bytesWritten)
  end.

(** [writeBytes(src, numBytes)]: the buffer afterwards and the number
    of bytes written. *)
Definition writeBytes (rb : t) (src : list Z) (numBytes : Z) : t * Z :=
  if numBytes =? 0 then (rb, 0)
  else
    let '(rb1, bytesWritten) :=
      writeBytes_loop (Z.to_nat numBytes) rb src 0 numBytes in
    (if bytesWritten <? numBytes
     then mk (buffer rb1) (head rb1) (tail rb1) (count rb1) true
     else rb1,
     bytesWritten).

End WithCapacity.
End RingBuffer.

(** ** ParallelPortManager (ParallelPortManager.h, ParallelPortManager.cpp) *)

Module ParallelPortManager.

Record t : Type := mk {
  initialized : bool;
  captureEnabled : bool;
  bytesReceived : Z;
  overflowCount : Z;
  lastInterruptTime : Z;
  debugEnabled : bool;
  busyAsserted : bool;
  errorState : bool;
  totalInterrupts : Z;
  maxISRTime : Z;
  avgISRTime : Z;
  ringBuffer : RingBuffer.t
}.

(** What one run of the interrupt handler reads from the outside: the
    two readings of [micros()] and the level of each data pin. *)
Record IsrInput : Type := mkIsrInput {
  micros_entry : Z;
  micros_exit : Z;
  pin_level : Z -> bool
}.

Section WithCapacity.
Variable RING_BUFFER_SIZE : Z.

Definition ctor : t :=
  mk false false 0 0 0 false false false 0 0 0
     (RingBuffer.ctor RING_BUFFER_SIZE).

Definition initialize (m : t) : Z * t * list Event :=
  if initialized m then (STATUS_OK, m, [])
  else
    (STATUS_OK,
     mk true true 0 0 (lastInterruptTime m) (debugEnabled m)
        (busyAsserted m) (errorState m) 0 0 0
        (RingBuffer.clear (ringBuffer m)),
     [DigitalWrite LPT_ACTIVITY_LED_PIN LOW;
      DigitalWrite LPT_BUSY_PIN LOW;
      DigitalWrite LPT_ACKNOWLEDGE_PIN HIGH;
      DigitalWrite LPT_PAPER_OUT_PIN LOW;
      DigitalWrite LPT_SELECT_PIN HIGH;
      DigitalWrite LPT_ERROR_PIN HIGH;
      AttachInterrupt]
     ++ (if debugEnabled m
         then [SerialPrintln "ParallelPortManager: Initialized on pin 18"]
         else [])).

Definition update (m : t) : Z * t * list Event :=
  if negb (initialized m) then (STATUS_NOT_INITIALIZED, m, [])
  else
    let '(m1, ev1) :=
      if RingBuffer.hasOverflow (ringBuffer m) then
        (mk (initialized m) (captureEnabled m) (bytesReceived m)
            (u32 (overflowCount m + 1)) (lastInterruptTime m)
            (debugEnabled m) (busyAsserted m) (errorState m)
            (totalInterrupts m) (maxISRTime m) (avgISRTime m)
            (RingBuffer.clearOverflow (ringBuffer m)),
         if debugEnabled m
         then [SerialPrintln "ParallelPortManager: Buffer overflow detected"]
         else [])
      else (m, []) in
    (STATUS_OK, m1,
     ev1 ++ [DigitalWrite LPT_ACTIVITY_LED_PIN
               (0 <? RingBuffer.available (ringBuffer m1))]).

Definition updateTimingStats (m : t) (executionTime : Z) : t :=
  mk (initialized m) (captureEnabled m) (bytesReceived m) (overflowCount m)
     (lastInterruptTime m) (debugEnabled m) (busyAsserted m) (errorState m)
     (totalInterrupts m)
     (if maxISRTime m <? executionTime then executionTime else maxISRTime m)
     (u16 (avgISRTime m + executionTime) / 2)
     (ringBuffer m).

Definition getAvailableBytes (m : t) : Z :=
  RingBuffer.available (ringBuffer m).

Definition readData (m : t) (maxBytes : Z) : t * list Z :=
  if negb (initialized m) then (m, [])
  else
    let '(rb, bs) :=
      RingBuffer.readBytes RING_BUFFER_SIZE (ringBuffer m) maxBytes in
    (mk (initialized m) (captureEnabled m) (bytesReceived m)
        (overflowCount m) (lastInterruptTime m) (debugEnabled m)
        (busyAsserted m) (errorState m) (totalInterrupts m)
        (maxISRTime m) (avgISRTime m) rb,
     bs).

Definition hasBufferOverflow (m : t) : bool :=
  RingBuffer.hasOverflow (ringBuffer m).

Definition getOverflowCount (m : t) : Z := overflowCount m.

Definition getTotalBytesReceived (m : t) : Z := bytesReceived m.

(** The eight [digitalRead]s of the handler, D0 first. *)
Definition data_pins : list (Z * Z) :=
  [(LPT_DATA0_PIN, 1); (LPT_DATA1_PIN, 2); (LPT_DATA2_PIN, 4);
   (LPT_DATA3_PIN, 8); (LPT_DATA4_PIN, 16); (LPT_DATA5_PIN, 32);
   (LPT_DATA6_PIN, 64); (LPT_DATA7_PIN, 128)].

Definition read_data (i : IsrInput) : Z :=
  fold_left (fun data '(pin, bit) =>
               Z.lor data (if pin_level i pin then bit else 0))
            data_pins 0.

Definition read_events (i : IsrInput) : list Event :=
  map (fun '(pin, _) => DigitalRead pin (pin_level i pin)) data_pins.

Definition handleInterrupt (i : IsrInput) (m : t) : t * list Event :=
  let startTime := micros_entry i in
  if negb (captureEnabled m) || negb (initialized m) then (m, [])
  else
    let data := read_data i in
    let '(rb, stored) := RingBuffer.write RING_BUFFER_SIZE (ringBuffer m) data in
    let received :=
      if stored then u32 (bytesReceived m + 1) else bytesReceived m in
    let endTime := micros_exit i in
    let executionTime := u16 (u32 (endTime - startTime)) in
    let m1 :=
      mk (initialized m) (captureEnabled m) received (overflowCount m)
         (lastInterruptTime m) (debugEnabled m) (busyAsserted m)
         (errorState m) (u32 (totalInterrupts m + 1))
         (maxISRTime m) (avgISRTime m) rb in
    let m2 := updateTimingStats m1 executionTime in
    (mk (initialized m2) (captureEnabled m2) (bytesReceived m2)
        (overflowCount m2) endTime (debugEnabled m2) (busyAsserted m2)
        (errorState m2) (totalInterrupts m2) (maxISRTime m2)
        (avgISRTime m2) (ringBuffer m2),
     [DigitalWrite LPT_BUSY_PIN HIGH; DelayMicroseconds HARDWARE_DELAY]
     ++ read_events i
     ++ [RingWrite data stored;
         DigitalWrite LPT_ACKNOWLEDGE_PIN LOW;
         DelayMicroseconds ACK_PULSE_WIDTH;
         DigitalWrite LPT_ACKNOWLEDGE_PIN HIGH;
         DigitalWrite LPT_BUSY_PIN LOW]).

Definition getStatus (m : t) : Z :=
  if negb (initialized m) then STATUS_NOT_INITIALIZED
  else if errorState m then STATUS_ERROR
  else if RingBuffer.hasOverflow (ringBuffer m) then STATUS_ERROR
  else STATUS_OK.

Definition reset (m : t) : Z * t * list Event :=
  let '(m1, ev1) :=
    if initialized m then
      (mk false false 0 0 (lastInterruptTime m) (debugEnabled m)
          false false 0 0 0 (RingBuffer.clear (ringBuffer m)),
       [DetachInterrupt])
    else (m, []) in
  let '(r, m2, ev2) := initialize m1 in
  (r, m2, ev1 ++ ev2).

Definition setCaptureEnabled (m : t) (enabled : bool) : t * list Event :=
  (mk (initialized m) enabled (bytesReceived m) (overflowCount m)
      (lastInterruptTime m) (debugEnabled m) (busyAsserted m) (errorState m)
      (totalInterrupts m) (maxISRTime m) (avgISRTime m) (ringBuffer m),
   if debugEnabled m
   then [SerialPrintln (if enabled
                        then "ParallelPortManager: Capture enabled"
                        else "ParallelPortManager: Capture disabled")]
   else []).

Definition isCaptureEnabled (m : t) : bool := captureEnabled m.

Definition peekData (m : t) : option Z := RingBuffer.peek (ringBuffer m).

Definition set_ringBuffer (m : t) (rb : RingBuffer.t) : t :=
  mk (initialized m) (captureEnabled m) (bytesReceived m) (overflowCount m)
     (lastInterruptTime m) (debugEnabled m) (busyAsserted m) (errorState m)
     (totalInterrupts m) (maxISRTime m) (avgISRTime m) rb.

Definition clearBuffer (m : t) : t * list Event :=
  (set_ringBuffer m (RingBuffer.clear (ringBuffer m)),
   if debugEnabled m
   then [SerialPrintln "ParallelPortManager: Buffer cleared"]
   else []).

Definition getBufferUtilization (m : t) : Z :=
  RingBuffer.getUtilization RING_BUFFER_SIZE (ringBuffer m).

Definition clearBufferOverflow (m : t) : t :=
  set_ringBuffer m (RingBuffer.clearOverflow (ringBuffer m)).

(** [getInterruptStats]: [totalInts], [maxTime], [avgTime]. *)
Definition getInterruptStats (m : t) : Z * Z * Z :=
  (totalInterrupts m, maxISRTime m, avgISRTime m).

Definition setErrorState (m : t) (error : bool) : t * list Event :=
  (mk (initialized m) (captureEnabled m) (bytesReceived m) (overflowCount m)
      (lastInterruptTime m) (debugEnabled m) (busyAsserted m) error
      (totalInterrupts m) (maxISRTime m) (avgISRTime m) (ringBuffer m),
   [DigitalWrite LPT_ERROR_PIN (if error then LOW else HIGH)]).

(** A burst of strobes with nothing else running in between. *)
Fixpoint strobes (ins : list IsrInput) (m : t) : t * list Event :=
  match ins with
  | [] => (m, [])
  | i :: ins' =>
      let '(m1, ev1) := handleInterrupt i m in
      let '(m2, ev2) := strobes ins' m1 in
      (m2, ev1 ++ ev2)
  end.

End WithCapacity.
End ParallelPortManager.

(** ** MemoryUtils (MemoryUtils.h, MemoryUtils.cpp)

    A [char*] is the list of the cells it points to.  For a C string the
    list ends where the string ends, and the cell read just behind it is
    the terminating NUL. *)

Module MemoryUtils.

Definition char_at (str : list Z) (i : Z) : Z :=
  default 0 (str !! Z.to_nat i).

Definition strlen (str : list Z) : Z := Z.of_nat (length str).

Definition tolower (c : Z) : Z :=
  if (65 <=? c) && (c <=? 90) then c + 32 else c.

Fixpoint safeStrlen_loop (fuel : nat) (str : list Z) (len maxLen : Z) : Z :=
  match fuel with
  | O => len
  | S fuel' =>
      if (len <? maxLen) && negb (char_at str len =? 0)
      then safeStrlen_loop fuel' str (len + 1) maxLen
      else len
  end.

Definition safeStrlen (str : list Z) (maxLen : Z) : Z :=
  safeStrlen_loop (Z.to_nat maxLen) str 0 maxLen.

(** What [Serial.print] shows of a [char] array: the cells before the
    first NUL. *)
Definition c_str (arr : list Z) : list Z :=
  take (Z.to_nat (safeStrlen arr (Z.of_nat (length arr)))) arr.

Fixpoint safeCopy_loop (fuel : nat) (dest src : list Z) (copyLen maxLen : Z)
  : list Z * Z :=
  match fuel with
  | O => (dest, copyLen)
  | S fuel' =>
      if (copyLen <? maxLen) && negb (char_at src copyLen =? 0)
      then safeCopy_loop fuel'
             (<[Z.to_nat copyLen := char_at src copyLen]> dest)
             src (copyLen + 1) maxLen
      else (dest, copyLen)
  end.

(** [safeCopy(dest, destSize, src, maxCopy)]: the cells of [dest]
    afterwards and the number of characters copied. *)
Definition safeCopy (dest : list Z) (destSize : Z) (src : list Z) (maxCopy : Z)
  : list Z * Z :=
  if destSize =? 0 then (dest, 0)
  else
    let maxLen :=
      if maxCopy =? 0 then destSize - 1 else min maxCopy (destSize - 1) in
    let '(dest1, copyLen) :=
      safeCopy_loop (Z.to_nat maxLen) dest src 0 maxLen in
    (<[Z.to_nat copyLen := 0]> dest1, copyLen).

Definition startsWith (str : list Z) (strLen : Z) (prefix : list Z) : bool :=
  if strLen =? 0 then false
  else
    let prefixLen := strlen prefix in
    if strLen <? prefixLen then false
    else
      forallb (fun i => char_at str (Z.of_nat i) =? char_at prefix (Z.of_nat i))
              (seq 0 (Z.to_nat prefixLen)).

Definition equalsIgnoreCase (str1 : list Z) (str1Len : Z) (str2 : list Z)
  : bool :=
  let str2Len := strlen str2 in
  if negb (str1Len =? str2Len) then false
  else
    forallb (fun i => tolower (char_at str1 (Z.of_nat i))
                      =? tolower (char_at str2 (Z.of_nat i)))
            (seq 0 (Z.to_nat str1Len)).

(** [findChar]: the index of the hit instead of the pointer to it. *)
Fixpoint findChar_loop (fuel : nat) (str : list Z) (i strLen ch : Z)
  : option Z :=
  match fuel with
  | O => None
  | S fuel' =>
      if i <? strLen then
        if char_at str i =? ch then Some i
        else if char_at str i =? 0 then None
        else findChar_loop fuel' str (i + 1) strLen ch
      else None
  end.

Definition findChar (str : list Z) (strLen ch : Z) : option Z :=
  findChar_loop (Z.to_nat strLen) str 0 strLen ch.

(** [appendString] on a [char] array of [destSize] cells. *)
Definition appendString (dest : list Z) (destSize : Z) (src : list Z)
  : list Z * bool :=
  if destSize =? 0 then (dest, false)
  else
    let destLen := safeStrlen dest destSize in
    if destSize - 1 <=? destLen then (dest, false)
    else
      let remainingSpace := destSize - destLen - 1 in
      let '(tail1, copied) :=
        safeCopy (drop (Z.to_nat destLen) dest) (remainingSpace + 1) src 0 in
      (take (Z.to_nat destLen) dest ++ tail1, 0 <? copied).

Definition clearBuffer (size : Z) : list Z := replicate (Z.to_nat size) 0.

(** The variants that read their second string from program memory. *)
Fixpoint startsWithPGM_loop (fuel : nat) (str : list Z) (strLen : Z)
  (prefix : list Z) (i : Z) : bool :=
  match fuel with
  | O => char_at prefix i =? 0
  | S fuel' =>
      if i <? strLen then
        let prefixChar := char_at prefix i in
        if prefixChar =? 0 then true
        else if negb (char_at str i =? prefixChar) then false
        else startsWithPGM_loop fuel' str strLen prefix (i + 1)
      else char_at prefix i =? 0
  end.

Definition startsWithPGM (str : list Z) (strLen : Z) (prefix : list Z) : bool :=
  if strLen =? 0 then false
  else startsWithPGM_loop (S (Z.to_nat strLen)) str strLen prefix 0.

Fixpoint equalsIgnoreCasePGM_loop (fuel : nat) (str1 : list Z) (str1Len : Z)
  (str2 : list Z) (i : Z) : bool :=
  match fuel with
  | O => char_at str2 str1Len =? 0
  | S fuel' =>
      if i <? str1Len then
        let str2Char := char_at str2 i in
        if str2Char =? 0 then false
        else if negb (tolower (char_at str1 i) =? tolower str2Char) then false
        else equalsIgnoreCasePGM_loop fuel' str1 str1Len str2 (i + 1)
      else char_at str2 str1Len =? 0
  end.

Definition equalsIgnoreCasePGM (str1 : list Z) (str1Len : Z) (str2 : list Z)
  : bool :=
  equalsIgnoreCasePGM_loop (S (Z.to_nat str1Len)) str1 str1Len str2 0.

(** [int] is 16 bits wide. *)
Definition INT_MAX : Z := 32767.
Definition int16 (v : Z) : Z := (v + 32768) mod 65536 - 32768.

Definition isdigit (c : Z) : bool := (48 <=? c) && (c <=? 57).

Fixpoint parseInt_loop (fuel : nat) (str : list Z) (i strLen result : Z)
  : option Z :=
  match fuel with
  | O => Some result
  | S fuel' =>
      if (i <? strLen) && negb (char_at str i =? 0) then
        if negb (isdigit (char_at str i)) then None
        else if (INT_MAX - (char_at str i - 48)) / 10 <? result then None
        else parseInt_loop fuel' str (i + 1) strLen
                           (result * 10 + (char_at str i - 48))
      else Some result
  end.

(** [parseInt(str, strLen, result)]: [Some result] when it returns
    true. *)
Definition parseInt (str : list Z) (strLen : Z) : option Z :=
  if strLen =? 0 then None
  else
    let negative := char_at str 0 =? 45 in
    let startIndex :=
      if negative then 1 else if char_at str 0 =? 43 then 1 else 0 in
    if strLen <=? startIndex then None
    else
      match parseInt_loop (Z.to_nat strLen) str startIndex strLen 0 with
      | None => None
      | Some result => Some (if negative then - result else result)
      end.

Fixpoint intToString_digits (fuel : nat) (dest : list Z)
  (temp len destSize : Z) : list Z * Z :=
  match fuel with
  | O => (dest, len)
  | S fuel' =>
      if (0 <? temp) && (len <? destSize - 1) then
        intToString_digits fuel' (<[Z.to_nat len := 48 + temp mod 10]> dest)
                           (temp / 10) (len + 1) destSize
      else (dest, len)
  end.

Fixpoint intToString_reverse (fuel : nat) (dest : list Z) (i len : Z)
  : list Z :=
  match fuel with
  | O => dest
  | S fuel' =>
      if i <? len / 2 then
        let temp_char := char_at dest i in
        let dest1 := <[Z.to_nat i := char_at dest (len - 1 - i)]> dest in
        let dest2 := <[Z.to_nat (len - 1 - i) := temp_char]> dest1 in
        intToString_reverse fuel' dest2 (i + 1) len
      else dest
  end.

(** [intToString(value, dest, destSize)]: the cells of [dest] afterwards
    and the number of characters written. *)
Definition intToString (value : Z) (dest : list Z) (destSize : Z)
  : list Z * Z :=
  if destSize =? 0 then (dest, 0)
  else if destSize =? 1 then (<[0%nat := 0]> dest, 0)
  else
    let negative := value <? 0 in
    let value1 := if negative then int16 (- value) else value in
    if value1 =? 0 then
      if 2 <=? destSize then (<[1%nat := 0]> (<[0%nat := 48]> dest), 1)
      else (<[0%nat := 0]> dest, 0)
    else
      let '(dest1, len1) :=
        intToString_digits (Z.to_nat destSize) dest value1 0 destSize in
      let '(dest2, len2) :=
        if negative && (len1 <? destSize - 1)
        then (<[Z.to_nat len1 := 45]> dest1, len1 + 1)
        else (dest1, len1) in
      let dest3 := intToString_reverse (Z.to_nat len2) dest2 0 len2 in
      (<[Z.to_nat len2 := 0]> dest3, len2).

End MemoryUtils.

(** ** The W25Q128 as the driver sees it

    The chip is outside the firmware.  The model keeps what the driver
    can observe: the array content, the write-enable latch, and for each
    program or erase whether the busy bit clears before the driver gives
    up polling ([completes]: one answer per operation, oldest first;
    operations behind the end of the list complete).  Programming can
    only clear bits, a sector erase sets every byte of the sector to
    0xFF, and the address on the wire has 24 bits.  [log] lists the
    program and erase commands received, oldest first. *)

Module Flash.

Inductive Cmd : Type :=
| SectorErase (address : Z)
| PageProgram (address : Z) (data : list Z).

Record t : Type := mk {
  jedec : Z;
  mem : Z -> Z;
  wel : bool;
  completes : list bool;
  log : list Cmd
}.

Definition addr24 (address : Z) : Z := address mod 2 ^ 24.

Definition next_completes (f : t) : bool * list bool :=
  match completes f with
  | [] => (true, [])
  | b :: rest => (b, rest)
  end.

Definition write_enable (f : t) : t :=
  mk (jedec f) (mem f) true (completes f) (log f).

Definition programmed (m : Z -> Z) (address : Z) (data : list Z) : Z -> Z :=
  fun a =>
    if a / 256 =? address / 256 then
      let k := (a - address) mod 256 in
      match data !! Z.to_nat k with
      | Some d => Z.land (m a) d
      | None => m a
      end
    else m a.

Definition erased (m : Z -> Z) (address : Z) : Z -> Z :=
  fun a => if a / 4096 =? address / 4096 then 255 else m a.

(** Page program of at most 256 bytes, then the busy poll. *)
Definition page_program (f : t) (address : Z) (data : list Z) : t * bool :=
  let a := addr24 address in
  let '(ok, rest) := next_completes f in
  (mk (jedec f)
      (if wel f then programmed (mem f) a data else mem f)
      false rest (log f ++ [PageProgram a data]),
   ok).

Definition sector_erase (f : t) (address : Z) : t * bool :=
  let a := addr24 address in
  let '(ok, rest) := next_completes f in
  (mk (jedec f)
      (if wel f then erased (mem f) a else mem f)
      false rest (log f ++ [SectorErase a]),
   ok).

Definition read_data (f : t) (address size : Z) : list Z :=
  map (fun i => mem f (addr24 (addr24 address + Z.of_nat i)))
      (seq 0 (Z.to_nat size)).

(** A chip fresh from the factory. *)
Definition blank : t := mk 15679512 (fun _ => 255) false [] [].

End Flash.

(** ** EEPROMStoragePlugin (EEPROMStoragePlugin.h, EEPROMStoragePlugin.cpp)

    The plugin owns the directory mirror and drives the flash chip; every
    function that touches the chip takes and returns it.  Diagnostics
    printed under [debugEnabled] change neither and are left out. *)

Module EEPROMStoragePlugin.
Import MemoryUtils.

Record FileEntry : Type := mkEntry {
  filename : list Z;
  startSector : Z;
  sizeBytes : Z;
  sizeComplement : Z;
  status : Z;
  reserved : list Z
}.

Definition FILE_ENTRY_SIZE : Z := 24.
Definition MAX_FILES : Z := 64.
Definition DIRECTORY_SECTOR : Z := 0.
Definition DATA_START_SECTOR : Z := 1.
Definition TOTAL_SECTORS : Z := EEPROM_SIZE / EEPROM_SECTOR_SIZE.
Definition STATUS_EMPTY : Z := 255.
Definition STATUS_ACTIVE : Z := 170.
Definition STATUS_DELETED : Z := 85.

Record t : Type := mk {
  initialized : bool;
  debugEnabled : bool;
  directory : list FileEntry;
  nextFreeSector : Z;
  totalFiles : Z;
  deletedFiles : Z
}.

(** *** The directory array read and written as raw bytes

    The target is little-endian and the struct has no padding. *)

Definition le32 (x : Z) : list Z :=
  [x mod 256; (x / 256) mod 256; (x / 65536) mod 256; (x / 16777216) mod 256].

Definition of_le32 (bs : list Z) : Z :=
  char_at bs 0 + 256 * char_at bs 1 + 65536 * char_at bs 2
  + 16777216 * char_at bs 3.

Definition entry_bytes (e : FileEntry) : list Z :=
  filename e ++ le32 (startSector e) ++ le32 (sizeBytes e)
  ++ le32 (sizeComplement e) ++ [status e] ++ reserved e.

Definition entry_of_bytes (bs : list Z) : FileEntry :=
  mkEntry (take 8 bs)
          (of_le32 (take 4 (drop 8 bs)))
          (of_le32 (take 4 (drop 12 bs)))
          (of_le32 (take 4 (drop 16 bs)))
          (char_at bs 20)
          (take 3 (drop 21 bs)).

Definition directory_bytes (dir : list FileEntry) : list Z :=
  concat (map entry_bytes dir).

Fixpoint directory_of_bytes (n : nat) (bs : list Z) : list FileEntry :=
  match n with
  | O => []
  | S n' => entry_of_bytes (take 24 bs) :: directory_of_bytes n' (drop 24 bs)
  end.

Definition sizeof_directory : Z := MAX_FILES * FILE_ENTRY_SIZE.

Definition zero_entry : FileEntry := mkEntry (clearBuffer 8) 0 0 0 0 (clearBuffer 3).

Definition ctor : t :=
  mk false false (replicate (Z.to_nat MAX_FILES) zero_entry)
     DATA_START_SECTOR 0 0.

Definition set_status (e : FileEntry) (s : Z) : FileEntry :=
  mkEntry (filename e) (startSector e) (sizeBytes e) (sizeComplement e) s
          (reserved e).

Definition set_directory (p : t) (dir : list FileEntry) : t :=
  mk (initialized p) (debugEnabled p) dir (nextFreeSector p) (totalFiles p)
     (deletedFiles p).

(** *** Driver *)

Definition isReady (p : t) : bool := initialized p.

Definition getAvailableSpace (p : t) : Z :=
  if negb (initialized p) then 0
  else
    let availableSectors := u32 (TOTAL_SECTORS - nextFreeSector p) in
    u32 (availableSectors * EEPROM_SECTOR_SIZE).

Definition getTotalSpace : Z := u32 ((TOTAL_SECTORS - 1) * EEPROM_SECTOR_SIZE).

Definition validate (p : t) : bool := initialized p.

(** [getFilesystemStats]: [totalFiles_], [deletedFiles_],
    [fragmentation]. *)
Definition getFilesystemStats (p : t) : Z * Z * Z :=
  (totalFiles p, deletedFiles p,
   if 0 <? u32 (totalFiles p + deletedFiles p)
   then u8 (u32 (deletedFiles p * 100) / u32 (totalFiles p + deletedFiles p))
   else 0).

Definition readData (f : Flash.t) (address size : Z) : option (list Z) :=
  if size =? 0 then None else Some (Flash.read_data f address size).

Definition writePage (f : Flash.t) (address : Z) (data : list Z) (size : Z)
  : Flash.t * bool :=
  if (size =? 0) || (EEPROM_PAGE_SIZE <? size) then (f, false)
  else Flash.page_program (Flash.write_enable f) address (take (Z.to_nat size) data).

Definition eraseSector (f : Flash.t) (sectorNum : Z) : Flash.t * bool :=
  if TOTAL_SECTORS <=? sectorNum then (f, false)
  else
    let address := u32 (sectorNum * EEPROM_SECTOR_SIZE) in
    Flash.sector_erase (Flash.write_enable f) address.

(** *** File system *)

Definition getSectorCount (sizeBytes : Z) : Z :=
  u32 (sizeBytes + EEPROM_SECTOR_SIZE - 1) / EEPROM_SECTOR_SIZE.

(** [~x] on a [uint32_t]. *)
Definition not32 (x : Z) : Z := Z.lxor x 4294967295.

Definition validateFileEntry (entry : FileEntry) : bool :=
  if negb (sizeBytes entry =? not32 (sizeComplement entry)) then false
  else if (startSector entry <? DATA_START_SECTOR)
          || (TOTAL_SECTORS <=? startSector entry) then false
  else if safeStrlen (filename entry) MAX_FILENAME_LENGTH =? 0 then false
  else true.

(** The loop of [loadDirectory] over the slots, first slot first; the
    counters are threaded through. *)
Fixpoint loadDirectory_loop (dir : list FileEntry)
  (totalFiles deletedFiles nextFreeSector : Z)
  : list FileEntry * Z * Z * Z :=
  match dir with
  | [] => ([], totalFiles, deletedFiles, nextFreeSector)
  | e :: rest =>
      if status e =? STATUS_ACTIVE then
        if validateFileEntry e then
          let fileEndSector := u32 (startSector e + getSectorCount (sizeBytes e)) in
          let next := if nextFreeSector <? fileEndSector
                      then fileEndSector else nextFreeSector in
          let '(rest1, tf, df, nf) :=
            loadDirectory_loop rest (u32 (totalFiles + 1)) deletedFiles next in
          (e :: rest1, tf, df, nf)
        else
          let '(rest1, tf, df, nf) :=
            loadDirectory_loop rest totalFiles (u32 (deletedFiles + 1))
                               nextFreeSector in
          (set_status e STATUS_DELETED :: rest1, tf, df, nf)
      else if status e =? STATUS_DELETED then
        let '(rest1, tf, df, nf) :=
          loadDirectory_loop rest totalFiles (u32 (deletedFiles + 1))
                             nextFreeSector in
        (e :: rest1, tf, df, nf)
      else
        let '(rest1, tf, df, nf) :=
          loadDirectory_loop rest totalFiles deletedFiles nextFreeSector in
        (e :: rest1, tf, df, nf)
  end.

Definition loadDirectory (p : t) (f : Flash.t) : t * bool :=
  match readData f 0 sizeof_directory with
  | None => (p, false)
  | Some bytes =>
      let dir := directory_of_bytes (Z.to_nat MAX_FILES) bytes in
      let '(dir1, tf, df, nf) := loadDirectory_loop dir 0 0 DATA_START_SECTOR in
      (mk (initialized p) (debugEnabled p) dir1 nf tf df, true)
  end.

Fixpoint saveDirectory_loop (fuel : nat) (f : Flash.t) (address : Z)
  (dirData : list Z) : Flash.t * bool :=
  match fuel with
  | O => (f, true)
  | S fuel' =>
      let remaining := Z.of_nat (length dirData) in
      if 0 <? remaining then
        let pageSize := min remaining EEPROM_PAGE_SIZE in
        let '(f1, ok) := writePage f address dirData pageSize in
        if negb ok then (f1, false)
        else saveDirectory_loop fuel' f1 (u32 (address + pageSize))
                                (drop (Z.to_nat pageSize) dirData)
      else (f, true)
  end.

Definition saveDirectory (p : t) (f : Flash.t) : Flash.t * bool :=
  let '(f1, ok) := eraseSector f DIRECTORY_SECTOR in
  if negb ok then (f1, false)
  else
    let dirData := directory_bytes (directory p) in
    saveDirectory_loop (length dirData) f1 0 dirData.

(** [findFileEntry]: the index of the slot instead of the pointer. *)
Fixpoint findFileEntry_from (i : nat) (dir : list FileEntry) (name : list Z)
  : option nat :=
  match dir with
  | [] => None
  | e :: rest =>
      if (status e =? STATUS_ACTIVE)
         && equalsIgnoreCase (filename e) MAX_FILENAME_LENGTH name
      then Some i
      else findFileEntry_from (S i) rest name
  end.

Definition findFileEntry (p : t) (name : list Z) : option nat :=
  findFileEntry_from 0 (directory p) name.

Fixpoint findEmptyEntry_from (i : nat) (dir : list FileEntry) : option nat :=
  match dir with
  | [] => None
  | e :: rest =>
      if (status e =? STATUS_EMPTY) || (status e =? STATUS_DELETED)
      then Some i
      else findEmptyEntry_from (S i) rest
  end.

Definition findEmptyEntry (p : t) : option nat :=
  findEmptyEntry_from 0 (directory p).

Definition defragment (p : t) : t * bool := (p, false).

Definition set_nextFreeSector (p : t) (n : Z) : t :=
  mk (initialized p) (debugEnabled p) (directory p) n (totalFiles p)
     (deletedFiles p).

Definition allocateSectors (p : t) (sizeBytes : Z) : t * Z :=
  let sectorsNeeded := getSectorCount sizeBytes in
  let grant (q : t) :=
    let startSector := nextFreeSector q in
    (set_nextFreeSector q (u32 (nextFreeSector q + sectorsNeeded)), startSector) in
  if TOTAL_SECTORS <? u32 (nextFreeSector p + sectorsNeeded) then
    let '(p1, done) := defragment p in
    if done then
      if TOTAL_SECTORS <? u32 (nextFreeSector p1 + sectorsNeeded)
      then (p1, 0)
      else grant p1
    else (p1, 0)
  else grant p.

Fixpoint freeSectors_loop (n : nat) (f : Flash.t) (startSector i : Z) : Flash.t :=
  match n with
  | O => f
  | S n' =>
      let '(f1, _) := eraseSector f (u32 (startSector + i)) in
      freeSectors_loop n' f1 startSector (i + 1)
  end.

Definition freeSectors (f : Flash.t) (startSector sizeBytes : Z) : Flash.t :=
  let sectorsToFree := getSectorCount sizeBytes in
  freeSectors_loop (Z.to_nat sectorsToFree) f startSector 0.

Definition entry_at (p : t) (i : nat) : FileEntry :=
  default zero_entry (directory p !! i).

Definition deleteFile (p : t) (f : Flash.t) (name : list Z)
  : t * Flash.t * bool :=
  if negb (initialized p) then (p, f, false)
  else
    match findFileEntry p name with
    | None => (p, f, false)
    | Some i =>
        let p1 :=
          mk (initialized p) (debugEnabled p)
             (<[i := set_status (entry_at p i) STATUS_DELETED]> (directory p))
             (nextFreeSector p)
             (u32 (totalFiles p - 1))
             (u32 (deletedFiles p + 1)) in
        let '(f1, saved) := saveDirectory p1 f in
        (p1, f1, saved)
    end.

(** The page loop of [writeFile]; [srcData] is what is left to write. *)
Fixpoint writeFile_loop (fuel : nat) (f : Flash.t) (address : Z)
  (srcData : list Z) (totalWritten : Z) : Flash.t * bool :=
  match fuel with
  | O => (f, true)
  | S fuel' =>
      let remaining := Z.of_nat (length srcData) in
      if 0 <? remaining then
        let pageSize := min remaining EEPROM_PAGE_SIZE in
        let '(f1, ok) :=
          writePage f (u32 (address + totalWritten)) srcData pageSize in
        if negb ok then (f1, false)
        else writeFile_loop fuel' f1 address
                            (drop (Z.to_nat pageSize) srcData)
                            (totalWritten + pageSize)
      else (f, true)
  end.

(** [~size] on a [size_t], stored into a [uint32_t]. *)
Definition not_size_t (size : Z) : Z := Z.lxor size (2 ^ SIZE_T_BITS - 1).

(** [writeFile(filename, data, size)]: the first [size] cells of [data]
    are the content. *)
Definition writeFile (p : t) (f : Flash.t) (name data : list Z) (size : Z)
  : t * Flash.t * Z :=
  if negb (initialized p) || (size =? 0) then (p, f, 0)
  else
    let '(p1, f1) :=
      match findFileEntry p name with
      | Some _ => let '(q, g, _) := deleteFile p f name in (q, g)
      | None => (p, f)
      end in
    match findEmptyEntry p1 with
    | None => (p1, f1, 0)
    | Some entry =>
        let '(p2, startSector) := allocateSectors p1 size in
        if startSector =? 0 then (p2, f1, 0)
        else
          let address := u32 (startSector * EEPROM_SECTOR_SIZE) in
          let content := take (Z.to_nat size) data in
          let '(f2, ok) := writeFile_loop (length content) f1 address content 0 in
          if negb ok then (p2, freeSectors f2 startSector size, 0)
          else
            let old := entry_at p2 entry in
            let updated :=
              mkEntry (fst (safeCopy (filename old) MAX_FILENAME_LENGTH name 0))
                      startSector size (not_size_t size) STATUS_ACTIVE
                      (reserved old) in
            let p3 := set_directory p2 (<[entry := updated]> (directory p2)) in
            let '(f3, saved) := saveDirectory p3 f2 in
            if negb saved then (p3, freeSectors f3 startSector size, 0)
            else
              (mk (initialized p3) (debugEnabled p3) (directory p3)
                  (nextFreeSector p3) (u32 (totalFiles p3 + 1))
                  (deletedFiles p3),
               f3, size)
    end.

(** [readFile(filename, data, maxSize)]: the return value and the bytes
    stored to [data], in order. *)
Definition readFile (p : t) (f : Flash.t) (name : list Z) (maxSize : Z)
  : Z * list Z :=
  if negb (initialized p) || (maxSize =? 0) then (0, [])
  else
    match findFileEntry p name with
    | None => (0, [])
    | Some i =>
        let entry := entry_at p i in
        let bytesToRead := min (sizeBytes entry) maxSize in
        let address := u32 (startSector entry * EEPROM_SECTOR_SIZE) in
        match readData f address bytesToRead with
        | None => (0, [])
        | Some bytes => (bytesToRead, bytes)
        end
    end.

Definition fileExists (p : t) (name : list Z) : bool :=
  match findFileEntry p name with Some _ => true | None => false end.

Definition getFileSize (p : t) (name : list Z) : Z :=
  match findFileEntry p name with
  | Some i => sizeBytes (entry_at p i)
  | None => 0
  end.

(** [listFiles]: the names stored to the caller's array, as C strings. *)
Fixpoint listFiles_loop (dir : list FileEntry) (fileCount maxFiles : Z)
  : list (list Z) :=
  match dir with
  | [] => []
  | e :: rest =>
      if fileCount <? maxFiles then
        if status e =? STATUS_ACTIVE then
          c_str (fst (safeCopy (clearBuffer MAX_FILENAME_LENGTH)
                               MAX_FILENAME_LENGTH (filename e) 0))
          :: listFiles_loop rest (fileCount + 1) maxFiles
        else listFiles_loop rest fileCount maxFiles
      else []
  end.

Definition listFiles (p : t) (maxFiles : Z) : list (list Z) :=
  if maxFiles =? 0 then [] else listFiles_loop (directory p) 0 maxFiles.

Definition format (p : t) (f : Flash.t) : t * Flash.t * bool :=
  let p1 :=
    mk (initialized p) (debugEnabled p)
       (replicate (Z.to_nat MAX_FILES) (set_status zero_entry STATUS_EMPTY))
       DATA_START_SECTOR 0 0 in
  let '(f1, saved) := saveDirectory p1 f in
  (p1, f1, saved).

Definition initialize (p : t) (f : Flash.t) : t * Flash.t * Z :=
  if initialized p then (p, f, STATUS_OK)
  else
    let jedecId := Flash.jedec f in
    if (jedecId =? 0) || (jedecId =? 16777215) then (p, f, STATUS_ERROR)
    else
      let '(p1, loaded) := loadDirectory p f in
      let ready (q : t) :=
        mk true (debugEnabled q) (directory q) (nextFreeSector q)
           (totalFiles q) (deletedFiles q) in
      if negb loaded then
        let '(p2, f2, formatted) := format p1 f in
        if negb formatted then (p2, f2, STATUS_ERROR)
        else (ready p2, f2, STATUS_OK)
      else (ready p1, f, STATUS_OK).

(** The check loop of [fsck]: the slots afterwards and [hasErrors]. *)
Fixpoint fsck_loop (dir : list FileEntry) : list FileEntry * bool :=
  match dir with
  | [] => ([], false)
  | e :: rest =>
      let '(rest1, hasErrors) := fsck_loop rest in
      if (status e =? STATUS_ACTIVE) && negb (validateFileEntry e)
      then (set_status e STATUS_DELETED :: rest1, true)
      else (e :: rest1, hasErrors)
  end.

Definition fsck (p : t) (f : Flash.t) : t * Flash.t * bool :=
  if negb (initialized p) then (p, f, false)
  else
    let '(dir1, hasErrors) := fsck_loop (directory p) in
    let p1 := set_directory p dir1 in
    if hasErrors then
      let '(f1, _) := saveDirectory p1 f in
      let '(p2, _) := loadDirectory p1 f1 in
      (p2, f1, false)
    else (p1, f, true).

End EEPROMStoragePlugin.

(** ** The UART as the firmware sees it ([Serial])

    [tx] is what has been sent, [rx] what the host will still send,
    oldest first; [ready] answers [Serial && Serial.availableForWrite() > 0].
    Numbers are printed as the Arduino [Print] class prints them. *)

Module Uart.

Record t : Type := mk {
  ready : bool;
  tx : list Z;
  rx : list Z
}.

Definition CRLF : list Z := [13; 10].

Definition print (u : t) (s : list Z) : t := mk (ready u) (tx u ++ s) (rx u).

Definition println (u : t) (s : list Z) : t := print u (s ++ CRLF).

Fixpoint printNumber_loop (fuel : nat) (n : Z) (acc : list Z) : list Z :=
  match fuel with
  | O => acc
  | S fuel' =>
      let acc1 := (48 + n mod 10) :: acc in
      if n / 10 =? 0 then acc1 else printNumber_loop fuel' (n / 10) acc1
  end.

(** Decimal digits of an unsigned 32-bit number (at most ten). *)
Definition printNumber (n : Z) : list Z := printNumber_loop 10 n [].

End Uart.

(** ** SerialStoragePlugin (SerialStoragePlugin.h, SerialStoragePlugin.cpp) *)

Module SerialStoragePlugin.
Import MemoryUtils.

Record t : Type := mk {
  initialized : bool;
  debugEnabled : bool;
  transferInProgress : bool;
  currentFilename : list Z;
  totalBytesTransferred : Z;
  totalFilesTransferred : Z;
  hexLineBuffer : list Z;
  hexByteBuffer : list Z
}.

Definition HEX_BYTES_PER_LINE : Z := 32.
Definition sizeof_hexLineBuffer : Z := 64.

Definition ctor : t :=
  mk false false false (clearBuffer MAX_FILENAME_LENGTH) 0 0
     (clearBuffer sizeof_hexLineBuffer) (clearBuffer 4).

Definition initialize (p : t) : t * Z :=
  if initialized p then (p, STATUS_OK)
  else
    (mk true (debugEnabled p) (transferInProgress p) (currentFilename p)
        (totalBytesTransferred p) (totalFilesTransferred p)
        (hexLineBuffer p) (hexByteBuffer p),
     STATUS_OK).

Definition isSerialReady (u : Uart.t) : bool := Uart.ready u.

Definition isReady (p : t) (u : Uart.t) : bool :=
  initialized p && isSerialReady u.

Definition hexChars : list Z := cstr "0123456789ABCDEF".

(** [byteToHex(value, dest)]: the cells of [dest] afterwards. *)
Definition byteToHex (value : Z) (dest : list Z) : list Z :=
  <[2%nat := 0]>
    (<[1%nat := char_at hexChars (Z.land value 15)]>
       (<[0%nat := char_at hexChars (Z.land (Z.shiftr value 4) 15)]> dest)).

Definition nibble_of (ch : Z) : option Z :=
  if (48 <=? ch) && (ch <=? 57) then Some (ch - 48)
  else if (65 <=? ch) && (ch <=? 70) then Some (ch - 65 + 10)
  else if (97 <=? ch) && (ch <=? 102) then Some (ch - 97 + 10)
  else None.

(** [hexToByte(hexStr, value)]: [Some value] when it returns true. *)
Definition hexToByte (hexStr : list Z) : option Z :=
  if safeStrlen hexStr 3 <? 2 then None
  else
    match nibble_of (char_at hexStr 0), nibble_of (char_at hexStr 1) with
    | Some n0, Some n1 =>
        Some (u8 (Z.lor (Z.shiftl (u8 (Z.lor (Z.shiftl 0 4) n0)) 4) n1))
    | _, _ => None
    end.

Definition sendProtocolHeader (u : Uart.t) (name : list Z) (fileSize : Z)
  : Uart.t :=
  let u1 := Uart.print u (cstr "BEGIN:") in
  let u2 := Uart.print u1 name in
  let u3 := Uart.print u2 Uart.CRLF in
  let u4 := Uart.print u3 (cstr "SIZE:") in
  let u5 := Uart.print u4 (Uart.printNumber fileSize) in
  Uart.print u5 Uart.CRLF.

Definition sendProtocolFooter (u : Uart.t) (name : list Z) : Uart.t :=
  let u1 := Uart.print u (cstr "END:") in
  let u2 := Uart.print u1 name in
  Uart.print u2 Uart.CRLF.

(** [snprintf(addrStr, 10, "%08X: ", address)]: eight hex digits and the
    colon; the buffer has no room for the blank.  The address stays
    below 2^16 on the target. *)
Definition format_address (address : Z) : list Z :=
  map (fun k => char_at hexChars ((address / 16 ^ k) mod 16))
      [7; 6; 5; 4; 3; 2; 1; 0]
  ++ cstr ":".

Fixpoint sendHexLine_loop (data : list Z) (i size : Z)
  (line hexByte : list Z) : list Z * list Z :=
  match data with
  | [] => (line, hexByte)
  | b :: rest =>
      let hexByte1 := byteToHex b hexByte in
      let '(line1, _) := appendString line sizeof_hexLineBuffer hexByte1 in
      let line2 :=
        if ((i + 1) mod 8 =? 0) && (i <? size - 1)
        then fst (appendString line1 sizeof_hexLineBuffer (cstr " "))
        else line1 in
      sendHexLine_loop rest (i + 1) size line2 hexByte1
  end.

Definition set_buffers (p : t) (line hexByte : list Z) : t :=
  mk (initialized p) (debugEnabled p) (transferInProgress p)
     (currentFilename p) (totalBytesTransferred p) (totalFilesTransferred p)
     line hexByte.

Definition sendHexLine (p : t) (u : Uart.t) (data : list Z) (size address : Z)
  : t * Uart.t :=
  if (size =? 0) || (HEX_BYTES_PER_LINE <? size) then (p, u)
  else
    let line0 := clearBuffer sizeof_hexLineBuffer in
    let line1 :=
      if debugEnabled p
      then fst (safeCopy line0 sizeof_hexLineBuffer (format_address address) 0)
      else line0 in
    let '(line2, hexByte) :=
      sendHexLine_loop (take (Z.to_nat size) data) 0 size line1
                       (hexByteBuffer p) in
    let u1 := Uart.print u (c_str line2) in
    (set_buffers p line2 hexByte, Uart.print u1 Uart.CRLF).

Definition sendProgressUpdate (p : t) (u : Uart.t) (name : list Z)
  (bytesTransferred totalBytes : Z) : Uart.t :=
  if negb (debugEnabled p) then u
  else
    let percentage :=
      u8 (if 0 <? totalBytes
          then u32 (bytesTransferred * 100) / totalBytes else 0) in
    let v1 := Uart.print u (cstr "PROGRESS:") in
    let v2 := Uart.print v1 name in
    let v3 := Uart.print v2 (cstr ":") in
    let v4 := Uart.print v3 (Uart.printNumber bytesTransferred) in
    let v5 := Uart.print v4 (cstr "/") in
    let v6 := Uart.print v5 (Uart.printNumber totalBytes) in
    let v7 := Uart.print v6 (cstr " (") in
    let v8 := Uart.print v7 (Uart.printNumber percentage) in
    let v9 := Uart.print v8 (cstr "%)") in
    Uart.print v9 Uart.CRLF.

(** The line loop of [streamFile]; [srcData] is what is left to send. *)
Fixpoint streamFile_loop (fuel : nat) (p : t) (u : Uart.t) (name : list Z)
  (srcData : list Z) (address totalSent size : Z) : t * Uart.t * Z :=
  match fuel with
  | O => (p, u, totalSent)
  | S fuel' =>
      let remaining := Z.of_nat (length srcData) in
      if 0 <? remaining then
        let lineSize := min remaining HEX_BYTES_PER_LINE in
        let '(p1, u1) := sendHexLine p u srcData lineSize address in
        let totalSent1 := totalSent + lineSize in
        let u2 :=
          if totalSent1 mod 1024 =? 0
          then sendProgressUpdate p1 u1 name totalSent1 size
          else u1 in
        streamFile_loop fuel' p1 u2 name
                        (drop (Z.to_nat lineSize) srcData)
                        (u32 (address + lineSize)) totalSent1 size
      else (p, u, totalSent)
  end.

(** [streamFile(filename, data, size)]: the first [size] cells of [data]
    are the content. *)
Definition streamFile (p : t) (u : Uart.t) (name data : list Z) (size : Z)
  : t * Uart.t * Z :=
  if negb (isReady p u) || (size =? 0) then (p, u, 0)
  else if transferInProgress p then
    (p,
     if debugEnabled p
     then Uart.println u (cstr "SerialStoragePlugin: Transfer already in progress")
     else u,
     0)
  else
    let p1 :=
      mk (initialized p) (debugEnabled p) true
         (fst (safeCopy (currentFilename p) MAX_FILENAME_LENGTH name 0))
         (totalBytesTransferred p) (totalFilesTransferred p)
         (hexLineBuffer p) (hexByteBuffer p) in
    let u1 := sendProtocolHeader u name size in
    let content := take (Z.to_nat size) data in
    let '(p2, u2, totalSent) :=
      streamFile_loop (length content) p1 u1 name content 0 0 size in
    let u3 := sendProtocolFooter u2 name in
    let p3 :=
      mk (initialized p2) (debugEnabled p2) false
         (clearBuffer MAX_FILENAME_LENGTH)
         (u32 (totalBytesTransferred p2 + totalSent))
         (u32 (totalFilesTransferred p2 + 1))
         (hexLineBuffer p2) (hexByteBuffer p2) in
    let u4 :=
      if debugEnabled p3 then
        Uart.println
          (Uart.print
             (Uart.print
                (Uart.print u3 (cstr "SerialStoragePlugin: Streamed "))
                (Uart.printNumber totalSent))
             (cstr " bytes as "))
          name
      else u3 in
    (p3, u4, totalSent).

Definition writeFile (p : t) (u : Uart.t) (name data : list Z) (size : Z)
  : t * Uart.t * Z :=
  if negb (initialized p) || (size =? 0) then (p, u, 0)
  else streamFile p u name data size.

Definition readFile (p : t) (u : Uart.t) (name : list Z) (maxSize : Z)
  : Uart.t * (Z * list Z) :=
  if negb (initialized p) || (maxSize =? 0) then (u, (0, []))
  else
    (if debugEnabled p
     then Uart.println u (cstr "SerialStoragePlugin: Read not supported (write-only)")
     else u,
     (0, [])).

Definition deleteFile (p : t) (name : list Z) : bool := false.
Definition fileExists (p : t) (name : list Z) : bool := false.
Definition getFileSize (p : t) (name : list Z) : Z := 0.
Definition listFiles (p : t) (maxFiles : Z) : list (list Z) := [].

(** *** Receiving

    [receiveFile] collects the characters of a line in [lineBuffer]
    (256 cells on the stack) and decodes the line when CR or LF arrives.
    [line] holds the characters collected so far; the NUL the code
    stores behind them is the cell read behind the end of the list.
    The result is [None] where the code reads cells of the buffer behind
    that NUL, whose content the source does not determine. *)

Fixpoint decode_loop (fuel : nat) (hexStart : list Z) (i hexLen : Z)
  (received : list Z) (maxSize : Z) : list Z :=
  match fuel with
  | O => received
  | S fuel' =>
      if (i <? hexLen - 1) && (Z.of_nat (length received) <? maxSize) then
        let received1 :=
          match hexToByte (drop (Z.to_nat i) hexStart) with
          | Some byte => received ++ [byte]
          | None => received
          end in
        decode_loop fuel' hexStart (i + 2) hexLen received1 maxSize
      else received
  end.

Definition process_line (line received : list Z) (maxSize : Z)
  : option (list Z) :=
  let linePos := Z.of_nat (length line) in
  if startsWith line linePos (cstr "BEGIN:")
     || startsWith line linePos (cstr "END:")
     || startsWith line linePos (cstr "SIZE:")
  then Some received
  else
    let hexStart :=
      match findChar line linePos (chr ":") with
      | Some colonPos =>
          if linePos <? colonPos + 2 then None
          else Some (drop (Z.to_nat (colonPos + 2)) line)
      | None => Some line
      end in
    match hexStart with
    | None => None
    | Some hs =>
        let hexLen := safeStrlen hs 256 in
        if hexLen =? 0 then None
        else Some (decode_loop (Z.to_nat hexLen) hs 0 hexLen received maxSize)
    end.

(** The receive loop.  Every character of [rx] arrives before the
    timeout; once [rx] is used up the line stays idle and the loop ends
    by timeout.  Result: the bytes stored to [data] and what is left of
    [rx]. *)
Fixpoint receiveFile_loop (rx line received : list Z) (maxSize : Z)
  : option (list Z * list Z) :=
  if maxSize <=? Z.of_nat (length received) then Some (received, rx)
  else
    match rx with
    | [] => Some (received, [])
    | ch :: rx' =>
        if (ch =? 13) || (ch =? 10) then
          if 0 <? Z.of_nat (length line) then
            match process_line line received maxSize with
            | None => None
            | Some received1 => receiveFile_loop rx' [] received1 maxSize
            end
          else receiveFile_loop rx' line received maxSize
        else if Z.of_nat (length line) <? 255
        then receiveFile_loop rx' (line ++ [ch]) received maxSize
        else receiveFile_loop rx' line received maxSize
    end.

(** [receiveFile(data, maxSize, timeoutMs)]: the bytes stored to [data]
    (their number is the return value). *)
Definition receiveFile (p : t) (u : Uart.t) (maxSize timeoutMs : Z)
  : option (Uart.t * list Z) :=
  if negb (isReady p u) || (maxSize =? 0) then Some (u, [])
  else if timeoutMs <=? 0 then Some (u, [])
  else
    match receiveFile_loop (Uart.rx u) [] [] maxSize with
    | None => None
    | Some (received, rest) => Some (Uart.mk (Uart.ready u) (Uart.tx u) rest, received)
    end.

End SerialStoragePlugin.

(** ** The SD slot and the Arduino SD library

    Neither the card nor the library belongs to the firmware; the plugin
    is written against this interface.  [V] is the state of slot and
    card.  An operation that opens a file answers [None] when the open
    fails. *)

Class SdSlot (V : Type) : Type := {
  sd_detect_pin : V -> bool;
  sd_write_protect_pin : V -> bool;
  SD_begin : V -> V * bool;
  SD_root_size : V -> option Z;
  SD_exists : V -> list Z -> bool;
  SD_mkdir : V -> list Z -> V * bool;
  SD_remove : V -> list Z -> V * bool;
  SD_file_size : V -> list Z -> option Z;
  SD_read : V -> list Z -> Z -> option (list Z);
  SD_write : V -> list Z -> list Z -> option (V * Z);
  SD_root_files : V -> option (list (list Z * bool))
}.

(** ** SDCardStoragePlugin (SDCardStoragePlugin.h, SDCardStoragePlugin.cpp)

    Diagnostics printed under [debugEnabled] are left out. *)

Module SDCardStoragePlugin.
Import MemoryUtils.

Record t : Type := mk {
  initialized : bool;
  cardPresent : bool;
  writeProtected : bool;
  debugEnabled : bool;
  cardSize : Z;
  freeSpace : Z;
  pathBuffer : list Z
}.

Definition sizeof_pathBuffer : Z := MAX_FILENAME_LENGTH + 8.

Definition ctor : t :=
  mk false false false false 0 0 (clearBuffer sizeof_pathBuffer).

Definition isReady (p : t) : bool :=
  initialized p && cardPresent p && negb (writeProtected p).

Section WithSlot.
Context {V : Type} `{SdSlot V}.

Definition checkCardStatus (p : t) (v : V) : t :=
  mk (initialized p)
     (eqb (sd_detect_pin v) LOW)
     (eqb (sd_write_protect_pin v) HIGH)
     (debugEnabled p) (cardSize p) (freeSpace p) (pathBuffer p).

Definition updateFreeSpace (p : t) : t :=
  mk (initialized p) (cardPresent p) (writeProtected p) (debugEnabled p)
     (cardSize p)
     (if negb (cardPresent p) then 0 else cardSize p / 2)
     (pathBuffer p).

Definition initialize (p : t) (v : V) : t * V * Z :=
  if initialized p then (p, v, STATUS_OK)
  else
    let p1 := checkCardStatus p v in
    let '(p2, v2) :=
      if cardPresent p1 then
        let '(v1, began) := SD_begin v in
        if negb began then
          (mk (initialized p1) false (writeProtected p1) (debugEnabled p1)
              (cardSize p1) (freeSpace p1) (pathBuffer p1), v1)
        else (p1, v1)
      else (p1, v) in
    let p3 :=
      if cardPresent p2 then
        let p2a :=
          match SD_root_size v2 with
          | Some size =>
              mk (initialized p2) (cardPresent p2) (writeProtected p2)
                 (debugEnabled p2) (u32 size) (freeSpace p2) (pathBuffer p2)
          | None => p2
          end in
        updateFreeSpace p2a
      else p2 in
    (mk true (cardPresent p3) (writeProtected p3) (debugEnabled p3)
        (cardSize p3) (freeSpace p3) (pathBuffer p3),
     v2, STATUS_OK).

Definition ensureDirectoryExists (p : t) (v : V) (name : list Z)
  : t * V * bool :=
  match findChar name MAX_FILENAME_LENGTH (chr "/") with
  | None => (p, v, true)
  | Some dirLen =>
      if sizeof_pathBuffer <=? dirLen then (p, v, false)
      else
        let path := fst (safeCopy (pathBuffer p) sizeof_pathBuffer name dirLen) in
        let p1 :=
          mk (initialized p) (cardPresent p) (writeProtected p)
             (debugEnabled p) (cardSize p) (freeSpace p) path in
        if negb (SD_exists v (c_str path)) then
          let '(v1, made) := SD_mkdir v (c_str path) in (p1, v1, made)
        else (p1, v, true)
  end.

Definition writeFile (p : t) (v : V) (name data : list Z) (size : Z)
  : t * V * Z :=
  if negb (isReady p) || (size =? 0) then (p, v, 0)
  else
    let p1 := checkCardStatus p v in
    if negb (cardPresent p1) || writeProtected p1 then (p1, v, 0)
    else
      let '(p2, v2, dirOk) := ensureDirectoryExists p1 v name in
      if negb dirOk then (p2, v2, 0)
      else
        match SD_write v2 name (take (Z.to_nat size) data) with
        | None => (p2, v2, 0)
        | Some (v3, bytesWritten) =>
            let p3 :=
              if 0 <? bytesWritten then
                mk (initialized p2) (cardPresent p2) (writeProtected p2)
                   (debugEnabled p2) (cardSize p2)
                   (if bytesWritten <? freeSpace p2
                    then freeSpace p2 - bytesWritten else 0)
                   (pathBuffer p2)
              else p2 in
            (p3, v3, bytesWritten)
        end.

Definition readFile (p : t) (v : V) (name : list Z) (maxSize : Z)
  : t * (Z * list Z) :=
  if negb (initialized p) || negb (cardPresent p) || (maxSize =? 0)
  then (p, (0, []))
  else
    let p1 := checkCardStatus p v in
    if negb (cardPresent p1) then (p1, (0, []))
    else
      match SD_read v name maxSize with
      | None => (p1, (0, []))
      | Some bytes => (p1, (Z.of_nat (length bytes), bytes))
      end.

Definition deleteFile (p : t) (v : V) (name : list Z) : t * V * bool :=
  if negb (isReady p) then (p, v, false)
  else
    let p1 := checkCardStatus p v in
    if negb (cardPresent p1) || writeProtected p1 then (p1, v, false)
    else let '(v1, removed) := SD_remove v name in (p1, v1, removed).

Definition fileExists (p : t) (v : V) (name : list Z) : bool :=
  if negb (initialized p) || negb (cardPresent p) then false
  else SD_exists v name.

Definition getFileSize (p : t) (v : V) (name : list Z) : Z :=
  if negb (initialized p) || negb (cardPresent p) then 0
  else
    match SD_file_size v name with
    | None => 0
    | Some size => u32 size
    end.

Fixpoint listFiles_loop (entries : list (list Z * bool))
  (fileCount maxFiles : Z) : list (list Z) :=
  match entries with
  | [] => []
  | (name, isDirectory) :: rest =>
      if fileCount <? maxFiles then
        if negb isDirectory
           && (safeStrlen name MAX_FILENAME_LENGTH <? MAX_FILENAME_LENGTH)
        then
          c_str (fst (safeCopy (clearBuffer MAX_FILENAME_LENGTH)
                               MAX_FILENAME_LENGTH name 0))
          :: listFiles_loop rest (fileCount + 1) maxFiles
        else listFiles_loop rest fileCount maxFiles
      else []
  end.

Definition listFiles (p : t) (v : V) (maxFiles : Z) : list (list Z) :=
  if negb (initialized p) || negb (cardPresent p) || (maxFiles =? 0) then []
  else
    match SD_root_files v with
    | None => []
    | Some entries => listFiles_loop entries 0 maxFiles
    end.

End WithSlot.
End SDCardStoragePlugin.

(** An empty slot: no card, so the library finds nothing to work on. *)
Inductive EmptySlot : Type := empty_slot.

#[export] Instance EmptySlot_SdSlot : SdSlot EmptySlot := {
  sd_detect_pin := fun _ => HIGH;
  sd_write_protect_pin := fun _ => LOW;
  SD_begin := fun v => (v, false);
  SD_root_size := fun _ => None;
  SD_exists := fun _ _ => false;
  SD_mkdir := fun v _ => (v, false);
  SD_remove := fun v _ => (v, false);
  SD_file_size := fun _ _ => None;
  SD_read := fun _ _ _ => None;
  SD_write := fun _ _ _ => None;
  SD_root_files := fun _ => None
}.

(** A slot with a card in it, as far as the calls of the plugin can tell
    one card from another: the levels of the two switch pins and the
    root directory of the card, each entry with its name, whether it is
    a directory, and its content.  [SD.begin] succeeds when a card is
    detected; a file opened with FILE_WRITE is created or appended to;
    the size of the root directory reads as 0. *)
Record CardSlot : Type := mkCardSlot {
  detect_level : bool;
  protect_level : bool;
  root_entries : list (list Z * bool * list Z)
}.

Fixpoint same_name (a b : list Z) : bool :=
  match a, b with
  | [], [] => true
  | x :: a', y :: b' => (x =? y) && same_name a' b'
  | _, _ => false
  end.

Fixpoint card_lookup (entries : list (list Z * bool * list Z)) (name : list Z)
  : option (bool * list Z) :=
  match entries with
  | [] => None
  | (n, isDirectory, content) :: rest =>
      if same_name n name then Some (isDirectory, content)
      else card_lookup rest name
  end.

Fixpoint card_append (entries : list (list Z * bool * list Z)) (name : list Z)
  (data : list Z) : list (list Z * bool * list Z) :=
  match entries with
  | [] => [(name, false, data)]
  | (n, isDirectory, content) :: rest =>
      if same_name n name then (n, isDirectory, content ++ data) :: rest
      else (n, isDirectory, content) :: card_append rest name data
  end.

Definition set_root (v : CardSlot) (entries : list (list Z * bool * list Z))
  : CardSlot :=
  mkCardSlot (detect_level v) (protect_level v) entries.

#[export] Instance CardSlot_SdSlot : SdSlot CardSlot := {
  sd_detect_pin := detect_level;
  sd_write_protect_pin := protect_level;
  SD_begin := fun v => (v, eqb (detect_level v) LOW);
  SD_root_size := fun _ => Some 0;
  SD_exists := fun v name =>
    match card_lookup (root_entries v) name with
    | Some _ => true
    | None => false
    end;
  SD_mkdir := fun v name =>
    match card_lookup (root_entries v) name with
    | Some _ => (v, false)
    | None => (set_root v (root_entries v ++ [(name, true, [])]), true)
    end;
  SD_remove := fun v name =>
    match card_lookup (root_entries v) name with
    | Some (false, _) =>
        (set_root v (List.filter (fun e => negb (same_name (fst (fst e)) name))
                                 (root_entries v)),
         true)
    | _ => (v, false)
    end;
  SD_file_size := fun v name =>
    match card_lookup (root_entries v) name with
    | Some (false, content) => Some (Z.of_nat (length content))
    | _ => None
    end;
  SD_read := fun v name maxSize =>
    match card_lookup (root_entries v) name with
    | Some (false, content) => Some (take (Z.to_nat maxSize) content)
    | _ => None
    end;
  SD_write := fun v name data =>
    match card_lookup (root_entries v) name with
    | Some (true, _) => None
    | _ => Some (set_root v (card_append (root_entries v) name data),
                 Z.of_nat (length data))
    end;
  SD_root_files := fun v =>
    Some (map (fun e => (fst (fst e), snd (fst e))) (root_entries v))
}.

(** ** IStoragePlugin and FileSystemManager
    (IStoragePlugin.h, FileSystemManager.h, FileSystemManager.cpp)

    The manager holds a pointer to each plugin object; here it holds the
    object itself together with the device it drives, [None] for a null
    pointer.  [currentStorage] points at one of the three objects and is
    kept as the name of that object.  [console] lists the lines the
    manager itself printed on [Serial], oldest first. *)

Inductive StorageType : Type :=
| STORAGE_SD_CARD
| STORAGE_EEPROM
| STORAGE_SERIAL
| STORAGE_AUTO.

Definition StorageType_eqb (a b : StorageType) : bool :=
  match a, b with
  | STORAGE_SD_CARD, STORAGE_SD_CARD
  | STORAGE_EEPROM, STORAGE_EEPROM
  | STORAGE_SERIAL, STORAGE_SERIAL
  | STORAGE_AUTO, STORAGE_AUTO => true
  | _, _ => false
  end.

Inductive PluginRef : Type :=
| SdCardObject
| EepromObject
| SerialObject.

Module FileSystemManager.
Import MemoryUtils.

Section WithSlot.
Context {V : Type} `{SdSlot V}.

Record t : Type := mk {
  sdCardPlugin : option (SDCardStoragePlugin.t * V);
  eepromPlugin : option (EEPROMStoragePlugin.t * Flash.t);
  serialPlugin : option (SerialStoragePlugin.t * Uart.t);
  currentStorage : option PluginRef;
  currentStorageType : StorageType;
  initialized : bool;
  debugEnabled : bool;
  transferBuffer : list Z;
  filenameBuffer : list Z;
  totalFilesWritten : Z;
  totalBytesWritten : Z;
  totalFilesRead : Z;
  totalBytesRead : Z;
  console : list string
}.

Definition ctor : t :=
  mk None None None None STORAGE_AUTO false false
     (clearBuffer TRANSFER_BUFFER_SIZE) (clearBuffer MAX_FILENAME_LENGTH)
     0 0 0 0 [].

Definition println (m : t) (line : string) : t :=
  mk (sdCardPlugin m) (eepromPlugin m) (serialPlugin m) (currentStorage m)
     (currentStorageType m) (initialized m) (debugEnabled m)
     (transferBuffer m) (filenameBuffer m) (totalFilesWritten m)
     (totalBytesWritten m) (totalFilesRead m) (totalBytesRead m)
     (console m ++ [line]).

(** A print guarded by [debugEnabled]. *)
Definition debug (m : t) (line : string) : t :=
  if debugEnabled m then println m line else m.

Definition set_plugins (m : t)
  (sd : option (SDCardStoragePlugin.t * V))
  (ee : option (EEPROMStoragePlugin.t * Flash.t))
  (se : option (SerialStoragePlugin.t * Uart.t)) : t :=
  mk sd ee se (currentStorage m) (currentStorageType m) (initialized m)
     (debugEnabled m) (transferBuffer m) (filenameBuffer m)
     (totalFilesWritten m) (totalBytesWritten m) (totalFilesRead m)
     (totalBytesRead m) (console m).

Definition registerPlugins (m : t)
  (sd : SDCardStoragePlugin.t * V)
  (ee : EEPROMStoragePlugin.t * Flash.t)
  (se : SerialStoragePlugin.t * Uart.t) : t :=
  debug (set_plugins m (Some sd) (Some ee) (Some se))
        "FileSystemManager: Plugins registered".

(** *** Virtual calls through an [IStoragePlugin] pointer *)

Definition plugin_isReady (m : t) (r : PluginRef) : bool :=
  match r with
  | SdCardObject =>
      match sdCardPlugin m with
      | Some (p, _) => SDCardStoragePlugin.isReady p
      | None => false
      end
  | EepromObject =>
      match eepromPlugin m with
      | Some (p, _) => EEPROMStoragePlugin.isReady p
      | None => false
      end
  | SerialObject =>
      match serialPlugin m with
      | Some (p, u) => SerialStoragePlugin.isReady p u
      | None => false
      end
  end.

Definition plugin_fileExists (m : t) (r : PluginRef) (name : list Z) : bool :=
  match r with
  | SdCardObject =>
      match sdCardPlugin m with
      | Some (p, v) => SDCardStoragePlugin.fileExists p v name
      | None => false
      end
  | EepromObject =>
      match eepromPlugin m with
      | Some (p, _) => EEPROMStoragePlugin.fileExists p name
      | None => false
      end
  | SerialObject =>
      match serialPlugin m with
      | Some (p, _) => SerialStoragePlugin.fileExists p name
      | None => false
      end
  end.

Definition plugin_getFileSize (m : t) (r : PluginRef) (name : list Z) : Z :=
  match r with
  | SdCardObject =>
      match sdCardPlugin m with
      | Some (p, v) => SDCardStoragePlugin.getFileSize p v name
      | None => 0
      end
  | EepromObject =>
      match eepromPlugin m with
      | Some (p, _) => EEPROMStoragePlugin.getFileSize p name
      | None => 0
      end
  | SerialObject =>
      match serialPlugin m with
      | Some (p, _) => SerialStoragePlugin.getFileSize p name
      | None => 0
      end
  end.

Definition plugin_listFiles (m : t) (r : PluginRef) (maxFiles : Z)
  : list (list Z) :=
  match r with
  | SdCardObject =>
      match sdCardPlugin m with
      | Some (p, v) => SDCardStoragePlugin.listFiles p v maxFiles
      | None => []
      end
  | EepromObject =>
      match eepromPlugin m with
      | Some (p, _) => EEPROMStoragePlugin.listFiles p maxFiles
      | None => []
      end
  | SerialObject =>
      match serialPlugin m with
      | Some (p, _) => SerialStoragePlugin.listFiles p maxFiles
      | None => []
      end
  end.

Definition plugin_readFile (m : t) (r : PluginRef) (name : list Z)
  (maxSize : Z) : t * (Z * list Z) :=
  match r with
  | SdCardObject =>
      match sdCardPlugin m with
      | Some (p, v) =>
          let '(p1, res) := SDCardStoragePlugin.readFile p v name maxSize in
          (set_plugins m (Some (p1, v)) (eepromPlugin m) (serialPlugin m), res)
      | None => (m, (0, []))
      end
  | EepromObject =>
      match eepromPlugin m with
      | Some (p, f) => (m, EEPROMStoragePlugin.readFile p f name maxSize)
      | None => (m, (0, []))
      end
  | SerialObject =>
      match serialPlugin m with
      | Some (p, u) =>
          let '(u1, res) := SerialStoragePlugin.readFile p u name maxSize in
          (set_plugins m (sdCardPlugin m) (eepromPlugin m) (Some (p, u1)), res)
      | None => (m, (0, []))
      end
  end.

Definition plugin_writeFile (m : t) (r : PluginRef) (name data : list Z)
  (size : Z) : t * Z :=
  match r with
  | SdCardObject =>
      match sdCardPlugin m with
      | Some (p, v) =>
          let '(p1, v1, n) := SDCardStoragePlugin.writeFile p v name data size in
          (set_plugins m (Some (p1, v1)) (eepromPlugin m) (serialPlugin m), n)
      | None => (m, 0)
      end
  | EepromObject =>
      match eepromPlugin m with
      | Some (p, f) =>
          let '(p1, f1, n) := EEPROMStoragePlugin.writeFile p f name data size in
          (set_plugins m (sdCardPlugin m) (Some (p1, f1)) (serialPlugin m), n)
      | None => (m, 0)
      end
  | SerialObject =>
      match serialPlugin m with
      | Some (p, u) =>
          let '(p1, u1, n) := SerialStoragePlugin.writeFile p u name data size in
          (set_plugins m (sdCardPlugin m) (eepromPlugin m) (Some (p1, u1)), n)
      | None => (m, 0)
      end
  end.

Definition plugin_deleteFile (m : t) (r : PluginRef) (name : list Z)
  : t * bool :=
  match r with
  | SdCardObject =>
      match sdCardPlugin m with
      | Some (p, v) =>
          let '(p1, v1, b) := SDCardStoragePlugin.deleteFile p v name in
          (set_plugins m (Some (p1, v1)) (eepromPlugin m) (serialPlugin m), b)
      | None => (m, false)
      end
  | EepromObject =>
      match eepromPlugin m with
      | Some (p, f) =>
          let '(p1, f1, b) := EEPROMStoragePlugin.deleteFile p f name in
          (set_plugins m (sdCardPlugin m) (Some (p1, f1)) (serialPlugin m), b)
      | None => (m, false)
      end
  | SerialObject =>
      match serialPlugin m with
      | Some (p, _) => (m, SerialStoragePlugin.deleteFile p name)
      | None => (m, false)
      end
  end.

(** *** The manager *)

Definition getPluginByType (m : t) (type : StorageType) : option PluginRef :=
  match type with
  | STORAGE_SD_CARD =>
      match sdCardPlugin m with Some _ => Some SdCardObject | None => None end
  | STORAGE_EEPROM =>
      match eepromPlugin m with Some _ => Some EepromObject | None => None end
  | STORAGE_SERIAL =>
      match serialPlugin m with Some _ => Some SerialObject | None => None end
  | STORAGE_AUTO => None
  end.

Definition autoDetectStorage (m : t) : StorageType :=
  if plugin_isReady m SdCardObject then STORAGE_SD_CARD
  else if plugin_isReady m EepromObject then STORAGE_EEPROM
  else if plugin_isReady m SerialObject then STORAGE_SERIAL
  else STORAGE_SD_CARD.

Definition set_current (m : t) (r : option PluginRef) (type : StorageType) : t :=
  mk (sdCardPlugin m) (eepromPlugin m) (serialPlugin m) r type
     (initialized m) (debugEnabled m) (transferBuffer m) (filenameBuffer m)
     (totalFilesWritten m) (totalBytesWritten m) (totalFilesRead m)
     (totalBytesRead m) (console m).

Definition set_initialized (m : t) (b : bool) : t :=
  mk (sdCardPlugin m) (eepromPlugin m) (serialPlugin m) (currentStorage m)
     (currentStorageType m) b (debugEnabled m) (transferBuffer m)
     (filenameBuffer m) (totalFilesWritten m) (totalBytesWritten m)
     (totalFilesRead m) (totalBytesRead m) (console m).

Definition plugin_name (r : option PluginRef) : string :=
  match r with
  | Some SdCardObject => "SD Card"
  | Some EepromObject => "EEPROM"
  | Some SerialObject => "Serial"
  | None => "NONE"
  end.

Definition initialize (m : t) : t * Z :=
  if initialized m then (m, STATUS_OK)
  else
    match sdCardPlugin m, eepromPlugin m, serialPlugin m with
    | Some (sd, v), Some (ee, f), Some (se, u) =>
        let m1 := println m "FileSystemManager: Initializing SD card plugin..." in
        let '(sd1, v1, r1) := SDCardStoragePlugin.initialize sd v in
        let m2 :=
          println m1 (if r1 =? STATUS_OK
                      then "FileSystemManager: SD card plugin OK"
                      else "FileSystemManager: SD card plugin init failed") in
        let m3 := println m2 "FileSystemManager: Initializing EEPROM plugin..." in
        let '(ee1, f1, r2) := EEPROMStoragePlugin.initialize ee f in
        let m4 :=
          println m3 (if r2 =? STATUS_OK
                      then "FileSystemManager: EEPROM plugin OK"
                      else "FileSystemManager: EEPROM plugin init failed") in
        let m5 := println m4 "FileSystemManager: Initializing Serial plugin..." in
        let '(se1, r3) := SerialStoragePlugin.initialize se in
        let m6 :=
          println m5 (if r3 =? STATUS_OK
                      then "FileSystemManager: Serial plugin OK"
                      else "FileSystemManager: Serial plugin init failed") in
        let m7 := set_plugins m6 (Some (sd1, v1)) (Some (ee1, f1)) (Some (se1, u)) in
        let type := autoDetectStorage m7 in
        let m8 := set_current m7 (getPluginByType m7 type) type in
        let m9 := set_initialized m8 true in
        (debug m9 ("FileSystemManager: Initialized with storage: "
                   ++ plugin_name (currentStorage m9)),
         STATUS_OK)
    | _, _, _ => (debug m "FileSystemManager: Plugins not registered", STATUS_ERROR)
    end.

Definition setStorageType (m : t) (type : StorageType) : t * bool :=
  if negb (initialized m) then (m, false)
  else
    match getPluginByType m type with
    | None => (debug m "FileSystemManager: Storage type not available", false)
    | Some newStorage =>
        if negb (plugin_isReady m newStorage)
        then (debug m "FileSystemManager: Storage type not available", false)
        else
          let m1 := set_current m (Some newStorage) type in
          (debug m1 ("FileSystemManager: Storage set to "
                     ++ plugin_name (currentStorage m1)),
           true)
    end.

Definition update (m : t) : t * Z :=
  if negb (initialized m) then (m, STATUS_NOT_INITIALIZED)
  else
    match currentStorage m with
    | Some cur =>
        if negb (plugin_isReady m cur) then
          let newType := autoDetectStorage m in
          if negb (StorageType_eqb newType (currentStorageType m)) then
            let m1 := debug m "FileSystemManager: Storage changed, switching" in
            (fst (setStorageType m1 newType), STATUS_OK)
          else (m, STATUS_OK)
        else (m, STATUS_OK)
    | None => (m, STATUS_OK)
    end.

Definition getCurrentStorageType (m : t) : StorageType := currentStorageType m.

(** A [char] read as a number: the type is signed on the target. *)
Definition signed_char (c : Z) : Z := if c <? 128 then c else c - 256.

Definition invalid_char (c : Z) : bool :=
  (signed_char c <? 32) || (c =? chr "/") || (c =? chr "\") || (c =? chr ":")
  || (c =? chr "*") || (c =? chr "?") || (c =? 34) || (c =? chr "<")
  || (c =? chr ">") || (c =? chr "|").

Definition isValidFilename (name : list Z) : bool :=
  let len := safeStrlen name MAX_FILENAME_LENGTH in
  if (len =? 0) || (MAX_FILENAME_LENGTH <=? len) then false
  else
    forallb (fun i => negb (invalid_char (char_at name (Z.of_nat i))))
            (seq 0 (Z.to_nat len)).

Definition text (l : list Z) : string :=
  string_of_list_ascii (map (fun z => ascii_of_N (Z.to_N z)) l).

Definition add_written (m : t) (bytes : Z) : t :=
  mk (sdCardPlugin m) (eepromPlugin m) (serialPlugin m) (currentStorage m)
     (currentStorageType m) (initialized m) (debugEnabled m)
     (transferBuffer m) (filenameBuffer m)
     (u32 (totalFilesWritten m + 1)) (u32 (totalBytesWritten m + bytes))
     (totalFilesRead m) (totalBytesRead m) (console m).

Definition add_read (m : t) (bytes : Z) : t :=
  mk (sdCardPlugin m) (eepromPlugin m) (serialPlugin m) (currentStorage m)
     (currentStorageType m) (initialized m) (debugEnabled m)
     (transferBuffer m) (filenameBuffer m)
     (totalFilesWritten m) (totalBytesWritten m)
     (u32 (totalFilesRead m + 1)) (u32 (totalBytesRead m + bytes)) (console m).

Definition writeFile (m : t) (name data : list Z) (size : Z) : t * Z :=
  if negb (initialized m) || (size =? 0) then (m, 0)
  else
    match currentStorage m with
    | None => (m, 0)
    | Some cur =>
        if negb (isValidFilename name)
        then (debug m "FileSystemManager: Invalid filename", 0)
        else if negb (plugin_isReady m cur)
        then (debug m "FileSystemManager: Storage not ready", 0)
        else
          let '(m1, bytesWritten) := plugin_writeFile m cur name data size in
          if 0 <? bytesWritten then
            (debug (add_written m1 bytesWritten)
                   ("FileSystemManager: Wrote "
                    ++ text (Uart.printNumber bytesWritten)
                    ++ " bytes to " ++ text name),
             bytesWritten)
          else
            (debug m1 ("FileSystemManager: Failed to write " ++ text name),
             bytesWritten)
    end.

Definition readFile (m : t) (name : list Z) (maxSize : Z)
  : t * (Z * list Z) :=
  if negb (initialized m) || (maxSize =? 0) then (m, (0, []))
  else
    match currentStorage m with
    | None => (m, (0, []))
    | Some cur =>
        if negb (isValidFilename name)
        then (debug m "FileSystemManager: Invalid filename", (0, []))
        else if negb (plugin_isReady m cur)
        then (debug m "FileSystemManager: Storage not ready", (0, []))
        else
          let '(m1, (bytesRead, bytes)) := plugin_readFile m cur name maxSize in
          if 0 <? bytesRead then
            (debug (add_read m1 bytesRead)
                   ("FileSystemManager: Read "
                    ++ text (Uart.printNumber bytesRead)
                    ++ " bytes from " ++ text name),
             (bytesRead, bytes))
          else
            (debug m1 ("FileSystemManager: Failed to read " ++ text name),
             (bytesRead, bytes))
    end.

Definition set_transferBuffer (m : t) (buf : list Z) : t :=
  mk (sdCardPlugin m) (eepromPlugin m) (serialPlugin m) (currentStorage m)
     (currentStorageType m) (initialized m) (debugEnabled m)
     buf (filenameBuffer m) (totalFilesWritten m) (totalBytesWritten m)
     (totalFilesRead m) (totalBytesRead m) (console m).

Definition copyFile (m : t) (name : list Z) (sourceType destType : StorageType)
  : t * bool :=
  if StorageType_eqb sourceType destType then (m, false)
  else
    match getPluginByType m sourceType, getPluginByType m destType with
    | Some sourcePlugin, Some destPlugin =>
        if negb (plugin_isReady m sourcePlugin)
           || negb (plugin_isReady m destPlugin)
        then (m, false)
        else if negb (plugin_fileExists m sourcePlugin name)
        then (debug m "FileSystemManager: Source file not found", false)
        else
          let fileSize := plugin_getFileSize m sourcePlugin name in
          if (fileSize =? 0) || (TRANSFER_BUFFER_SIZE <? fileSize)
          then (debug m "FileSystemManager: File too large for transfer", false)
          else
            let '(m1, (bytesRead, bytes)) :=
              plugin_readFile m sourcePlugin name fileSize in
            let m2 :=
              set_transferBuffer m1
                (bytes ++ drop (length bytes) (transferBuffer m1)) in
            if negb (bytesRead =? fileSize)
            then (debug m2 "FileSystemManager: Failed to read source file", false)
            else
              let '(m3, bytesWritten) :=
                plugin_writeFile m2 destPlugin name (transferBuffer m2) bytesRead in
              if negb (bytesWritten =? bytesRead)
              then (debug m3 "FileSystemManager: Failed to write destination file",
                    false)
              else
                (debug m3 ("FileSystemManager: Copied " ++ text name ++ " ("
                           ++ text (Uart.printNumber bytesWritten) ++ " bytes)"),
                 true)
    | _, _ => (m, false)
    end.

Definition deleteFile (m : t) (name : list Z) : t * bool :=
  if negb (initialized m) then (m, false)
  else
    match currentStorage m with
    | None => (m, false)
    | Some cur =>
        let '(m1, result) := plugin_deleteFile m cur name in
        (if result
         then debug m1 ("FileSystemManager: Deleted " ++ text name)
         else m1,
         result)
    end.

Definition fileExists (m : t) (name : list Z) : bool :=
  if negb (initialized m) then false
  else
    match currentStorage m with
    | None => false
    | Some cur => plugin_fileExists m cur name
    end.

Definition getFileSize (m : t) (name : list Z) : Z :=
  if negb (initialized m) then 0
  else
    match currentStorage m with
    | None => 0
    | Some cur => plugin_getFileSize m cur name
    end.

Definition listFiles (m : t) (maxFiles : Z) : list (list Z) :=
  if negb (initialized m) || (maxFiles =? 0) then []
  else
    match currentStorage m with
    | None => []
    | Some cur => plugin_listFiles m cur maxFiles
    end.

(** The data [testWrite] makes up when it is called without any. *)
Definition localTestData : list Z :=
  map (fun i => u8 (Z.of_nat i + 165)) (seq 0 32).

(** [testWrite(testData, testSize)]; [testData] is [None] for a null
    pointer.  [readBuffer] has 32 cells: the result is [None] where the
    plugin stores more than that. *)
Definition testWrite (m : t) (testData : option (list Z)) (testSize : Z)
  : option (t * bool) :=
  if negb (initialized m) then Some (m, false)
  else
    match currentStorage m with
    | None => Some (m, false)
    | Some _ =>
        let '(data, size) :=
          match testData with
          | None => (localTestData, 32)
          | Some d => (d, testSize)
          end in
        let testFilename := cstr "test.dat" in
        let '(m1, bytesWritten) := writeFile m testFilename data size in
        if negb (bytesWritten =? size) then Some (m1, false)
        else
          let '(m2, (bytesRead, readBuffer)) := readFile m1 testFilename size in
          if 32 <? Z.of_nat (length readBuffer) then None
          else if negb (bytesRead =? size)
          then Some (fst (deleteFile m2 testFilename), false)
          else if negb (forallb (fun i => char_at readBuffer (Z.of_nat i)
                                          =? char_at data (Z.of_nat i))
                                (seq 0 (Z.to_nat size)))
          then Some (fst (deleteFile m2 testFilename), false)
          else
            let m3 := fst (deleteFile m2 testFilename) in
            Some (debug m3 "FileSystemManager: Test write successful", true)
    end.

End WithSlot.
End FileSystemManager.

(** ** main.cpp: the capture step of the run loop

    The static objects of main.cpp that the capture path uses, with the
    function-local statics [fileCounter] and [lastWriteError]. *)

Module Main.
Import MemoryUtils.

Section WithSlot.
Context {V : Type} `{SdSlot V}.

Record System : Type := mkSystem {
  parallelPortManager : ParallelPortManager.t;
  fileSystemManager : FileSystemManager.t (V := V);
  fileCounter : Z;
  lastWriteError : Z
}.

(** An [int] argument printed with [%04d]. *)
Definition format_04d (v : Z) : list Z :=
  let digits := Uart.printNumber (Z.abs v) in
  if v <? 0
  then chr "-" :: replicate (3 - length digits) (chr "0") ++ digits
  else replicate (4 - length digits) (chr "0") ++ digits.

(** A [uint16_t] read back as [int] by [%d]. *)
Definition as_int (v : Z) : Z := if v <? 32768 then v else v - 65536.

(** [snprintf(buffer, size, ...)] keeps at most [size - 1] characters. *)
Definition snprintf (size : Z) (formatted : list Z) : list Z :=
  take (Z.to_nat (size - 1)) formatted.

Definition sizeof_dataBuffer : Z := 1.

Definition processParallelPortData (now : Z) (s : System)
  : System * list Event :=
  let availableBytes :=
    ParallelPortManager.getAvailableBytes (parallelPortManager s) in
  if 0 <? availableBytes then
    let bytesToRead := min availableBytes sizeof_dataBuffer in
    let '(ppm, dataBuffer) :=
      ParallelPortManager.readData RING_BUFFER_SIZE (parallelPortManager s)
                                   bytesToRead in
    let bytesRead := Z.of_nat (length dataBuffer) in
    if 0 <? bytesRead then
      let filename :=
        snprintf MAX_FILENAME_LENGTH
                 (cstr "data_" ++ format_04d (as_int (fileCounter s))
                  ++ cstr ".bin") in
      let counter := u16 (fileCounter s + 1) in
      let '(fsm, bytesWritten) :=
        FileSystemManager.writeFile (fileSystemManager s) filename
                                    dataBuffer bytesRead in
      if bytesWritten =? bytesRead then
        let statusMsg := snprintf 17 (cstr "Saved: " ++ filename) in
        (mkSystem ppm fsm counter (lastWriteError s),
         [DisplayMessage "Data Captured" (FileSystemManager.text statusMsg);
          SerialPrintln ("Captured "
                         ++ FileSystemManager.text (Uart.printNumber bytesRead)
                         ++ " bytes to " ++ FileSystemManager.text filename)])
      else if 5000 <=? u32 (now - lastWriteError s) then
        (mkSystem ppm fsm counter now,
         [SerialPrintln "Warning: Partial write or write failed";
          DisplayError "Write err"])
      else (mkSystem ppm fsm counter (lastWriteError s), [])
    else (mkSystem ppm (fileSystemManager s) (fileCounter s) (lastWriteError s), [])
  else (s, []).

(** One pass of [loop()] as far as the capture core goes: the [update()]
    of the two components modelled here, then the capture step.  The
    other components are outside this development. *)
Definition capture_pass (now : Z) (s : System) : System * list Event :=
  let '(r1, ppm, ev1) :=
    ParallelPortManager.update (parallelPortManager s) in
  let s1 := mkSystem ppm (fileSystemManager s) (fileCounter s) (lastWriteError s) in
  if negb (r1 =? STATUS_OK) then (s1, ev1)
  else
    let '(fsm, r2) := FileSystemManager.update (fileSystemManager s1) in
    let s2 := mkSystem ppm fsm (fileCounter s1) (lastWriteError s1) in
    if negb (r2 =? STATUS_OK) then (s2, ev1)
    else
      let '(s3, ev3) := processParallelPortData now s2 in
      (s3, ev1 ++ ev3).

(** A strobe pulse reaching the handler. *)
Definition strobe (i : ParallelPortManager.IsrInput) (s : System)
  : System * list Event :=
  let '(ppm, ev) :=
    ParallelPortManager.handleInterrupt RING_BUFFER_SIZE i
                                        (parallelPortManager s) in
  (mkSystem ppm (fileSystemManager s) (fileCounter s) (lastWriteError s), ev).

End WithSlot.
End Main.

(** ** Scenarios

    Start-up as [setup()] performs it for the capture core, on a board
    with a W25Q128 that holds a freshly formatted file system, no SD
    card in the slot and a host listening on the UART. *)

Module Scenario.

(** The data lines while the peer presents [byte]. *)
Definition data_lines (byte : Z) : Z -> bool :=
  fun pin => Z.testbit byte ((pin - LPT_DATA0_PIN) / 2).

(** A strobe at time [t] (microseconds) with [byte] on the data lines;
    the handler takes 27 microseconds. *)
Definition pulse (t byte : Z) : ParallelPortManager.IsrInput :=
  ParallelPortManager.mkIsrInput t (t + 27) (data_lines byte).

(** A blank chip after [format()]. *)
Definition formatted_chip : Flash.t :=
  let '(_, f, _) :=
    EEPROMStoragePlugin.format EEPROMStoragePlugin.ctor Flash.blank in
  f.

Definition host : Uart.t := Uart.mk true [] [].

(** The flash plugin after [initialize()] on the formatted chip. *)
Definition mounted : EEPROMStoragePlugin.t * Flash.t :=
  let '(p, f, _) :=
    EEPROMStoragePlugin.initialize EEPROMStoragePlugin.ctor formatted_chip in
  (p, f).

(** A chip whose first sector holds the directory [dir]. *)
Definition chip_with (dir : list EEPROMStoragePlugin.FileEntry) : Flash.t :=
  Flash.mk 15679512
           (fun a => default 255
                       (EEPROMStoragePlugin.directory_bytes dir !! Z.to_nat a))
           false [] [].

Definition empty_slots (n : nat) : list EEPROMStoragePlugin.FileEntry :=
  replicate n (EEPROMStoragePlugin.set_status EEPROMStoragePlugin.zero_entry
                 EEPROMStoragePlugin.STATUS_EMPTY).

(** A slot whose complement check passes and whose extent starts in the
    last sector but is two sectors long. *)
Definition overlong_entry : EEPROMStoragePlugin.FileEntry :=
  EEPROMStoragePlugin.mkEntry
    (cstr "A" ++ MemoryUtils.clearBuffer 7) 4095 8192
    (EEPROMStoragePlugin.not32 8192) EEPROMStoragePlugin.STATUS_ACTIVE
    (MemoryUtils.clearBuffer 3).

Definition overlong_chip : Flash.t :=
  chip_with (overlong_entry :: empty_slots 63).

(** The serial plugin after [initialize()]. *)
Definition serial_ready : SerialStoragePlugin.t :=
  fst (SerialStoragePlugin.initialize SerialStoragePlugin.ctor).

(** The far end of a loop-back cable: what was sent comes back. *)
Definition loopback (u : Uart.t) : Uart.t :=
  Uart.mk (Uart.ready u) [] (Uart.tx u).

(** Stream [content] under the name "A", feed the emitted characters
    back and receive into a buffer of the same size. *)
Definition round_trip (content : list Z) : Z * list Z * option (list Z) :=
  let size := Z.of_nat (length content) in
  let '(p, u, sent) :=
    SerialStoragePlugin.streamFile serial_ready host (cstr "A") content size in
  (sent, Uart.tx u,
   match SerialStoragePlugin.receiveFile p (loopback u) size 1000 with
   | Some (_, received) => Some received
   | None => None
   end).

(** The formatted chip when the next program or erase does not finish
    within the polling time. *)
Definition stalling_chip : Flash.t :=
  Flash.mk (Flash.jedec formatted_chip) (Flash.mem formatted_chip)
           (Flash.wel formatted_chip) [false] (Flash.log formatted_chip).

(** [initializeSystem()], then the operator selects the flash. *)
Definition booted : Main.System (V := EmptySlot) :=
  let '(_, ppm, _) :=
    ParallelPortManager.initialize
      (ParallelPortManager.ctor RING_BUFFER_SIZE) in
  let fsm0 :=
    FileSystemManager.registerPlugins FileSystemManager.ctor
      (SDCardStoragePlugin.ctor, empty_slot)
      (EEPROMStoragePlugin.ctor, formatted_chip)
      (SerialStoragePlugin.ctor, host) in
  let '(fsm1, _) := FileSystemManager.initialize fsm0 in
  let '(fsm2, _) := FileSystemManager.setStorageType fsm1 STORAGE_EEPROM in
  Main.mkSystem ppm fsm2 1 0.

(** Three strobes deliver "Hi\n", 30 microseconds apart; then the run
    loop makes [passes] passes, one per millisecond. *)
Fixpoint passes (n : nat) (now : Z) (s : Main.System (V := EmptySlot))
  : Main.System (V := EmptySlot) :=
  match n with
  | O => s
  | S n' => passes n' (now + 1) (fst (Main.capture_pass now s))
  end.

Definition after_strobes : Main.System (V := EmptySlot) :=
  let s1 := fst (Main.strobe (pulse 1000 72) booted) in
  let s2 := fst (Main.strobe (pulse 1030 105) s1) in
  fst (Main.strobe (pulse 1060 10) s2).

Definition captured (n : nat) : Main.System (V := EmptySlot) :=
  passes n 2 after_strobes.

(** A card with two short-named files, a directory and a file whose name
    is too long for a name buffer. *)
Definition card : CardSlot :=
  mkCardSlot LOW LOW
    [(cstr "a.txt", false, [72; 105]);
     (cstr "logs", true, []);
     (cstr "longname.bin", false, [10]);
     (cstr "b.dat", false, [])].

(** The same card after the write-protect switch was set, and the slot
    after the card was pulled. *)
Definition card_protected : CardSlot :=
  mkCardSlot LOW HIGH (root_entries card).

Definition card_removed : CardSlot :=
  mkCardSlot HIGH LOW (root_entries card).

(** The SD plugin after [initialize()] with [card] in the slot. *)
Definition sd_ready : SDCardStoragePlugin.t :=
  fst (fst (SDCardStoragePlugin.initialize SDCardStoragePlugin.ctor card)).

End Scenario.

(** * Properties *)

(** ** What the claims speak about *)

(** BUSY is released only after the enqueue attempt and after nACK has
    come back high: whenever BUSY is driven low at position [k] of the
    trace, BUSY high, the enqueue attempt, nACK low and nACK high occur
    before it, in this order. *)
Definition released_after_ack (evs : list Event) : Prop :=
  forall k : nat,
    evs !! k = Some (DigitalWrite LPT_BUSY_PIN LOW) ->
    exists (j0 j1 j2 j3 : nat) (data : Z) (stored : bool),
      (j0 < j1 < j2)%nat /\ (j2 < j3 < k)%nat
      /\ evs !! j0 = Some (DigitalWrite LPT_BUSY_PIN HIGH)
      /\ evs !! j1 = Some (RingWrite data stored)
      /\ evs !! j2 = Some (DigitalWrite LPT_ACKNOWLEDGE_PIN LOW)
      /\ evs !! j3 = Some (DigitalWrite LPT_ACKNOWLEDGE_PIN HIGH).

(** The handshake of one byte as the peer sees it, given the byte on the
    data lines and whether the queue took it. *)
Definition handshake (i : ParallelPortManager.IsrInput) (stored : bool)
  : list Event :=
  [DigitalWrite LPT_BUSY_PIN HIGH; DelayMicroseconds HARDWARE_DELAY]
  ++ ParallelPortManager.read_events i
  ++ [RingWrite (ParallelPortManager.read_data i) stored;
      DigitalWrite LPT_ACKNOWLEDGE_PIN LOW;
      DelayMicroseconds ACK_PULSE_WIDTH;
      DigitalWrite LPT_ACKNOWLEDGE_PIN HIGH;
      DigitalWrite LPT_BUSY_PIN LOW].

(** The entry invariant as the specification words it. *)
Definition spec_entry_ok (e : EEPROMStoragePlugin.FileEntry) : Prop :=
  Z.lxor (EEPROMStoragePlugin.sizeBytes e)
         (EEPROMStoragePlugin.sizeComplement e) = 4294967295
  /\ EEPROMStoragePlugin.DATA_START_SECTOR <= EEPROMStoragePlugin.startSector e
  /\ EEPROMStoragePlugin.startSector e
     + (EEPROMStoragePlugin.sizeBytes e + EEPROM_SECTOR_SIZE - 1)
       / EEPROM_SECTOR_SIZE
     <= EEPROMStoragePlugin.TOTAL_SECTORS.

(** The entry invariant that [validateFileEntry] enforces. *)
Definition checked_entry_ok (e : EEPROMStoragePlugin.FileEntry) : Prop :=
  Z.lxor (EEPROMStoragePlugin.sizeBytes e)
         (EEPROMStoragePlugin.sizeComplement e) = 4294967295
  /\ EEPROMStoragePlugin.DATA_START_SECTOR <= EEPROMStoragePlugin.startSector e
  /\ EEPROMStoragePlugin.startSector e < EEPROMStoragePlugin.TOTAL_SECTORS
  /\ MemoryUtils.char_at (EEPROMStoragePlugin.filename e) 0 <> 0.

Definition active (e : EEPROMStoragePlugin.FileEntry) : Prop :=
  EEPROMStoragePlugin.status e = EEPROMStoragePlugin.STATUS_ACTIVE.

(** Program and erase commands of the chip: a page program of at most
    one page of data, an erase of the directory sector. *)
Definition is_program (c : Flash.Cmd) : bool :=
  match c with
  | Flash.PageProgram _ data => Z.of_nat (length data) <=? EEPROM_PAGE_SIZE
  | _ => false
  end.

Definition is_directory_erase (c : Flash.Cmd) : bool :=
  match c with Flash.SectorErase a => a =? 0 | _ => false end.

(** [f'] is [f] after some further page programs and erases of the
    directory sector, and nothing else. *)
Definition no_data_erase (f f' : Flash.t) : Prop :=
  exists cmds : list Flash.Cmd,
    Flash.log f' = Flash.log f ++ cmds
    /\ forallb (fun c => is_program c || is_directory_erase c) cmds = true.

(** The extents of the ACTIVE slots of the flash directory, slot order,
    each with the bytes the chip holds there: start sector, size,
    content. *)
Definition stored_files {V : Type} (m : FileSystemManager.t (V := V))
  : list (Z * Z * list Z) :=
  match FileSystemManager.eepromPlugin m with
  | Some (p, f) =>
      map (fun e =>
             (EEPROMStoragePlugin.startSector e,
              EEPROMStoragePlugin.sizeBytes e,
              Flash.read_data f
                (u32 (EEPROMStoragePlugin.startSector e * EEPROM_SECTOR_SIZE))
                (EEPROMStoragePlugin.sizeBytes e)))
          (List.filter
             (fun e => EEPROMStoragePlugin.status e
                       =? EEPROMStoragePlugin.STATUS_ACTIVE)
             (EEPROMStoragePlugin.directory p))
  | None => []
  end.

(** What the specification expects of the manager after the capture of
    "Hi\n": one file "data_0001" of three bytes that reads back. *)
Definition one_file_captured {V : Type} `{SdSlot V}
  (m : FileSystemManager.t (V := V)) : Prop :=
  FileSystemManager.listFiles m 64 = [cstr "data_0001"]
  /\ FileSystemManager.getFileSize m (cstr "data_0001") = 3
  /\ snd (FileSystemManager.readFile m (cstr "data_0001") 3)
     = (3, [72; 105; 10]).

(** The receiver of the 16-byte configuration after [initialize()]. *)
Definition receiver16 : ParallelPortManager.t :=
  let '(_, m, _) :=
    ParallelPortManager.initialize (ParallelPortManager.ctor 16) in m.

(** ** What the further properties speak about *)

(** The bytes a ring buffer of capacity [N] holds, oldest first. *)
Definition queued (N : Z) (rb : RingBuffer.t) : list Z :=
  map (fun k => default 0 (RingBuffer.buffer rb
                             !! Z.to_nat ((RingBuffer.tail rb + Z.of_nat k) mod N)))
      (seq 0 (Z.to_nat (RingBuffer.count rb))).

(** The representation invariant of the ring buffer. *)
Definition ring_ok (N : Z) (rb : RingBuffer.t) : Prop :=
  0 < N
  /\ length (RingBuffer.buffer rb) = Z.to_nat N
  /\ 0 <= RingBuffer.tail rb < N
  /\ 0 <= RingBuffer.count rb <= N
  /\ RingBuffer.head rb = (RingBuffer.tail rb + RingBuffer.count rb) mod N.

(** One slot filled at [head], as [write] and [writeBytes] do it. *)
Definition pushed (N : Z) (rb : RingBuffer.t) (data : Z) : RingBuffer.t :=
  RingBuffer.mk (<[Z.to_nat (RingBuffer.head rb) := data]> (RingBuffer.buffer rb))
                ((RingBuffer.head rb + 1) mod N)
                (RingBuffer.tail rb) (RingBuffer.count rb + 1)
                (RingBuffer.overflowFlag rb).

(** One slot released at [tail], as [read] and [readBytes] do it. *)
Definition popped (N : Z) (rb : RingBuffer.t) : RingBuffer.t :=
  RingBuffer.mk (RingBuffer.buffer rb) (RingBuffer.head rb)
                ((RingBuffer.tail rb + 1) mod N)
                (RingBuffer.count rb - 1) (RingBuffer.overflowFlag rb).

(** The characters of the C string held in [cells]: the cells before
    the first NUL. *)
Fixpoint before_nul (cells : list Z) : list Z :=
  match cells with
  | [] => []
  | c :: rest => if c =? 0 then [] else c :: before_nul rest
  end.

(** The decimal digits of a positive number as characters, lowest
    first; at most [fuel] of them. *)
Fixpoint digits_le (fuel : nat) (v : Z) : list Z :=
  match fuel with
  | O => []
  | S fuel' =>
      if 0 <? v then (48 + v mod 10) :: digits_le fuel' (v / 10) else []
  end.

(** The number a list of digit characters stands for, highest first,
    continuing from [acc]. *)
Definition digits_value (ds : list Z) (acc : Z) : Z :=
  fold_left (fun r c => r * 10 + (c - 48)) ds acc.

(** The decimal text of a 16-bit [int]. *)
Definition decimal_text (v : Z) : list Z :=
  if v =? 0 then [48]
  else if v <? 0 then 45 :: rev (digits_le 5 (- v))
  else rev (digits_le 5 v).

(** The directory array as the struct lays it out: eight name cells in
    every slot. *)
Definition names_fit (dir : list EEPROMStoragePlugin.FileEntry) : Prop :=
  Forall (fun e => length (EEPROMStoragePlugin.filename e) = 8%nat) dir.

(** A byte value. *)
Definition is_byte (b : Z) : Prop := 0 <= b < 256.

(** The chip completes every program and erase it is given. *)
Definition healthy (f : Flash.t) : Prop := Flash.completes f = [].

(** The array after programming [data] from address [A] on. *)
Definition written (m : Z -> Z) (A : Z) (data : list Z) : Z -> Z :=
  fun a =>
    if (A <=? a) && (a <? A + Z.of_nat (length data))
    then Z.land (m a) (default 0 (data !! Z.to_nat (a - A)))
    else m a.

(** The slots as the struct lays them out: eight name cells and three
    reserved cells. *)
Definition entry_layout (e : EEPROMStoragePlugin.FileEntry) : Prop :=
  length (EEPROMStoragePlugin.filename e) = 8%nat
  /\ length (EEPROMStoragePlugin.reserved e) = 3%nat.

(** A slot whose fields hold values of their C types. *)
Definition entry_typed (e : EEPROMStoragePlugin.FileEntry) : Prop :=
  entry_layout e
  /\ Forall is_byte (EEPROMStoragePlugin.filename e)
  /\ Forall is_byte (EEPROMStoragePlugin.reserved e)
  /\ 0 <= EEPROMStoragePlugin.startSector e < 2 ^ 32
  /\ 0 <= EEPROMStoragePlugin.sizeBytes e < 2 ^ 32
  /\ 0 <= EEPROMStoragePlugin.sizeComplement e < 2 ^ 32
  /\ is_byte (EEPROMStoragePlugin.status e).

(** The directory array of the plugin object. *)
Definition directory_typed (dir : list EEPROMStoragePlugin.FileEntry) : Prop :=
  length dir = 64%nat /\ Forall entry_typed dir.

(** What the mount-time check of [loadDirectory] turns a slot into. *)
Definition mount_checked (e : EEPROMStoragePlugin.FileEntry)
  : EEPROMStoragePlugin.FileEntry :=
  if (EEPROMStoragePlugin.status e =? EEPROMStoragePlugin.STATUS_ACTIVE)
     && negb (EEPROMStoragePlugin.validateFileEntry e)
  then EEPROMStoragePlugin.set_status e EEPROMStoragePlugin.STATUS_DELETED
  else e.

(** [entry_typed] as a check that can be run. *)
Definition is_byte_b (b : Z) : bool := (0 <=? b) && (b <? 256).

Definition entry_typed_b (e : EEPROMStoragePlugin.FileEntry) : bool :=
  Nat.eqb (length (EEPROMStoragePlugin.filename e)) 8
  && Nat.eqb (length (EEPROMStoragePlugin.reserved e)) 3
  && forallb is_byte_b (EEPROMStoragePlugin.filename e)
  && forallb is_byte_b (EEPROMStoragePlugin.reserved e)
  && (0 <=? EEPROMStoragePlugin.startSector e)
  && (EEPROMStoragePlugin.startSector e <? 2 ^ 32)
  && (0 <=? EEPROMStoragePlugin.sizeBytes e)
  && (EEPROMStoragePlugin.sizeBytes e <? 2 ^ 32)
  && (0 <=? EEPROMStoragePlugin.sizeComplement e)
  && (EEPROMStoragePlugin.sizeComplement e <? 2 ^ 32)
  && is_byte_b (EEPROMStoragePlugin.status e).

(** The two hex digits [byteToHex] produces for a byte. *)
Definition hex_pair (b : Z) : list Z :=
  [MemoryUtils.char_at SerialStoragePlugin.hexChars (Z.land (Z.shiftr b 4) 15);
   MemoryUtils.char_at SerialStoragePlugin.hexChars (Z.land b 15)].

(** [u'] is [u] after [out] has been sent. *)
Definition sent_more (u u' : Uart.t) (out : list Z) : Prop :=
  Uart.tx u' = Uart.tx u ++ out
  /\ Uart.ready u' = Uart.ready u
  /\ Uart.rx u' = Uart.rx u.

(** [p'] is [p] up to the two scratch buffers of the hex encoder. *)
Definition same_transfer_state (p p' : SerialStoragePlugin.t) : Prop :=
  SerialStoragePlugin.initialized p' = SerialStoragePlugin.initialized p
  /\ SerialStoragePlugin.debugEnabled p' = SerialStoragePlugin.debugEnabled p
  /\ SerialStoragePlugin.transferInProgress p'
     = SerialStoragePlugin.transferInProgress p
  /\ SerialStoragePlugin.currentFilename p' = SerialStoragePlugin.currentFilename p
  /\ SerialStoragePlugin.totalBytesTransferred p'
     = SerialStoragePlugin.totalBytesTransferred p
  /\ SerialStoragePlugin.totalFilesTransferred p'
     = SerialStoragePlugin.totalFilesTransferred p.

(** The hex text of a run of bytes, as [sendHexLine] writes a line of at
    most eight bytes. *)
Definition hex_text (bs : list Z) : list Z := concat (map hex_pair bs).

(** A character of [hexChars]. *)
Definition hex_char (c : Z) : Prop := 48 <= c <= 57 \/ 65 <= c <= 70.

(** A character that does not end a line. *)
Definition in_line (c : Z) : Prop := c <> 13 /\ c <> 10.

(** A character [isValidFilename] lets through: printable 7-bit and none
    of the nine it names (slash, backslash, colon, star, question mark,
    double quote, less, greater, bar). *)
Definition allowed_char (c : Z) : Prop :=
  32 <= c <= 127 /\ ~ In c [47; 92; 58; 42; 63; 34; 60; 62; 124].

(** The two slot pins say that no card can be written. *)
Definition no_writable_card {V : Type} `{SdSlot V} (v : V) : Prop :=
  sd_detect_pin v = HIGH \/ sd_write_protect_pin v = HIGH.


(** A root entry that [listFiles] of the SD plugin shows: a file whose
    name has at most seven characters. *)
Definition sd_listed (e : list Z * bool) : bool :=
  negb (snd e) && (length (before_nul (fst e)) <=? 7)%nat.

(** The characters [sendHexLine] composes for the bytes of one line,
    before the line buffer cuts them: each byte as two hex digits and a
    blank behind every eighth byte that is not the last of the line.
    [k] is the position of the first byte, [n] the number of bytes of
    the line. *)
Fixpoint spaced_hex (k n : Z) (bs : list Z) : list Z :=
  match bs with
  | [] => []
  | b :: rest =>
      hex_pair b
      ++ (if ((k + 1) mod 8 =? 0) && (k <? n - 1) then [32] else [])
      ++ spaced_hex (k + 1) n rest
  end.

(** One data line as it is sent: behind the address when debugging is
    on, cut to the 63 characters the line buffer holds. *)
Definition data_line (debug : bool) (address : Z) (bs : list Z) : list Z :=
  take 63 ((if debug then SerialStoragePlugin.format_address address else [])
           ++ spaced_hex 0 (Z.of_nat (length bs)) bs).

(** The progress line sent with debugging on. *)
Definition progress_line (name : list Z) (sent total : Z) : list Z :=
  cstr "PROGRESS:" ++ name ++ cstr ":" ++ Uart.printNumber sent ++ cstr "/"
  ++ Uart.printNumber total ++ cstr " ("
  ++ Uart.printNumber (u8 (if 0 <? total then u32 (sent * 100) / total else 0))
  ++ cstr "%)" ++ Uart.CRLF.

(** A list cut into runs of 32, the last one shorter. *)
Fixpoint chunks32_fuel (fuel : nat) (l : list Z) : list (list Z) :=
  match fuel with
  | O => []
  | S fuel' =>
      match l with
      | [] => []
      | _ :: _ => take 32 l :: chunks32_fuel fuel' (drop 32 l)
      end
  end.

Definition chunks32 (l : list Z) : list (list Z) := chunks32_fuel (length l) l.

(** What [streamFile] sends between header and footer: one data line
    per run of 32 bytes, each ended by CR LF, the address counting the
    bytes before the line; with debugging on a progress line follows
    whenever the bytes sent so far are a multiple of 1024. *)
Fixpoint stream_lines (debug : bool) (name : list Z) (total : Z)
  (chunks : list (list Z)) (address sent : Z) : list Z :=
  match chunks with
  | [] => []
  | chunk :: rest =>
      let sent1 := sent + Z.of_nat (length chunk) in
      data_line debug address chunk ++ Uart.CRLF
      ++ (if debug && (sent1 mod 1024 =? 0)
          then progress_line name sent1 total else [])
      ++ stream_lines debug name total rest
                      (u32 (address + Z.of_nat (length chunk))) sent1
  end.

(** ** The strobe handler *)

Lemma u32_add_l (a b : Z) : u32 (u32 a + b) = u32 (a + b).
Proof. unfold u32, wrap. apply Zplus_mod_idemp_l. Qed.

Lemma u32_small (a : Z) : 0 <= a < 2 ^ 32 -> u32 a = a.
Proof. intros Ha. unfold u32, wrap. apply Z.mod_small. exact Ha. Qed.

Lemma handleInterrupt_trace (N : Z) (i : ParallelPortManager.IsrInput)
  (m : ParallelPortManager.t) :
  ParallelPortManager.captureEnabled m = true ->
  ParallelPortManager.initialized m = true ->
  snd (ParallelPortManager.handleInterrupt N i m)
  = handshake i (negb (RingBuffer.isFull N (ParallelPortManager.ringBuffer m))).
Proof.
  intros He Hi.
  unfold ParallelPortManager.handleInterrupt, RingBuffer.write, RingBuffer.isFull.
  rewrite He, Hi. cbn [negb orb].
  destruct (N <=? RingBuffer.count (ParallelPortManager.ringBuffer m));
    reflexivity.
Qed.

Lemma handshake_released_after_ack (i : ParallelPortManager.IsrInput)
  (stored : bool) : released_after_ack (handshake i stored).
Proof.
  intros k Hk.
  do 14 (destruct k as [|k]; [discriminate Hk|]).
  destruct k as [|k]; [|destruct k; discriminate Hk].
  exists 0%nat, 10%nat, 11%nat, 13%nat,
    (ParallelPortManager.read_data i), stored.
  repeat split; try lia; reflexivity.
Qed.

(** *** Counters across a burst of strobes *)

Lemma handleInterrupt_fields (N : Z) (i : ParallelPortManager.IsrInput)
  (m : ParallelPortManager.t) :
  ParallelPortManager.captureEnabled m = true ->
  ParallelPortManager.initialized m = true ->
  let m' := fst (ParallelPortManager.handleInterrupt N i m) in
  let c := RingBuffer.count (ParallelPortManager.ringBuffer m) in
  ParallelPortManager.captureEnabled m' = true
  /\ ParallelPortManager.initialized m' = true
  /\ ParallelPortManager.overflowCount m' = ParallelPortManager.overflowCount m
  /\ ParallelPortManager.totalInterrupts m'
     = u32 (ParallelPortManager.totalInterrupts m + 1)
  /\ (c < N ->
      RingBuffer.count (ParallelPortManager.ringBuffer m') = c + 1
      /\ RingBuffer.overflowFlag (ParallelPortManager.ringBuffer m')
         = RingBuffer.overflowFlag (ParallelPortManager.ringBuffer m)
      /\ ParallelPortManager.bytesReceived m'
         = u32 (ParallelPortManager.bytesReceived m + 1))
  /\ (N <= c ->
      RingBuffer.count (ParallelPortManager.ringBuffer m') = c
      /\ RingBuffer.overflowFlag (ParallelPortManager.ringBuffer m') = true
      /\ ParallelPortManager.bytesReceived m'
         = ParallelPortManager.bytesReceived m).
Proof.
  intros He Hi.
  unfold ParallelPortManager.handleInterrupt, RingBuffer.write.
  rewrite He, Hi. cbn [negb orb].
  destruct (N <=? RingBuffer.count (ParallelPortManager.ringBuffer m)) eqn:Hc;
    cbn; repeat split; try assumption; try reflexivity; intros; lia.
Qed.

(** The handler never touches the overflow counter, whatever the state. *)
Lemma handleInterrupt_overflowCount (N : Z)
  (i : ParallelPortManager.IsrInput) (m : ParallelPortManager.t) :
  ParallelPortManager.overflowCount
    (fst (ParallelPortManager.handleInterrupt N i m))
  = ParallelPortManager.overflowCount m.
Proof.
  unfold ParallelPortManager.handleInterrupt, RingBuffer.write.
  destruct (negb (ParallelPortManager.captureEnabled m)
            || negb (ParallelPortManager.initialized m)); [reflexivity|].
  destruct (N <=? RingBuffer.count (ParallelPortManager.ringBuffer m));
    reflexivity.
Qed.

Lemma strobes_counts (N : Z) (ins : list ParallelPortManager.IsrInput) :
  forall m : ParallelPortManager.t,
    ParallelPortManager.captureEnabled m = true ->
    ParallelPortManager.initialized m = true ->
    0 <= RingBuffer.count (ParallelPortManager.ringBuffer m) <= N ->
    0 <= ParallelPortManager.bytesReceived m < 2 ^ 32 ->
    0 <= ParallelPortManager.totalInterrupts m < 2 ^ 32 ->
    let m' := fst (ParallelPortManager.strobes N ins m) in
    let c := RingBuffer.count (ParallelPortManager.ringBuffer m) in
    let k := Z.of_nat (length ins) in
    RingBuffer.count (ParallelPortManager.ringBuffer m') = Z.min N (c + k)
    /\ RingBuffer.overflowFlag (ParallelPortManager.ringBuffer m')
       = RingBuffer.overflowFlag (ParallelPortManager.ringBuffer m)
         || (N <? c + k)
    /\ ParallelPortManager.overflowCount m' = ParallelPortManager.overflowCount m
    /\ ParallelPortManager.totalInterrupts m'
       = u32 (ParallelPortManager.totalInterrupts m + k)
    /\ ParallelPortManager.bytesReceived m'
       = u32 (ParallelPortManager.bytesReceived m + (Z.min N (c + k) - c)).
Proof.
  induction ins as [|i ins IH]; intros m He Hi Hc Hb Ht.
  - cbn. rewrite Z.add_0_r.
    replace (N <? RingBuffer.count (ParallelPortManager.ringBuffer m))
      with false by (symmetry; apply Z.ltb_ge; lia).
    rewrite orb_false_r, Z.min_r by lia.
    rewrite Z.sub_diag, !Z.add_0_r, !u32_small by assumption.
    repeat split.
  - cbn [ParallelPortManager.strobes length].
    destruct (ParallelPortManager.handleInterrupt N i m) as [m1 ev1] eqn:H1.
    destruct (ParallelPortManager.strobes N ins m1) as [m2 ev2] eqn:H2.
    cbn [fst].
    pose proof (handleInterrupt_fields N i m He Hi) as F.
    rewrite H1 in F. cbn [fst] in F.
    destruct F as (He1 & Hi1 & Ho1 & Ht1 & Hfree & Hfull).
    assert (Hb1 : 0 <= ParallelPortManager.bytesReceived m1 < 2 ^ 32).
    { destruct (Z_lt_le_dec
                  (RingBuffer.count (ParallelPortManager.ringBuffer m)) N)
        as [Hlt|Hge].
      - destruct (Hfree Hlt) as (_ & _ & ->). apply Z.mod_pos_bound. lia.
      - destruct (Hfull Hge) as (_ & _ & ->). exact Hb. }
    assert (Ht1' : 0 <= ParallelPortManager.totalInterrupts m1 < 2 ^ 32)
      by (rewrite Ht1; apply Z.mod_pos_bound; lia).
    assert (Hc1 : 0 <= RingBuffer.count (ParallelPortManager.ringBuffer m1) <= N).
    { destruct (Z_lt_le_dec
                  (RingBuffer.count (ParallelPortManager.ringBuffer m)) N)
        as [Hlt|Hge].
      - destruct (Hfree Hlt) as (-> & _ & _). lia.
      - destruct (Hfull Hge) as (-> & _ & _). lia. }
    specialize (IH m1 He1 Hi1 Hc1 Hb1 Ht1').
    rewrite H2 in IH. cbn [fst] in IH.
    destruct IH as (IHc & IHf & IHo & IHt & IHb).
    rewrite Nat2Z.inj_succ.
    destruct (Z_lt_le_dec
                (RingBuffer.count (ParallelPortManager.ringBuffer m)) N)
      as [Hlt|Hge].
    + destruct (Hfree Hlt) as (Ec & Ef & Eb).
      rewrite IHc, IHf, IHo, IHt, IHb, Ec, Ef, Eb, Ho1, Ht1, !u32_add_l.
      rewrite <- !Z.add_assoc, !(Z.add_1_l (Z.of_nat (length ins))).
      repeat split; f_equal; lia.
    + destruct (Hfull Hge) as (Ec & Ef & Eb).
      rewrite IHc, IHf, IHo, IHt, IHb, Ec, Ef, Eb, Ho1, Ht1, !u32_add_l.
      assert (Hk : 0 <= Z.of_nat (length ins)) by lia.
      replace (N <? RingBuffer.count (ParallelPortManager.ringBuffer m)
                    + Z.succ (Z.of_nat (length ins)))
        with true by (symmetry; apply Z.ltb_lt; lia).
      rewrite orb_true_r. cbn [orb].
      repeat split; try lia; f_equal; lia.
Qed.

Lemma strobes_enabled (N : Z) (ins : list ParallelPortManager.IsrInput) :
  forall m : ParallelPortManager.t,
    ParallelPortManager.captureEnabled m = true ->
    ParallelPortManager.initialized m = true ->
    ParallelPortManager.initialized
      (fst (ParallelPortManager.strobes N ins m)) = true.
Proof.
  induction ins as [|i ins IH]; intros m He Hi; [exact Hi|].
  cbn [ParallelPortManager.strobes].
  destruct (handleInterrupt_fields N i m He Hi) as (He1 & Hi1 & _).
  destruct (ParallelPortManager.handleInterrupt N i m) as [m1 ev1].
  cbn [fst] in He1, Hi1. specialize (IH m1 He1 Hi1).
  destruct (ParallelPortManager.strobes N ins m1). exact IH.
Qed.

(** C7.  In the 16-byte configuration, twenty strobes into the empty
    queue with nothing else running leave 16 bytes enqueued, the
    overflow flag latched and [totalInterrupts = 20], but the overflow
    counter is still 0: the handler does not count the four dropped
    bytes.  The next [update()] finds the flag, counts one overflow and
    clears the flag. *)
Theorem C7_overflow_counter_after_twenty_strobes :
  forall ins : list ParallelPortManager.IsrInput,
    length ins = 20%nat ->
    let m := fst (ParallelPortManager.strobes 16 ins receiver16) in
    let m1 := snd (fst (ParallelPortManager.update m)) in
    RingBuffer.count (ParallelPortManager.ringBuffer m) = 16
    /\ ParallelPortManager.bytesReceived m = 16
    /\ ParallelPortManager.totalInterrupts m = 20
    /\ RingBuffer.overflowFlag (ParallelPortManager.ringBuffer m) = true
    /\ ParallelPortManager.overflowCount m = 0
    /\ ParallelPortManager.overflowCount m1 = 1
    /\ RingBuffer.overflowFlag (ParallelPortManager.ringBuffer m1) = false.
Proof.
  intros ins Hlen m m1.
  destruct (strobes_counts 16 ins receiver16 eq_refl eq_refl)
    as (Hc & Hf & Ho & Ht & Hb); try (cbn; lia).
  fold m in Hc, Hf, Ho, Ht, Hb.
  rewrite Hlen in Hc, Hf, Ht, Hb.
  change (RingBuffer.count (ParallelPortManager.ringBuffer m) = 16) in Hc.
  change (RingBuffer.overflowFlag (ParallelPortManager.ringBuffer m) = true)
    in Hf.
  change (ParallelPortManager.overflowCount m = 0) in Ho.
  change (ParallelPortManager.totalInterrupts m = 20) in Ht.
  change (ParallelPortManager.bytesReceived m = 16) in Hb.
  assert (Hi : ParallelPortManager.initialized m = true)
    by (apply strobes_enabled; reflexivity).
  assert (Hu : m1 = ParallelPortManager.mk
                      (ParallelPortManager.initialized m)
                      (ParallelPortManager.captureEnabled m)
                      (ParallelPortManager.bytesReceived m)
                      (u32 (ParallelPortManager.overflowCount m + 1))
                      (ParallelPortManager.lastInterruptTime m)
                      (ParallelPortManager.debugEnabled m)
                      (ParallelPortManager.busyAsserted m)
                      (ParallelPortManager.errorState m)
                      (ParallelPortManager.totalInterrupts m)
                      (ParallelPortManager.maxISRTime m)
                      (ParallelPortManager.avgISRTime m)
                      (RingBuffer.clearOverflow
                         (ParallelPortManager.ringBuffer m))).
  { unfold m1, ParallelPortManager.update, RingBuffer.hasOverflow.
    rewrite Hi, Hf. reflexivity. }
  repeat split; try assumption.
  - rewrite Hu. cbn [ParallelPortManager.overflowCount]. rewrite Ho.
    reflexivity.
  - rewrite Hu. reflexivity.
Qed.

Lemma C7_witness :
  let ins := map (fun k => Scenario.pulse (30 * Z.of_nat k) (Z.of_nat k))
                 (seq 0 20) in
  ParallelPortManager.overflowCount
    (fst (ParallelPortManager.strobes 16 ins receiver16)) = 0
  /\ ParallelPortManager.totalInterrupts
       (fst (ParallelPortManager.strobes 16 ins receiver16)) = 20.
Proof.
  destruct (C7_overflow_counter_after_twenty_strobes
              (map (fun k => Scenario.pulse (30 * Z.of_nat k) (Z.of_nat k))
                   (seq 0 20)) eq_refl)
    as (_ & _ & Ht & _ & Ho & _).
  split; [exact Ho | exact Ht].
Defined.

(** ** The flat file system: lookup *)

Lemma equalsIgnoreCase_strlen (str1 : list Z) (str1Len : Z) (str2 : list Z) :
  MemoryUtils.equalsIgnoreCase str1 str1Len str2 = true ->
  str1Len = MemoryUtils.strlen str2.
Proof.
  unfold MemoryUtils.equalsIgnoreCase.
  destruct (str1Len =? MemoryUtils.strlen str2) eqn:E; cbn [negb].
  - intros _. apply Z.eqb_eq. exact E.
  - discriminate.
Qed.

Lemma findFileEntry_from_needs_8 (dir : list EEPROMStoragePlugin.FileEntry)
  (name : list Z) :
  length name <> 8%nat ->
  forall i : nat, EEPROMStoragePlugin.findFileEntry_from i dir name = None.
Proof.
  intros Hlen. induction dir as [|e dir IH]; intros i; [reflexivity|].
  cbn [EEPROMStoragePlugin.findFileEntry_from].
  destruct (MemoryUtils.equalsIgnoreCase (EEPROMStoragePlugin.filename e)
              MAX_FILENAME_LENGTH name) eqn:E.
  - apply equalsIgnoreCase_strlen in E.
    unfold MemoryUtils.strlen, MAX_FILENAME_LENGTH in E. lia.
  - rewrite andb_false_r. apply IH.
Qed.

(** The lookup compares every slot name as an 8-character string, so no
    name of another length is ever found. *)
Lemma findFileEntry_needs_8 (p : EEPROMStoragePlugin.t) (name : list Z) :
  length name <> 8%nat -> EEPROMStoragePlugin.findFileEntry p name = None.
Proof.
  intros Hlen. unfold EEPROMStoragePlugin.findFileEntry.
  apply findFileEntry_from_needs_8. exact Hlen.
Qed.

(** C1.  Whatever [writeFile] answered, a following [readFile] of the
    same name returns 0 and stores nothing, for every name that is not
    exactly eight characters long (so for every name the manager
    accepts): the written content cannot be read back. *)
Theorem C1_read_after_write_returns_nothing :
  forall (p : EEPROMStoragePlugin.t) (f : Flash.t) (name data : list Z)
         (size maxSize : Z),
    length name <> 8%nat ->
    let '(p', f', _) := EEPROMStoragePlugin.writeFile p f name data size in
    EEPROMStoragePlugin.readFile p' f' name maxSize = (0, []).
Proof.
  intros p f name data size maxSize Hlen.
  destruct (EEPROMStoragePlugin.writeFile p f name data size) as [[p' f'] n].
  unfold EEPROMStoragePlugin.readFile.
  rewrite (findFileEntry_needs_8 p' name Hlen).
  destruct (negb (EEPROMStoragePlugin.initialized p') || (maxSize =? 0));
    reflexivity.
Qed.

Lemma C1_witness :
  let w := EEPROMStoragePlugin.writeFile (fst Scenario.mounted)
             (snd Scenario.mounted) (cstr "data") [72; 105; 10] 3 in
  snd w = 3
  /\ EEPROMStoragePlugin.readFile (fst (fst w)) (snd (fst w)) (cstr "data") 3
     = (0, []).
Proof.
  intros w. split; [vm_compute; reflexivity|].
  assert (Hlen : length (cstr "data") <> 8%nat) by (vm_compute; discriminate).
  pose proof (C1_read_after_write_returns_nothing
                (fst Scenario.mounted) (snd Scenario.mounted)
                (cstr "data") [72; 105; 10] 3 3 Hlen) as W.
  fold w in W. destruct w as [[p' f'] written]. exact W.
Defined.

(** ** The flat file system: directory integrity *)

Lemma not32_lxor (s c : Z) :
  s = EEPROMStoragePlugin.not32 c -> Z.lxor s c = 4294967295.
Proof.
  intros ->. unfold EEPROMStoragePlugin.not32.
  rewrite (Z.lxor_comm c), Z.lxor_assoc, Z.lxor_nilpotent.
  apply Z.lxor_0_r.
Qed.

Lemma safeStrlen_first (str : list Z) :
  MemoryUtils.safeStrlen str MAX_FILENAME_LENGTH <> 0 ->
  MemoryUtils.char_at str 0 <> 0.
Proof.
  unfold MemoryUtils.safeStrlen, MAX_FILENAME_LENGTH.
  change (Z.to_nat 8) with 8%nat.
  cbn [MemoryUtils.safeStrlen_loop].
  change (0 <? 8) with true. cbn [andb].
  destruct (MemoryUtils.char_at str 0 =? 0) eqn:E; cbn [negb].
  - intros Hne. exfalso. apply Hne. reflexivity.
  - intros _. apply Z.eqb_neq. exact E.
Qed.

Lemma validateFileEntry_ok (e : EEPROMStoragePlugin.FileEntry) :
  EEPROMStoragePlugin.validateFileEntry e = true -> checked_entry_ok e.
Proof.
  unfold EEPROMStoragePlugin.validateFileEntry, checked_entry_ok.
  destruct (EEPROMStoragePlugin.sizeBytes e
            =? EEPROMStoragePlugin.not32 (EEPROMStoragePlugin.sizeComplement e))
    eqn:Ec; cbn [negb]; [|discriminate].
  destruct (EEPROMStoragePlugin.startSector e
            <? EEPROMStoragePlugin.DATA_START_SECTOR) eqn:Elo;
    cbn [orb]; [discriminate|].
  destruct (EEPROMStoragePlugin.TOTAL_SECTORS
            <=? EEPROMStoragePlugin.startSector e) eqn:Ehi; [discriminate|].
  destruct (MemoryUtils.safeStrlen (EEPROMStoragePlugin.filename e)
              MAX_FILENAME_LENGTH =? 0) eqn:En; [discriminate|].
  intros _. repeat split.
  - apply not32_lxor. apply Z.eqb_eq. exact Ec.
  - apply Z.ltb_ge. exact Elo.
  - apply Z.leb_gt. exact Ehi.
  - apply safeStrlen_first. apply Z.eqb_neq. exact En.
Qed.

Lemma set_status_deleted_not_active (e : EEPROMStoragePlugin.FileEntry) :
  ~ active (EEPROMStoragePlugin.set_status e EEPROMStoragePlugin.STATUS_DELETED).
Proof. unfold active. cbn. discriminate. Qed.

Lemma loadDirectory_loop_valid (dir : list EEPROMStoragePlugin.FileEntry) :
  forall (tf df nf : Z) (e : EEPROMStoragePlugin.FileEntry),
    In e (fst (fst (fst (EEPROMStoragePlugin.loadDirectory_loop dir tf df nf)))) ->
    active e ->
    EEPROMStoragePlugin.validateFileEntry e = true.
Proof.
  induction dir as [|d dir IH]; intros tf df nf e Hin Hact; [destruct Hin|].
  cbn [EEPROMStoragePlugin.loadDirectory_loop] in Hin.
  destruct (EEPROMStoragePlugin.status d =? EEPROMStoragePlugin.STATUS_ACTIVE)
    eqn:Es.
  - destruct (EEPROMStoragePlugin.validateFileEntry d) eqn:Ev.
    + match type of Hin with
      | context [EEPROMStoragePlugin.loadDirectory_loop dir ?a ?b ?c] =>
          specialize (IH a b c e);
          destruct (EEPROMStoragePlugin.loadDirectory_loop dir a b c)
            as [[[rest1 tf1] df1] nf1]
      end.
      cbn [fst] in Hin, IH. destruct Hin as [<-|Hin]; [exact Ev|].
      apply IH; assumption.
    + match type of Hin with
      | context [EEPROMStoragePlugin.loadDirectory_loop dir ?a ?b ?c] =>
          specialize (IH a b c e);
          destruct (EEPROMStoragePlugin.loadDirectory_loop dir a b c)
            as [[[rest1 tf1] df1] nf1]
      end.
      cbn [fst] in Hin, IH. destruct Hin as [<-|Hin].
      * exfalso. exact (set_status_deleted_not_active d Hact).
      * apply IH; assumption.
  - destruct (EEPROMStoragePlugin.status d =? EEPROMStoragePlugin.STATUS_DELETED).
    + match type of Hin with
      | context [EEPROMStoragePlugin.loadDirectory_loop dir ?a ?b ?c] =>
          specialize (IH a b c e);
          destruct (EEPROMStoragePlugin.loadDirectory_loop dir a b c)
            as [[[rest1 tf1] df1] nf1]
      end.
      cbn [fst] in Hin, IH. destruct Hin as [<-|Hin].
      * exfalso. unfold active in Hact. rewrite Hact in Es.
        discriminate Es.
      * apply IH; assumption.
    + match type of Hin with
      | context [EEPROMStoragePlugin.loadDirectory_loop dir ?a ?b ?c] =>
          specialize (IH a b c e);
          destruct (EEPROMStoragePlugin.loadDirectory_loop dir a b c)
            as [[[rest1 tf1] df1] nf1]
      end.
      cbn [fst] in Hin, IH. destruct Hin as [<-|Hin].
      * exfalso. unfold active in Hact. rewrite Hact in Es.
        discriminate Es.
      * apply IH; assumption.
Qed.

Lemma loadDirectory_valid (p : EEPROMStoragePlugin.t) (f : Flash.t)
  (e : EEPROMStoragePlugin.FileEntry) :
  In e (EEPROMStoragePlugin.directory
          (fst (EEPROMStoragePlugin.loadDirectory p f))) ->
  active e ->
  EEPROMStoragePlugin.validateFileEntry e = true.
Proof.
  unfold EEPROMStoragePlugin.loadDirectory, EEPROMStoragePlugin.readData.
  change (EEPROMStoragePlugin.sizeof_directory =? 0) with false.
  cbv iota.
  pose proof (loadDirectory_loop_valid
                (EEPROMStoragePlugin.directory_of_bytes
                   (Z.to_nat EEPROMStoragePlugin.MAX_FILES)
                   (Flash.read_data f 0 EEPROMStoragePlugin.sizeof_directory))
                0 0 EEPROMStoragePlugin.DATA_START_SECTOR e) as L.
  destruct (EEPROMStoragePlugin.loadDirectory_loop _ 0 0
              EEPROMStoragePlugin.DATA_START_SECTOR) as [[[dir1 tf] df] nf].
  cbn [fst EEPROMStoragePlugin.directory] in *. exact L.
Qed.

Lemma fsck_loop_valid (dir : list EEPROMStoragePlugin.FileEntry) :
  forall e : EEPROMStoragePlugin.FileEntry,
    In e (fst (EEPROMStoragePlugin.fsck_loop dir)) ->
    active e ->
    EEPROMStoragePlugin.validateFileEntry e = true.
Proof.
  induction dir as [|d dir IH]; intros e Hin Hact; [destruct Hin|].
  cbn [EEPROMStoragePlugin.fsck_loop] in Hin.
  destruct (EEPROMStoragePlugin.fsck_loop dir) as [rest1 hasErrors].
  cbn [fst] in IH.
  destruct (EEPROMStoragePlugin.status d =? EEPROMStoragePlugin.STATUS_ACTIVE)
    eqn:Es;
    destruct (EEPROMStoragePlugin.validateFileEntry d) eqn:Ev;
    cbn [negb andb fst] in Hin;
    destruct Hin as [<-|Hin]; try (apply IH; assumption).
  - exact Ev.
  - exfalso. exact (set_status_deleted_not_active d Hact).
  - exact Ev.
  - exfalso. unfold active in Hact. rewrite Hact in Es. discriminate Es.
Qed.

Lemma fsck_valid (p : EEPROMStoragePlugin.t) (f : Flash.t)
  (e : EEPROMStoragePlugin.FileEntry) :
  EEPROMStoragePlugin.initialized p = true ->
  In e (EEPROMStoragePlugin.directory
          (fst (fst (EEPROMStoragePlugin.fsck p f)))) ->
  active e ->
  EEPROMStoragePlugin.validateFileEntry e = true.
Proof.
  intros Hi. unfold EEPROMStoragePlugin.fsck. rewrite Hi. cbn [negb].
  pose proof (fsck_loop_valid (EEPROMStoragePlugin.directory p) e) as L.
  destruct (EEPROMStoragePlugin.fsck_loop (EEPROMStoragePlugin.directory p))
    as [dir1 hasErrors].
  cbn [fst] in L. destruct hasErrors.
  - destruct (EEPROMStoragePlugin.saveDirectory
                (EEPROMStoragePlugin.set_directory p dir1) f) as [f1 saved].
    pose proof (loadDirectory_valid
                  (EEPROMStoragePlugin.set_directory p dir1) f1 e) as L2.
    destruct (EEPROMStoragePlugin.loadDirectory
                (EEPROMStoragePlugin.set_directory p dir1) f1) as [p2 loaded].
    cbn [fst] in *. exact L2.
  - cbn [fst EEPROMStoragePlugin.directory EEPROMStoragePlugin.set_directory].
    exact L.
Qed.

(** What the mount and [fsck] do enforce: every slot they leave ACTIVE
    satisfies [size xor size_complement = 0xFFFFFFFF], [DATA_START <=
    start_sector < TOTAL_SECTORS] and has a non-empty name. *)
Lemma active_entries_are_checked :
  forall (p : EEPROMStoragePlugin.t) (f : Flash.t)
         (e : EEPROMStoragePlugin.FileEntry),
    active e ->
    (In e (EEPROMStoragePlugin.directory
             (fst (EEPROMStoragePlugin.loadDirectory p f))) ->
     checked_entry_ok e)
    /\ (EEPROMStoragePlugin.initialized p = true ->
        In e (EEPROMStoragePlugin.directory
                (fst (fst (EEPROMStoragePlugin.fsck p f)))) ->
        checked_entry_ok e).
Proof.
  intros p f e Hact. split.
  - intros Hin. apply validateFileEntry_ok.
    apply (loadDirectory_valid p f); assumption.
  - intros Hi Hin. apply validateFileEntry_ok.
    apply (fsck_valid p f); assumption.
Qed.

(** C6.  The claim fails on the code.  [validateFileEntry] checks where
    an extent starts, not where it ends.  A chip whose directory holds
    an ACTIVE slot that starts in the last sector and is two sectors
    long mounts without error; the slot passes the check and stays
    ACTIVE although its extent ends behind the chip, [fsck] finds
    nothing wrong with it, and the next free sector becomes 4097 of
    4096, so that the available space wraps around to 4294963200
    bytes. *)
Theorem C6_overlong_extent_stays_active :
  let r := EEPROMStoragePlugin.initialize EEPROMStoragePlugin.ctor
             Scenario.overlong_chip in
  let p := fst (fst r) in
  let e := Scenario.overlong_entry in
  snd r = STATUS_OK
  /\ In e (EEPROMStoragePlugin.directory
             (fst (EEPROMStoragePlugin.loadDirectory EEPROMStoragePlugin.ctor
                     Scenario.overlong_chip)))
  /\ In e (EEPROMStoragePlugin.directory p)
  /\ active e
  /\ EEPROMStoragePlugin.validateFileEntry e = true
  /\ ~ spec_entry_ok e
  /\ EEPROMStoragePlugin.startSector e
     + EEPROMStoragePlugin.getSectorCount (EEPROMStoragePlugin.sizeBytes e)
     = EEPROMStoragePlugin.TOTAL_SECTORS + 1
  /\ snd (EEPROMStoragePlugin.fsck p Scenario.overlong_chip) = true
  /\ In e (EEPROMStoragePlugin.directory
             (fst (fst (EEPROMStoragePlugin.fsck p Scenario.overlong_chip))))
  /\ EEPROMStoragePlugin.nextFreeSector p = 4097
  /\ EEPROMStoragePlugin.getAvailableSpace p = 4294963200
  /\ EEPROMStoragePlugin.getTotalSpace = 16773120.
Proof.
  cbv zeta.
  split; [vm_compute; reflexivity|].
  split; [vm_compute; left; reflexivity|].
  split; [vm_compute; left; reflexivity|].
  split; [reflexivity|].
  split; [vm_compute; reflexivity|].
  split; [intros (_ & _ & Hend); vm_compute in Hend; apply Hend; reflexivity|].
  split; [vm_compute; reflexivity|].
  split; [vm_compute; reflexivity|].
  split; [vm_compute; left; reflexivity|].
  split; vm_compute; auto.
Qed.

(** ** Loops with fuel run to their end *)

Lemma min_page_pos (n : Z) : 0 < n -> 1 <= min n EEPROM_PAGE_SIZE.
Proof.
  intros Hn. unfold min, EEPROM_PAGE_SIZE. destruct (n <? 256); lia.
Qed.

(** The page loop of [writeFile] stops because the data is used up, not
    because the fuel is: any fuel of at least the data length gives the
    same result. *)
Lemma writeFile_loop_fuel (fuel1 : nat) :
  forall (fuel2 : nat) (f : Flash.t) (address : Z) (srcData : list Z)
         (totalWritten : Z),
    (length srcData <= fuel1)%nat ->
    (length srcData <= fuel2)%nat ->
    EEPROMStoragePlugin.writeFile_loop fuel1 f address srcData totalWritten
    = EEPROMStoragePlugin.writeFile_loop fuel2 f address srcData totalWritten.
Proof.
  induction fuel1 as [|fuel1 IH]; intros fuel2 f address srcData totalWritten
                                         H1 H2.
  - destruct srcData; [|cbn in H1; lia].
    destruct fuel2; reflexivity.
  - destruct fuel2 as [|fuel2].
    + destruct srcData; [reflexivity | cbn in H2; lia].
    + cbn [EEPROMStoragePlugin.writeFile_loop].
      destruct (0 <? Z.of_nat (length srcData)) eqn:Hrem; [|reflexivity].
      apply Z.ltb_lt in Hrem.
      destruct (EEPROMStoragePlugin.writePage f (u32 (address + totalWritten))
                  srcData (min (Z.of_nat (length srcData)) EEPROM_PAGE_SIZE))
        as [f1 ok].
      destruct ok; cbn [negb]; [|reflexivity].
      pose proof (min_page_pos _ Hrem) as Hp.
      apply IH; rewrite length_drop; lia.
Qed.

(** ** The flat file system: what a write sends to the chip *)

Lemma no_data_erase_refl (f : Flash.t) : no_data_erase f f.
Proof. exists []. split; [symmetry; apply app_nil_r | reflexivity]. Qed.

Lemma no_data_erase_trans (f g h : Flash.t) :
  no_data_erase f g -> no_data_erase g h -> no_data_erase f h.
Proof.
  intros (c1 & E1 & B1) (c2 & E2 & B2). exists (c1 ++ c2). split.
  - rewrite E2, E1. symmetry. apply app_assoc.
  - rewrite forallb_app, B1, B2. reflexivity.
Qed.

Lemma writePage_no_data_erase (f : Flash.t) (address : Z) (data : list Z)
  (size : Z) :
  no_data_erase f (fst (EEPROMStoragePlugin.writePage f address data size)).
Proof.
  unfold EEPROMStoragePlugin.writePage.
  destruct ((size =? 0) || (EEPROM_PAGE_SIZE <? size)) eqn:Es;
    [apply no_data_erase_refl|].
  apply orb_false_iff in Es. destruct Es as [_ Es]. apply Z.ltb_ge in Es.
  assert (Hlen : is_program
                   (Flash.PageProgram (Flash.addr24 address)
                      (take (Z.to_nat size) data)) = true).
  { cbn [is_program]. apply Z.leb_le. rewrite length_take.
    unfold EEPROM_PAGE_SIZE in *. lia. }
  unfold Flash.page_program, Flash.next_completes, Flash.write_enable.
  cbn [Flash.completes Flash.log Flash.wel Flash.mem Flash.jedec].
  destruct (Flash.completes f); cbn [fst Flash.log];
    eexists; (split; [reflexivity|]); cbn [forallb]; rewrite Hlen;
    reflexivity.
Qed.

Lemma writeFile_loop_no_data_erase (fuel : nat) :
  forall (f : Flash.t) (address : Z) (srcData : list Z) (totalWritten : Z),
    no_data_erase f
      (fst (EEPROMStoragePlugin.writeFile_loop fuel f address srcData
                                               totalWritten)).
Proof.
  induction fuel as [|fuel IH]; intros f address srcData totalWritten;
    [apply no_data_erase_refl|].
  cbn [EEPROMStoragePlugin.writeFile_loop].
  destruct (0 <? Z.of_nat (length srcData)); [|apply no_data_erase_refl].
  pose proof (writePage_no_data_erase f (u32 (address + totalWritten)) srcData
                (min (Z.of_nat (length srcData)) EEPROM_PAGE_SIZE)) as W.
  destruct (EEPROMStoragePlugin.writePage f (u32 (address + totalWritten))
              srcData (min (Z.of_nat (length srcData)) EEPROM_PAGE_SIZE))
    as [f1 ok].
  cbn [fst] in W. destruct ok; cbn [negb]; [|exact W].
  eapply no_data_erase_trans; [exact W | apply IH].
Qed.

Lemma saveDirectory_loop_no_data_erase (fuel : nat) :
  forall (f : Flash.t) (address : Z) (dirData : list Z),
    no_data_erase f
      (fst (EEPROMStoragePlugin.saveDirectory_loop fuel f address dirData)).
Proof.
  induction fuel as [|fuel IH]; intros f address dirData;
    [apply no_data_erase_refl|].
  cbn [EEPROMStoragePlugin.saveDirectory_loop].
  destruct (0 <? Z.of_nat (length dirData)); [|apply no_data_erase_refl].
  pose proof (writePage_no_data_erase f address dirData
                (min (Z.of_nat (length dirData)) EEPROM_PAGE_SIZE)) as W.
  destruct (EEPROMStoragePlugin.writePage f address dirData
              (min (Z.of_nat (length dirData)) EEPROM_PAGE_SIZE)) as [f1 ok].
  cbn [fst] in W. destruct ok; cbn [negb]; [|exact W].
  eapply no_data_erase_trans; [exact W | apply IH].
Qed.

Lemma saveDirectory_no_data_erase (p : EEPROMStoragePlugin.t) (f : Flash.t) :
  no_data_erase f (fst (EEPROMStoragePlugin.saveDirectory p f)).
Proof.
  unfold EEPROMStoragePlugin.saveDirectory.
  assert (E : no_data_erase f
                (fst (EEPROMStoragePlugin.eraseSector f
                        EEPROMStoragePlugin.DIRECTORY_SECTOR))).
  { unfold EEPROMStoragePlugin.eraseSector.
    change (EEPROMStoragePlugin.TOTAL_SECTORS
            <=? EEPROMStoragePlugin.DIRECTORY_SECTOR) with false.
    cbv iota.
    unfold Flash.sector_erase, Flash.next_completes, Flash.write_enable.
    cbn [Flash.completes Flash.log Flash.wel Flash.mem Flash.jedec].
    destruct (Flash.completes f); cbn [fst Flash.log];
      eexists; (split; [reflexivity|reflexivity]). }
  destruct (EEPROMStoragePlugin.eraseSector f
              EEPROMStoragePlugin.DIRECTORY_SECTOR) as [f1 ok].
  cbn [fst] in E. destruct ok; cbn [negb]; [|exact E].
  eapply no_data_erase_trans; [exact E|].
  apply saveDirectory_loop_no_data_erase.
Qed.

Lemma deleteFile_no_data_erase (p : EEPROMStoragePlugin.t) (f : Flash.t)
  (name : list Z) :
  no_data_erase f (snd (fst (EEPROMStoragePlugin.deleteFile p f name))).
Proof.
  unfold EEPROMStoragePlugin.deleteFile.
  destruct (negb (EEPROMStoragePlugin.initialized p));
    [apply no_data_erase_refl|].
  destruct (EEPROMStoragePlugin.findFileEntry p name) as [i|];
    [|apply no_data_erase_refl].
  match goal with
  | |- context [EEPROMStoragePlugin.saveDirectory ?q f] =>
      pose proof (saveDirectory_no_data_erase q f) as S;
      destruct (EEPROMStoragePlugin.saveDirectory q f) as [f1 saved]
  end.
  exact S.
Qed.

(** C4.  A [writeFile] that succeeds has sent the chip nothing but page
    programs of at most 256 bytes and erases of the directory sector:
    the data is written page by page, but no sector of the extent it
    allocated (which starts at sector 1 or later) is erased before the
    data pages are programmed into it. *)
Theorem C4_successful_write_erases_no_data_sector :
  forall (p : EEPROMStoragePlugin.t) (f : Flash.t) (name data : list Z)
         (size : Z),
    snd (EEPROMStoragePlugin.writeFile p f name data size) <> 0 ->
    no_data_erase f
      (snd (fst (EEPROMStoragePlugin.writeFile p f name data size))).
Proof.
  intros p f name data size.
  unfold EEPROMStoragePlugin.writeFile.
  destruct (negb (EEPROMStoragePlugin.initialized p) || (size =? 0));
    [intros Hn; exfalso; apply Hn; reflexivity|].
  assert (D : exists p1 f1,
             match EEPROMStoragePlugin.findFileEntry p name with
             | Some _ =>
                 let '(q, g, _) := EEPROMStoragePlugin.deleteFile p f name in
                 (q, g)
             | None => (p, f)
             end = (p1, f1) /\ no_data_erase f f1).
  { destruct (EEPROMStoragePlugin.findFileEntry p name).
    - pose proof (deleteFile_no_data_erase p f name) as Dl.
      destruct (EEPROMStoragePlugin.deleteFile p f name) as [[q g] b].
      exists q, g. split; [reflexivity | exact Dl].
    - exists p, f. split; [reflexivity | apply no_data_erase_refl]. }
  destruct D as (p1 & f1 & -> & D1).
  destruct (EEPROMStoragePlugin.findEmptyEntry p1) as [entry|];
    [|intros Hn; exfalso; apply Hn; reflexivity].
  destruct (EEPROMStoragePlugin.allocateSectors p1 size) as [p2 startSector].
  destruct (startSector =? 0);
    [intros Hn; exfalso; apply Hn; reflexivity|].
  match goal with
  | |- context [EEPROMStoragePlugin.writeFile_loop ?n f1 ?a ?c 0] =>
      pose proof (writeFile_loop_no_data_erase n f1 a c 0) as W;
      destruct (EEPROMStoragePlugin.writeFile_loop n f1 a c 0) as [f2 ok]
  end.
  cbn [fst] in W.
  destruct ok; cbn [negb];
    [|intros Hn; exfalso; apply Hn; reflexivity].
  match goal with
  | |- context [EEPROMStoragePlugin.saveDirectory ?q f2] =>
      pose proof (saveDirectory_no_data_erase q f2) as S;
      destruct (EEPROMStoragePlugin.saveDirectory q f2) as [f3 saved]
  end.
  cbn [fst] in S.
  destruct saved; cbn [negb];
    [|intros Hn; exfalso; apply Hn; reflexivity].
  intros _. cbn [fst snd].
  eapply no_data_erase_trans; [exact D1|].
  eapply no_data_erase_trans; [exact W | exact S].
Qed.

Lemma C4_witness :
  let w := EEPROMStoragePlugin.writeFile (fst Scenario.mounted)
             (snd Scenario.mounted) (cstr "data") [72; 105; 10] 3 in
  snd w = 3
  /\ no_data_erase (snd Scenario.mounted) (snd (fst w))
  /\ Flash.log (snd (fst w)) !! length (Flash.log (snd Scenario.mounted))
     = Some (Flash.PageProgram 4096 [72; 105; 10]).
Proof.
  intros w. split; [vm_compute; reflexivity|]. split.
  - apply (C4_successful_write_erases_no_data_sector
             (fst Scenario.mounted) (snd Scenario.mounted)
             (cstr "data") [72; 105; 10] 3).
    vm_compute. discriminate.
  - vm_compute. reflexivity.
Defined.

(** What the missing erase costs on this chip: after a file whose byte
    is 0x00, a [format()] and a new file whose byte is 0xFF, the first
    data sector still reads 0x00. *)
Example reused_sector_keeps_old_bits :
  let '(p0, f0) := Scenario.mounted in
  let '(p1, f1, n1) := EEPROMStoragePlugin.writeFile p0 f0 (cstr "a") [0] 1 in
  let '(p2, f2, _) := EEPROMStoragePlugin.format p1 f1 in
  let '(p3, f3, n3) := EEPROMStoragePlugin.writeFile p2 f2 (cstr "b") [255] 1 in
  n1 = 1 /\ n3 = 1
  /\ EEPROMStoragePlugin.startSector (EEPROMStoragePlugin.entry_at p3 0) = 1
  /\ Flash.read_data f3 4096 1 = [0].
Proof. vm_compute. repeat split. Qed.

(** ** The flat file system: a page write that fails *)

Lemma min_page (n : Z) :
  0 < n ->
  (min n EEPROM_PAGE_SIZE =? 0) || (EEPROM_PAGE_SIZE <? min n EEPROM_PAGE_SIZE)
  = false.
Proof.
  intros Hn. unfold min, EEPROM_PAGE_SIZE.
  destruct (n <? 256) eqn:E.
  - apply Z.ltb_lt in E.
    replace (n =? 0) with false by (symmetry; apply Z.eqb_neq; lia).
    replace (256 <? n) with false by (symmetry; apply Z.ltb_ge; lia).
    reflexivity.
  - reflexivity.
Qed.

(** The page loop gives up at the first page program that does not
    complete: page [k] (counted from 0), when the [k] programs before it
    complete and the data has more than [k] pages. *)
Lemma writeFile_loop_stalls (k : nat) :
  forall (fuel : nat) (f : Flash.t) (address : Z) (srcData : list Z)
         (totalWritten : Z) (rest : list bool),
    Flash.completes f = replicate k true ++ false :: rest ->
    Z.of_nat k * EEPROM_PAGE_SIZE < Z.of_nat (length srcData) ->
    (length srcData <= fuel)%nat ->
    snd (EEPROMStoragePlugin.writeFile_loop fuel f address srcData
                                            totalWritten) = false.
Proof.
  induction k as [|k IH];
    intros fuel f address srcData totalWritten rest Hc Hk Hfuel.
  - destruct fuel as [|fuel]; [lia|].
    cbn [EEPROMStoragePlugin.writeFile_loop].
    assert (Hlen : 0 < Z.of_nat (length srcData)) by lia.
    replace (0 <? Z.of_nat (length srcData)) with true
      by (symmetry; apply Z.ltb_lt; exact Hlen).
    unfold EEPROMStoragePlugin.writePage. rewrite (min_page _ Hlen).
    unfold Flash.page_program, Flash.next_completes, Flash.write_enable.
    cbn [Flash.completes]. rewrite Hc. reflexivity.
  - destruct fuel as [|fuel]; [unfold EEPROM_PAGE_SIZE in Hk; lia|].
    cbn [EEPROMStoragePlugin.writeFile_loop].
    assert (Hlen : 0 < Z.of_nat (length srcData))
      by (unfold EEPROM_PAGE_SIZE in Hk; lia).
    replace (0 <? Z.of_nat (length srcData)) with true
      by (symmetry; apply Z.ltb_lt; exact Hlen).
    assert (Hpage : min (Z.of_nat (length srcData)) EEPROM_PAGE_SIZE
                    = EEPROM_PAGE_SIZE).
    { unfold min, EEPROM_PAGE_SIZE in *.
      replace (Z.of_nat (length srcData) <? 256) with false
        by (symmetry; apply Z.ltb_ge; lia).
      reflexivity. }
    rewrite Hpage.
    unfold EEPROMStoragePlugin.writePage.
    change ((EEPROM_PAGE_SIZE =? 0) || (EEPROM_PAGE_SIZE <? EEPROM_PAGE_SIZE))
      with false. cbv iota.
    unfold Flash.page_program, Flash.next_completes, Flash.write_enable.
    cbn [Flash.completes]. rewrite Hc. cbn [replicate app negb].
    apply (IH fuel _ address _ _ rest).
    + reflexivity.
    + rewrite length_drop. unfold EEPROM_PAGE_SIZE in *. lia.
    + rewrite length_drop. unfold EEPROM_PAGE_SIZE. lia.
Qed.

Lemma getSectorCount_pos (size : Z) :
  0 < size < 65536 -> 1 <= EEPROMStoragePlugin.getSectorCount size.
Proof.
  intros Hs. unfold EEPROMStoragePlugin.getSectorCount, u32, wrap,
    EEPROM_SECTOR_SIZE.
  rewrite Z.mod_small by lia.
  apply Z.div_le_lower_bound; lia.
Qed.

(** C5.  When a page program of a [writeFile] does not complete (page
    [k] of the data, the earlier ones having completed), the call
    returns 0 and leaves the directory mirror as it was, but
    [nextFreeSector] stays advanced by the sectors that had been
    reserved: the reservation is not given back. *)
Theorem C5_failed_write_keeps_the_reservation :
  forall (p : EEPROMStoragePlugin.t) (f : Flash.t) (name data : list Z)
         (size : Z) (slot k : nat) (rest : list bool),
    EEPROMStoragePlugin.initialized p = true ->
    0 < size < 65536 ->
    size <= Z.of_nat (length data) ->
    EEPROMStoragePlugin.findFileEntry p name = None ->
    EEPROMStoragePlugin.findEmptyEntry p = Some slot ->
    1 <= EEPROMStoragePlugin.nextFreeSector p ->
    EEPROMStoragePlugin.nextFreeSector p
    + EEPROMStoragePlugin.getSectorCount size
    <= EEPROMStoragePlugin.TOTAL_SECTORS ->
    Flash.completes f = replicate k true ++ false :: rest ->
    Z.of_nat k * EEPROM_PAGE_SIZE < size ->
    let '(p', _, written) :=
      EEPROMStoragePlugin.writeFile p f name data size in
    written = 0
    /\ EEPROMStoragePlugin.directory p' = EEPROMStoragePlugin.directory p
    /\ EEPROMStoragePlugin.nextFreeSector p'
       = EEPROMStoragePlugin.nextFreeSector p
         + EEPROMStoragePlugin.getSectorCount size
    /\ EEPROMStoragePlugin.nextFreeSector p
       < EEPROMStoragePlugin.nextFreeSector p'.
Proof.
  intros p f name data size slot k rest Hi Hs Hd Hfind Hempty Hnext Hfit Hc Hk.
  pose proof (getSectorCount_pos size Hs) as Hcnt.
  unfold EEPROMStoragePlugin.writeFile.
  rewrite Hi, Hfind, Hempty. cbn [negb orb].
  replace (size =? 0) with false by (symmetry; apply Z.eqb_neq; lia).
  unfold EEPROMStoragePlugin.allocateSectors.
  assert (Hsum : u32 (EEPROMStoragePlugin.nextFreeSector p
                      + EEPROMStoragePlugin.getSectorCount size)
                 = EEPROMStoragePlugin.nextFreeSector p
                   + EEPROMStoragePlugin.getSectorCount size).
  { apply u32_small. unfold EEPROMStoragePlugin.TOTAL_SECTORS, EEPROM_SIZE,
      EEPROM_SECTOR_SIZE in Hfit. change (16777216 / 4096) with 4096 in Hfit.
    lia. }
  rewrite Hsum.
  replace (EEPROMStoragePlugin.TOTAL_SECTORS
           <? EEPROMStoragePlugin.nextFreeSector p
              + EEPROMStoragePlugin.getSectorCount size)
    with false by (symmetry; apply Z.ltb_ge; exact Hfit).
  replace (EEPROMStoragePlugin.nextFreeSector p =? 0) with false
    by (symmetry; apply Z.eqb_neq; lia).
  assert (Hlen : Z.of_nat (length (take (Z.to_nat size) data)) = size)
    by (rewrite length_take; lia).
  pose proof (writeFile_loop_stalls k
                (length (take (Z.to_nat size) data)) f
                (u32 (EEPROMStoragePlugin.nextFreeSector p * EEPROM_SECTOR_SIZE))
                (take (Z.to_nat size) data) 0 rest Hc) as St.
  rewrite Hlen in St. specialize (St Hk (Nat.le_refl _)).
  destruct (EEPROMStoragePlugin.writeFile_loop
              (length (take (Z.to_nat size) data)) f
              (u32 (EEPROMStoragePlugin.nextFreeSector p * EEPROM_SECTOR_SIZE))
              (take (Z.to_nat size) data) 0) as [f2 ok].
  cbn [snd] in St. subst ok. cbn [negb].
  cbn [EEPROMStoragePlugin.directory EEPROMStoragePlugin.nextFreeSector
       EEPROMStoragePlugin.set_nextFreeSector].
  repeat split. lia.
Qed.

Lemma C5_witness :
  let p := fst Scenario.mounted in
  let w := EEPROMStoragePlugin.writeFile p Scenario.stalling_chip
             (cstr "a") [65] 1 in
  snd w = 0
  /\ EEPROMStoragePlugin.nextFreeSector p = 1
  /\ EEPROMStoragePlugin.nextFreeSector (fst (fst w)) = 2.
Proof.
  intros p w.
  assert (H1 : EEPROMStoragePlugin.initialized p = true)
    by (vm_compute; reflexivity).
  assert (H2 : 0 < 1 < 65536) by lia.
  assert (H3 : 1 <= Z.of_nat (length [65])) by (cbn; lia).
  assert (H4 : EEPROMStoragePlugin.findFileEntry p (cstr "a") = None)
    by (vm_compute; reflexivity).
  assert (H5 : EEPROMStoragePlugin.findEmptyEntry p = Some 0%nat)
    by (vm_compute; reflexivity).
  assert (H6 : EEPROMStoragePlugin.nextFreeSector p = 1)
    by (vm_compute; reflexivity).
  assert (H7 : EEPROMStoragePlugin.getSectorCount 1 = 1)
    by (vm_compute; reflexivity).
  assert (H8 : Flash.completes Scenario.stalling_chip
               = replicate 0 true ++ [false]) by reflexivity.
  pose proof (C5_failed_write_keeps_the_reservation p Scenario.stalling_chip
                (cstr "a") [65] 1 0%nat 0%nat [] H1 H2 H3 H4 H5) as W.
  rewrite H6, H7 in W.
  specialize (W ltac:(lia) ltac:(vm_compute; discriminate) H8
                ltac:(vm_compute; reflexivity)).
  change (EEPROMStoragePlugin.writeFile p Scenario.stalling_chip
            (cstr "a") [65] 1) with w in W.
  destruct w as [[p' f'] written].
  destruct W as (W0 & _ & W2 & _).
  cbn [fst snd]. split; [exact W0|]. split; [reflexivity|]. exact W2.
Defined.

(** ** The hex stream *)

(** C3.  Nine bytes do not survive the round trip: [streamFile] puts a
    blank behind the eighth byte of a line, and [receiveFile] decodes a
    line in steps of two characters without stepping over that blank, so
    the ninth byte is lost.  A full line of 32 bytes is cut on the
    sending side already: the 64-cell line buffer holds 30 bytes and
    three blanks, the last two bytes are never sent. *)
Theorem C3_nine_bytes_do_not_round_trip :
  Scenario.round_trip [0; 1; 2; 3; 4; 5; 6; 7; 8]
  = (9,
     cstr "BEGIN:A" ++ Uart.CRLF ++ cstr "SIZE:9" ++ Uart.CRLF
     ++ cstr "0001020304050607 08" ++ Uart.CRLF
     ++ cstr "END:A" ++ Uart.CRLF,
     Some [0; 1; 2; 3; 4; 5; 6; 7])
  /\ fst (fst (Scenario.round_trip (map Z.of_nat (seq 0 32))))  = 32
  /\ snd (fst (Scenario.round_trip (map Z.of_nat (seq 0 32))))
     = cstr "BEGIN:A" ++ Uart.CRLF ++ cstr "SIZE:32" ++ Uart.CRLF
       ++ cstr "0001020304050607 08090A0B0C0D0E0F 1011121314151617 18191A1B1C1D"
       ++ Uart.CRLF ++ cstr "END:A" ++ Uart.CRLF.
Proof. vm_compute. repeat split. Qed.

(** Up to eight bytes the framing does round-trip on this input. *)
Example three_bytes_round_trip :
  Scenario.round_trip [16; 32; 48]
  = (3,
     cstr "BEGIN:A" ++ Uart.CRLF ++ cstr "SIZE:3" ++ Uart.CRLF
     ++ cstr "102030" ++ Uart.CRLF ++ cstr "END:A" ++ Uart.CRLF,
     Some [16; 32; 48]).
Proof. vm_compute. reflexivity. Qed.

(** ** The storage manager *)

Section Manager.
Context {V : Type} `{SdSlot V}.

Lemma StorageType_eqb_eq (a b : StorageType) :
  StorageType_eqb a b = true <-> a = b.
Proof. destruct a, b; cbn; split; intros E; congruence. Qed.

Lemma debug_plugins (m : FileSystemManager.t (V := V)) (line : string) :
  FileSystemManager.sdCardPlugin (FileSystemManager.debug m line)
  = FileSystemManager.sdCardPlugin m
  /\ FileSystemManager.eepromPlugin (FileSystemManager.debug m line)
     = FileSystemManager.eepromPlugin m
  /\ FileSystemManager.serialPlugin (FileSystemManager.debug m line)
     = FileSystemManager.serialPlugin m
  /\ FileSystemManager.currentStorage (FileSystemManager.debug m line)
     = FileSystemManager.currentStorage m
  /\ FileSystemManager.currentStorageType (FileSystemManager.debug m line)
     = FileSystemManager.currentStorageType m
  /\ FileSystemManager.initialized (FileSystemManager.debug m line)
     = FileSystemManager.initialized m
  /\ FileSystemManager.transferBuffer (FileSystemManager.debug m line)
     = FileSystemManager.transferBuffer m
  /\ (FileSystemManager.debugEnabled m = false ->
      FileSystemManager.debug m line = m).
Proof.
  unfold FileSystemManager.debug.
  destruct (FileSystemManager.debugEnabled m); cbn; repeat split; congruence.
Qed.

Lemma plugin_isReady_ext (m m' : FileSystemManager.t (V := V)) (r : PluginRef) :
  FileSystemManager.sdCardPlugin m' = FileSystemManager.sdCardPlugin m ->
  FileSystemManager.eepromPlugin m' = FileSystemManager.eepromPlugin m ->
  FileSystemManager.serialPlugin m' = FileSystemManager.serialPlugin m ->
  FileSystemManager.plugin_isReady m' r = FileSystemManager.plugin_isReady m r.
Proof.
  intros E1 E2 E3. unfold FileSystemManager.plugin_isReady.
  rewrite E1, E2, E3. reflexivity.
Qed.

Lemma getPluginByType_ext (m m' : FileSystemManager.t (V := V)) (type : StorageType) :
  FileSystemManager.sdCardPlugin m' = FileSystemManager.sdCardPlugin m ->
  FileSystemManager.eepromPlugin m' = FileSystemManager.eepromPlugin m ->
  FileSystemManager.serialPlugin m' = FileSystemManager.serialPlugin m ->
  FileSystemManager.getPluginByType m' type
  = FileSystemManager.getPluginByType m type.
Proof.
  intros E1 E2 E3. unfold FileSystemManager.getPluginByType.
  rewrite E1, E2, E3. reflexivity.
Qed.

(** The policy of [autoDetectStorage], case by case. *)
Lemma autoDetectStorage_priority (m : FileSystemManager.t (V := V)) :
  let sd := FileSystemManager.plugin_isReady m SdCardObject in
  let ee := FileSystemManager.plugin_isReady m EepromObject in
  let se := FileSystemManager.plugin_isReady m SerialObject in
  (sd = true -> FileSystemManager.autoDetectStorage m = STORAGE_SD_CARD)
  /\ (sd = false -> ee = true ->
      FileSystemManager.autoDetectStorage m = STORAGE_EEPROM)
  /\ (sd = false -> ee = false -> se = true ->
      FileSystemManager.autoDetectStorage m = STORAGE_SERIAL)
  /\ (sd = false -> ee = false -> se = false ->
      FileSystemManager.autoDetectStorage m = STORAGE_SD_CARD).
Proof.
  cbv zeta. unfold FileSystemManager.autoDetectStorage.
  repeat split; intros; repeat match goal with
                         | E : _ = _ |- _ => rewrite E
                         end; reflexivity.
Qed.

(** When some backend is ready, the resolved type has a registered
    plugin and that plugin is ready. *)
Lemma autoDetectStorage_ready (m : FileSystemManager.t (V := V)) :
  FileSystemManager.plugin_isReady m SdCardObject
  || FileSystemManager.plugin_isReady m EepromObject
  || FileSystemManager.plugin_isReady m SerialObject = true ->
  exists r : PluginRef,
    FileSystemManager.getPluginByType m (FileSystemManager.autoDetectStorage m)
    = Some r
    /\ FileSystemManager.plugin_isReady m r = true.
Proof.
  unfold FileSystemManager.autoDetectStorage, FileSystemManager.getPluginByType.
  destruct (FileSystemManager.plugin_isReady m SdCardObject) eqn:Esd.
  { intros _. exists SdCardObject. split; [|exact Esd].
    unfold FileSystemManager.plugin_isReady in Esd.
    destruct (FileSystemManager.sdCardPlugin m); [reflexivity|discriminate]. }
  destruct (FileSystemManager.plugin_isReady m EepromObject) eqn:Eee.
  { intros _. exists EepromObject. split; [|exact Eee].
    unfold FileSystemManager.plugin_isReady in Eee.
    destruct (FileSystemManager.eepromPlugin m); [reflexivity|discriminate]. }
  destruct (FileSystemManager.plugin_isReady m SerialObject) eqn:Ese.
  { intros _. exists SerialObject. split; [|exact Ese].
    unfold FileSystemManager.plugin_isReady in Ese.
    destruct (FileSystemManager.serialPlugin m); [reflexivity|discriminate]. }
  discriminate.
Qed.

Lemma setStorageType_selects (m : FileSystemManager.t (V := V)) (type : StorageType) (r : PluginRef) :
  FileSystemManager.initialized m = true ->
  FileSystemManager.getPluginByType m type = Some r ->
  FileSystemManager.plugin_isReady m r = true ->
  let m' := fst (FileSystemManager.setStorageType m type) in
  FileSystemManager.currentStorageType m' = type
  /\ FileSystemManager.currentStorage m' = Some r
  /\ FileSystemManager.plugin_isReady m' r = true.
Proof.
  intros Hi Hg Hr. cbv zeta. unfold FileSystemManager.setStorageType.
  rewrite Hi, Hg, Hr. cbn [negb fst].
  match goal with
  | |- context [FileSystemManager.debug ?q ?l] =>
      destruct (debug_plugins q l) as (E1 & E2 & E3 & E4 & E5 & _)
  end.
  split; [rewrite E5; reflexivity|].
  split; [rewrite E4; reflexivity|].
  transitivity (FileSystemManager.plugin_isReady m r); [|exact Hr].
  apply plugin_isReady_ext; [rewrite E1|rewrite E2|rewrite E3]; reflexivity.
Qed.

Lemma setStorageType_refuses (m : FileSystemManager.t (V := V)) (type : StorageType) :
  (forall r, FileSystemManager.getPluginByType m type = Some r ->
             FileSystemManager.plugin_isReady m r = false) ->
  let m' := fst (FileSystemManager.setStorageType m type) in
  FileSystemManager.currentStorageType m'
  = FileSystemManager.currentStorageType m
  /\ FileSystemManager.currentStorage m' = FileSystemManager.currentStorage m.
Proof.
  intros Hno. cbv zeta. unfold FileSystemManager.setStorageType.
  destruct (FileSystemManager.initialized m); cbn [negb fst];
    [|split; reflexivity].
  destruct (FileSystemManager.getPluginByType m type) as [r|] eqn:Hg.
  - rewrite (Hno r eq_refl). cbn [negb fst].
    destruct (debug_plugins m "FileSystemManager: Storage type not available")
      as (_ & _ & _ & E4 & E5 & _).
    split; assumption.
  - cbn [fst].
    destruct (debug_plugins m "FileSystemManager: Storage type not available")
      as (_ & _ & _ & E4 & E5 & _).
    split; assumption.
Qed.

Lemma selection_consistent (q : FileSystemManager.t (V := V))
  (type : StorageType) (line : string) :
  let m9 :=
    FileSystemManager.set_initialized
      (FileSystemManager.set_current q
         (FileSystemManager.getPluginByType q type) type) true in
  let m' := FileSystemManager.debug m9 line in
  FileSystemManager.initialized m' = true
  /\ FileSystemManager.currentStorage m'
     = FileSystemManager.getPluginByType m'
         (FileSystemManager.currentStorageType m').
Proof.
  cbv zeta. unfold FileSystemManager.debug.
  match goal with |- context [if ?b then _ else _] => destruct b end;
    split; reflexivity.
Qed.

(** After [initialize()] the selected object is the plugin of the
    selected type. *)
Lemma initialize_selection_consistent (m : FileSystemManager.t (V := V)) :
  FileSystemManager.initialized m = false ->
  snd (FileSystemManager.initialize m) = STATUS_OK ->
  let m' := fst (FileSystemManager.initialize m) in
  FileSystemManager.initialized m' = true
  /\ FileSystemManager.currentStorage m'
     = FileSystemManager.getPluginByType m'
         (FileSystemManager.currentStorageType m').
Proof.
  intros Hi. cbv zeta. unfold FileSystemManager.initialize. rewrite Hi.
  destruct (FileSystemManager.sdCardPlugin m) as [[sd v]|];
    [|cbn [snd]; discriminate].
  destruct (FileSystemManager.eepromPlugin m) as [[ee f]|];
    [|cbn [snd]; discriminate].
  destruct (FileSystemManager.serialPlugin m) as [[se u]|];
    [|cbn [snd]; discriminate].
  destruct (SDCardStoragePlugin.initialize sd v) as [[sd1 v1] r1].
  destruct (EEPROMStoragePlugin.initialize ee f) as [[ee1 f1] r2].
  destruct (SerialStoragePlugin.initialize se) as [se1 r3].
  intros _. cbn [fst]. apply selection_consistent.
Qed.

(** C9.  [autoDetectStorage] resolves SD if ready, else EEPROM if ready,
    else Serial if ready, else SD.  On an [update()] tick of the
    initialized manager whose selected backend is not ready, the policy
    is run again: when some backend is ready the selection becomes the
    resolved backend, which is ready; when none is ready the selection
    stays.  When the selected backend is ready, [update()] changes
    nothing. *)
Theorem C9_auto_policy_and_failover :
  forall (m : FileSystemManager.t (V := V)) (cur : PluginRef),
    FileSystemManager.initialized m = true ->
    FileSystemManager.currentStorage m = Some cur ->
    FileSystemManager.getPluginByType m (FileSystemManager.currentStorageType m)
    = Some cur ->
    let sd := FileSystemManager.plugin_isReady m SdCardObject in
    let ee := FileSystemManager.plugin_isReady m EepromObject in
    let se := FileSystemManager.plugin_isReady m SerialObject in
    let auto := FileSystemManager.autoDetectStorage m in
    let m' := fst (FileSystemManager.update m) in
    auto = (if sd then STORAGE_SD_CARD
            else if ee then STORAGE_EEPROM
            else if se then STORAGE_SERIAL
            else STORAGE_SD_CARD)
    /\ snd (FileSystemManager.update m) = STATUS_OK
    /\ (FileSystemManager.plugin_isReady m cur = true -> m' = m)
    /\ (FileSystemManager.plugin_isReady m cur = false ->
        sd || ee || se = true ->
        FileSystemManager.currentStorageType m' = auto
        /\ FileSystemManager.currentStorage m'
           = FileSystemManager.getPluginByType m auto
        /\ exists r, FileSystemManager.currentStorage m' = Some r
                     /\ FileSystemManager.plugin_isReady m' r = true)
    /\ (FileSystemManager.plugin_isReady m cur = false ->
        sd || ee || se = false ->
        FileSystemManager.currentStorageType m'
        = FileSystemManager.currentStorageType m
        /\ FileSystemManager.currentStorage m'
           = FileSystemManager.currentStorage m).
Proof.
  intros m cur Hi Hcur Hty sd ee se auto m'.
  split; [reflexivity|].
  split.
  { unfold FileSystemManager.update. rewrite Hi, Hcur. cbn [negb].
    destruct (FileSystemManager.plugin_isReady m cur); cbn [negb];
      [reflexivity|].
    destruct (StorageType_eqb (FileSystemManager.autoDetectStorage m)
                (FileSystemManager.currentStorageType m)); reflexivity. }
  split.
  { intros Hr. unfold m', FileSystemManager.update.
    rewrite Hi, Hcur, Hr. reflexivity. }
  split.
  - intros Hr Hany.
    destruct (autoDetectStorage_ready m Hany) as (r & Hg & Hrr).
    fold auto in Hg.
    assert (Hne : StorageType_eqb auto (FileSystemManager.currentStorageType m)
                  = false).
    { destruct (StorageType_eqb auto (FileSystemManager.currentStorageType m))
        eqn:E; [|reflexivity].
      apply StorageType_eqb_eq in E. rewrite <- E, Hg in Hty.
      injection Hty as ->. congruence. }
    unfold m', FileSystemManager.update.
    rewrite Hi, Hcur, Hr. cbn [negb]. fold auto. rewrite Hne. cbn [negb fst].
    set (m1 := FileSystemManager.debug m
                 "FileSystemManager: Storage changed, switching").
    destruct (debug_plugins m "FileSystemManager: Storage changed, switching")
      as (E1 & E2 & E3 & E4 & E5 & E6 & _).
    fold m1 in E1, E2, E3, E4, E5, E6.
    assert (Hg1 : FileSystemManager.getPluginByType m1 auto = Some r)
      by (rewrite (getPluginByType_ext m m1); assumption).
    assert (Hr1 : FileSystemManager.plugin_isReady m1 r = true)
      by (rewrite (plugin_isReady_ext m m1); assumption).
    assert (Hi1 : FileSystemManager.initialized m1 = true) by congruence.
    destruct (setStorageType_selects m1 auto r Hi1 Hg1 Hr1) as (S1 & S2 & S3).
    split; [exact S1|]. split; [rewrite S2, Hg; reflexivity|].
    exists r. split; assumption.
  - intros Hr Hnone.
    apply orb_false_iff in Hnone. destruct Hnone as [Hnone Hse].
    apply orb_false_iff in Hnone. destruct Hnone as [Hsd Hee].
    assert (Hauto : auto = STORAGE_SD_CARD).
    { unfold auto, FileSystemManager.autoDetectStorage.
      fold sd ee se. rewrite Hsd, Hee, Hse. reflexivity. }
    unfold m', FileSystemManager.update.
    rewrite Hi, Hcur, Hr. cbn [negb]. fold auto. rewrite Hauto.
    destruct (StorageType_eqb STORAGE_SD_CARD
                (FileSystemManager.currentStorageType m));
      cbn [negb fst]; [split; [reflexivity|exact Hcur]|].
    set (m1 := FileSystemManager.debug m
                 "FileSystemManager: Storage changed, switching").
    destruct (debug_plugins m "FileSystemManager: Storage changed, switching")
      as (E1 & E2 & E3 & E4 & E5 & E6 & _).
    fold m1 in E1, E2, E3, E4, E5, E6.
    destruct (setStorageType_refuses m1 STORAGE_SD_CARD) as (S1 & S2).
    { intros r Hg. rewrite (getPluginByType_ext m m1) in Hg by assumption.
      rewrite (plugin_isReady_ext m m1) by assumption.
      unfold FileSystemManager.getPluginByType in Hg.
      destruct (FileSystemManager.sdCardPlugin m); [|discriminate].
      injection Hg as <-. exact Hsd. }
    split; congruence.
Qed.

Lemma copy_refusal (m : FileSystemManager.t (V := V)) (line : string) :
  let m' := FileSystemManager.debug m line in
  FileSystemManager.sdCardPlugin m' = FileSystemManager.sdCardPlugin m
  /\ FileSystemManager.eepromPlugin m' = FileSystemManager.eepromPlugin m
  /\ FileSystemManager.serialPlugin m' = FileSystemManager.serialPlugin m
  /\ FileSystemManager.transferBuffer m' = FileSystemManager.transferBuffer m
  /\ (FileSystemManager.debugEnabled m = false -> m' = m).
Proof.
  destruct (debug_plugins m line) as (E1 & E2 & E3 & _ & _ & _ & E7 & E8).
  cbv zeta. repeat split; assumption.
Qed.

(** C10.  [copyFile] returns false when source and destination type
    are equal, when the source file does not exist, when its size is 0
    and when its size exceeds the 32-byte transfer buffer.  In each of
    these cases the three plugin objects with their devices and the
    transfer buffer are as before; the manager as a whole is unchanged
    unless its debug output is on, in which case it has printed one
    diagnostic line. *)
Theorem C10_refused_copy_changes_no_backend :
  forall (m : FileSystemManager.t (V := V)) (name : list Z)
         (sourceType destType : StorageType),
    (sourceType = destType
     \/ forall sp : PluginRef,
          FileSystemManager.getPluginByType m sourceType = Some sp ->
          FileSystemManager.plugin_fileExists m sp name = false
          \/ FileSystemManager.plugin_getFileSize m sp name = 0
          \/ TRANSFER_BUFFER_SIZE
             < FileSystemManager.plugin_getFileSize m sp name) ->
    let m' := fst (FileSystemManager.copyFile m name sourceType destType) in
    snd (FileSystemManager.copyFile m name sourceType destType) = false
    /\ FileSystemManager.sdCardPlugin m' = FileSystemManager.sdCardPlugin m
    /\ FileSystemManager.eepromPlugin m' = FileSystemManager.eepromPlugin m
    /\ FileSystemManager.serialPlugin m' = FileSystemManager.serialPlugin m
    /\ FileSystemManager.transferBuffer m' = FileSystemManager.transferBuffer m
    /\ (FileSystemManager.debugEnabled m = false -> m' = m).
Proof.
  intros m name sourceType destType Hcase. cbv zeta.
  unfold FileSystemManager.copyFile.
  destruct (StorageType_eqb sourceType destType) eqn:Eeq.
  { cbn [fst snd]. repeat split. }
  destruct Hcase as [Heq | Hsrc].
  { apply StorageType_eqb_eq in Heq. congruence. }
  destruct (FileSystemManager.getPluginByType m sourceType) as [sp|];
    [|cbn [fst snd]; repeat split].
  destruct (FileSystemManager.getPluginByType m destType) as [dp|];
    [|cbn [fst snd]; repeat split].
  destruct (negb (FileSystemManager.plugin_isReady m sp)
            || negb (FileSystemManager.plugin_isReady m dp));
    [cbn [fst snd]; repeat split|].
  destruct (FileSystemManager.plugin_fileExists m sp name) eqn:Eex;
    cbn [negb].
  2:{ cbn [fst snd]. split; [reflexivity|]. apply copy_refusal. }
  destruct (Hsrc sp eq_refl) as [Hex | [Hzero | Hbig]].
  - congruence.
  - rewrite Hzero. cbn [Z.eqb orb fst snd].
    split; [reflexivity|]. apply copy_refusal.
  - replace (TRANSFER_BUFFER_SIZE
             <? FileSystemManager.plugin_getFileSize m sp name)
      with true by (symmetry; apply Z.ltb_lt; exact Hbig).
    rewrite orb_true_r. cbn [fst snd].
    split; [reflexivity|]. apply copy_refusal.
Qed.

End Manager.

Lemma C9_witness :
  let m := FileSystemManager.set_current
             (Main.fileSystemManager Scenario.booted)
             (Some SdCardObject) STORAGE_SD_CARD in
  FileSystemManager.plugin_isReady m SdCardObject = false
  /\ FileSystemManager.currentStorageType (fst (FileSystemManager.update m))
     = STORAGE_EEPROM
  /\ FileSystemManager.currentStorage (fst (FileSystemManager.update m))
     = Some EepromObject.
Proof.
  intros m.
  assert (Hi : FileSystemManager.initialized m = true)
    by (vm_compute; reflexivity).
  assert (Hcur : FileSystemManager.currentStorage m = Some SdCardObject)
    by reflexivity.
  assert (Hty : FileSystemManager.getPluginByType m
                  (FileSystemManager.currentStorageType m)
                = Some SdCardObject) by (vm_compute; reflexivity).
  assert (Hr : FileSystemManager.plugin_isReady m SdCardObject = false)
    by (vm_compute; reflexivity).
  assert (Hany : FileSystemManager.plugin_isReady m SdCardObject
                 || FileSystemManager.plugin_isReady m EepromObject
                 || FileSystemManager.plugin_isReady m SerialObject = true)
    by (vm_compute; reflexivity).
  assert (Hauto : FileSystemManager.autoDetectStorage m = STORAGE_EEPROM)
    by (vm_compute; reflexivity).
  assert (Hg : FileSystemManager.getPluginByType m STORAGE_EEPROM
               = Some EepromObject) by (vm_compute; reflexivity).
  destruct (C9_auto_policy_and_failover m SdCardObject Hi Hcur Hty)
    as (_ & _ & _ & Hswitch & _).
  destruct (Hswitch Hr Hany) as (S1 & S2 & _).
  split; [exact Hr|]. split.
  - rewrite S1. exact Hauto.
  - rewrite S2, Hauto. exact Hg.
Defined.

Lemma C10_witness :
  let m := Main.fileSystemManager Scenario.booted in
  snd (FileSystemManager.copyFile m (cstr "A") STORAGE_EEPROM STORAGE_SERIAL)
  = false
  /\ FileSystemManager.serialPlugin
       (fst (FileSystemManager.copyFile m (cstr "A") STORAGE_EEPROM
                                        STORAGE_SERIAL))
     = FileSystemManager.serialPlugin m.
Proof.
  intros m.
  assert (Hsrc : forall sp : PluginRef,
             FileSystemManager.getPluginByType m STORAGE_EEPROM = Some sp ->
             FileSystemManager.plugin_fileExists m sp (cstr "A") = false
             \/ FileSystemManager.plugin_getFileSize m sp (cstr "A") = 0
             \/ TRANSFER_BUFFER_SIZE
                < FileSystemManager.plugin_getFileSize m sp (cstr "A")).
  { intros sp Hsp. left.
    assert (Hg : FileSystemManager.getPluginByType m STORAGE_EEPROM
                 = Some EepromObject) by (vm_compute; reflexivity).
    rewrite Hg in Hsp. injection Hsp as <-. vm_compute. reflexivity. }
  destruct (C10_refused_copy_changes_no_backend m (cstr "A") STORAGE_EEPROM
              STORAGE_SERIAL (or_intror Hsrc)) as (R & _ & _ & S & _).
  split; [exact R | exact S].
Defined.

(** ** The capture step *)

Lemma update_ready_unchanged {V : Type} `{SdSlot V}
  (m : FileSystemManager.t (V := V)) (cur : PluginRef) :
  FileSystemManager.initialized m = true ->
  FileSystemManager.currentStorage m = Some cur ->
  FileSystemManager.plugin_isReady m cur = true ->
  FileSystemManager.update m = (m, STATUS_OK).
Proof.
  intros Hi Hcur Hr. unfold FileSystemManager.update.
  rewrite Hi, Hcur, Hr. reflexivity.
Qed.

(** A pass that finds the queue empty and the selected backend ready
    leaves the system as it is. *)
Lemma idle_pass {V : Type} `{SdSlot V} (now : Z) (s : Main.System (V := V))
  (cur : PluginRef) (ev : list Event) :
  ParallelPortManager.update (Main.parallelPortManager s)
  = (STATUS_OK, Main.parallelPortManager s, ev) ->
  FileSystemManager.initialized (Main.fileSystemManager s) = true ->
  FileSystemManager.currentStorage (Main.fileSystemManager s) = Some cur ->
  FileSystemManager.plugin_isReady (Main.fileSystemManager s) cur = true ->
  ParallelPortManager.getAvailableBytes (Main.parallelPortManager s) = 0 ->
  fst (Main.capture_pass now s) = s.
Proof.
  intros Hp Hi Hcur Hr Ha. unfold Main.capture_pass. rewrite Hp.
  cbn [Main.fileSystemManager Main.parallelPortManager Main.fileCounter
       Main.lastWriteError].
  change (negb (STATUS_OK =? STATUS_OK)) with false. cbv iota.
  rewrite (update_ready_unchanged (Main.fileSystemManager s) cur Hi Hcur Hr).
  change (negb (STATUS_OK =? STATUS_OK)) with false. cbv iota.
  unfold Main.processParallelPortData.
  cbn [Main.fileSystemManager Main.parallelPortManager Main.fileCounter
       Main.lastWriteError].
  rewrite Ha. change (0 <? 0) with false. cbv iota. cbn [fst].
  destruct s. reflexivity.
Qed.

Lemma passes_fixed (s : Main.System (V := EmptySlot)) :
  (forall now : Z, fst (Main.capture_pass now s) = s) ->
  forall (n : nat) (now : Z), Scenario.passes n now s = s.
Proof.
  intros Hidle. induction n as [|n IH]; intros now; [reflexivity|].
  cbn [Scenario.passes]. rewrite Hidle. apply IH.
Qed.

Lemma passes_app (a b : nat) :
  forall (now : Z) (s : Main.System (V := EmptySlot)),
    Scenario.passes (a + b) now s
    = Scenario.passes b (now + Z.of_nat a) (Scenario.passes a now s).
Proof.
  induction a as [|a IH]; intros now s.
  - cbn [Nat.add Scenario.passes]. rewrite Z.add_0_r. reflexivity.
  - cbn [Nat.add Scenario.passes]. rewrite IH. f_equal. lia.
Qed.

(** If the system is idle after [a] passes, further passes change
    nothing. *)
Lemma passes_settle (s0 : Main.System (V := EmptySlot)) (a : nat) (now0 : Z) :
  (forall now : Z,
     fst (Main.capture_pass now (Scenario.passes a now0 s0))
     = Scenario.passes a now0 s0) ->
  forall n : nat,
    (a <= n)%nat -> Scenario.passes n now0 s0 = Scenario.passes a now0 s0.
Proof.
  intros Hidle n Hn. replace n with (a + (n - a))%nat by lia.
  rewrite passes_app. apply passes_fixed. exact Hidle.
Qed.

Lemma captured_idle (now : Z) :
  fst (Main.capture_pass now (Scenario.passes 3 2 Scenario.after_strobes))
  = Scenario.passes 3 2 Scenario.after_strobes.
Proof.
  apply (idle_pass now (Scenario.passes 3 2 Scenario.after_strobes)
           EepromObject [DigitalWrite LPT_ACTIVITY_LED_PIN LOW]);
    vm_compute; reflexivity.
Qed.

Lemma captured_from_three (n : nat) :
  (3 <= n)%nat -> Scenario.captured n = Scenario.captured 3.
Proof.
  intros Hn.
  exact (passes_settle Scenario.after_strobes 3 2 captured_idle n Hn).
Qed.

(** C2.  The claim fails on the code.  After the three strobes the
    capture step takes one byte per pass of the run loop (its buffer
    has one cell) and writes each byte under a name of its own count,
    which the 8-cell name buffer cuts to "data_00" every time.  From
    the third pass on the manager therefore does not hold one file
    "data_0001" of three bytes: the flash directory holds three ACTIVE
    slots of one byte each, in sectors 1, 2 and 3, with the bytes 0x48,
    0x69 and 0x0A in arrival order; all three are listed as "data_00",
    and neither that name nor "data_0001" reads back.  The queue is
    empty and three bytes were received. *)
Theorem C2_three_strobes_give_three_one_byte_files :
  forall n : nat,
    (3 <= n)%nat ->
    let s := Scenario.captured n in
    let m := Main.fileSystemManager s in
    ~ one_file_captured m
    /\ stored_files m = [(1, 1, [72]); (2, 1, [105]); (3, 1, [10])]
    /\ FileSystemManager.listFiles m 64
       = [cstr "data_00"; cstr "data_00"; cstr "data_00"]
    /\ snd (FileSystemManager.readFile m (cstr "data_0001") 3) = (0, [])
    /\ snd (FileSystemManager.readFile m (cstr "data_00") 3) = (0, [])
    /\ FileSystemManager.getFileSize m (cstr "data_0001") = 0
    /\ ParallelPortManager.getAvailableBytes (Main.parallelPortManager s) = 0
    /\ ParallelPortManager.getTotalBytesReceived (Main.parallelPortManager s)
       = 3.
Proof.
  intros n Hn s m. unfold m, s. rewrite (captured_from_three n Hn).
  split.
  - intros (Hlist & _). vm_compute in Hlist. discriminate Hlist.
  - vm_compute. repeat split.
Qed.

Lemma C2_witness :
  stored_files (Main.fileSystemManager (Scenario.captured 4))
  = [(1, 1, [72]); (2, 1, [105]); (3, 1, [10])]
  /\ FileSystemManager.listFiles (Main.fileSystemManager (Scenario.captured 4)) 64
     = [cstr "data_00"; cstr "data_00"; cstr "data_00"].
Proof.
  destruct (C2_three_strobes_give_three_one_byte_files 4 ltac:(lia))
    as (_ & H1 & H2 & _).
  split; [exact H1 | exact H2].
Defined.

(** * Further properties *)

Lemma mod_offsets_differ (N t k c : Z) :
  0 < N -> 0 <= k < c -> c < N -> (t + k) mod N <> (t + c) mod N.
Proof.
  intros HN Hk Hc E.
  assert (D : ((t + c) - (t + k)) mod N = 0).
  { rewrite Zminus_mod, E, Z.sub_diag. apply Z.mod_0_l. lia. }
  replace (t + c - (t + k)) with (c - k) in D by lia.
  rewrite Z.mod_small in D by lia. lia.
Qed.

Lemma pushed_ok (N : Z) (rb : RingBuffer.t) (data : Z) :
  ring_ok N rb -> RingBuffer.count rb < N -> ring_ok N (pushed N rb data).
Proof.
  intros (HN & Hlen & Ht & Hc & Hh) Hroom.
  unfold ring_ok, pushed. cbn.
  repeat split; try lia.
  - rewrite length_insert. exact Hlen.
  - rewrite Hh, Zplus_mod_idemp_l. f_equal. lia.
Qed.

Lemma queued_pushed (N : Z) (rb : RingBuffer.t) (data : Z) :
  ring_ok N rb -> RingBuffer.count rb < N ->
  queued N (pushed N rb data) = queued N rb ++ [data].
Proof.
  intros (HN & Hlen & Ht & Hc & Hh) Hroom.
  unfold queued, pushed. cbn.
  replace (Z.to_nat (RingBuffer.count rb + 1))
    with (S (Z.to_nat (RingBuffer.count rb))) by lia.
  rewrite seq_S, map_app. cbn [map Nat.add].
  f_equal.
  - apply map_ext_in. intros k Hk. apply in_seq in Hk.
    rewrite list_lookup_insert_ne; [reflexivity|].
    rewrite Hh. intros E. apply Z2Nat.inj in E.
    + symmetry in E. revert E. apply mod_offsets_differ; lia.
    + apply Z.mod_pos_bound. lia.
    + apply Z.mod_pos_bound. lia.
  - f_equal. rewrite Z2Nat.id by lia. rewrite <- Hh.
    rewrite list_lookup_insert_eq; [reflexivity|].
    rewrite Hlen, Hh.
    pose proof (Z.mod_pos_bound (RingBuffer.tail rb + RingBuffer.count rb) N HN).
    lia.
Qed.

Lemma popped_ok (N : Z) (rb : RingBuffer.t) :
  ring_ok N rb -> 0 < RingBuffer.count rb -> ring_ok N (popped N rb).
Proof.
  intros (HN & Hlen & Ht & Hc & Hh) Hsome.
  unfold ring_ok, popped. cbn.
  repeat split; try lia; try (apply Z.mod_pos_bound; lia).
  rewrite Hh, Zplus_mod_idemp_l. f_equal. lia.
Qed.

Lemma queued_unfold (N : Z) (rb : RingBuffer.t) :
  0 < RingBuffer.count rb ->
  queued N rb
  = default 0 (RingBuffer.buffer rb !! Z.to_nat (RingBuffer.tail rb mod N))
    :: queued N (popped N rb).
Proof.
  intros Hsome. unfold queued, popped. cbn.
  replace (Z.to_nat (RingBuffer.count rb))
    with (S (Z.to_nat (RingBuffer.count rb - 1))) at 1 by lia.
  cbn [seq map]. rewrite Z.add_0_r. f_equal.
  rewrite <- seq_shift, map_map. apply map_ext. intros k.
  rewrite Zplus_mod_idemp_l.
  replace (RingBuffer.tail rb + 1 + Z.of_nat k)
    with (RingBuffer.tail rb + Z.of_nat (S k)) by lia.
  reflexivity.
Qed.

Lemma queued_head (N : Z) (rb : RingBuffer.t) :
  ring_ok N rb -> 0 < RingBuffer.count rb ->
  queued N rb
  = default 0 (RingBuffer.buffer rb !! Z.to_nat (RingBuffer.tail rb))
    :: queued N (popped N rb).
Proof.
  intros (HN & Hlen & Ht & Hc & Hh) Hsome.
  rewrite queued_unfold by exact Hsome.
  rewrite Z.mod_small by lia. reflexivity.
Qed.

Lemma queued_empty (N : Z) (rb : RingBuffer.t) :
  RingBuffer.count rb = 0 -> queued N rb = [].
Proof. intros E. unfold queued. rewrite E. reflexivity. Qed.

Lemma queued_length (N : Z) (rb : RingBuffer.t) :
  0 <= RingBuffer.count rb ->
  Z.of_nat (length (queued N rb)) = RingBuffer.count rb.
Proof.
  intros Hc. unfold queued. rewrite length_map, length_seq. lia.
Qed.

Lemma write_pushed (N : Z) (rb : RingBuffer.t) (data : Z) :
  RingBuffer.count rb < N ->
  RingBuffer.write N rb data = (pushed N rb data, true).
Proof.
  intros Hroom. unfold RingBuffer.write.
  replace (N <=? RingBuffer.count rb) with false
    by (symmetry; apply Z.leb_gt; exact Hroom).
  reflexivity.
Qed.

Lemma ctor_ok (N : Z) : 0 < N -> ring_ok N (RingBuffer.ctor N).
Proof.
  intros HN. unfold ring_ok, RingBuffer.ctor. cbn.
  rewrite length_replicate, Z.mod_0_l by lia. repeat split; lia.
Qed.

Lemma readBytes_loop_prefix (N : Z) (n : nat) :
  forall rb : RingBuffer.t,
    ring_ok N rb ->
    let '(rb', bs) := RingBuffer.readBytes_loop N n rb in
    ring_ok N rb'
    /\ bs = take n (queued N rb)
    /\ queued N rb' = drop n (queued N rb)
    /\ RingBuffer.overflowFlag rb' = RingBuffer.overflowFlag rb.
Proof.
  induction n as [|n IH]; intros rb Hok.
  - cbn. rewrite drop_0. auto.
  - cbn [RingBuffer.readBytes_loop].
    destruct (0 <? RingBuffer.count rb) eqn:E.
    + apply Z.ltb_lt in E.
      change (RingBuffer.mk (RingBuffer.buffer rb) (RingBuffer.head rb)
                ((RingBuffer.tail rb + 1) mod N) (RingBuffer.count rb - 1)
                (RingBuffer.overflowFlag rb)) with (popped N rb).
      specialize (IH (popped N rb) (popped_ok N rb Hok E)).
      destruct (RingBuffer.readBytes_loop N n (popped N rb)) as [rb2 bs].
      destruct IH as (Hok2 & Hbs & Hq & Hov).
      rewrite (queued_head N rb Hok E). cbn [take drop].
      split; [exact Hok2|]. split; [f_equal; exact Hbs|].
      split; [exact Hq | exact Hov].
    + apply Z.ltb_ge in E. destruct Hok as (HN & Hlen & Ht & Hc & Hh).
      rewrite (queued_empty N rb) by lia.
      rewrite take_nil, drop_nil.
      split; [repeat split; auto; lia|]. auto.
Qed.

Lemma writeBytes_loop_fills (N : Z) (n : nat) :
  forall (rb : RingBuffer.t) (src : list Z) (bytesWritten numBytes : Z),
    ring_ok N rb ->
    0 <= bytesWritten ->
    numBytes <= Z.of_nat (length src) ->
    numBytes - bytesWritten <= Z.of_nat n ->
    let '(rb', w) := RingBuffer.writeBytes_loop N n rb src bytesWritten numBytes in
    let k := Z.max 0 (Z.min (numBytes - bytesWritten) (N - RingBuffer.count rb)) in
    ring_ok N rb'
    /\ w = bytesWritten + k
    /\ queued N rb'
       = queued N rb ++ take (Z.to_nat k) (drop (Z.to_nat bytesWritten) src)
    /\ RingBuffer.overflowFlag rb' = RingBuffer.overflowFlag rb.
Proof.
  induction n as [|n IH]; intros rb src bw nb Hok Hbw Hsrc Hfuel.
  - cbn. replace (Z.max 0 (Z.min (nb - bw) (N - RingBuffer.count rb))) with 0
      by (destruct Hok as (HN & Hlen & Ht & Hc & Hh); lia).
    cbn. rewrite app_nil_r.
    split; [exact Hok|]. split; [lia|]. auto.
  - cbn [RingBuffer.writeBytes_loop].
    destruct ((bw <? nb) && (RingBuffer.count rb <? N)) eqn:E.
    + apply andb_true_iff in E. destruct E as [E1 E2].
      apply Z.ltb_lt in E1. apply Z.ltb_lt in E2.
      change (RingBuffer.mk
                (<[Z.to_nat (RingBuffer.head rb) :=
                     default 0 (src !! Z.to_nat bw)]> (RingBuffer.buffer rb))
                ((RingBuffer.head rb + 1) mod N) (RingBuffer.tail rb)
                (RingBuffer.count rb + 1) (RingBuffer.overflowFlag rb))
        with (pushed N rb (default 0 (src !! Z.to_nat bw))).
      specialize (IH (pushed N rb (default 0 (src !! Z.to_nat bw))) src
                     (bw + 1) nb
                     (pushed_ok N rb _ Hok E2) ltac:(lia) Hsrc ltac:(lia)).
      destruct (RingBuffer.writeBytes_loop N n
                  (pushed N rb (default 0 (src !! Z.to_nat bw))) src
                  (bw + 1) nb) as [rb2 w].
      destruct IH as (Hok2 & Hw & Hq & Hov).
      rewrite (queued_pushed N rb _ Hok E2) in Hq.
      change (RingBuffer.count (pushed N rb (default 0 (src !! Z.to_nat bw))))
        with (RingBuffer.count rb + 1) in *.
      change (RingBuffer.overflowFlag (pushed N rb (default 0 (src !! Z.to_nat bw))))
        with (RingBuffer.overflowFlag rb) in *.
      destruct Hok as (HN & Hlen & Ht & Hc & Hh).
      split; [exact Hok2|]. split; [lia|]. split; [|exact Hov].
      rewrite Hq, <- app_assoc. f_equal.
      assert (Hin : (Z.to_nat bw < length src)%nat) by lia.
      destruct (lookup_lt_is_Some_2 src (Z.to_nat bw) Hin) as [x Hx].
      rewrite Hx. cbn [default].
      rewrite (drop_S src x (Z.to_nat bw) Hx).
      replace (Z.to_nat (Z.max 0 (Z.min (nb - bw) (N - RingBuffer.count rb))))
        with (S (Z.to_nat (Z.max 0 (Z.min (nb - (bw + 1))
                                      (N - (RingBuffer.count rb + 1))))))
        by lia.
      cbn [take app]. do 2 f_equal.
      replace (Z.to_nat (bw + 1)) with (S (Z.to_nat bw)) by lia. reflexivity.
    + apply andb_false_iff in E.
      replace (Z.max 0 (Z.min (nb - bw) (N - RingBuffer.count rb))) with 0.
      * cbn. rewrite app_nil_r.
        split; [exact Hok|]. split; [lia|]. auto.
      * destruct Hok as (HN & Hlen & Ht & Hc & Hh).
        destruct E as [E|E]; apply Z.ltb_ge in E; lia.
Qed.

(** ** The ring buffer as a queue *)

(** X1.  [write] on a consistent buffer: with room the byte is appended
    behind the queued bytes; on a full buffer the byte is dropped, the
    queued bytes stay and the overflow flag is raised.  The buffer stays
    consistent. *)
Theorem X1_ring_write_appends_or_drops :
  forall (N : Z) (rb : RingBuffer.t) (data : Z),
    ring_ok N rb ->
    let '(rb', stored) := RingBuffer.write N rb data in
    ring_ok N rb'
    /\ stored = (RingBuffer.count rb <? N)
    /\ queued N rb' = (if stored then queued N rb ++ [data] else queued N rb)
    /\ RingBuffer.hasOverflow rb'
       = RingBuffer.hasOverflow rb || negb stored.
Proof.
  intros N rb data Hok.
  destruct (Z.lt_ge_cases (RingBuffer.count rb) N) as [Hroom|Hfull].
  - rewrite (write_pushed N rb data Hroom).
    replace (RingBuffer.count rb <? N) with true
      by (symmetry; apply Z.ltb_lt; exact Hroom).
    split; [apply pushed_ok; assumption|]. split; [reflexivity|].
    split; [apply queued_pushed; assumption|].
    unfold RingBuffer.hasOverflow, pushed. cbn. rewrite orb_false_r. reflexivity.
  - unfold RingBuffer.write.
    replace (N <=? RingBuffer.count rb) with true
      by (symmetry; apply Z.leb_le; exact Hfull).
    replace (RingBuffer.count rb <? N) with false
      by (symmetry; apply Z.ltb_ge; exact Hfull).
    split; [exact Hok|]. split; [reflexivity|]. split; [reflexivity|].
    unfold RingBuffer.hasOverflow. cbn. rewrite orb_true_r. reflexivity.
Qed.

Lemma X1_witness :
  ring_ok 2 (RingBuffer.ctor 2)
  /\ queued 2 (fst (RingBuffer.write 2 (RingBuffer.ctor 2) 65)) = [65].
Proof.
  assert (H : ring_ok 2 (RingBuffer.ctor 2)) by (apply ctor_ok; lia).
  split; [exact H|].
  pose proof (X1_ring_write_appends_or_drops 2 (RingBuffer.ctor 2) 65 H) as W.
  destruct (RingBuffer.write 2 (RingBuffer.ctor 2) 65) as [rb' stored].
  destruct W as (_ & Hs & Hq & _).
  cbn [fst]. rewrite Hq, Hs. reflexivity.
Defined.

(** X2.  [read] on a consistent buffer returns the oldest queued byte
    and removes it; on an empty buffer it returns nothing and changes
    nothing.  [peek] shows the byte that [read] would return. *)
Theorem X2_ring_read_takes_oldest :
  forall (N : Z) (rb : RingBuffer.t),
    ring_ok N rb ->
    let '(rb', r) := RingBuffer.read N rb in
    ring_ok N rb'
    /\ r = queued N rb !! 0%nat
    /\ queued N rb' = drop 1 (queued N rb)
    /\ RingBuffer.peek rb = r
    /\ (r = None -> rb' = rb).
Proof.
  intros N rb Hok. unfold RingBuffer.read, RingBuffer.peek.
  destruct (RingBuffer.count rb =? 0) eqn:E.
  - apply Z.eqb_eq in E. rewrite (queued_empty N rb E).
    split; [exact Hok|]. auto.
  - apply Z.eqb_neq in E.
    assert (Hsome : 0 < RingBuffer.count rb)
      by (destruct Hok as (HN & Hlen & Ht & Hc & Hh); lia).
    rewrite (queued_head N rb Hok Hsome).
    split; [exact (popped_ok N rb Hok Hsome)|].
    split; [reflexivity|]. split; [reflexivity|]. split; [reflexivity|].
    discriminate.
Qed.

Lemma X2_witness :
  let rb := pushed 2 (pushed 2 (RingBuffer.ctor 2) 65) 66 in
  ring_ok 2 rb
  /\ snd (RingBuffer.read 2 rb) = Some 65
  /\ queued 2 (fst (RingBuffer.read 2 rb)) = [66].
Proof.
  intros rb.
  assert (H : ring_ok 2 rb).
  { apply pushed_ok; [apply pushed_ok; [apply ctor_ok|]|]; cbn; lia. }
  split; [exact H|].
  pose proof (X2_ring_read_takes_oldest 2 rb H) as W.
  destruct (RingBuffer.read 2 rb) as [rb' r].
  destruct W as (_ & Hr & Hq & _).
  cbn [fst snd]. rewrite Hr, Hq. split; reflexivity.
Defined.

Lemma readBytes_prefix (N : Z) (rb : RingBuffer.t) (maxBytes : Z) :
  ring_ok N rb ->
  let '(rb', bs) := RingBuffer.readBytes N rb maxBytes in
  ring_ok N rb'
  /\ bs = take (Z.to_nat maxBytes) (queued N rb)
  /\ queued N rb' = drop (Z.to_nat maxBytes) (queued N rb)
  /\ RingBuffer.overflowFlag rb' = RingBuffer.overflowFlag rb.
Proof.
  intros Hok. unfold RingBuffer.readBytes.
  destruct (maxBytes =? 0) eqn:E.
  - apply Z.eqb_eq in E. subst maxBytes. cbn. rewrite drop_0. auto.
  - apply readBytes_loop_prefix. exact Hok.
Qed.

(** X3.  [readBytes] hands out the oldest [maxBytes] queued bytes in
    arrival order (all of them when fewer are queued) and leaves the
    remaining ones queued. *)
Theorem X3_ring_readBytes_oldest_first :
  forall (N : Z) (rb : RingBuffer.t) (maxBytes : Z),
    ring_ok N rb ->
    let '(rb', bs) := RingBuffer.readBytes N rb maxBytes in
    ring_ok N rb'
    /\ bs = take (Z.to_nat maxBytes) (queued N rb)
    /\ queued N rb' = drop (Z.to_nat maxBytes) (queued N rb).
Proof.
  intros N rb maxBytes Hok.
  pose proof (readBytes_prefix N rb maxBytes Hok) as W.
  destruct (RingBuffer.readBytes N rb maxBytes) as [rb' bs].
  destruct W as (H1 & H2 & H3 & _). auto.
Qed.

Lemma X3_witness :
  let rb := pushed 3 (pushed 3 (pushed 3 (RingBuffer.ctor 3) 65) 66) 67 in
  ring_ok 3 rb
  /\ snd (RingBuffer.readBytes 3 rb 2) = [65; 66]
  /\ queued 3 (fst (RingBuffer.readBytes 3 rb 2)) = [67].
Proof.
  intros rb.
  assert (H : ring_ok 3 rb).
  { apply pushed_ok; [apply pushed_ok; [apply pushed_ok; [apply ctor_ok|]|]|];
      cbn; lia. }
  split; [exact H|].
  pose proof (X3_ring_readBytes_oldest_first 3 rb 2 H) as W.
  destruct (RingBuffer.readBytes 3 rb 2) as [rb' bs].
  destruct W as (_ & Hb & Hq).
  cbn [fst snd]. rewrite Hb, Hq. split; reflexivity.
Defined.

Lemma writeBytes_fills (N : Z) (rb : RingBuffer.t) (src : list Z)
  (numBytes : Z) :
  ring_ok N rb ->
  0 <= numBytes <= Z.of_nat (length src) ->
  let '(rb', w) := RingBuffer.writeBytes N rb src numBytes in
  ring_ok N rb'
  /\ w = Z.min numBytes (N - RingBuffer.count rb)
  /\ queued N rb' = queued N rb ++ take (Z.to_nat w) src
  /\ RingBuffer.hasOverflow rb'
     = RingBuffer.hasOverflow rb || (w <? numBytes).
Proof.
  intros Hok Hn. unfold RingBuffer.writeBytes.
  destruct (numBytes =? 0) eqn:E.
  - apply Z.eqb_eq in E. subst numBytes.
    destruct Hok as (HN & Hlen & Ht & Hc & Hh).
    split; [repeat split; auto; lia|]. split; [lia|].
    cbn. rewrite app_nil_r, orb_false_r. auto.
  - apply Z.eqb_neq in E.
    pose proof (writeBytes_loop_fills N (Z.to_nat numBytes) rb src 0 numBytes
                  Hok ltac:(lia) ltac:(lia) ltac:(lia)) as W.
    destruct (RingBuffer.writeBytes_loop N (Z.to_nat numBytes) rb src 0
                                         numBytes) as [rb1 w].
    cbv zeta in W. rewrite Z.sub_0_r, drop_0, Z.add_0_l in W.
    destruct W as (Hok1 & Hw & Hq & Hov).
    assert (Hk : Z.max 0 (Z.min numBytes (N - RingBuffer.count rb))
                 = Z.min numBytes (N - RingBuffer.count rb))
      by (destruct Hok as (HN & Hlen & Ht & Hc & Hh); lia).
    rewrite Hk in Hw, Hq. rewrite <- Hw in Hq.
    unfold RingBuffer.hasOverflow.
    destruct (w <? numBytes) eqn:Ew.
    + cbn [RingBuffer.buffer RingBuffer.head RingBuffer.tail RingBuffer.count
           RingBuffer.overflowFlag].
      split; [exact Hok1|]. split; [exact Hw|]. split; [exact Hq|].
      rewrite orb_true_r. reflexivity.
    + split; [exact Hok1|]. split; [exact Hw|]. split; [exact Hq|].
      rewrite orb_false_r. exact Hov.
Qed.

(** X4.  [writeBytes] stores the longest prefix of the source that fits
    into the free room, behind the bytes already queued, and raises the
    overflow flag exactly when some byte did not fit. *)
Theorem X4_ring_writeBytes_stores_what_fits :
  forall (N : Z) (rb : RingBuffer.t) (src : list Z) (numBytes : Z),
    ring_ok N rb ->
    0 <= numBytes <= Z.of_nat (length src) ->
    let '(rb', written) := RingBuffer.writeBytes N rb src numBytes in
    ring_ok N rb'
    /\ written = Z.min numBytes (N - RingBuffer.count rb)
    /\ queued N rb' = queued N rb ++ take (Z.to_nat written) src
    /\ RingBuffer.hasOverflow rb'
       = RingBuffer.hasOverflow rb || (written <? numBytes).
Proof.
  intros N rb src numBytes Hok Hn. exact (writeBytes_fills N rb src numBytes Hok Hn).
Qed.

Lemma X4_witness :
  ring_ok 2 (RingBuffer.ctor 2)
  /\ 0 <= 3 <= Z.of_nat (length [7; 8; 9])
  /\ snd (RingBuffer.writeBytes 2 (RingBuffer.ctor 2) [7; 8; 9] 3) = 2
  /\ RingBuffer.hasOverflow
       (fst (RingBuffer.writeBytes 2 (RingBuffer.ctor 2) [7; 8; 9] 3)) = true.
Proof.
  assert (H : ring_ok 2 (RingBuffer.ctor 2)) by (apply ctor_ok; lia).
  assert (H2 : 0 <= 3 <= Z.of_nat (length [7; 8; 9])) by (cbn; lia).
  split; [exact H|]. split; [exact H2|].
  pose proof (X4_ring_writeBytes_stores_what_fits 2 (RingBuffer.ctor 2)
                [7; 8; 9] 3 H H2) as W.
  destruct (RingBuffer.writeBytes 2 (RingBuffer.ctor 2) [7; 8; 9] 3)
    as [rb' w].
  destruct W as (_ & Hw & _ & Hov).
  cbn [fst snd]. rewrite Hov, Hw. split; reflexivity.
Defined.

(** X5.  Round trip: bytes written with [writeBytes] into an empty
    consistent buffer that has room for all of them come back from
    [readBytes] unchanged and in order, and the buffer is empty again. *)
Theorem X5_ring_round_trip :
  forall (N : Z) (rb : RingBuffer.t) (src : list Z),
    ring_ok N rb ->
    RingBuffer.isEmpty rb = true ->
    Z.of_nat (length src) <= N ->
    let '(rb1, written) :=
      RingBuffer.writeBytes N rb src (Z.of_nat (length src)) in
    written = Z.of_nat (length src)
    /\ RingBuffer.hasOverflow rb1 = RingBuffer.hasOverflow rb
    /\ let '(rb2, bs) := RingBuffer.readBytes N rb1 written in
       bs = src /\ RingBuffer.isEmpty rb2 = true.
Proof.
  intros N rb src Hok Hempty Hfit.
  unfold RingBuffer.isEmpty in Hempty. apply Z.eqb_eq in Hempty.
  pose proof (writeBytes_fills N rb src (Z.of_nat (length src)) Hok
                ltac:(lia)) as W.
  destruct (RingBuffer.writeBytes N rb src (Z.of_nat (length src)))
    as [rb1 w].
  destruct W as (Hok1 & Hw & Hq & Hov).
  rewrite Hempty, Z.sub_0_r, Z.min_l in Hw by exact Hfit. subst w.
  rewrite (queued_empty N rb Hempty), Nat2Z.id, firstn_all in Hq.
  cbn [app] in Hq.
  split; [reflexivity|].
  split; [rewrite Hov, Z.ltb_irrefl, orb_false_r; reflexivity|].
  pose proof (readBytes_prefix N rb1 (Z.of_nat (length src)) Hok1) as R.
  destruct (RingBuffer.readBytes N rb1 (Z.of_nat (length src))) as [rb2 bs].
  destruct R as (Hok2 & Hbs & Hq2 & _).
  rewrite Hq, Nat2Z.id in Hbs, Hq2.
  rewrite firstn_all in Hbs. rewrite drop_all in Hq2.
  split; [exact Hbs|].
  unfold RingBuffer.isEmpty. apply Z.eqb_eq.
  destruct Hok2 as (HN & Hlen & Ht & Hc & Hh).
  rewrite <- (queued_length N rb2) by lia. rewrite Hq2. reflexivity.
Qed.

Lemma X5_witness :
  ring_ok 4 (RingBuffer.ctor 4)
  /\ snd (RingBuffer.readBytes 4
            (fst (RingBuffer.writeBytes 4 (RingBuffer.ctor 4) [72; 105; 10] 3))
            3) = [72; 105; 10].
Proof.
  assert (H : ring_ok 4 (RingBuffer.ctor 4)) by (apply ctor_ok; lia).
  split; [exact H|].
  pose proof (X5_ring_round_trip 4 (RingBuffer.ctor 4) [72; 105; 10] H
                eq_refl ltac:(cbn; lia)) as W.
  change (Z.of_nat (length [72; 105; 10])) with 3 in W.
  destruct (RingBuffer.writeBytes 4 (RingBuffer.ctor 4) [72; 105; 10] 3)
    as [rb1 w].
  cbn [fst].
  destruct W as (Hw & _ & W). revert W. rewrite Hw. intros W.
  destruct (RingBuffer.readBytes 4 rb1 3) as [rb2 bs].
  destruct W as (Hb & _). exact Hb.
Defined.

(** ** The receiver *)

Lemma handleInterrupt_ring (N : Z) (i : ParallelPortManager.IsrInput)
  (m : ParallelPortManager.t) :
  ParallelPortManager.captureEnabled m = true ->
  ParallelPortManager.initialized m = true ->
  ParallelPortManager.ringBuffer (fst (ParallelPortManager.handleInterrupt N i m))
  = fst (RingBuffer.write N (ParallelPortManager.ringBuffer m)
                          (ParallelPortManager.read_data i)).
Proof.
  intros Hc Hi. unfold ParallelPortManager.handleInterrupt.
  rewrite Hc, Hi. cbn [negb orb].
  destruct (RingBuffer.write N (ParallelPortManager.ringBuffer m)
                             (ParallelPortManager.read_data i)) as [rb stored].
  reflexivity.
Qed.

Lemma strobes_queue (N : Z) (ins : list ParallelPortManager.IsrInput) :
  forall m : ParallelPortManager.t,
    ParallelPortManager.captureEnabled m = true ->
    ParallelPortManager.initialized m = true ->
    ring_ok N (ParallelPortManager.ringBuffer m) ->
    let m' := fst (ParallelPortManager.strobes N ins m) in
    ring_ok N (ParallelPortManager.ringBuffer m')
    /\ ParallelPortManager.initialized m' = true
    /\ queued N (ParallelPortManager.ringBuffer m')
       = queued N (ParallelPortManager.ringBuffer m)
         ++ take (Z.to_nat (N - RingBuffer.count (ParallelPortManager.ringBuffer m)))
                 (map ParallelPortManager.read_data ins).
Proof.
  induction ins as [|i ins IH]; intros m Hc Hi Hok.
  - cbn. rewrite take_nil, app_nil_r. auto.
  - cbn [ParallelPortManager.strobes].
    pose proof (handleInterrupt_fields N i m Hc Hi) as F.
    pose proof (handleInterrupt_ring N i m Hc Hi) as R.
    destruct (ParallelPortManager.handleInterrupt N i m) as [m1 ev1].
    cbn [fst] in F, R. cbv zeta in F.
    destruct F as (Hc1 & Hi1 & _ & _ & Froom & Ffull).
    assert (Hok1 : ring_ok N (ParallelPortManager.ringBuffer m1)
                   /\ queued N (ParallelPortManager.ringBuffer m1)
                      = queued N (ParallelPortManager.ringBuffer m)
                        ++ take (Z.to_nat (N - RingBuffer.count
                                                 (ParallelPortManager.ringBuffer m)))
                                [ParallelPortManager.read_data i]).
    { rewrite R.
      destruct (Z.lt_ge_cases (RingBuffer.count (ParallelPortManager.ringBuffer m)) N)
        as [Hroom|Hfull].
      - rewrite write_pushed by exact Hroom. cbn [fst].
        split; [apply pushed_ok; assumption|].
        rewrite queued_pushed by assumption. f_equal.
        replace (Z.to_nat (N - RingBuffer.count (ParallelPortManager.ringBuffer m)))
          with (S (Z.to_nat (N - RingBuffer.count (ParallelPortManager.ringBuffer m) - 1)))
          by lia.
        rewrite firstn_cons, take_nil. reflexivity.
      - unfold RingBuffer.write.
        replace (N <=? RingBuffer.count (ParallelPortManager.ringBuffer m)) with true
          by (symmetry; apply Z.leb_le; exact Hfull).
        cbn [fst]. split; [exact Hok|].
        replace (Z.to_nat (N - RingBuffer.count (ParallelPortManager.ringBuffer m)))
          with 0%nat by lia.
        cbn. rewrite app_nil_r. reflexivity. }
    destruct Hok1 as [Hok1 Hq1].
    specialize (IH m1 Hc1 Hi1 Hok1).
    destruct (ParallelPortManager.strobes N ins m1) as [m2 ev2].
    cbn [fst] in *. cbv zeta in IH.
    destruct IH as (Hok2 & Hi2 & Hq2).
    split; [exact Hok2|]. split; [exact Hi2|].
    rewrite Hq2, Hq1, <- app_assoc. f_equal.
    cbn [map].
    destruct (Z.lt_ge_cases (RingBuffer.count (ParallelPortManager.ringBuffer m)) N)
      as [Hroom|Hfull].
    + destruct (Froom Hroom) as (Hcount & _). rewrite Hcount.
      replace (Z.to_nat (N - RingBuffer.count (ParallelPortManager.ringBuffer m)))
        with (S (Z.to_nat (N - (RingBuffer.count (ParallelPortManager.ringBuffer m) + 1))))
        by lia.
      rewrite !firstn_cons, take_nil. reflexivity.
    + destruct (Ffull Hfull) as (Hcount & _). rewrite Hcount.
      replace (Z.to_nat (N - RingBuffer.count (ParallelPortManager.ringBuffer m)))
        with 0%nat by lia.
      reflexivity.
Qed.

(** X6.  Bytes strobed into an initialised, enabled receiver are handed
    out by [readData] in arrival order behind the bytes already queued;
    of a burst, the bytes that find room are kept and the later ones are
    lost. *)
Theorem X6_strobed_bytes_read_back_in_order :
  forall (N : Z) (ins : list ParallelPortManager.IsrInput)
         (m : ParallelPortManager.t) (maxBytes : Z),
    ParallelPortManager.captureEnabled m = true ->
    ParallelPortManager.initialized m = true ->
    ring_ok N (ParallelPortManager.ringBuffer m) ->
    let m' := fst (ParallelPortManager.strobes N ins m) in
    let room := N - RingBuffer.count (ParallelPortManager.ringBuffer m) in
    snd (ParallelPortManager.readData N m' maxBytes)
    = take (Z.to_nat maxBytes)
           (queued N (ParallelPortManager.ringBuffer m)
            ++ take (Z.to_nat room) (map ParallelPortManager.read_data ins)).
Proof.
  intros N ins m maxBytes Hc Hi Hok m' room.
  destruct (strobes_queue N ins m Hc Hi Hok) as (Hok' & Hi' & Hq).
  fold m' in Hok', Hi', Hq. fold room in Hq.
  unfold ParallelPortManager.readData. rewrite Hi'. cbn [negb].
  pose proof (readBytes_prefix N (ParallelPortManager.ringBuffer m') maxBytes Hok')
    as R.
  destruct (RingBuffer.readBytes N (ParallelPortManager.ringBuffer m') maxBytes)
    as [rb bs].
  destruct R as (_ & Hbs & _). cbn [snd]. rewrite Hbs, Hq. reflexivity.
Qed.

Lemma receiver16_ok : ring_ok 16 (ParallelPortManager.ringBuffer receiver16).
Proof.
  unfold ring_ok. vm_compute. repeat split; congruence.
Qed.

Lemma X6_witness :
  ParallelPortManager.captureEnabled receiver16 = true
  /\ ParallelPortManager.initialized receiver16 = true
  /\ snd (ParallelPortManager.readData 16
            (fst (ParallelPortManager.strobes 16
                    [Scenario.pulse 0 72; Scenario.pulse 30 105] receiver16))
            5) = [72; 105].
Proof.
  split; [reflexivity|]. split; [reflexivity|].
  rewrite (X6_strobed_bytes_read_back_in_order 16
             [Scenario.pulse 0 72; Scenario.pulse 30 105] receiver16 5
             eq_refl eq_refl receiver16_ok).
  vm_compute. reflexivity.
Defined.

(** C8.  With capture enabled, every run of the strobe handler performs
    the complete handshake in the order: BUSY high, settle delay, read
    D0..D7, enqueue attempt, nACK low, 20 us, nACK high, BUSY low; BUSY
    is released last, after the enqueue attempt and after nACK is high
    again.  The enqueue attempt is the real one: with room in the queue
    the byte read from the data lines is the newest queued byte when
    the handler returns and the received counter is one higher; with a
    full queue the byte is dropped, the queued bytes and the counter
    stay, the overflow flag is latched, and the handshake is the same
    but for the outcome of the attempt.  The queue is taken consistent
    ([ring_ok], which the constructor establishes and the handler
    keeps). *)
Theorem C8_busy_released_after_enqueue_and_ack :
  forall (N : Z) (i : ParallelPortManager.IsrInput) (m : ParallelPortManager.t),
    ParallelPortManager.captureEnabled m = true ->
    ParallelPortManager.initialized m = true ->
    ring_ok N (ParallelPortManager.ringBuffer m) ->
    let m' := fst (ParallelPortManager.handleInterrupt N i m) in
    let evs := snd (ParallelPortManager.handleInterrupt N i m) in
    let full := RingBuffer.isFull N (ParallelPortManager.ringBuffer m) in
    let data := ParallelPortManager.read_data i in
    evs = handshake i (negb full)
    /\ released_after_ack evs
    /\ last evs = Some (DigitalWrite LPT_BUSY_PIN LOW)
    /\ evs !! 10%nat = Some (RingWrite data (negb full))
    /\ ring_ok N (ParallelPortManager.ringBuffer m')
    /\ (full = false ->
        queued N (ParallelPortManager.ringBuffer m')
        = queued N (ParallelPortManager.ringBuffer m) ++ [data]
        /\ ParallelPortManager.getAvailableBytes m'
           = ParallelPortManager.getAvailableBytes m + 1
        /\ ParallelPortManager.getTotalBytesReceived m'
           = u32 (ParallelPortManager.getTotalBytesReceived m + 1)
        /\ ParallelPortManager.hasBufferOverflow m'
           = ParallelPortManager.hasBufferOverflow m)
    /\ (full = true ->
        queued N (ParallelPortManager.ringBuffer m')
        = queued N (ParallelPortManager.ringBuffer m)
        /\ RingBuffer.count (ParallelPortManager.ringBuffer m')
           = RingBuffer.count (ParallelPortManager.ringBuffer m)
        /\ ParallelPortManager.getTotalBytesReceived m'
           = ParallelPortManager.getTotalBytesReceived m
        /\ ParallelPortManager.hasBufferOverflow m' = true).
Proof.
  intros N i m He Hi Hok m' evs full data.
  assert (Hevs : evs = handshake i (negb full))
    by (apply handleInterrupt_trace; assumption).
  pose proof (handleInterrupt_fields N i m He Hi) as F.
  pose proof (handleInterrupt_ring N i m He Hi) as R.
  fold m' in F, R. cbv zeta in F.
  destruct F as (_ & _ & _ & _ & Froom & Ffull).
  split; [exact Hevs|].
  split; [rewrite Hevs; apply handshake_released_after_ack|].
  split; [rewrite Hevs; reflexivity|].
  split; [rewrite Hevs; reflexivity|].
  unfold full, RingBuffer.isFull.
  destruct (N <=? RingBuffer.count (ParallelPortManager.ringBuffer m)) eqn:E;
    [apply Z.leb_le in E | apply Z.leb_gt in E].
  - destruct (Ffull E) as (Hc & Ho & Hb).
    assert (Hrb : ParallelPortManager.ringBuffer m'
                  = RingBuffer.mk
                      (RingBuffer.buffer (ParallelPortManager.ringBuffer m))
                      (RingBuffer.head (ParallelPortManager.ringBuffer m))
                      (RingBuffer.tail (ParallelPortManager.ringBuffer m))
                      (RingBuffer.count (ParallelPortManager.ringBuffer m))
                      true).
    { rewrite R. unfold RingBuffer.write.
      replace (N <=? RingBuffer.count (ParallelPortManager.ringBuffer m))
        with true by (symmetry; apply Z.leb_le; exact E).
      reflexivity. }
    split; [rewrite Hrb; exact Hok|].
    split; [discriminate|]. intros _.
    split; [rewrite Hrb; reflexivity|].
    split; [exact Hc|]. split; [exact Hb | exact Ho].
  - destruct (Froom E) as (Hc & Ho & Hb).
    assert (Hrb : ParallelPortManager.ringBuffer m'
                  = pushed N (ParallelPortManager.ringBuffer m) data).
    { rewrite R, write_pushed by exact E. reflexivity. }
    split; [rewrite Hrb; apply pushed_ok; assumption|].
    split; [|discriminate]. intros _.
    split; [rewrite Hrb; apply queued_pushed; assumption|].
    split; [exact Hc|]. split; [exact Hb | exact Ho].
Qed.

Lemma C8_witness :
  let i := Scenario.pulse 0 72 in
  let full16 :=
    fst (ParallelPortManager.strobes 16
           (map (fun k => Scenario.pulse (30 * Z.of_nat k) (Z.of_nat k))
                (seq 0 16))
           receiver16) in
  (snd (ParallelPortManager.handleInterrupt 16 i receiver16) = handshake i true
   /\ queued 16 (ParallelPortManager.ringBuffer
                   (fst (ParallelPortManager.handleInterrupt 16 i receiver16)))
      = [72])
  /\ (snd (ParallelPortManager.handleInterrupt 16 i full16) = handshake i false
      /\ released_after_ack
           (snd (ParallelPortManager.handleInterrupt 16 i full16))
      /\ queued 16 (ParallelPortManager.ringBuffer
                      (fst (ParallelPortManager.handleInterrupt 16 i full16)))
         = queued 16 (ParallelPortManager.ringBuffer full16)
      /\ ParallelPortManager.hasBufferOverflow
           (fst (ParallelPortManager.handleInterrupt 16 i full16)) = true).
Proof.
  intros i full16. split.
  - destruct (C8_busy_released_after_enqueue_and_ack 16 i receiver16
                eq_refl eq_refl receiver16_ok)
      as (H1 & _ & _ & _ & _ & Hroom & _).
    destruct (Hroom eq_refl) as (Hq & _).
    split; [exact H1|]. rewrite Hq. reflexivity.
  - assert (Hok : ring_ok 16 (ParallelPortManager.ringBuffer full16)).
    { apply (strobes_queue 16 _ receiver16 eq_refl eq_refl receiver16_ok). }
    destruct (C8_busy_released_after_enqueue_and_ack 16 i full16
                eq_refl eq_refl Hok)
      as (H1 & H2 & _ & _ & _ & _ & Hfull).
    destruct (Hfull eq_refl) as (Hq & _ & _ & Ho).
    split; [exact H1|]. split; [exact H2|]. split; [exact Hq | exact Ho].
Defined.

(** X7.  The byte the strobe handler assembles has the level of data
    line [k] as its bit [k], for the eight data lines, and no other
    bit. *)
Theorem X7_data_byte_follows_data_lines :
  forall (i : ParallelPortManager.IsrInput),
    0 <= ParallelPortManager.read_data i < 256
    /\ map (Z.testbit (ParallelPortManager.read_data i)) [0; 1; 2; 3; 4; 5; 6; 7]
       = map (ParallelPortManager.pin_level i)
             [LPT_DATA0_PIN; LPT_DATA1_PIN; LPT_DATA2_PIN; LPT_DATA3_PIN;
              LPT_DATA4_PIN; LPT_DATA5_PIN; LPT_DATA6_PIN; LPT_DATA7_PIN].
Proof.
  intros i. unfold ParallelPortManager.read_data, ParallelPortManager.data_pins.
  cbn [fold_left map].
  destruct (ParallelPortManager.pin_level i LPT_DATA0_PIN);
  destruct (ParallelPortManager.pin_level i LPT_DATA1_PIN);
  destruct (ParallelPortManager.pin_level i LPT_DATA2_PIN);
  destruct (ParallelPortManager.pin_level i LPT_DATA3_PIN);
  destruct (ParallelPortManager.pin_level i LPT_DATA4_PIN);
  destruct (ParallelPortManager.pin_level i LPT_DATA5_PIN);
  destruct (ParallelPortManager.pin_level i LPT_DATA6_PIN);
  destruct (ParallelPortManager.pin_level i LPT_DATA7_PIN);
  (split; [split; [apply Z.leb_le | apply Z.ltb_lt]; reflexivity
          | reflexivity]).
Qed.

Lemma handleInterrupt_errorState (N : Z) (i : ParallelPortManager.IsrInput)
  (m : ParallelPortManager.t) :
  ParallelPortManager.errorState (fst (ParallelPortManager.handleInterrupt N i m))
  = ParallelPortManager.errorState m.
Proof.
  unfold ParallelPortManager.handleInterrupt.
  destruct (negb (ParallelPortManager.captureEnabled m)
            || negb (ParallelPortManager.initialized m)); [reflexivity|].
  destruct (RingBuffer.write N (ParallelPortManager.ringBuffer m)
                             (ParallelPortManager.read_data i)) as [rb stored].
  reflexivity.
Qed.

Lemma strobes_flag (N : Z) (ins : list ParallelPortManager.IsrInput) :
  forall m : ParallelPortManager.t,
    ParallelPortManager.captureEnabled m = true ->
    ParallelPortManager.initialized m = true ->
    0 <= RingBuffer.count (ParallelPortManager.ringBuffer m) <= N ->
    let m' := fst (ParallelPortManager.strobes N ins m) in
    let c := RingBuffer.count (ParallelPortManager.ringBuffer m) in
    let k := Z.of_nat (length ins) in
    ParallelPortManager.initialized m' = true
    /\ RingBuffer.count (ParallelPortManager.ringBuffer m') = Z.min N (c + k)
    /\ RingBuffer.overflowFlag (ParallelPortManager.ringBuffer m')
       = RingBuffer.overflowFlag (ParallelPortManager.ringBuffer m)
         || (N <? c + k)
    /\ ParallelPortManager.overflowCount m' = ParallelPortManager.overflowCount m
    /\ ParallelPortManager.errorState m' = ParallelPortManager.errorState m.
Proof.
  induction ins as [|i ins IH]; intros m Hc Hi Hcount.
  - cbn. rewrite Z.add_0_r, Z.min_r by lia.
    replace (N <? RingBuffer.count (ParallelPortManager.ringBuffer m)) with false
      by (symmetry; apply Z.ltb_ge; lia).
    rewrite orb_false_r. auto.
  - cbn [ParallelPortManager.strobes].
    pose proof (handleInterrupt_fields N i m Hc Hi) as F.
    pose proof (handleInterrupt_errorState N i m) as E.
    destruct (ParallelPortManager.handleInterrupt N i m) as [m1 ev1].
    cbn [fst] in F, E. cbv zeta in F.
    destruct F as (Hc1 & Hi1 & Ho1 & _ & Froom & Ffull).
    assert (Hcount1 : 0 <= RingBuffer.count (ParallelPortManager.ringBuffer m1) <= N).
    { destruct (Z.lt_ge_cases (RingBuffer.count (ParallelPortManager.ringBuffer m)) N)
        as [Hroom|Hfull].
      - destruct (Froom Hroom) as (-> & _). lia.
      - destruct (Ffull Hfull) as (-> & _). lia. }
    specialize (IH m1 Hc1 Hi1 Hcount1).
    destruct (ParallelPortManager.strobes N ins m1) as [m2 ev2].
    cbn [fst] in *. cbv zeta in IH.
    destruct IH as (Hi2 & Hn2 & Hf2 & Ho2 & He2).
    split; [exact Hi2|]. rewrite Hn2, Hf2, Ho2, He2, Ho1, E.
    cbn [length]. rewrite Nat2Z.inj_succ.
    destruct (Z.lt_ge_cases (RingBuffer.count (ParallelPortManager.ringBuffer m)) N)
      as [Hroom|Hfull].
    + destruct (Froom Hroom) as (-> & -> & _).
      split; [f_equal; lia|]. split; [|auto].
      f_equal. f_equal. lia.
    + destruct (Ffull Hfull) as (-> & -> & _).
      split; [lia|]. split; [|auto]. cbn [orb].
      replace (N <? RingBuffer.count (ParallelPortManager.ringBuffer m)
                    + Z.succ (Z.of_nat (length ins)))
        with true by (symmetry; apply Z.ltb_lt; lia).
      rewrite orb_true_r. reflexivity.
Qed.

(** X8.  However many bytes of a burst find no room, the next [update]
    raises the overflow counter by exactly one and clears the flag; a
    burst that fits raises nothing.  Afterwards [getStatus] reports an
    error only if the error state is set. *)
Theorem X8_overrun_counted_once_per_update :
  forall (N : Z) (ins : list ParallelPortManager.IsrInput)
         (m : ParallelPortManager.t),
    ParallelPortManager.captureEnabled m = true ->
    ParallelPortManager.initialized m = true ->
    0 <= RingBuffer.count (ParallelPortManager.ringBuffer m) <= N ->
    ParallelPortManager.hasBufferOverflow m = false ->
    let c := RingBuffer.count (ParallelPortManager.ringBuffer m) in
    let k := Z.of_nat (length ins) in
    let '(r, m2, _) :=
      ParallelPortManager.update (fst (ParallelPortManager.strobes N ins m)) in
    r = STATUS_OK
    /\ ParallelPortManager.getOverflowCount m2
       = (if N <? c + k
          then u32 (ParallelPortManager.getOverflowCount m + 1)
          else ParallelPortManager.getOverflowCount m)
    /\ ParallelPortManager.hasBufferOverflow m2 = false
    /\ ParallelPortManager.getAvailableBytes m2 = Z.min N (c + k)
    /\ ParallelPortManager.getStatus m2
       = (if ParallelPortManager.errorState m then STATUS_ERROR else STATUS_OK).
Proof.
  intros N ins m Hc Hi Hcount Hflag c k.
  destruct (strobes_flag N ins m Hc Hi Hcount) as (Hi1 & Hn1 & Hf1 & Ho1 & He1).
  fold c k in Hn1, Hf1.
  unfold ParallelPortManager.hasBufferOverflow, RingBuffer.hasOverflow in Hflag.
  rewrite Hflag in Hf1. cbn [orb] in Hf1.
  unfold ParallelPortManager.update.
  rewrite Hi1. cbn [negb]. unfold RingBuffer.hasOverflow.
  rewrite Hf1.
  unfold ParallelPortManager.getOverflowCount, ParallelPortManager.getStatus,
    ParallelPortManager.hasBufferOverflow, ParallelPortManager.getAvailableBytes,
    RingBuffer.hasOverflow, RingBuffer.available.
  destruct (N <? c + k).
  - cbn. rewrite Ho1, Hn1, He1.
    destruct (ParallelPortManager.errorState m); auto.
  - cbn. rewrite Hi1, Hf1, Hn1, He1. cbn.
    destruct (ParallelPortManager.errorState m); auto.
Qed.

Lemma X8_witness :
  ParallelPortManager.getOverflowCount
    (snd (fst (ParallelPortManager.update
                 (fst (ParallelPortManager.strobes 16
                         (map (fun t => Scenario.pulse t 65)
                              [0; 1; 2; 3; 4; 5; 6; 7; 8; 9; 10; 11; 12; 13;
                               14; 15; 16; 17; 18])
                         receiver16))))) = 1.
Proof.
  pose proof (X8_overrun_counted_once_per_update 16
                (map (fun t => Scenario.pulse t 65)
                     [0; 1; 2; 3; 4; 5; 6; 7; 8; 9; 10; 11; 12; 13;
                      14; 15; 16; 17; 18])
                receiver16 eq_refl eq_refl
                ltac:(vm_compute; split; congruence) eq_refl) as W.
  cbv zeta in W.
  destruct (ParallelPortManager.update _) as [[r m2] ev].
  destruct W as (_ & Ho & _). cbn [fst snd]. rewrite Ho. reflexivity.
Defined.

(** X9.  [reset] brings the receiver back to its state after start-up,
    whatever state it was in: initialised, capture enabled, all counters
    zero, nothing queued, no overflow pending.  If it was initialised
    before, the interrupt is detached first and the error state is
    cleared, so [getStatus] is OK. *)
Theorem X9_reset_restarts_the_receiver :
  forall (m : ParallelPortManager.t),
    let '(r, m', ev) := ParallelPortManager.reset m in
    r = STATUS_OK
    /\ ParallelPortManager.initialized m' = true
    /\ ParallelPortManager.isCaptureEnabled m' = true
    /\ ParallelPortManager.getTotalBytesReceived m' = 0
    /\ ParallelPortManager.getOverflowCount m' = 0
    /\ ParallelPortManager.getInterruptStats m' = (0, 0, 0)
    /\ ParallelPortManager.getAvailableBytes m' = 0
    /\ ParallelPortManager.hasBufferOverflow m' = false
    /\ ParallelPortManager.peekData m' = None
    /\ (ParallelPortManager.initialized m = true ->
        ParallelPortManager.getStatus m' = STATUS_OK
        /\ ev !! 0%nat = Some DetachInterrupt
        /\ In AttachInterrupt ev).
Proof.
  intros m. unfold ParallelPortManager.reset.
  destruct (ParallelPortManager.initialized m) eqn:Hi.
  - unfold ParallelPortManager.initialize. cbn.
    repeat split; auto.
    do 7 right. left. reflexivity.
  - unfold ParallelPortManager.initialize. rewrite Hi. cbn.
    repeat split; auto; discriminate.
Qed.

Lemma X9_witness :
  ParallelPortManager.initialized receiver16 = true
  /\ ParallelPortManager.getStatus
       (snd (fst (ParallelPortManager.reset receiver16))) = STATUS_OK.
Proof.
  split; [reflexivity|].
  pose proof (X9_reset_restarts_the_receiver receiver16) as W.
  destruct (ParallelPortManager.reset receiver16) as [[r m'] ev].
  destruct W as (_ & _ & _ & _ & _ & _ & _ & _ & _ & W).
  destruct (W eq_refl) as (Hs & _). exact Hs.
Defined.

(** ** Strings in static buffers *)

Lemma char_at_drop (str : list Z) (n : nat) :
  MemoryUtils.char_at str (Z.of_nat n)
  = match drop n str with [] => 0 | c :: _ => c end.
Proof.
  unfold MemoryUtils.char_at. rewrite Nat2Z.id.
  rewrite <- (Nat.add_0_r n) at 1. rewrite <- lookup_drop.
  destruct (drop n str); reflexivity.
Qed.

Lemma before_nul_prefix (l : list Z) :
  take (length (before_nul l)) l = before_nul l.
Proof.
  induction l as [|c l IH]; [reflexivity|].
  cbn [before_nul]. destruct (c =? 0); [reflexivity|].
  cbn [length take]. f_equal. exact IH.
Qed.

Lemma before_nul_length (l : list Z) :
  (length (before_nul l) <= length l)%nat.
Proof.
  induction l as [|c l IH]; [reflexivity|].
  cbn [before_nul]. destruct (c =? 0); cbn [length]; lia.
Qed.

Lemma before_nul_nonzero (l : list Z) : Forall (fun c => c <> 0) (before_nul l).
Proof.
  induction l as [|c l IH]; [constructor|].
  cbn [before_nul]. destruct (c =? 0) eqn:E; [constructor|].
  constructor; [apply Z.eqb_neq; exact E | exact IH].
Qed.

Lemma before_nul_app (s rest : list Z) :
  Forall (fun c => c <> 0) s ->
  before_nul (s ++ 0 :: rest) = s.
Proof.
  induction 1 as [|c s Hc Hs IH]; [reflexivity|].
  cbn [app before_nul].
  replace (c =? 0) with false by (symmetry; apply Z.eqb_neq; exact Hc).
  f_equal. exact IH.
Qed.

Lemma before_nul_id (s : list Z) :
  Forall (fun c => c <> 0) s -> before_nul s = s.
Proof.
  induction 1 as [|c s Hc Hs IH]; [reflexivity|].
  cbn [before_nul].
  replace (c =? 0) with false by (symmetry; apply Z.eqb_neq; exact Hc).
  f_equal. exact IH.
Qed.

Lemma Forall_take_nonzero (n : nat) (s : list Z) :
  Forall (fun c => c <> 0) s -> Forall (fun c => c <> 0) (take n s).
Proof. apply Forall_take. Qed.

(** The scan of [safeStrlen] and [safeCopy]: how far it gets from
    position [k]. *)
Lemma safeStrlen_loop_scan (fuel : nat) :
  forall (str : list Z) (k : nat) (maxLen : Z),
    (Z.to_nat maxLen - k <= fuel)%nat ->
    Z.of_nat k <= maxLen ->
    MemoryUtils.safeStrlen_loop fuel str (Z.of_nat k) maxLen
    = Z.min maxLen (Z.of_nat (k + length (before_nul (drop k str)))).
Proof.
  induction fuel as [|fuel IH]; intros str k maxLen Hfuel Hk.
  - cbn. lia.
  - cbn [MemoryUtils.safeStrlen_loop].
    rewrite char_at_drop.
    destruct (Z.of_nat k <? maxLen) eqn:E; cbn [andb].
    + apply Z.ltb_lt in E.
      destruct (drop k str) as [|c rest] eqn:D.
      * cbn. lia.
      * cbn [before_nul]. destruct (c =? 0) eqn:Ec; cbn [negb].
        -- cbn. lia.
        -- replace (Z.of_nat k + 1) with (Z.of_nat (S k)) by lia.
           rewrite IH by lia.
           assert (D' : drop (S k) str = rest).
           { replace (S k) with (k + 1)%nat by lia.
             rewrite <- drop_drop, D. reflexivity. }
           rewrite D'. cbn [length]. f_equal. lia.
    + apply Z.ltb_ge in E. lia.
Qed.

Lemma safeStrlen_scan (str : list Z) (maxLen : Z) :
  0 <= maxLen ->
  MemoryUtils.safeStrlen str maxLen
  = Z.min maxLen (Z.of_nat (length (before_nul str))).
Proof.
  intros H. unfold MemoryUtils.safeStrlen.
  pose proof (safeStrlen_loop_scan (Z.to_nat maxLen) str 0 maxLen
                ltac:(lia) ltac:(lia)) as L.
  rewrite drop_0 in L. exact L.
Qed.

Lemma c_str_before_nul (arr : list Z) : MemoryUtils.c_str arr = before_nul arr.
Proof.
  unfold MemoryUtils.c_str. rewrite safeStrlen_scan by lia.
  pose proof (before_nul_length arr).
  rewrite Z.min_r by lia. rewrite Nat2Z.id. apply before_nul_prefix.
Qed.

Lemma safeCopy_loop_stop (dest X : list Z) (k n : nat) :
  n = k ->
  (dest, Z.of_nat k)
  = (take k dest ++ take (n - k) X ++ drop n dest, Z.of_nat n).
Proof.
  intros ->. rewrite Nat.sub_diag, take_0. cbn [app].
  rewrite take_drop. reflexivity.
Qed.

Lemma safeCopy_loop_copies (fuel : nat) :
  forall (dest src : list Z) (k : nat) (maxLen : Z),
    (Z.to_nat maxLen - k <= fuel)%nat ->
    Z.of_nat k <= maxLen ->
    maxLen <= Z.of_nat (length dest) ->
    let n := Z.to_nat (Z.min maxLen
                         (Z.of_nat (k + length (before_nul (drop k src))))) in
    MemoryUtils.safeCopy_loop fuel dest src (Z.of_nat k) maxLen
    = (take k dest ++ take (n - k) (before_nul (drop k src)) ++ drop n dest,
       Z.of_nat n).
Proof.
  induction fuel as [|fuel IH]; intros dest src k maxLen Hfuel Hk Hd n.
  - cbn [MemoryUtils.safeCopy_loop]. apply safeCopy_loop_stop. lia.
  - cbn [MemoryUtils.safeCopy_loop].
    rewrite char_at_drop.
    destruct (Z.of_nat k <? maxLen) eqn:E; cbn [andb].
    + apply Z.ltb_lt in E.
      destruct (drop k src) as [|c rest] eqn:D.
      * cbn [before_nul length] in n. cbn [negb Z.eqb].
        apply safeCopy_loop_stop. lia.
      * cbn [before_nul] in n |- *. destruct (c =? 0) eqn:Ec; cbn [negb].
        -- cbn [length] in n. apply safeCopy_loop_stop. lia.
        -- assert (D' : drop (S k) src = rest).
           { replace (S k) with (k + 1)%nat by lia.
             rewrite <- drop_drop, D. reflexivity. }
           replace (Z.of_nat k + 1) with (Z.of_nat (S k)) by lia.
           rewrite IH; [|lia|lia|rewrite length_insert; lia].
           rewrite D'. cbn [length] in n.
           replace (Z.to_nat (Z.min maxLen (Z.of_nat (S k + length (before_nul rest)))))
             with n by (unfold n; f_equal; f_equal; lia).
           assert (Hn : (k < n)%nat) by lia.
           rewrite Nat2Z.id.
           rewrite (take_S_r (<[k:=c]> dest) k c)
             by (apply list_lookup_insert_eq; lia).
           rewrite take_insert_ge by lia.
           rewrite drop_insert_lt by lia.
           replace (n - k)%nat with (S (n - S k)) by lia.
           cbn [take]. rewrite <- app_assoc. reflexivity.
    + apply Z.ltb_ge in E. apply safeCopy_loop_stop. lia.
Qed.

Lemma safeCopy_result (dest : list Z) (destSize : Z) (src : list Z)
  (maxCopy : Z) :
  Z.of_nat (length dest) = destSize ->
  0 < destSize ->
  0 <= maxCopy ->
  let limit :=
    if maxCopy =? 0 then destSize - 1 else Z.min maxCopy (destSize - 1) in
  let n := Z.to_nat (Z.min limit (Z.of_nat (length (before_nul src)))) in
  MemoryUtils.safeCopy dest destSize src maxCopy
  = (take n (before_nul src) ++ 0 :: drop (S n) dest, Z.of_nat n).
Proof.
  intros Hlen Hsize Hmax limit n. unfold MemoryUtils.safeCopy.
  replace (destSize =? 0) with false by (symmetry; apply Z.eqb_neq; lia).
  assert (Hlimit : (if maxCopy =? 0 then destSize - 1
                    else min maxCopy (destSize - 1)) = limit).
  { unfold limit, min. destruct (maxCopy =? 0); [reflexivity|].
    destruct (maxCopy <? destSize - 1) eqn:E;
      [apply Z.ltb_lt in E | apply Z.ltb_ge in E]; lia. }
  rewrite Hlimit.
  assert (Hl : 0 <= limit <= destSize - 1).
  { unfold limit. destruct (maxCopy =? 0); lia. }
  pose proof (safeCopy_loop_copies (Z.to_nat limit) dest src 0 limit
                ltac:(lia) ltac:(lia) ltac:(lia)) as L.
  cbv zeta in L. rewrite drop_0 in L. cbn [Nat.add take app] in L.
  change (Z.of_nat 0) with 0 in L. rewrite L.
  fold n. rewrite Nat.sub_0_r, !Nat2Z.id.
  f_equal.
  assert (Hn : (n < length dest)%nat) by lia.
  assert (Ht : length (take n (before_nul src)) = n)
    by (rewrite length_take; lia).
  rewrite take_0. cbn [app].
  rewrite insert_app_r_alt by (rewrite Ht; lia).
  rewrite Ht, Nat.sub_diag. f_equal.
  destruct (drop n dest) as [|x rest] eqn:D.
  - apply (f_equal length) in D. rewrite length_drop in D. cbn in D. lia.
  - cbn. f_equal. replace (S n) with (n + 1)%nat by lia.
    rewrite <- drop_drop, D. reflexivity.
Qed.

(** X10.  [safeCopy] into a buffer of [destSize] cells copies the source
    string up to its NUL, at most [destSize - 1] characters (and at most
    [maxCopy] when that is not 0), terminates the copy with NUL, returns
    the number of characters copied and leaves the cells behind the
    terminator as they were. *)
Theorem X10_safeCopy_bounded_and_terminated :
  forall (dest : list Z) (destSize : Z) (src : list Z) (maxCopy : Z),
    Z.of_nat (length dest) = destSize ->
    0 < destSize ->
    0 <= maxCopy ->
    let limit :=
      if maxCopy =? 0 then destSize - 1 else Z.min maxCopy (destSize - 1) in
    let '(dest', copied) := MemoryUtils.safeCopy dest destSize src maxCopy in
    copied = Z.min limit (Z.of_nat (length (before_nul src)))
    /\ length dest' = length dest
    /\ before_nul dest' = take (Z.to_nat copied) (before_nul src)
    /\ drop (S (Z.to_nat copied)) dest' = drop (S (Z.to_nat copied)) dest.
Proof.
  intros dest destSize src maxCopy Hlen Hsize Hmax limit.
  rewrite (safeCopy_result dest destSize src maxCopy Hlen Hsize Hmax).
  fold limit.
  set (n := Z.to_nat (Z.min limit (Z.of_nat (length (before_nul src))))).
  assert (Hl : 0 <= limit <= destSize - 1).
  { unfold limit. destruct (maxCopy =? 0); lia. }
  assert (Ht : length (take n (before_nul src)) = n)
    by (rewrite length_take; lia).
  split; [lia|]. rewrite Nat2Z.id. split; [|split].
  - rewrite length_app, Ht. cbn [length]. rewrite length_drop. lia.
  - apply before_nul_app, Forall_take, before_nul_nonzero.
  - rewrite drop_app_ge by lia. rewrite Ht.
    replace (S n - n)%nat with 1%nat by lia. reflexivity.
Qed.

Lemma X10_witness :
  let r := MemoryUtils.safeCopy (cstr "????") 4 (cstr "data_0001") 0 in
  snd r = 3 /\ before_nul (fst r) = cstr "dat".
Proof.
  intros r.
  pose proof (X10_safeCopy_bounded_and_terminated (cstr "????") 4
                (cstr "data_0001") 0 eq_refl ltac:(lia) ltac:(lia)) as W.
  cbv zeta in W. fold r in W. destruct r as [dest' copied].
  destruct W as (Hc & _ & Hs & _). cbn [fst snd].
  rewrite Hs, Hc. split; reflexivity.
Defined.

(** X11.  [safeStrlen] is the length of the string up to its NUL, capped
    at [maxLen]. *)
Theorem X11_safeStrlen_capped_length :
  forall (str : list Z) (maxLen : Z),
    0 <= maxLen ->
    MemoryUtils.safeStrlen str maxLen
    = Z.min maxLen (Z.of_nat (length (before_nul str))).
Proof. intros str maxLen H. apply safeStrlen_scan. exact H. Qed.

Lemma X11_witness :
  MemoryUtils.safeStrlen (cstr "data_0001.bin") 8 = 8
  /\ MemoryUtils.safeStrlen (cstr "abc" ++ [0; 65]) 8 = 3.
Proof.
  rewrite !X11_safeStrlen_capped_length by lia. split; reflexivity.
Defined.

Lemma appendString_fits :
  forall (dest : list Z) (destSize : Z) (src : list Z),
    Z.of_nat (length dest) = destSize ->
    0 < destSize ->
    let s := before_nul dest in
    let room := destSize - 1 - Z.of_nat (length s) in
    let '(dest', ok) := MemoryUtils.appendString dest destSize src in
    length dest' = length dest
    /\ before_nul dest' = (if 0 <? room
                           then s ++ take (Z.to_nat room) (before_nul src)
                           else s)
    /\ ok = (0 <? room) && (0 <? Z.of_nat (length (before_nul src))).
Proof.
  intros dest destSize src Hlen Hsize s room.
  unfold MemoryUtils.appendString.
  replace (destSize =? 0) with false by (symmetry; apply Z.eqb_neq; lia).
  rewrite safeStrlen_scan by lia. fold s.
  pose proof (before_nul_length dest) as Hs. fold s in Hs.
  rewrite Z.min_r by lia.
  destruct (destSize - 1 <=? Z.of_nat (length s)) eqn:E.
  - apply Z.leb_le in E.
    replace (0 <? room) with false by (symmetry; apply Z.ltb_ge; lia).
    auto.
  - apply Z.leb_gt in E.
    replace (0 <? room) with true by (symmetry; apply Z.ltb_lt; lia).
    rewrite Nat2Z.id.
    rewrite (safeCopy_result (drop (length s) dest)
               (destSize - Z.of_nat (length s) - 1 + 1) src 0)
      by (try rewrite length_drop; lia).
    change (0 =? 0) with true. cbv iota.
    replace (destSize - Z.of_nat (length s) - 1 + 1 - 1) with room by lia.
    set (n := Z.to_nat (Z.min room (Z.of_nat (length (before_nul src))))).
    replace (take (length s) dest) with s
      by (unfold s; symmetry; apply before_nul_prefix).
    split; [|split].
    + rewrite !length_app. cbn [length]. rewrite !length_drop, length_take.
      pose proof (before_nul_length src). lia.
    + rewrite app_assoc.
      rewrite before_nul_app.
      * apply (f_equal (fun t => s ++ t)). unfold n.
        destruct (Z.le_ge_cases room (Z.of_nat (length (before_nul src)))).
        -- rewrite Z.min_l by lia. reflexivity.
        -- rewrite Z.min_r by lia. rewrite Nat2Z.id.
           rewrite !take_ge by lia. reflexivity.
      * apply Forall_app. split; [apply before_nul_nonzero|].
        apply Forall_take, before_nul_nonzero.
    + cbn [andb].
      destruct (0 <? Z.of_nat (length (before_nul src))) eqn:B.
      * apply Z.ltb_lt in B. apply Z.ltb_lt. lia.
      * apply Z.ltb_ge in B. apply Z.ltb_ge. lia.
Qed.

(** X12.  [appendString] on a buffer of [destSize] cells appends as much
    of the source string as fits in front of the last cell and keeps
    the result NUL-terminated.  It returns true exactly when at least
    one character was appended: a source cut short still counts as
    success, an empty source or a full buffer as failure. *)
Theorem X12_appendString_appends_what_fits :
  forall (dest : list Z) (destSize : Z) (src : list Z),
    Z.of_nat (length dest) = destSize ->
    0 < destSize ->
    let s := before_nul dest in
    let room := destSize - 1 - Z.of_nat (length s) in
    let '(dest', ok) := MemoryUtils.appendString dest destSize src in
    length dest' = length dest
    /\ before_nul dest' = (if 0 <? room
                           then s ++ take (Z.to_nat room) (before_nul src)
                           else s)
    /\ ok = (0 <? room) && (0 <? Z.of_nat (length (before_nul src))).
Proof. intros dest destSize src. apply appendString_fits. Qed.

Lemma X12_witness :
  let dest := cstr "ab" ++ [0; 0; 0; 0] in
  let r := MemoryUtils.appendString dest 6 (cstr "cdefgh") in
  before_nul (fst r) = cstr "abcde" /\ snd r = true.
Proof.
  intros dest r.
  pose proof (X12_appendString_appends_what_fits dest 6 (cstr "cdefgh")
                eq_refl ltac:(lia)) as W.
  cbv zeta in W. fold r in W. destruct r as [d ok].
  destruct W as (_ & Hs & Hok). cbn [fst snd].
  rewrite Hs, Hok. split; reflexivity.
Defined.

Lemma findChar_loop_first (fuel : nat) :
  forall (str : list Z) (k : nat) (strLen ch i : Z),
    (Z.to_nat strLen - k <= fuel)%nat ->
    MemoryUtils.findChar_loop fuel str (Z.of_nat k) strLen ch = Some i
    <-> (Z.of_nat k <= i < strLen
         /\ MemoryUtils.char_at str i = ch
         /\ forall j, Z.of_nat k <= j < i ->
                      MemoryUtils.char_at str j <> ch
                      /\ MemoryUtils.char_at str j <> 0).
Proof.
  induction fuel as [|fuel IH]; intros str k strLen ch i Hfuel.
  - cbn. split; [discriminate|]. intros (H & _). lia.
  - cbn [MemoryUtils.findChar_loop].
    destruct (Z.of_nat k <? strLen) eqn:E.
    + apply Z.ltb_lt in E.
      destruct (MemoryUtils.char_at str (Z.of_nat k) =? ch) eqn:Ec.
      * apply Z.eqb_eq in Ec. split.
        -- intros [= <-]. split; [lia|]. split; [exact Ec|]. intros j Hj. lia.
        -- intros (Hi & Hch & Hbefore). f_equal.
           destruct (Z.eq_dec i (Z.of_nat k)) as [ -> | Hne ]; [reflexivity|].
           destruct (Hbefore (Z.of_nat k) ltac:(lia)) as [Hc _].
           contradiction.
      * apply Z.eqb_neq in Ec.
        destruct (MemoryUtils.char_at str (Z.of_nat k) =? 0) eqn:E0.
        -- apply Z.eqb_eq in E0. split; [discriminate|].
           intros (Hi & Hch & Hbefore).
           destruct (Z.eq_dec i (Z.of_nat k)) as [ -> | Hne ]; [contradiction|].
           destruct (Hbefore (Z.of_nat k) ltac:(lia)) as [_ Hz].
           contradiction.
        -- apply Z.eqb_neq in E0.
           replace (Z.of_nat k + 1) with (Z.of_nat (S k)) by lia.
           rewrite IH by lia. split.
           ++ intros (Hi & Hch & Hbefore). split; [lia|]. split; [exact Hch|].
              intros j Hj.
              destruct (Z.eq_dec j (Z.of_nat k)) as [ -> | Hne ]; [auto|].
              apply Hbefore. lia.
           ++ intros (Hi & Hch & Hbefore).
              assert (i <> Z.of_nat k) by (intros ->; contradiction).
              split; [lia|]. split; [exact Hch|].
              intros j Hj. apply Hbefore. lia.
    + apply Z.ltb_ge in E. split; [discriminate|]. intros (H & _). lia.
Qed.

(** X13.  [findChar] returns the first position below [strLen] that
    holds the character, provided no NUL comes before it; otherwise it
    finds nothing.  (Looking for NUL itself finds the terminator.) *)
Theorem X13_findChar_first_occurrence :
  forall (str : list Z) (strLen ch i : Z),
    MemoryUtils.findChar str strLen ch = Some i
    <-> (0 <= i < strLen
         /\ MemoryUtils.char_at str i = ch
         /\ forall j, 0 <= j < i ->
                      MemoryUtils.char_at str j <> ch
                      /\ MemoryUtils.char_at str j <> 0).
Proof.
  intros str strLen ch i. unfold MemoryUtils.findChar.
  apply (findChar_loop_first (Z.to_nat strLen) str 0 strLen ch i). lia.
Qed.

Lemma X13_witness :
  MemoryUtils.findChar (cstr "00A0: 4869") 10 (chr ":") = Some 4.
Proof.
  apply X13_findChar_first_occurrence.
  split; [lia|]. split; [reflexivity|].
  intros j Hj.
  assert (Hc : j = 0 \/ j = 1 \/ j = 2 \/ j = 3) by lia.
  destruct Hc as [ -> | [ -> | [ -> | -> ] ] ]; split; discriminate.
Defined.

Lemma forallb_seq_lookup (f : nat -> bool) (start len : nat) :
  forallb f (seq start len) = true
  <-> forall i : nat, (start <= i < start + len)%nat -> f i = true.
Proof.
  rewrite forallb_forall. split.
  - intros H i Hi. apply H, in_seq. lia.
  - intros H i Hi. apply in_seq in Hi. apply H. lia.
Qed.

Lemma startsWith_prefix :
  forall (str prefix : list Z),
    MemoryUtils.startsWith str (Z.of_nat (length str)) prefix = true
    <-> (str <> [] /\ prefix `prefix_of` str).
Proof.
  intros str pre. unfold MemoryUtils.startsWith, MemoryUtils.strlen.
  destruct (Z.of_nat (length str) =? 0) eqn:E0.
  - apply Z.eqb_eq in E0. split; [discriminate|].
    intros [Hne _]. destruct str; [contradiction | cbn in E0; lia].
  - apply Z.eqb_neq in E0.
    assert (Hne : str <> []) by (intros ->; cbn in E0; lia).
    destruct (Z.of_nat (length str) <? Z.of_nat (length pre)) eqn:El.
    + apply Z.ltb_lt in El. split; [discriminate|].
      intros [_ [k ->]]. rewrite length_app in El. lia.
    + apply Z.ltb_ge in El. rewrite Nat2Z.id, forallb_seq_lookup. split.
      * intros H. split; [exact Hne|].
        exists (drop (length pre) str).
        rewrite <- (take_drop (length pre) str) at 1. f_equal.
        apply list_eq. intros i.
        destruct (Nat.lt_ge_cases i (length pre)) as [Hi|Hi].
        -- rewrite lookup_take_lt by lia.
           specialize (H i ltac:(lia)). apply Z.eqb_eq in H.
           unfold MemoryUtils.char_at in H. rewrite !Nat2Z.id in H.
           destruct (lookup_lt_is_Some_2 str i ltac:(lia)) as [x Hx].
           destruct (lookup_lt_is_Some_2 pre i Hi) as [y Hy].
           rewrite Hx, Hy in H. cbn in H. rewrite Hx, Hy, H. reflexivity.
        -- rewrite lookup_take_ge by lia.
           symmetry. apply lookup_ge_None. lia.
      * intros [_ [k ->]] i Hi. apply Z.eqb_eq.
        unfold MemoryUtils.char_at. rewrite Nat2Z.id.
        rewrite lookup_app_l by lia. reflexivity.
Qed.

(** X14.  Given the length of [str], [startsWith] holds exactly when
    [str] is not empty and begins with the characters of [prefix]; the
    empty prefix matches every non-empty string. *)
Theorem X14_startsWith_iff_prefix :
  forall (str prefix : list Z),
    MemoryUtils.startsWith str (Z.of_nat (length str)) prefix = true
    <-> (str <> [] /\ prefix `prefix_of` str).
Proof. intros str pre. apply startsWith_prefix. Qed.

Lemma X14_witness :
  MemoryUtils.startsWith (cstr "SIZE:3") 6 (cstr "SIZE:") = true.
Proof.
  apply (X14_startsWith_iff_prefix (cstr "SIZE:3") (cstr "SIZE:")).
  split; [discriminate | exists (cstr "3"); reflexivity].
Defined.

Lemma startsWithPGM_loop_eq (fuel : nat) :
  forall (str : list Z) (strLen : Z) (pre : list Z) (k : nat),
    Forall (fun c => c <> 0) pre ->
    (Z.to_nat strLen - k < fuel)%nat ->
    Z.of_nat k <= strLen ->
    (k <= length pre)%nat ->
    MemoryUtils.startsWithPGM_loop fuel str strLen pre (Z.of_nat k)
    = (Z.of_nat (length pre) <=? strLen)
      && forallb (fun i => MemoryUtils.char_at str (Z.of_nat i)
                           =? MemoryUtils.char_at pre (Z.of_nat i))
                 (seq k (length pre - k)).
Proof.
  induction fuel as [|fuel IH]; intros str strLen pre k Hpre Hfuel Hk Hkp;
    [lia|].
  cbn [MemoryUtils.startsWithPGM_loop].
  assert (Hat : forall i : nat,
             (MemoryUtils.char_at pre (Z.of_nat i) =? 0)
             = (length pre <=? i)%nat).
  { intros i. unfold MemoryUtils.char_at. rewrite Nat2Z.id.
    destruct (Nat.leb_spec (length pre) i) as [H|H].
    - rewrite (proj2 (lookup_ge_None pre i)) by lia. reflexivity.
    - destruct (lookup_lt_is_Some_2 pre i H) as [x Hx]. rewrite Hx. cbn.
      apply Z.eqb_neq. rewrite Forall_lookup in Hpre. eapply Hpre, Hx. }
  rewrite Hat.
  destruct (Z.of_nat k <? strLen) eqn:E.
  - apply Z.ltb_lt in E.
    destruct (Nat.leb_spec (length pre) k) as [H|H].
    + replace (length pre - k)%nat with 0%nat by lia. cbn [seq forallb].
      rewrite andb_true_r. symmetry. apply Z.leb_le. lia.
    + replace (length pre - k)%nat with (S (length pre - S k)) by lia.
      cbn [seq forallb].
      destruct (MemoryUtils.char_at str (Z.of_nat k)
                =? MemoryUtils.char_at pre (Z.of_nat k)); cbn [negb andb].
      * replace (Z.of_nat k + 1) with (Z.of_nat (S k)) by lia.
        apply IH; [exact Hpre|lia|lia|lia].
      * rewrite andb_false_r. reflexivity.
  - apply Z.ltb_ge in E. assert (Z.of_nat k = strLen) by lia.
    destruct (Nat.leb_spec (length pre) k) as [H'|H'].
    + replace (length pre - k)%nat with 0%nat by lia. cbn [seq forallb].
      rewrite andb_true_r. symmetry. apply Z.leb_le. lia.
    + replace (Z.of_nat (length pre) <=? strLen) with false
        by (symmetry; apply Z.leb_gt; lia).
      reflexivity.
Qed.

Lemma equalsIgnoreCasePGM_loop_eq (fuel : nat) :
  forall (str1 : list Z) (n : Z) (str2 : list Z) (k : nat),
    Forall (fun c => c <> 0) str2 ->
    (Z.to_nat n - k < fuel)%nat ->
    Z.of_nat k <= n ->
    (k <= length str2)%nat ->
    MemoryUtils.equalsIgnoreCasePGM_loop fuel str1 n str2 (Z.of_nat k)
    = (n =? Z.of_nat (length str2))
      && forallb (fun i => MemoryUtils.tolower (MemoryUtils.char_at str1 (Z.of_nat i))
                           =? MemoryUtils.tolower (MemoryUtils.char_at str2 (Z.of_nat i)))
                 (seq k (Z.to_nat n - k)).
Proof.
  induction fuel as [|fuel IH]; intros str1 n str2 k H2 Hfuel Hk Hk2; [lia|].
  cbn [MemoryUtils.equalsIgnoreCasePGM_loop].
  assert (Hat : forall i : Z, 0 <= i ->
             (MemoryUtils.char_at str2 i =? 0)
             = (Z.of_nat (length str2) <=? i)).
  { intros i Hi. unfold MemoryUtils.char_at.
    destruct (Z.leb_spec (Z.of_nat (length str2)) i) as [H|H].
    - rewrite (proj2 (lookup_ge_None str2 (Z.to_nat i))) by lia. reflexivity.
    - destruct (lookup_lt_is_Some_2 str2 (Z.to_nat i) ltac:(lia)) as [x Hx].
      rewrite Hx. cbn.
      apply Z.eqb_neq. rewrite Forall_lookup in H2. eapply H2, Hx. }
  rewrite !Hat by lia.
  destruct (Z.of_nat k <? n) eqn:E.
  - apply Z.ltb_lt in E.
    destruct (Z.leb_spec (Z.of_nat (length str2)) (Z.of_nat k)) as [H|H].
    + replace (n =? Z.of_nat (length str2)) with false
        by (symmetry; apply Z.eqb_neq; lia).
      reflexivity.
    + replace (Z.to_nat n - k)%nat with (S (Z.to_nat n - S k)) by lia.
      cbn [seq forallb].
      destruct (MemoryUtils.tolower (MemoryUtils.char_at str1 (Z.of_nat k))
                =? MemoryUtils.tolower (MemoryUtils.char_at str2 (Z.of_nat k)));
        cbn [negb andb].
      * replace (Z.of_nat k + 1) with (Z.of_nat (S k)) by lia.
        apply IH; [exact H2|lia|lia|lia].
      * rewrite andb_false_r. reflexivity.
  - apply Z.ltb_ge in E. assert (Z.of_nat k = n) by lia.
    replace (Z.to_nat n - k)%nat with 0%nat by lia. cbn [seq forallb].
    rewrite andb_true_r.
    destruct (Z.leb_spec (Z.of_nat (length str2)) n) as [H'|H'];
      symmetry; [apply Z.eqb_eq | apply Z.eqb_neq]; lia.
Qed.

(** X15.  The program-memory variants agree with the RAM variants:
    [startsWithPGM] with [startsWith] and [equalsIgnoreCasePGM] with
    [equalsIgnoreCase], whenever the second string is a C string. *)
Theorem X15_program_memory_variants_agree :
  forall (str : list Z) (strLen : Z) (other : list Z),
    Forall (fun c => c <> 0) other ->
    0 <= strLen ->
    MemoryUtils.startsWithPGM str strLen other
    = MemoryUtils.startsWith str strLen other
    /\ MemoryUtils.equalsIgnoreCasePGM str strLen other
       = MemoryUtils.equalsIgnoreCase str strLen other.
Proof.
  intros str strLen other Hother Hlen. split.
  - unfold MemoryUtils.startsWithPGM, MemoryUtils.startsWith, MemoryUtils.strlen.
    destruct (strLen =? 0); [reflexivity|].
    pose proof (startsWithPGM_loop_eq (S (Z.to_nat strLen)) str strLen other 0
                  Hother ltac:(lia) ltac:(lia) ltac:(lia)) as L.
    change (Z.of_nat 0) with 0 in L. rewrite L, Nat.sub_0_r, Nat2Z.id.
    destruct (Z.leb_spec (Z.of_nat (length other)) strLen) as [H|H].
    + replace (strLen <? Z.of_nat (length other)) with false
        by (symmetry; apply Z.ltb_ge; lia).
      reflexivity.
    + replace (strLen <? Z.of_nat (length other)) with true
        by (symmetry; apply Z.ltb_lt; lia).
      reflexivity.
  - unfold MemoryUtils.equalsIgnoreCasePGM, MemoryUtils.equalsIgnoreCase,
      MemoryUtils.strlen.
    pose proof (equalsIgnoreCasePGM_loop_eq (S (Z.to_nat strLen)) str strLen
                  other 0 Hother ltac:(lia) ltac:(lia) ltac:(lia)) as L.
    change (Z.of_nat 0) with 0 in L. rewrite L, Nat.sub_0_r.
    destruct (strLen =? Z.of_nat (length other)); reflexivity.
Qed.

Lemma X15_witness :
  MemoryUtils.equalsIgnoreCasePGM (cstr "displaymanager") 14
                                  (cstr "DisplayManager") = true.
Proof.
  destruct (X15_program_memory_variants_agree (cstr "displaymanager") 14
              (cstr "DisplayManager")) as [_ H].
  - repeat constructor; discriminate.
  - lia.
  - rewrite H. reflexivity.
Defined.

(** ** Numbers as text *)

Lemma digits_le_digit (fuel : nat) :
  forall v : Z, Forall (fun c => 48 <= c <= 57) (digits_le fuel v).
Proof.
  induction fuel as [|fuel IH]; intros v; cbn [digits_le]; [constructor|].
  destruct (0 <? v); [|constructor].
  constructor; [|apply IH].
  pose proof (Z.mod_pos_bound v 10 ltac:(lia)). lia.
Qed.

Lemma digits_le_length (fuel : nat) :
  forall (v : Z) (n : nat),
    v < 10 ^ Z.of_nat n -> (length (digits_le fuel v) <= n)%nat.
Proof.
  induction fuel as [|fuel IH]; intros v n Hv; cbn [digits_le length]; [lia|].
  destruct (0 <? v) eqn:E; cbn [length]; [|lia].
  apply Z.ltb_lt in E.
  destruct n as [|n]; [cbn in Hv; lia|].
  specialize (IH (v / 10) n).
  rewrite Nat2Z.inj_succ, Z.pow_succ_r in Hv by lia.
  assert (v / 10 < 10 ^ Z.of_nat n)
    by (apply Z.div_lt_upper_bound; lia).
  specialize (IH H). lia.
Qed.

Lemma digits_le_nonempty (fuel : nat) (v : Z) :
  0 < v -> (0 < fuel)%nat -> digits_le fuel v <> [].
Proof.
  intros Hv Hf. destruct fuel; [lia|]. cbn [digits_le].
  replace (0 <? v) with true by (symmetry; apply Z.ltb_lt; exact Hv).
  discriminate.
Qed.

Lemma digits_le_value (fuel : nat) :
  forall v : Z,
    0 <= v < 10 ^ Z.of_nat fuel ->
    fold_right (fun c r => r * 10 + (c - 48)) 0 (digits_le fuel v) = v.
Proof.
  induction fuel as [|fuel IH]; intros v Hv.
  - cbn in *. lia.
  - cbn [digits_le]. destruct (0 <? v) eqn:E.
    + cbn [fold_right]. rewrite IH.
      * pose proof (Z.div_mod v 10 ltac:(lia)). lia.
      * rewrite Nat2Z.inj_succ, Z.pow_succ_r in Hv by lia.
        split; [apply Z.div_pos; lia | apply Z.div_lt_upper_bound; lia].
    + apply Z.ltb_ge in E. cbn. lia.
Qed.

Lemma digits_value_rev (ds : list Z) :
  digits_value (rev ds) 0 = fold_right (fun c r => r * 10 + (c - 48)) 0 ds.
Proof.
  unfold digits_value. rewrite <- fold_left_rev_right, rev_involutive.
  reflexivity.
Qed.

Lemma intToString_digits_writes (fuel : nat) :
  forall (dest : list Z) (temp : Z) (k : nat) (destSize : Z),
    Z.of_nat (k + length (digits_le fuel temp)) <= destSize - 1 ->
    (k + length (digits_le fuel temp) <= length dest)%nat ->
    MemoryUtils.intToString_digits fuel dest temp (Z.of_nat k) destSize
    = (take k dest ++ digits_le fuel temp
       ++ drop (k + length (digits_le fuel temp)) dest,
       Z.of_nat (k + length (digits_le fuel temp))).
Proof.
  induction fuel as [|fuel IH]; intros dest temp k destSize Hroom Hdest.
  - cbn. rewrite Nat.add_0_r, take_drop. reflexivity.
  - cbn [MemoryUtils.intToString_digits digits_le] in *.
    destruct (0 <? temp) eqn:E; cbn [andb].
    + cbn [length] in Hroom, Hdest.
      replace (Z.of_nat k <? destSize - 1) with true
        by (symmetry; apply Z.ltb_lt; lia).
      replace (Z.of_nat k + 1) with (Z.of_nat (S k)) by lia.
      rewrite Nat2Z.id.
      rewrite IH; [|lia|rewrite length_insert; lia].
      cbn [length].
      replace (S k + length (digits_le fuel (temp / 10)))%nat
        with (k + S (length (digits_le fuel (temp / 10))))%nat by lia.
      f_equal.
      rewrite (take_S_r (<[k:=48 + temp mod 10]> dest) k (48 + temp mod 10))
        by (apply list_lookup_insert_eq; lia).
      rewrite take_insert_ge by lia.
      rewrite drop_insert_lt by lia.
      rewrite <- app_assoc. reflexivity.
    + cbn. rewrite Nat.add_0_r, take_drop. reflexivity.
Qed.

(** In-place reversal of the first characters of a buffer, for the
    lengths a 16-bit number can have. *)
Lemma intToString_reverse_small (s rest : list Z) :
  (length s <= 6)%nat ->
  MemoryUtils.intToString_reverse (length s) (s ++ rest) 0
                                  (Z.of_nat (length s))
  = rev s ++ rest.
Proof.
  intros H.
  destruct s as [|a [|b [|c [|d [|e [|f [|g s]]]]]]];
    try reflexivity.
  cbn in H. lia.
Qed.

Lemma parseInt_loop_digits (ds : list Z) :
  forall (fuel : nat) (str : list Z) (k : nat) (strLen result : Z)
         (rest : list Z),
    Forall (fun c => 48 <= c <= 57) ds ->
    drop k str = ds ++ 0 :: rest ->
    (length ds < fuel)%nat ->
    0 <= result ->
    digits_value ds result <= MemoryUtils.INT_MAX ->
    MemoryUtils.parseInt_loop fuel str (Z.of_nat k) strLen result
    = Some (digits_value (take (Z.to_nat (strLen - Z.of_nat k)) ds) result).
Proof.
  induction ds as [|c ds IH];
    intros fuel str k strLen result rest Hds Hdrop Hfuel Hres Hmax.
  - destruct fuel as [|fuel]; [cbn in Hfuel; lia|].
    cbn [MemoryUtils.parseInt_loop]. rewrite char_at_drop, Hdrop.
    cbn [app]. change (0 =? 0) with true. cbn [negb].
    rewrite andb_false_r, take_nil. reflexivity.
  - destruct fuel as [|fuel]; [cbn in Hfuel; lia|].
    cbn [MemoryUtils.parseInt_loop]. rewrite char_at_drop, Hdrop.
    cbn [app]. inversion Hds as [|? ? Hc Hds']; subst.
    destruct (Z.of_nat k <? strLen) eqn:E; cbn [andb].
    + apply Z.ltb_lt in E.
      replace (c =? 0) with false by (symmetry; apply Z.eqb_neq; lia).
      cbn [negb]. unfold MemoryUtils.isdigit.
      replace (48 <=? c) with true by (symmetry; apply Z.leb_le; lia).
      replace (c <=? 57) with true by (symmetry; apply Z.leb_le; lia).
      cbn [andb negb].
      assert (Hmono : forall (l : list Z) (r : Z),
                 Forall (fun c => 48 <= c <= 57) l -> 0 <= r ->
                 r <= digits_value l r).
      { clear. induction l as [|x l IHl]; intros r Hl Hr; [cbn; lia|].
        inversion Hl as [|? ? Hx Hl']; subst. unfold digits_value in *.
        cbn [fold_left]. specialize (IHl (r * 10 + (x - 48)) Hl' ltac:(lia)).
        lia. }
      unfold digits_value in Hmax. cbn [fold_left] in Hmax.
      pose proof (Hmono ds (result * 10 + (c - 48)) Hds' ltac:(lia)) as Hm.
      unfold digits_value in Hm.
      replace ((MemoryUtils.INT_MAX - (c - 48)) / 10 <? result) with false.
      * replace (Z.of_nat k + 1) with (Z.of_nat (S k)) by lia.
        rewrite (IH fuel str (S k) strLen (result * 10 + (c - 48)) rest);
          [|exact Hds'| |cbn [length] in Hfuel; lia|lia|exact Hmax].
        -- replace (Z.to_nat (strLen - Z.of_nat k))
             with (S (Z.to_nat (strLen - Z.of_nat (S k)))) by lia.
           reflexivity.
        -- replace (S k) with (k + 1)%nat by lia.
           rewrite <- drop_drop, Hdrop. reflexivity.
      * symmetry. apply Z.ltb_ge.
        apply Z.div_le_lower_bound; lia.
    + apply Z.ltb_ge in E.
      replace (Z.to_nat (strLen - Z.of_nat k)) with 0%nat by lia.
      reflexivity.
Qed.

Lemma digits_le_fuel (n : nat) :
  forall (fuel : nat) (v : Z),
    v < 10 ^ Z.of_nat n -> (n <= fuel)%nat ->
    digits_le fuel v = digits_le n v.
Proof.
  induction n as [|n IH]; intros fuel v Hv Hf.
  - cbn in Hv. destruct fuel; [reflexivity|]. cbn [digits_le].
    replace (0 <? v) with false by (symmetry; apply Z.ltb_ge; lia).
    reflexivity.
  - destruct fuel as [|fuel]; [lia|]. cbn [digits_le].
    destruct (0 <? v) eqn:E; [|reflexivity].
    apply Z.ltb_lt in E. f_equal. apply IH; [|lia].
    rewrite Nat2Z.inj_succ, Z.pow_succ_r in Hv by lia.
    apply Z.div_lt_upper_bound; lia.
Qed.

Lemma decimal_text_shape (v : Z) :
  -32767 <= v <= 32767 ->
  (1 <= length (decimal_text v) <= 6)%nat
  /\ Forall (fun c => c <> 0) (decimal_text v).
Proof.
  intros Hv. unfold decimal_text.
  destruct (v =? 0) eqn:E0; [cbn; split; [lia|repeat constructor; lia]|].
  apply Z.eqb_neq in E0.
  assert (Hnz : forall w, Forall (fun c => c <> 0) (rev (digits_le 5 w))).
  { intros w. apply Forall_rev.
    eapply Forall_impl; [apply digits_le_digit|]. cbn. intros; lia. }
  destruct (v <? 0) eqn:En.
  - apply Z.ltb_lt in En.
    pose proof (digits_le_length 5 (- v) 5 ltac:(cbn; lia)).
    cbn [length]. rewrite length_rev. split; [lia|].
    constructor; [lia | apply Hnz].
  - apply Z.ltb_ge in En.
    pose proof (digits_le_length 5 v 5 ltac:(cbn; lia)).
    pose proof (digits_le_nonempty 5 v ltac:(lia) ltac:(lia)) as Hne.
    rewrite length_rev. split; [|apply Hnz].
    destruct (digits_le 5 v); [contradiction | cbn [length] in *; lia].
Qed.

Lemma insert_behind (s dest : list Z) (n : nat) (x : Z) :
  n = length s ->
  (n < length dest)%nat ->
  <[n := x]> (s ++ drop n dest) = s ++ x :: drop (S n) dest.
Proof.
  intros -> Hn. rewrite insert_app_r_alt by lia. rewrite Nat.sub_diag.
  f_equal. destruct (drop (length s) dest) as [|y rest] eqn:D.
  - apply (f_equal length) in D. rewrite length_drop in D. cbn in D. lia.
  - cbn. f_equal. replace (S (length s)) with (length s + 1)%nat by lia.
    rewrite <- drop_drop, D. reflexivity.
Qed.

Lemma intToString_text (v : Z) (dest : list Z) (destSize : Z) :
  -32767 <= v <= 32767 ->
  7 <= destSize ->
  Z.of_nat (length dest) = destSize ->
  MemoryUtils.intToString v dest destSize
  = (decimal_text v ++ 0 :: drop (S (length (decimal_text v))) dest,
     Z.of_nat (length (decimal_text v))).
Proof.
  intros Hv Hsize Hlen. unfold MemoryUtils.intToString, decimal_text.
  replace (destSize =? 0) with false by (symmetry; apply Z.eqb_neq; lia).
  replace (destSize =? 1) with false by (symmetry; apply Z.eqb_neq; lia).
  destruct (v <? 0) eqn:En.
  - apply Z.ltb_lt in En.
    replace (v =? 0) with false by (symmetry; apply Z.eqb_neq; lia).
    assert (Hneg : MemoryUtils.int16 (- v) = - v).
    { unfold MemoryUtils.int16. rewrite Z.mod_small by lia. lia. }
    rewrite Hneg.
    replace (- v =? 0) with false by (symmetry; apply Z.eqb_neq; lia).
    assert (Hf : digits_le (Z.to_nat destSize) (- v) = digits_le 5 (- v))
      by (apply digits_le_fuel; [cbn; lia | lia]).
    pose proof (digits_le_length 5 (- v) 5 ltac:(cbn; lia)) as Hl.
    pose proof (intToString_digits_writes (Z.to_nat destSize) dest (- v) 0
                  destSize) as D.
    rewrite Hf in D. cbn [Nat.add] in D. change (Z.of_nat 0) with 0 in D.
    rewrite D by lia. rewrite take_0. cbn [app andb].
    set (ds := digits_le 5 (- v)) in *.
    replace (Z.of_nat (length ds) <? destSize - 1) with true
      by (symmetry; apply Z.ltb_lt; lia).
    rewrite Nat2Z.id.
    rewrite (insert_behind ds dest (length ds) 45) by lia.
    replace (Z.to_nat (Z.of_nat (length ds) + 1))
      with (length (ds ++ [45]))
      by (rewrite length_app; cbn [length]; lia).
    replace (Z.of_nat (length ds) + 1)
      with (Z.of_nat (length (ds ++ [45])))
      by (rewrite length_app; cbn [length]; lia).
    replace (ds ++ 45 :: drop (S (length ds)) dest)
      with ((ds ++ [45]) ++ drop (S (length ds)) dest)
      by (rewrite <- app_assoc; reflexivity).
    rewrite intToString_reverse_small
      by (rewrite length_app; cbn [length]; lia).
    rewrite rev_app_distr. cbn [rev app].
    replace (S (length ds)) with (length (45 :: rev ds))
      by (cbn [length]; rewrite length_rev; reflexivity).
    replace (length (ds ++ [45])) with (length (45 :: rev ds))
      by (rewrite length_app; cbn [length]; rewrite length_rev; lia).
    change (45 :: rev ds ++ drop (length (45 :: rev ds)) dest)
      with ((45 :: rev ds) ++ drop (length (45 :: rev ds)) dest).
    rewrite (insert_behind (45 :: rev ds) dest (length (45 :: rev ds)) 0)
      by (try reflexivity; cbn [length]; rewrite length_rev; lia).
    reflexivity.
  - apply Z.ltb_ge in En.
    destruct (v =? 0) eqn:E0.
    + apply Z.eqb_eq in E0. subst v.
      replace (2 <=? destSize) with true by (symmetry; apply Z.leb_le; lia).
      destruct dest as [|a [|b dest]]; cbn [length] in Hlen; try lia.
      reflexivity.
    + apply Z.eqb_neq in E0.
      assert (Hf : digits_le (Z.to_nat destSize) v = digits_le 5 v)
        by (apply digits_le_fuel; [cbn; lia | lia]).
      pose proof (digits_le_length 5 v 5 ltac:(cbn; lia)) as Hl.
      pose proof (intToString_digits_writes (Z.to_nat destSize) dest v 0
                    destSize) as D.
      rewrite Hf in D. cbn [Nat.add] in D. change (Z.of_nat 0) with 0 in D.
      rewrite D by lia. rewrite take_0. cbn [app andb].
      set (ds := digits_le 5 v) in *.
      rewrite Nat2Z.id.
      rewrite intToString_reverse_small by lia.
      replace (length ds) with (length (rev ds)) by apply length_rev.
      rewrite (insert_behind (rev ds) dest (length (rev ds)) 0)
        by (try reflexivity; rewrite length_rev; lia).
      reflexivity.
Qed.

Lemma parseInt_loop_digits_at (ds : list Z) (fuel : nat) (str : list Z)
  (i strLen result : Z) (rest : list Z) :
  Forall (fun c => 48 <= c <= 57) ds ->
  0 <= i ->
  drop (Z.to_nat i) str = ds ++ 0 :: rest ->
  (length ds < fuel)%nat ->
  0 <= result ->
  digits_value ds result <= MemoryUtils.INT_MAX ->
  MemoryUtils.parseInt_loop fuel str i strLen result
  = Some (digits_value (take (Z.to_nat (strLen - i)) ds) result).
Proof.
  intros Hds Hi Hdrop Hfuel Hres Hmax.
  pose proof (parseInt_loop_digits ds fuel str (Z.to_nat i) strLen result rest
                Hds Hdrop Hfuel Hres Hmax) as L.
  rewrite Z2Nat.id in L by exact Hi. exact L.
Qed.

Lemma parseInt_decimal_text (v : Z) (rest : list Z) (strLen : Z) :
  -32767 <= v <= 32767 ->
  7 <= strLen ->
  MemoryUtils.parseInt (decimal_text v ++ 0 :: rest) strLen = Some v.
Proof.
  intros Hv Hlen. unfold MemoryUtils.parseInt.
  replace (strLen =? 0) with false by (symmetry; apply Z.eqb_neq; lia).
  assert (Hval : forall w, 0 <= w <= 32767 ->
             digits_value (rev (digits_le 5 w)) 0 = w).
  { intros w Hw. rewrite digits_value_rev. apply digits_le_value. cbn. lia. }
  assert (Hdig : forall w, Forall (fun c => 48 <= c <= 57) (rev (digits_le 5 w))).
  { intros w. apply Forall_rev, digits_le_digit. }
  assert (Hlen5 : forall w, 0 <= w <= 32767 ->
             (length (rev (digits_le 5 w)) <= 5)%nat).
  { intros w Hw. rewrite length_rev. apply digits_le_length. cbn. lia. }
  unfold decimal_text.
  destruct (v =? 0) eqn:E0.
  - apply Z.eqb_eq in E0. subst v. cbn [app].
    change (MemoryUtils.char_at (48 :: 0 :: rest) 0) with 48.
    change (48 =? 45) with false. change (48 =? 43) with false. cbv iota.
    replace (strLen <=? 0) with false by (symmetry; apply Z.leb_gt; lia).
    rewrite (parseInt_loop_digits_at [48] (Z.to_nat strLen) (48 :: 0 :: rest) 0
               strLen 0 rest);
      [|repeat constructor; lia|lia|reflexivity|cbn [length]; lia|lia
       |cbn; unfold MemoryUtils.INT_MAX; lia].
    replace (Z.to_nat (strLen - 0)) with (S (Z.to_nat (strLen - 1)))
      by lia.
    rewrite firstn_cons, take_nil. reflexivity.
  - apply Z.eqb_neq in E0. destruct (v <? 0) eqn:En.
    + apply Z.ltb_lt in En. cbn [app].
      change (MemoryUtils.char_at (45 :: rev (digits_le 5 (- v)) ++ 0 :: rest) 0)
        with 45.
      change (45 =? 45) with true. cbv iota.
      replace (strLen <=? 1) with false by (symmetry; apply Z.leb_gt; lia).
      rewrite (parseInt_loop_digits_at (rev (digits_le 5 (- v)))
                 (Z.to_nat strLen)
                 (45 :: rev (digits_le 5 (- v)) ++ 0 :: rest) 1 strLen 0 rest);
        [|apply Hdig|lia|reflexivity|specialize (Hlen5 (- v)); lia|lia
         |rewrite Hval by lia; unfold MemoryUtils.INT_MAX; lia].
      rewrite take_ge by (specialize (Hlen5 (- v)); lia).
      rewrite Hval by lia. f_equal. lia.
    + apply Z.ltb_ge in En.
      pose proof (digits_le_nonempty 5 v ltac:(lia) ltac:(lia)) as Hne.
      pose proof (Hdig v) as Hd.
      destruct (rev (digits_le 5 v)) as [|c t] eqn:R.
      { apply (f_equal (@rev Z)) in R. rewrite rev_involutive in R.
        cbn in R. contradiction. }
      inversion Hd as [|? ? Hc Ht]; subst. cbn [app].
      change (MemoryUtils.char_at (c :: t ++ 0 :: rest) 0) with c.
      replace (c =? 45) with false by (symmetry; apply Z.eqb_neq; lia).
      replace (c =? 43) with false by (symmetry; apply Z.eqb_neq; lia).
      replace (strLen <=? 0) with false by (symmetry; apply Z.leb_gt; lia).
      specialize (Hlen5 v ltac:(lia)). rewrite R in Hlen5.
      specialize (Hval v ltac:(lia)). rewrite R in Hval.
      rewrite (parseInt_loop_digits_at (c :: t) (Z.to_nat strLen)
                 (c :: t ++ 0 :: rest) 0 strLen 0 rest);
        [|exact Hd|lia|reflexivity|cbn [length] in *; lia|lia
         |rewrite Hval; unfold MemoryUtils.INT_MAX; lia].
      rewrite take_ge by (cbn [length] in *; lia).
      rewrite Hval. reflexivity.
Qed.

(** X16.  Round trip: for every [int] but INT_MIN, [intToString] into a
    buffer of at least 7 cells writes the decimal text of the value
    (sign first, 1 to 6 characters), NUL-terminated, and [parseInt]
    reads the value back from that buffer. *)
Theorem X16_intToString_parseInt_round_trip :
  forall (v : Z) (dest : list Z) (destSize : Z),
    -32767 <= v <= 32767 ->
    7 <= destSize ->
    Z.of_nat (length dest) = destSize ->
    let '(dest', len) := MemoryUtils.intToString v dest destSize in
    before_nul dest' = decimal_text v
    /\ len = Z.of_nat (length (decimal_text v))
    /\ 1 <= len <= 6
    /\ MemoryUtils.parseInt dest' destSize = Some v.
Proof.
  intros v dest destSize Hv Hsize Hlen.
  rewrite (intToString_text v dest destSize Hv Hsize Hlen).
  destruct (decimal_text_shape v Hv) as [Hl Hnz].
  split; [apply before_nul_app; exact Hnz|]. split; [reflexivity|].
  split; [lia|]. apply parseInt_decimal_text; assumption.
Qed.

Lemma X16_witness :
  let r := MemoryUtils.intToString (-1284) (MemoryUtils.clearBuffer 10) 10 in
  before_nul (fst r) = cstr "-1284"
  /\ MemoryUtils.parseInt (fst r) 10 = Some (-1284).
Proof.
  intros r.
  pose proof (X16_intToString_parseInt_round_trip (-1284)
                (MemoryUtils.clearBuffer 10) 10
                ltac:(lia) ltac:(lia) eq_refl) as W.
  fold r in W. destruct r as [dest' len]. cbn [fst].
  destruct W as (Ht & _ & _ & Hp). rewrite Ht. split; [reflexivity | exact Hp].
Defined.

(** ** The flat file system: mounting, space, names *)

(** X17.  [initialize] never programs or erases the chip: reading the
    directory cannot fail, so the format fall-back is never taken.  It
    fails only when the chip does not answer the JEDEC query, and
    succeeds for every other chip, whatever the first sector holds. *)
Theorem X17_initialize_never_writes_the_chip :
  forall (p : EEPROMStoragePlugin.t) (f : Flash.t),
    let '(p', f', r) := EEPROMStoragePlugin.initialize p f in
    f' = f
    /\ r = (if EEPROMStoragePlugin.initialized p then STATUS_OK
            else if (Flash.jedec f =? 0) || (Flash.jedec f =? 16777215)
                 then STATUS_ERROR else STATUS_OK)
    /\ EEPROMStoragePlugin.isReady p'
       = EEPROMStoragePlugin.initialized p
         || negb ((Flash.jedec f =? 0) || (Flash.jedec f =? 16777215)).
Proof.
  intros p f. unfold EEPROMStoragePlugin.initialize.
  destruct (EEPROMStoragePlugin.initialized p) eqn:Hi.
  - unfold EEPROMStoragePlugin.isReady. rewrite Hi. auto.
  - destruct ((Flash.jedec f =? 0) || (Flash.jedec f =? 16777215)).
    + unfold EEPROMStoragePlugin.isReady. rewrite Hi. auto.
    + unfold EEPROMStoragePlugin.loadDirectory, EEPROMStoragePlugin.readData.
      change (EEPROMStoragePlugin.sizeof_directory =? 0) with false.
      cbv iota.
      destruct (EEPROMStoragePlugin.loadDirectory_loop _ 0 0
                  EEPROMStoragePlugin.DATA_START_SECTOR) as [[[dir1 tf] df] nf].
      cbn. auto.
Qed.

Lemma deleteFile_keeps (p : EEPROMStoragePlugin.t) (f : Flash.t)
  (name : list Z) :
  let p' := fst (fst (EEPROMStoragePlugin.deleteFile p f name)) in
  EEPROMStoragePlugin.nextFreeSector p' = EEPROMStoragePlugin.nextFreeSector p
  /\ EEPROMStoragePlugin.initialized p' = EEPROMStoragePlugin.initialized p.
Proof.
  unfold EEPROMStoragePlugin.deleteFile.
  destruct (negb (EEPROMStoragePlugin.initialized p)); [auto|].
  destruct (EEPROMStoragePlugin.findFileEntry p name); [|auto].
  destruct (EEPROMStoragePlugin.saveDirectory _ f). cbn. auto.
Qed.







Lemma findEmptyEntry_from_lt (dir : list EEPROMStoragePlugin.FileEntry) :
  forall i j : nat,
    EEPROMStoragePlugin.findEmptyEntry_from i dir = Some j ->
    (i <= j < i + length dir)%nat.
Proof.
  induction dir as [|e dir IH]; intros i j; [discriminate|].
  cbn [EEPROMStoragePlugin.findEmptyEntry_from length].
  destruct ((EEPROMStoragePlugin.status e =? EEPROMStoragePlugin.STATUS_EMPTY)
            || (EEPROMStoragePlugin.status e =? EEPROMStoragePlugin.STATUS_DELETED)).
  - intros [= <-]. lia.
  - intros H. apply IH in H. lia.
Qed.

(** What a [writeFile] that returns a non-zero count has done to the
    directory mirror. *)
Lemma writeFile_success_inv (p : EEPROMStoragePlugin.t) (f : Flash.t)
  (name data : list Z) (size : Z) :
  let '(p', f', w) := EEPROMStoragePlugin.writeFile p f name data size in
  w <> 0 ->
  w = size
  /\ EEPROMStoragePlugin.initialized p = true
  /\ EEPROMStoragePlugin.initialized p' = true
  /\ exists (p1 : EEPROMStoragePlugin.t) (slot : nat),
       (p1 = p \/ p1 = fst (fst (EEPROMStoragePlugin.deleteFile p f name)))
       /\ (EEPROMStoragePlugin.findFileEntry p name = None -> p1 = p)
       /\ EEPROMStoragePlugin.findEmptyEntry p1 = Some slot
       /\ (slot < length (EEPROMStoragePlugin.directory p1))%nat
       /\ EEPROMStoragePlugin.directory p'
          = <[slot :=
                EEPROMStoragePlugin.mkEntry
                  (fst (MemoryUtils.safeCopy
                          (EEPROMStoragePlugin.filename
                             (EEPROMStoragePlugin.entry_at p1 slot))
                          MAX_FILENAME_LENGTH name 0))
                  (EEPROMStoragePlugin.nextFreeSector p1) size
                  (EEPROMStoragePlugin.not_size_t size)
                  EEPROMStoragePlugin.STATUS_ACTIVE
                  (EEPROMStoragePlugin.reserved
                     (EEPROMStoragePlugin.entry_at p1 slot))]>
            (EEPROMStoragePlugin.directory p1).
Proof.
  unfold EEPROMStoragePlugin.writeFile.
  destruct (EEPROMStoragePlugin.initialized p) eqn:Hi; cbn [negb orb];
    [|intros H; contradiction].
  destruct (size =? 0); [intros H; contradiction|].
  assert (H1 : exists p1 f1,
             (match EEPROMStoragePlugin.findFileEntry p name with
              | Some _ =>
                  let '(q, g, _) := EEPROMStoragePlugin.deleteFile p f name in
                  (q, g)
              | None => (p, f)
              end) = (p1, f1)
             /\ (p1 = p \/ p1 = fst (fst (EEPROMStoragePlugin.deleteFile p f name)))
             /\ (EEPROMStoragePlugin.findFileEntry p name = None -> p1 = p)
             /\ EEPROMStoragePlugin.initialized p1 = true).
  { destruct (EEPROMStoragePlugin.findFileEntry p name).
    - pose proof (deleteFile_keeps p f name) as K.
      destruct (EEPROMStoragePlugin.deleteFile p f name) as [[q g] b].
      exists q, g. cbn in K. destruct K as [_ K].
      repeat split; [right; reflexivity | discriminate | congruence].
    - exists p, f. auto. }
  destruct H1 as (p1 & f1 & -> & Hp1 & Hnone & Hi1).
  destruct (EEPROMStoragePlugin.findEmptyEntry p1) as [slot|] eqn:Hslot;
    [|intros H; contradiction].
  assert (Hlt : (slot < length (EEPROMStoragePlugin.directory p1))%nat).
  { unfold EEPROMStoragePlugin.findEmptyEntry in Hslot.
    apply findEmptyEntry_from_lt in Hslot. lia. }
  unfold EEPROMStoragePlugin.allocateSectors, EEPROMStoragePlugin.defragment.
  destruct (EEPROMStoragePlugin.TOTAL_SECTORS
            <? u32 (EEPROMStoragePlugin.nextFreeSector p1
                    + EEPROMStoragePlugin.getSectorCount size));
    [cbn; intros H; contradiction|].
  destruct (EEPROMStoragePlugin.nextFreeSector p1 =? 0);
    [intros H; contradiction|].
  destruct (EEPROMStoragePlugin.writeFile_loop _ f1 _ _ 0) as [f2 ok].
  destruct (negb ok); [intros H; contradiction|].
  destruct (EEPROMStoragePlugin.saveDirectory _ f2) as [f3 saved].
  destruct (negb saved); [intros H; contradiction|].
  intros _. cbn. split; [reflexivity|]. split; [reflexivity|].
  split; [exact Hi1|].
  exists p1, slot. auto.
Qed.

Lemma written_entry_invalid (name res : list Z) (start size : Z) :
  EEPROMStoragePlugin.validateFileEntry
    (EEPROMStoragePlugin.mkEntry name start size
       (EEPROMStoragePlugin.not_size_t size)
       EEPROMStoragePlugin.STATUS_ACTIVE res) = false.
Proof.
  unfold EEPROMStoragePlugin.validateFileEntry.
  cbn [EEPROMStoragePlugin.sizeBytes EEPROMStoragePlugin.sizeComplement].
  replace (size =? EEPROMStoragePlugin.not32
                     (EEPROMStoragePlugin.not_size_t size)) with false;
    [reflexivity|].
  symmetry. apply Z.eqb_neq. intros E.
  unfold EEPROMStoragePlugin.not32, EEPROMStoragePlugin.not_size_t,
    SIZE_T_BITS in E.
  rewrite Z.lxor_assoc in E.
  apply (f_equal (Z.lxor size)) in E.
  rewrite <- Z.lxor_assoc, Z.lxor_nilpotent, Z.lxor_0_l in E.
  vm_compute in E. discriminate.
Qed.

Lemma fsck_loop_finds_invalid (dir : list EEPROMStoragePlugin.FileEntry) :
  forall (slot : nat) (e : EEPROMStoragePlugin.FileEntry),
    dir !! slot = Some e ->
    EEPROMStoragePlugin.status e = EEPROMStoragePlugin.STATUS_ACTIVE ->
    EEPROMStoragePlugin.validateFileEntry e = false ->
    snd (EEPROMStoragePlugin.fsck_loop dir) = true.
Proof.
  induction dir as [|x dir IH]; intros slot e Hl Hs Hv; [discriminate|].
  cbn [EEPROMStoragePlugin.fsck_loop].
  destruct (EEPROMStoragePlugin.fsck_loop dir) as [rest1 hasErrors] eqn:F.
  destruct slot as [|slot].
  - cbn in Hl. injection Hl as ->. rewrite Hs, Hv. reflexivity.
  - cbn in Hl. specialize (IH slot e Hl Hs Hv). cbn [snd] in IH. subst.
    destruct ((EEPROMStoragePlugin.status x =? EEPROMStoragePlugin.STATUS_ACTIVE)
              && negb (EEPROMStoragePlugin.validateFileEntry x)); reflexivity.
Qed.

(** X19.  The directory entry of a file that [writeFile] has stored
    does not pass [validateFileEntry]: the size complement is taken on
    16 bits and checked on 32.  So [fsck] reports errors right after
    any successful [writeFile]. *)
Theorem X19_written_entry_fails_validation :
  forall (p : EEPROMStoragePlugin.t) (f : Flash.t) (name data : list Z)
         (size : Z),
    let '(p', f', written) :=
      EEPROMStoragePlugin.writeFile p f name data size in
    written <> 0 ->
    (exists (slot : nat) (e : EEPROMStoragePlugin.FileEntry),
        EEPROMStoragePlugin.directory p' !! slot = Some e
        /\ EEPROMStoragePlugin.status e = EEPROMStoragePlugin.STATUS_ACTIVE
        /\ EEPROMStoragePlugin.sizeBytes e = written
        /\ EEPROMStoragePlugin.validateFileEntry e = false)
    /\ snd (EEPROMStoragePlugin.fsck p' f') = false.
Proof.
  intros p f name data size.
  pose proof (writeFile_success_inv p f name data size) as W.
  destruct (EEPROMStoragePlugin.writeFile p f name data size)
    as [[p' f'] written].
  intros Hw. destruct (W Hw) as (-> & Hi & Hi' & p1 & slot & _ & _ & _ & Hlt & Hd).
  assert (Hex : exists (slot : nat) (e : EEPROMStoragePlugin.FileEntry),
             EEPROMStoragePlugin.directory p' !! slot = Some e
             /\ EEPROMStoragePlugin.status e = EEPROMStoragePlugin.STATUS_ACTIVE
             /\ EEPROMStoragePlugin.sizeBytes e = size
             /\ EEPROMStoragePlugin.validateFileEntry e = false).
  { eexists slot, _. split.
    - rewrite Hd. apply list_lookup_insert_eq. exact Hlt.
    - split; [reflexivity|]. split; [reflexivity|].
      apply written_entry_invalid. }
  split; [exact Hex|].
  destruct Hex as (s & e & Hl & Hs & _ & Hv).
  unfold EEPROMStoragePlugin.fsck. rewrite Hi'. cbn [negb].
  pose proof (fsck_loop_finds_invalid _ s e Hl Hs Hv) as F.
  destruct (EEPROMStoragePlugin.fsck_loop (EEPROMStoragePlugin.directory p'))
    as [dir1 hasErrors].
  cbn [snd] in F. subst hasErrors.
  destruct (EEPROMStoragePlugin.saveDirectory _ f') as [f1 s1].
  destruct (EEPROMStoragePlugin.loadDirectory _ f1) as [p2 l2].
  reflexivity.
Qed.

Lemma X19_witness :
  let w := EEPROMStoragePlugin.writeFile (fst Scenario.mounted)
             (snd Scenario.mounted) (cstr "data") [72; 105; 10] 3 in
  snd w <> 0
  /\ snd (EEPROMStoragePlugin.fsck (fst (fst w)) (snd (fst w))) = false.
Proof.
  intros w.
  assert (H : snd w <> 0) by (vm_compute; discriminate).
  split; [exact H|].
  pose proof (X19_written_entry_fails_validation (fst Scenario.mounted)
                (snd Scenario.mounted) (cstr "data") [72; 105; 10] 3) as W.
  fold w in W. destruct w as [[p' f'] n]. cbn [fst snd] in *.
  destruct (W H) as [_ F]. exact F.
Defined.

Lemma stored_name_mismatch (old name : list Z) :
  length old = 8%nat ->
  Forall (fun c => c <> 0) name ->
  MemoryUtils.equalsIgnoreCase
    (fst (MemoryUtils.safeCopy old MAX_FILENAME_LENGTH name 0))
    MAX_FILENAME_LENGTH name = false.
Proof.
  intros Hold Hname.
  destruct (Nat.eq_dec (length name) 8%nat) as [H8|H8].
  - rewrite (safeCopy_result old MAX_FILENAME_LENGTH name 0)
      by (unfold MAX_FILENAME_LENGTH; lia).
    cbn [fst]. rewrite (before_nul_id name Hname).
    change (0 =? 0) with true. cbv iota. unfold MAX_FILENAME_LENGTH.
    rewrite H8. change (Z.to_nat (Z.min (8 - 1) (Z.of_nat 8))) with 7%nat.
    unfold MemoryUtils.equalsIgnoreCase, MemoryUtils.strlen. rewrite H8.
    change (negb (8 =? Z.of_nat 8)) with false. cbv iota.
    apply not_true_is_false. intros F.
    rewrite forallb_forall in F.
    specialize (F 7%nat ltac:(apply in_seq; cbn; lia)).
    apply Z.eqb_eq in F.
    unfold MemoryUtils.char_at in F. change (Z.to_nat (Z.of_nat 7)) with 7%nat in F.
    rewrite lookup_app_r in F by (rewrite length_take; lia).
    rewrite length_take, H8 in F. cbn in F.
    destruct (lookup_lt_is_Some_2 name 7 ltac:(lia)) as [c Hc].
    rewrite Hc in F. cbn in F.
    rewrite Forall_lookup in Hname. specialize (Hname 7%nat c Hc).
    unfold MemoryUtils.tolower in F.
    destruct ((65 <=? c) && (c <=? 90)) eqn:E; [|congruence].
    apply andb_true_iff in E. destruct E as [E _]. apply Z.leb_le in E.
    cbn in F. lia.
  - destruct (MemoryUtils.equalsIgnoreCase _ MAX_FILENAME_LENGTH name) eqn:E;
      [|reflexivity].
    apply equalsIgnoreCase_strlen in E.
    unfold MemoryUtils.strlen, MAX_FILENAME_LENGTH in E. lia.
Qed.

Lemma findFileEntry_from_insert_none (name : list Z)
  (upd : EEPROMStoragePlugin.FileEntry) :
  MemoryUtils.equalsIgnoreCase (EEPROMStoragePlugin.filename upd)
                               MAX_FILENAME_LENGTH name = false ->
  forall (dir : list EEPROMStoragePlugin.FileEntry) (i slot : nat),
    EEPROMStoragePlugin.findFileEntry_from i dir name = None ->
    EEPROMStoragePlugin.findFileEntry_from i (<[slot := upd]> dir) name = None.
Proof.
  intros Hupd. induction dir as [|e dir IH]; intros i slot H; [exact H|].
  cbn [EEPROMStoragePlugin.findFileEntry_from] in H.
  destruct ((EEPROMStoragePlugin.status e =? EEPROMStoragePlugin.STATUS_ACTIVE)
            && MemoryUtils.equalsIgnoreCase (EEPROMStoragePlugin.filename e)
                 MAX_FILENAME_LENGTH name) eqn:E; [discriminate|].
  destruct slot as [|slot]; cbn [insert list_insert EEPROMStoragePlugin.findFileEntry_from].
  - rewrite Hupd, andb_false_r. exact H.
  - rewrite E. apply IH. exact H.
Qed.

(** X20.  A file written under a new name cannot be found under that
    name afterwards, whatever the name and whether the write succeeded:
    the stored name keeps at most seven characters, the look-up compares
    eight.  [fileExists] answers false, [getFileSize] 0 and [readFile]
    reads nothing. *)
Theorem X20_written_file_is_not_found :
  forall (p : EEPROMStoragePlugin.t) (f : Flash.t) (name data : list Z)
         (size maxSize : Z),
    names_fit (EEPROMStoragePlugin.directory p) ->
    Forall (fun c => c <> 0) name ->
    EEPROMStoragePlugin.fileExists p name = false ->
    let '(p', f', _) := EEPROMStoragePlugin.writeFile p f name data size in
    EEPROMStoragePlugin.fileExists p' name = false
    /\ EEPROMStoragePlugin.getFileSize p' name = 0
    /\ EEPROMStoragePlugin.readFile p' f' name maxSize = (0, []).
Proof.
  intros p f name data size maxSize Hfit Hname Hnot.
  assert (Hnone : EEPROMStoragePlugin.findFileEntry p name = None).
  { unfold EEPROMStoragePlugin.fileExists in Hnot.
    destruct (EEPROMStoragePlugin.findFileEntry p name); [discriminate|].
    reflexivity. }
  assert (Hgoal : EEPROMStoragePlugin.findFileEntry
                    (fst (fst (EEPROMStoragePlugin.writeFile p f name data size)))
                    name = None).
  { unfold EEPROMStoragePlugin.writeFile.
    destruct (negb (EEPROMStoragePlugin.initialized p) || (size =? 0));
      [exact Hnone|].
    rewrite Hnone.
    destruct (EEPROMStoragePlugin.findEmptyEntry p) as [slot|] eqn:Hslot;
      [|exact Hnone].
    assert (Hlt : (slot < length (EEPROMStoragePlugin.directory p))%nat).
    { unfold EEPROMStoragePlugin.findEmptyEntry in Hslot.
      apply findEmptyEntry_from_lt in Hslot. lia. }
    unfold EEPROMStoragePlugin.allocateSectors, EEPROMStoragePlugin.defragment.
    destruct (EEPROMStoragePlugin.TOTAL_SECTORS
              <? u32 (EEPROMStoragePlugin.nextFreeSector p
                      + EEPROMStoragePlugin.getSectorCount size));
      [exact Hnone|].
    destruct (EEPROMStoragePlugin.nextFreeSector p =? 0); [exact Hnone|].
    destruct (EEPROMStoragePlugin.writeFile_loop _ f _ _ 0) as [f2 ok].
    destruct (negb ok); [exact Hnone|].
    assert (Hins : EEPROMStoragePlugin.findFileEntry_from 0
                     (<[slot :=
                          EEPROMStoragePlugin.mkEntry
                            (fst (MemoryUtils.safeCopy
                                    (EEPROMStoragePlugin.filename
                                       (EEPROMStoragePlugin.entry_at p slot))
                                    MAX_FILENAME_LENGTH name 0))
                            (EEPROMStoragePlugin.nextFreeSector p) size
                            (EEPROMStoragePlugin.not_size_t size)
                            EEPROMStoragePlugin.STATUS_ACTIVE
                            (EEPROMStoragePlugin.reserved
                               (EEPROMStoragePlugin.entry_at p slot))]>
                        (EEPROMStoragePlugin.directory p)) name = None).
    { apply findFileEntry_from_insert_none; [|exact Hnone].
      cbn [EEPROMStoragePlugin.filename].
      apply stored_name_mismatch; [|exact Hname].
      unfold EEPROMStoragePlugin.entry_at.
      destruct (lookup_lt_is_Some_2 _ slot Hlt) as [e He].
      rewrite He. cbn [default].
      unfold names_fit in Hfit. rewrite Forall_lookup in Hfit.
      exact (Hfit slot e He). }
    destruct (EEPROMStoragePlugin.saveDirectory _ f2) as [f3 saved].
    destruct (negb saved); exact Hins. }
  destruct (EEPROMStoragePlugin.writeFile p f name data size)
    as [[p' f'] w].
  cbn [fst] in Hgoal.
  unfold EEPROMStoragePlugin.fileExists, EEPROMStoragePlugin.getFileSize,
    EEPROMStoragePlugin.readFile.
  rewrite Hgoal.
  destruct (negb (EEPROMStoragePlugin.initialized p') || (maxSize =? 0)); auto.
Qed.

Lemma mounted_names_fit :
  names_fit (EEPROMStoragePlugin.directory (fst Scenario.mounted)).
Proof.
  unfold names_fit. apply List.Forall_forall. intros e He.
  assert (Hall : forallb (fun e => Nat.eqb (length (EEPROMStoragePlugin.filename e)) 8)
                         (EEPROMStoragePlugin.directory (fst Scenario.mounted))
                 = true) by (vm_compute; reflexivity).
  rewrite forallb_forall in Hall. apply Nat.eqb_eq, Hall. exact He.
Qed.

Lemma X20_witness :
  let w := EEPROMStoragePlugin.writeFile (fst Scenario.mounted)
             (snd Scenario.mounted) (cstr "data0001") [72; 105; 10] 3 in
  snd w = 3
  /\ EEPROMStoragePlugin.fileExists (fst (fst w)) (cstr "data0001") = false.
Proof.
  intros w. split; [vm_compute; reflexivity|].
  pose proof (X20_written_file_is_not_found (fst Scenario.mounted)
                (snd Scenario.mounted) (cstr "data0001") [72; 105; 10] 3 3
                mounted_names_fit) as W.
  fold w in W. destruct w as [[p' f'] n]. cbn [fst].
  apply W.
  - repeat constructor; discriminate.
  - vm_compute. reflexivity.
Defined.

(** ** The flat file system on the chip *)

Lemma is_byte_b_ok (b : Z) : is_byte_b b = true -> is_byte b.
Proof.
  unfold is_byte_b, is_byte. intros H. apply andb_true_iff in H.
  destruct H as [H1 H2]. apply Z.leb_le in H1. apply Z.ltb_lt in H2. lia.
Qed.

Lemma bytes_b_ok (l : list Z) : forallb is_byte_b l = true -> Forall is_byte l.
Proof.
  intros H. apply List.Forall_forall. intros b Hb.
  rewrite forallb_forall in H. apply is_byte_b_ok, H, Hb.
Qed.

Lemma entry_typed_b_ok (e : EEPROMStoragePlugin.FileEntry) :
  entry_typed_b e = true -> entry_typed e.
Proof.
  unfold entry_typed_b, entry_typed, entry_layout. intros H.
  apply andb_true_iff in H as [H Hst].
  apply andb_true_iff in H as [H Hc2]. apply andb_true_iff in H as [H Hc1].
  apply andb_true_iff in H as [H Hs2]. apply andb_true_iff in H as [H Hs1].
  apply andb_true_iff in H as [H Ha2]. apply andb_true_iff in H as [H Ha1].
  apply andb_true_iff in H as [H Hrb]. apply andb_true_iff in H as [H Hnb].
  apply andb_true_iff in H as [Hn Hr].
  apply Nat.eqb_eq in Hn. apply Nat.eqb_eq in Hr.
  apply Z.leb_le in Ha1. apply Z.ltb_lt in Ha2.
  apply Z.leb_le in Hs1. apply Z.ltb_lt in Hs2.
  apply Z.leb_le in Hc1. apply Z.ltb_lt in Hc2.
  split; [split; assumption|].
  split; [apply bytes_b_ok; exact Hnb|].
  split; [apply bytes_b_ok; exact Hrb|].
  split; [split; assumption|]. split; [split; assumption|].
  split; [split; assumption|]. apply is_byte_b_ok. exact Hst.
Qed.

Lemma directory_typed_b_ok (dir : list EEPROMStoragePlugin.FileEntry) :
  length dir = 64%nat ->
  forallb entry_typed_b dir = true ->
  directory_typed dir.
Proof.
  intros Hlen H. split; [exact Hlen|].
  apply List.Forall_forall. intros e He.
  rewrite forallb_forall in H. apply entry_typed_b_ok, H, He.
Qed.

Lemma programmed_aligned (m : Z -> Z) (A : Z) (chunk : list Z) (a : Z) :
  0 <= A -> A mod 256 = 0 -> (length chunk <= 256)%nat ->
  Flash.programmed m A chunk a = written m A chunk a.
Proof.
  intros HA Hal Hlen. unfold Flash.programmed, written.
  assert (HAq : A = 256 * (A / 256))
    by (pose proof (Z.div_mod A 256 ltac:(lia)); lia).
  destruct (a / 256 =? A / 256) eqn:E.
  - apply Z.eqb_eq in E.
    assert (Ha : A <= a < A + 256).
    { pose proof (Z.div_mod a 256 ltac:(lia)).
      pose proof (Z.mod_pos_bound a 256 ltac:(lia)). lia. }
    replace (A <=? a) with true by (symmetry; apply Z.leb_le; lia).
    cbn [andb]. rewrite (Z.mod_small (a - A)) by lia.
    destruct (a <? A + Z.of_nat (length chunk)) eqn:E2.
    + apply Z.ltb_lt in E2.
      destruct (lookup_lt_is_Some_2 chunk (Z.to_nat (a - A)) ltac:(lia))
        as [d Hd].
      rewrite Hd. reflexivity.
    + apply Z.ltb_ge in E2.
      rewrite (proj2 (lookup_ge_None chunk (Z.to_nat (a - A)))) by lia.
      reflexivity.
  - apply Z.eqb_neq in E.
    destruct ((A <=? a) && (a <? A + Z.of_nat (length chunk))) eqn:E2;
      [|reflexivity].
    apply andb_true_iff in E2. destruct E2 as [E2 E3].
    apply Z.leb_le in E2. apply Z.ltb_lt in E3.
    exfalso. apply E.
    assert (Hq : a = 256 * (A / 256) + (a - A)) by lia.
    rewrite Hq. rewrite Z.mul_comm, Z.div_add_l by lia.
    rewrite (Z.div_small (a - A)) by lia. lia.
Qed.

Lemma written_app (m m1 : Z -> Z) (A : Z) (chunk rest : list Z) :
  (forall a, m1 a = written m A chunk a) ->
  forall a,
    written m1 (A + Z.of_nat (length chunk)) rest a
    = written m A (chunk ++ rest) a.
Proof.
  intros Hm1 a. unfold written. rewrite length_app, Nat2Z.inj_add.
  rewrite Hm1. unfold written.
  destruct (Z.lt_ge_cases a A) as [H|H].
  - replace (A <=? a) with false by (symmetry; apply Z.leb_gt; lia).
    replace (A + Z.of_nat (length chunk) <=? a) with false
      by (symmetry; apply Z.leb_gt; lia).
    reflexivity.
  - replace (A <=? a) with true by (symmetry; apply Z.leb_le; lia).
    cbn [andb].
    destruct (Z.lt_ge_cases a (A + Z.of_nat (length chunk))) as [H2|H2].
    + replace (a <? A + Z.of_nat (length chunk)) with true
        by (symmetry; apply Z.ltb_lt; lia).
      replace (A + Z.of_nat (length chunk) <=? a) with false
        by (symmetry; apply Z.leb_gt; lia).
      replace (a <? A + (Z.of_nat (length chunk) + Z.of_nat (length rest)))
        with true by (symmetry; apply Z.ltb_lt; lia).
      cbn [andb]. rewrite lookup_app_l by lia. reflexivity.
    + replace (a <? A + Z.of_nat (length chunk)) with false
        by (symmetry; apply Z.ltb_ge; lia).
      replace (A + Z.of_nat (length chunk) <=? a) with true
        by (symmetry; apply Z.leb_le; lia).
      cbn [andb].
      replace (a <? A + Z.of_nat (length chunk) + Z.of_nat (length rest))
        with (a <? A + (Z.of_nat (length chunk) + Z.of_nat (length rest)))
        by (f_equal; lia).
      destruct (a <? A + (Z.of_nat (length chunk) + Z.of_nat (length rest)));
        [|reflexivity].
      rewrite lookup_app_r by lia.
      replace (Z.to_nat (a - (A + Z.of_nat (length chunk))))
        with (Z.to_nat (a - A) - length chunk)%nat by lia.
      reflexivity.
Qed.

Lemma written_nil (m : Z -> Z) (A a : Z) : written m A [] a = m a.
Proof.
  unfold written. cbn [length]. 
  destruct (A <=? a) eqn:E1; [|reflexivity].
  replace (a <? A + Z.of_nat 0) with false; [reflexivity|].
  symmetry. apply Z.ltb_ge. apply Z.leb_le in E1. lia.
Qed.

Lemma writePage_healthy (f : Flash.t) (A : Z) (data : list Z) (size : Z) :
  healthy f ->
  0 <= A < 2 ^ 24 -> A mod 256 = 0 ->
  0 < size <= 256 ->
  exists f1,
    EEPROMStoragePlugin.writePage f A data size = (f1, true)
    /\ healthy f1
    /\ Flash.jedec f1 = Flash.jedec f
    /\ forall a, Flash.mem f1 a
                 = written (Flash.mem f) A (take (Z.to_nat size) data) a.
Proof.
  intros Hh HA Hal Hs. unfold EEPROMStoragePlugin.writePage, EEPROM_PAGE_SIZE.
  replace (size =? 0) with false by (symmetry; apply Z.eqb_neq; lia).
  replace (256 <? size) with false by (symmetry; apply Z.ltb_ge; lia).
  cbn [orb]. unfold Flash.page_program, Flash.next_completes, Flash.write_enable.
  cbn [Flash.completes Flash.wel Flash.mem Flash.jedec Flash.log].
  unfold healthy in Hh. rewrite Hh.
  eexists. split; [reflexivity|]. split; [reflexivity|].
  split; [reflexivity|]. intros a. cbn [Flash.mem].
  unfold Flash.addr24. rewrite Z.mod_small by lia.
  apply programmed_aligned; [lia|exact Hal|].
  rewrite length_take. lia.
Qed.

Lemma min_page_cases (n : Z) :
  0 < n ->
  (n <= 256 /\ min n EEPROM_PAGE_SIZE = n)
  \/ (256 < n /\ min n EEPROM_PAGE_SIZE = 256).
Proof.
  intros Hn. unfold min, EEPROM_PAGE_SIZE.
  destruct (n <? 256) eqn:E;
    [apply Z.ltb_lt in E | apply Z.ltb_ge in E]; lia.
Qed.

Lemma writeFile_loop_healthy (fuel : nat) :
  forall (f : Flash.t) (address : Z) (data : list Z) (tw : Z),
    healthy f ->
    0 <= address + tw ->
    address + tw + Z.of_nat (length data) <= 2 ^ 24 ->
    ((0 < length data)%nat -> (address + tw) mod 256 = 0) ->
    (length data <= fuel)%nat ->
    exists f1,
      EEPROMStoragePlugin.writeFile_loop fuel f address data tw = (f1, true)
      /\ healthy f1
      /\ Flash.jedec f1 = Flash.jedec f
      /\ forall a, Flash.mem f1 a = written (Flash.mem f) (address + tw) data a.
Proof.
  induction fuel as [|fuel IH]; intros f address data tw Hh HA Hend Hal Hfuel.
  - destruct data; [|cbn in Hfuel; lia].
    exists f. cbn. repeat split; auto. intros a. rewrite written_nil. reflexivity.
  - cbn [EEPROMStoragePlugin.writeFile_loop].
    destruct (0 <? Z.of_nat (length data)) eqn:E.
    + apply Z.ltb_lt in E.
      assert (Hps : 0 < min (Z.of_nat (length data)) EEPROM_PAGE_SIZE <= 256
                    /\ min (Z.of_nat (length data)) EEPROM_PAGE_SIZE
                       <= Z.of_nat (length data))
        by (destruct (min_page_cases _ E) as [[? ->]|[? ->]]; lia).
      set (ps := min (Z.of_nat (length data)) EEPROM_PAGE_SIZE) in *.
      rewrite (u32_small (address + tw)) by lia.
      destruct (writePage_healthy f (address + tw) data ps Hh ltac:(lia)
                  (Hal ltac:(lia)) ltac:(lia)) as (f1 & -> & Hh1 & Hj1 & Hm1).
      cbn [negb].
      assert (Hlt : length (take (Z.to_nat ps) data) = Z.to_nat ps)
        by (rewrite length_take; lia).
      destruct (IH f1 address (drop (Z.to_nat ps) data) (tw + ps) Hh1
                  ltac:(lia)) as (f2 & -> & Hh2 & Hj2 & Hm2).
      * rewrite length_drop. lia.
      * rewrite length_drop. intros Hrest.
        assert (ps = 256).
        { unfold ps in *. destruct (min_page_cases _ E) as [[? Hp]|[? Hp]];
            rewrite Hp in *; lia. }
        replace (address + (tw + ps)) with (address + tw + 256) by lia.
        rewrite <- Zplus_mod_idemp_l, (Hal ltac:(lia)). reflexivity.
      * rewrite length_drop. lia.
      * exists f2. split; [reflexivity|]. split; [exact Hh2|].
        split; [congruence|]. intros a. rewrite Hm2.
        replace (address + (tw + ps))
          with (address + tw + Z.of_nat (length (take (Z.to_nat ps) data)))
          by lia.
        rewrite (written_app (Flash.mem f) (Flash.mem f1) (address + tw)
                   (take (Z.to_nat ps) data) (drop (Z.to_nat ps) data) Hm1 a).
        rewrite take_drop. reflexivity.
    + apply Z.ltb_ge in E. destruct data; [|cbn in E; lia].
      exists f. repeat split; auto. intros a. rewrite written_nil. reflexivity.
Qed.

Lemma saveDirectory_loop_as_writeFile_loop (fuel : nat) :
  forall (f : Flash.t) (address : Z) (data : list Z) (tw : Z),
    0 <= address + tw ->
    address + tw + Z.of_nat (length data) < 2 ^ 32 ->
    EEPROMStoragePlugin.saveDirectory_loop fuel f (address + tw) data
    = EEPROMStoragePlugin.writeFile_loop fuel f address data tw.
Proof.
  induction fuel as [|fuel IH]; intros f address data tw HA Hend;
    [reflexivity|].
  cbn [EEPROMStoragePlugin.saveDirectory_loop EEPROMStoragePlugin.writeFile_loop].
  destruct (0 <? Z.of_nat (length data)) eqn:E; [|reflexivity].
  apply Z.ltb_lt in E.
  assert (Hps : 0 < min (Z.of_nat (length data)) EEPROM_PAGE_SIZE
                <= Z.of_nat (length data))
    by (destruct (min_page_cases _ E) as [[? ->]|[? ->]]; lia).
  set (ps := min (Z.of_nat (length data)) EEPROM_PAGE_SIZE) in *.
  rewrite (u32_small (address + tw)) by lia.
  destruct (EEPROMStoragePlugin.writePage f (address + tw) data ps) as [f1 ok].
  destruct (negb ok); [reflexivity|].
  rewrite (u32_small (address + tw + ps)) by lia.
  replace (address + tw + ps) with (address + (tw + ps)) by lia.
  apply IH; [lia|]. rewrite length_drop. lia.
Qed.

Lemma eraseSector_healthy (f : Flash.t) (n : Z) :
  healthy f ->
  0 <= n < 4096 ->
  exists f1,
    EEPROMStoragePlugin.eraseSector f n = (f1, true)
    /\ healthy f1
    /\ Flash.jedec f1 = Flash.jedec f
    /\ forall a, Flash.mem f1 a = if a / 4096 =? n then 255 else Flash.mem f a.
Proof.
  intros Hh Hn. unfold EEPROMStoragePlugin.eraseSector.
  change EEPROMStoragePlugin.TOTAL_SECTORS with 4096.
  replace (4096 <=? n) with false by (symmetry; apply Z.leb_gt; lia).
  unfold Flash.sector_erase, Flash.next_completes, Flash.write_enable.
  cbn [Flash.completes Flash.wel Flash.mem Flash.jedec Flash.log].
  unfold healthy in Hh. rewrite Hh.
  eexists. split; [reflexivity|]. split; [reflexivity|].
  split; [reflexivity|]. intros a. cbn [Flash.mem].
  unfold Flash.erased, Flash.addr24, EEPROM_SECTOR_SIZE.
  rewrite u32_small by lia. rewrite Z.mod_small by lia.
  rewrite Z.div_mul by lia. reflexivity.
Qed.

Lemma read_data_lookup (f : Flash.t) (A size : Z) (bytes : list Z) :
  0 <= A -> A + size <= 2 ^ 24 ->
  Z.of_nat (length bytes) = size ->
  (forall i : nat, (i < length bytes)%nat ->
                   bytes !! i = Some (Flash.mem f (A + Z.of_nat i))) ->
  Flash.read_data f A size = bytes.
Proof.
  intros HA Hend Hlen Hmem. unfold Flash.read_data.
  apply list_eq. intros i.
  destruct (Nat.lt_ge_cases i (length bytes)) as [Hi|Hi].
  - rewrite Hmem by exact Hi.
    rewrite list_lookup_fmap.
    rewrite (lookup_seq_lt 0 (Z.to_nat size) i) by lia. cbn.
    unfold Flash.addr24. rewrite (Z.mod_small A) by lia.
    rewrite Z.mod_small by lia. reflexivity.
  - rewrite (proj2 (lookup_ge_None bytes i)) by exact Hi.
    apply lookup_ge_None. rewrite length_map, length_seq. lia.
Qed.

Lemma le32_round_trip (x : Z) :
  0 <= x < 2 ^ 32 ->
  x mod 256 + 256 * ((x / 256) mod 256) + 65536 * ((x / 65536) mod 256)
  + 16777216 * ((x / 16777216) mod 256) = x.
Proof.
  intros Hx.
  pose proof (Z.div_mod x 256 ltac:(lia)) as H0.
  pose proof (Z.div_mod (x / 256) 256 ltac:(lia)) as H1.
  pose proof (Z.div_mod (x / 256 / 256) 256 ltac:(lia)) as H2.
  rewrite Z.div_div in H1, H2 by lia.
  rewrite Z.div_div in H2 by lia.
  change (256 * 256) with 65536 in *. change (65536 * 256) with 16777216 in *.
  assert (H3 : 0 <= x / 16777216 < 256).
  { split; [apply Z.div_pos; lia | apply Z.div_lt_upper_bound; lia]. }
  rewrite (Z.mod_small (x / 16777216)) by lia. lia.
Qed.

Lemma le32_bytes (x : Z) : Forall is_byte (EEPROMStoragePlugin.le32 x).
Proof.
  unfold EEPROMStoragePlugin.le32, is_byte.
  repeat constructor; apply Z.mod_pos_bound; lia.
Qed.

Lemma entry_bytes_length (e : EEPROMStoragePlugin.FileEntry) :
  entry_layout e -> length (EEPROMStoragePlugin.entry_bytes e) = 24%nat.
Proof.
  intros [Hn Hr]. unfold EEPROMStoragePlugin.entry_bytes.
  rewrite !length_app, Hn, Hr. reflexivity.
Qed.

Lemma entry_bytes_typed (e : EEPROMStoragePlugin.FileEntry) :
  entry_typed e -> Forall is_byte (EEPROMStoragePlugin.entry_bytes e).
Proof.
  intros (_ & Hn & Hr & _ & _ & _ & Hs). unfold EEPROMStoragePlugin.entry_bytes.
  repeat (apply Forall_app; split); auto using le32_bytes.
Qed.

Lemma of_le32_le32 (x : Z) :
  0 <= x < 2 ^ 32 ->
  EEPROMStoragePlugin.of_le32
    [x mod 256; (x / 256) mod 256; (x / 65536) mod 256;
     (x / 16777216) mod 256] = x.
Proof.
  intros Hx. unfold EEPROMStoragePlugin.of_le32, MemoryUtils.char_at.
  change (Z.to_nat 0) with 0%nat. change (Z.to_nat 1) with 1%nat.
  change (Z.to_nat 2) with 2%nat. change (Z.to_nat 3) with 3%nat.
  simpl. apply le32_round_trip. exact Hx.
Qed.

Lemma entry_round_trip (e : EEPROMStoragePlugin.FileEntry) (rest : list Z) :
  entry_typed e ->
  EEPROMStoragePlugin.entry_of_bytes
    (take 24 (EEPROMStoragePlugin.entry_bytes e ++ rest)) = e.
Proof.
  intros ([Hn Hr] & _ & _ & H1 & H2 & H3 & _).
  destruct e as [name start size compl status res].
  cbn [EEPROMStoragePlugin.filename EEPROMStoragePlugin.reserved
       EEPROMStoragePlugin.startSector EEPROMStoragePlugin.sizeBytes
       EEPROMStoragePlugin.sizeComplement] in *.
  destruct name as [|n0 [|n1 [|n2 [|n3 [|n4 [|n5 [|n6 [|n7 [|]]]]]]]]];
    try discriminate Hn.
  destruct res as [|r0 [|r1 [|r2 [|]]]]; try discriminate Hr.
  unfold EEPROMStoragePlugin.entry_bytes, EEPROMStoragePlugin.entry_of_bytes,
    EEPROMStoragePlugin.le32, MemoryUtils.char_at.
  cbn [EEPROMStoragePlugin.filename EEPROMStoragePlugin.reserved
       EEPROMStoragePlugin.startSector EEPROMStoragePlugin.sizeBytes
       EEPROMStoragePlugin.sizeComplement EEPROMStoragePlugin.status
       app take drop].
  rewrite !of_le32_le32 by assumption.
  change (Z.to_nat 20) with 20%nat. reflexivity.
Qed.

Lemma directory_bytes_length (dir : list EEPROMStoragePlugin.FileEntry) :
  Forall entry_layout dir ->
  length (EEPROMStoragePlugin.directory_bytes dir) = (24 * length dir)%nat.
Proof.
  induction 1 as [|e dir He Hd IH]; [reflexivity|].
  unfold EEPROMStoragePlugin.directory_bytes in *. cbn [map concat].
  rewrite length_app, entry_bytes_length, IH by exact He. cbn [length]. lia.
Qed.

Lemma directory_bytes_typed (dir : list EEPROMStoragePlugin.FileEntry) :
  Forall entry_typed dir ->
  Forall is_byte (EEPROMStoragePlugin.directory_bytes dir).
Proof.
  induction 1 as [|e dir He Hd IH]; [constructor|].
  unfold EEPROMStoragePlugin.directory_bytes in *. cbn [map concat].
  apply Forall_app. split; [apply entry_bytes_typed; exact He | exact IH].
Qed.

Lemma directory_round_trip (dir : list EEPROMStoragePlugin.FileEntry) :
  Forall entry_typed dir ->
  EEPROMStoragePlugin.directory_of_bytes
    (length dir) (EEPROMStoragePlugin.directory_bytes dir) = dir.
Proof.
  induction 1 as [|e dir He Hd IH]; [reflexivity|].
  unfold EEPROMStoragePlugin.directory_bytes in *.
  cbn [map concat length EEPROMStoragePlugin.directory_of_bytes].
  rewrite entry_round_trip by exact He. f_equal.
  rewrite drop_app_length'
    by (rewrite entry_bytes_length; [reflexivity | apply He]).
  exact IH.
Qed.

Lemma typed_layout (dir : list EEPROMStoragePlugin.FileEntry) :
  Forall entry_typed dir -> Forall entry_layout dir.
Proof.
  intros H. eapply Forall_impl; [exact H|]. intros e He. apply He.
Qed.

Lemma land_255 (b : Z) : is_byte b -> Z.land 255 b = b.
Proof.
  intros Hb. rewrite Z.land_comm. change 255 with (Z.ones 8).
  rewrite Z.land_ones by lia. apply Z.mod_small. exact Hb.
Qed.

Lemma saveDirectory_healthy (p : EEPROMStoragePlugin.t) (f : Flash.t) :
  healthy f ->
  length (EEPROMStoragePlugin.directory p) = 64%nat ->
  Forall entry_layout (EEPROMStoragePlugin.directory p) ->
  exists f1,
    EEPROMStoragePlugin.saveDirectory p f = (f1, true)
    /\ healthy f1
    /\ Flash.jedec f1 = Flash.jedec f
    /\ forall a,
         Flash.mem f1 a
         = written (fun a => if a / 4096 =? 0 then 255 else Flash.mem f a) 0
                   (EEPROMStoragePlugin.directory_bytes
                      (EEPROMStoragePlugin.directory p)) a.
Proof.
  intros Hh Hlen Hlay. unfold EEPROMStoragePlugin.saveDirectory.
  destruct (eraseSector_healthy f EEPROMStoragePlugin.DIRECTORY_SECTOR Hh
              ltac:(unfold EEPROMStoragePlugin.DIRECTORY_SECTOR; lia))
    as (f0 & -> & Hh0 & Hj0 & Hm0).
  cbn [negb].
  pose proof (directory_bytes_length _ Hlay) as Hb. rewrite Hlen in Hb.
  set (bytes := EEPROMStoragePlugin.directory_bytes
                  (EEPROMStoragePlugin.directory p)) in *.
  change 0 with (0 + 0) at 1.
  rewrite saveDirectory_loop_as_writeFile_loop by lia.
  destruct (writeFile_loop_healthy (length bytes) f0 0 bytes 0 Hh0
              ltac:(lia) ltac:(lia) ltac:(intros; reflexivity) ltac:(lia))
    as (f1 & -> & Hh1 & Hj1 & Hm1).
  exists f1. split; [reflexivity|]. split; [exact Hh1|].
  split; [congruence|]. intros a. rewrite Hm1. rewrite Z.add_0_l.
  unfold written. rewrite Hm0.
  unfold EEPROMStoragePlugin.DIRECTORY_SECTOR. reflexivity.
Qed.

Lemma saveDirectory_read_back (p : EEPROMStoragePlugin.t) (f : Flash.t) :
  healthy f ->
  directory_typed (EEPROMStoragePlugin.directory p) ->
  exists f1,
    EEPROMStoragePlugin.saveDirectory p f = (f1, true)
    /\ healthy f1
    /\ Flash.jedec f1 = Flash.jedec f
    /\ Flash.read_data f1 0 EEPROMStoragePlugin.sizeof_directory
       = EEPROMStoragePlugin.directory_bytes (EEPROMStoragePlugin.directory p)
    /\ forall a, 4096 <= a -> Flash.mem f1 a = Flash.mem f a.
Proof.
  intros Hh [Hlen Hty].
  destruct (saveDirectory_healthy p f Hh Hlen (typed_layout _ Hty))
    as (f1 & Hs & Hh1 & Hj1 & Hm1).
  exists f1. split; [exact Hs|]. split; [exact Hh1|]. split; [exact Hj1|].
  pose proof (directory_bytes_length _ (typed_layout _ Hty)) as Hb.
  rewrite Hlen in Hb.
  pose proof (directory_bytes_typed _ Hty) as Hbytes.
  set (bytes := EEPROMStoragePlugin.directory_bytes
                  (EEPROMStoragePlugin.directory p)) in *.
  split.
  - apply read_data_lookup; [lia|vm_compute; discriminate|
                             rewrite Hb; reflexivity|].
    intros i Hi. rewrite Hm1. unfold written. rewrite !Z.add_0_l.
    replace (0 <=? Z.of_nat i) with true by (symmetry; apply Z.leb_le; lia).
    replace (Z.of_nat i <? Z.of_nat (length bytes)) with true
      by (symmetry; apply Z.ltb_lt; lia).
    cbn [andb].
    rewrite Z.div_small by lia. cbn [Z.eqb].
    rewrite Z.sub_0_r, Nat2Z.id.
    destruct (lookup_lt_is_Some_2 bytes i Hi) as [b Hbi].
    rewrite Hbi. cbn [default]. f_equal. symmetry. apply land_255.
    rewrite Forall_lookup in Hbytes. exact (Hbytes i b Hbi).
  - intros a Ha. rewrite Hm1. unfold written.
    replace (a <? 0 + Z.of_nat (length bytes)) with false
      by (symmetry; apply Z.ltb_ge; lia).
    rewrite andb_false_r.
    replace (a / 4096 =? 0) with false; [reflexivity|].
    symmetry. apply Z.eqb_neq.
    assert (1 <= a / 4096) by (apply Z.div_le_lower_bound; lia). lia.
Qed.

Lemma loadDirectory_loop_dir (dir : list EEPROMStoragePlugin.FileEntry) :
  forall tf df nf : Z,
    fst (fst (fst (EEPROMStoragePlugin.loadDirectory_loop dir tf df nf)))
    = map mount_checked dir.
Proof.
  induction dir as [|e dir IH]; intros tf df nf; [reflexivity|].
  cbn [EEPROMStoragePlugin.loadDirectory_loop map]. unfold mount_checked at 1.
  destruct (EEPROMStoragePlugin.status e =? EEPROMStoragePlugin.STATUS_ACTIVE);
    cbn [andb].
  - destruct (EEPROMStoragePlugin.validateFileEntry e); cbn [negb].
    + specialize (IH (u32 (tf + 1)) df
                     (if nf <? u32 (EEPROMStoragePlugin.startSector e
                                    + EEPROMStoragePlugin.getSectorCount
                                        (EEPROMStoragePlugin.sizeBytes e))
                      then u32 (EEPROMStoragePlugin.startSector e
                                + EEPROMStoragePlugin.getSectorCount
                                    (EEPROMStoragePlugin.sizeBytes e))
                      else nf)).
      destruct (EEPROMStoragePlugin.loadDirectory_loop dir _ _ _)
        as [[[r a] b] c].
      cbn [fst] in *. f_equal. exact IH.
    + specialize (IH tf (u32 (df + 1)) nf).
      destruct (EEPROMStoragePlugin.loadDirectory_loop dir _ _ _)
        as [[[r a] b] c].
      cbn [fst] in *. f_equal. exact IH.
  - destruct (EEPROMStoragePlugin.status e =? EEPROMStoragePlugin.STATUS_DELETED).
    + specialize (IH tf (u32 (df + 1)) nf).
      destruct (EEPROMStoragePlugin.loadDirectory_loop dir _ _ _)
        as [[[r a] b] c].
      cbn [fst] in *. f_equal. exact IH.
    + specialize (IH tf df nf).
      destruct (EEPROMStoragePlugin.loadDirectory_loop dir _ _ _)
        as [[[r a] b] c].
      cbn [fst] in *. f_equal. exact IH.
Qed.

Lemma loadDirectory_of_bytes (q : EEPROMStoragePlugin.t) (f : Flash.t)
  (dir : list EEPROMStoragePlugin.FileEntry) :
  directory_typed dir ->
  Flash.read_data f 0 EEPROMStoragePlugin.sizeof_directory
  = EEPROMStoragePlugin.directory_bytes dir ->
  snd (EEPROMStoragePlugin.loadDirectory q f) = true
  /\ EEPROMStoragePlugin.directory (fst (EEPROMStoragePlugin.loadDirectory q f))
     = map mount_checked dir.
Proof.
  intros [Hlen Hty] Hread.
  unfold EEPROMStoragePlugin.loadDirectory, EEPROMStoragePlugin.readData.
  change (EEPROMStoragePlugin.sizeof_directory =? 0) with false. cbv iota.
  rewrite Hread.
  change (Z.to_nat EEPROMStoragePlugin.MAX_FILES) with 64%nat.
  rewrite <- Hlen, (directory_round_trip dir Hty).
  pose proof (loadDirectory_loop_dir dir 0 0 EEPROMStoragePlugin.DATA_START_SECTOR)
    as L.
  destruct (EEPROMStoragePlugin.loadDirectory_loop dir 0 0
              EEPROMStoragePlugin.DATA_START_SECTOR) as [[[dir1 tf] df] nf].
  cbn [fst snd EEPROMStoragePlugin.directory] in *. auto.
Qed.

(** X21.  Round trip of the directory: on a chip that completes its
    operations, [saveDirectory] succeeds and the first sector then holds
    the directory array byte for byte, so a later [loadDirectory] reads
    every slot back as it was saved, except that ACTIVE slots failing
    the mount-time check come back DELETED. *)
Theorem X21_directory_survives_save_and_load :
  forall (p q : EEPROMStoragePlugin.t) (f : Flash.t),
    healthy f ->
    directory_typed (EEPROMStoragePlugin.directory p) ->
    let '(f1, saved) := EEPROMStoragePlugin.saveDirectory p f in
    saved = true
    /\ Flash.read_data f1 0 EEPROMStoragePlugin.sizeof_directory
       = EEPROMStoragePlugin.directory_bytes (EEPROMStoragePlugin.directory p)
    /\ let '(q', loaded) := EEPROMStoragePlugin.loadDirectory q f1 in
       loaded = true
       /\ EEPROMStoragePlugin.directory q'
          = map mount_checked (EEPROMStoragePlugin.directory p).
Proof.
  intros p q f Hh Hty.
  destruct (saveDirectory_read_back p f Hh Hty)
    as (f1 & -> & Hh1 & Hj1 & Hread & _).
  split; [reflexivity|]. split; [exact Hread|].
  pose proof (loadDirectory_of_bytes q f1 _ Hty Hread) as L.
  destruct (EEPROMStoragePlugin.loadDirectory q f1) as [q' loaded].
  cbn [fst snd] in L. destruct L as [L1 L2]. auto.
Qed.

Lemma saveDirectory_outside (p : EEPROMStoragePlugin.t) (f : Flash.t) :
  healthy f ->
  length (EEPROMStoragePlugin.directory p) = 64%nat ->
  Forall entry_layout (EEPROMStoragePlugin.directory p) ->
  exists f1,
    EEPROMStoragePlugin.saveDirectory p f = (f1, true)
    /\ healthy f1
    /\ Flash.jedec f1 = Flash.jedec f
    /\ forall a, 4096 <= a -> Flash.mem f1 a = Flash.mem f a.
Proof.
  intros Hh Hlen Hlay.
  destruct (saveDirectory_healthy p f Hh Hlen Hlay)
    as (f1 & Hs & Hh1 & Hj1 & Hm1).
  exists f1. split; [exact Hs|]. split; [exact Hh1|]. split; [exact Hj1|].
  pose proof (directory_bytes_length _ Hlay) as Hb. rewrite Hlen in Hb.
  intros a Ha. rewrite Hm1. unfold written.
  replace (a <? 0 + Z.of_nat (length (EEPROMStoragePlugin.directory_bytes
                                        (EEPROMStoragePlugin.directory p))))
    with false by (symmetry; apply Z.ltb_ge; lia).
  rewrite andb_false_r.
  replace (a / 4096 =? 0) with false; [reflexivity|].
  symmetry. apply Z.eqb_neq.
  assert (1 <= a / 4096) by (apply Z.div_le_lower_bound; lia). lia.
Qed.

(** The slot that [writeFile] fills in. *)
Lemma safeCopy_length (dest : list Z) (destSize : Z) (src : list Z)
  (maxCopy : Z) :
  length (fst (MemoryUtils.safeCopy dest destSize src maxCopy)) = length dest.
Proof.
  unfold MemoryUtils.safeCopy.
  destruct (destSize =? 0); [reflexivity|].
  set (maxLen := if maxCopy =? 0 then destSize - 1
                 else min maxCopy (destSize - 1)).
  assert (L : forall fuel d k,
             length (fst (MemoryUtils.safeCopy_loop fuel d src k maxLen))
             = length d).
  { induction fuel as [|fuel IH]; intros d k; [reflexivity|].
    cbn [MemoryUtils.safeCopy_loop].
    destruct ((k <? maxLen) && negb (MemoryUtils.char_at src k =? 0));
      [|reflexivity].
    rewrite IH, length_insert. reflexivity. }
  specialize (L (Z.to_nat maxLen) dest 0).
  destruct (MemoryUtils.safeCopy_loop (Z.to_nat maxLen) dest src 0 maxLen)
    as [d1 n].
  cbn [fst] in *. rewrite length_insert. exact L.
Qed.

Lemma insert_layout (dir : list EEPROMStoragePlugin.FileEntry) (slot : nat)
  (upd : EEPROMStoragePlugin.FileEntry) :
  Forall entry_layout dir -> entry_layout upd ->
  Forall entry_layout (<[slot := upd]> dir).
Proof. intros Hd Hu. apply Forall_insert; assumption. Qed.

Lemma entry_at_lookup (p : EEPROMStoragePlugin.t) (slot : nat) :
  (slot < length (EEPROMStoragePlugin.directory p))%nat ->
  EEPROMStoragePlugin.directory p !! slot
  = Some (EEPROMStoragePlugin.entry_at p slot).
Proof.
  intros Hlt. unfold EEPROMStoragePlugin.entry_at.
  destruct (lookup_lt_is_Some_2 _ slot Hlt) as [e He]. rewrite He. reflexivity.
Qed.

(** A [writeFile] under a new name on a chip that completes its
    operations, step by step. *)
Lemma writeFile_fresh (p : EEPROMStoragePlugin.t) (f : Flash.t)
  (name data : list Z) (size : Z) (slot : nat) :
  EEPROMStoragePlugin.initialized p = true ->
  healthy f ->
  length (EEPROMStoragePlugin.directory p) = 64%nat ->
  Forall entry_layout (EEPROMStoragePlugin.directory p) ->
  EEPROMStoragePlugin.findFileEntry p name = None ->
  EEPROMStoragePlugin.findEmptyEntry p = Some slot ->
  0 < size < 65536 ->
  size <= Z.of_nat (length data) ->
  1 <= EEPROMStoragePlugin.nextFreeSector p ->
  EEPROMStoragePlugin.nextFreeSector p + EEPROMStoragePlugin.getSectorCount size
  <= EEPROMStoragePlugin.TOTAL_SECTORS ->
  let start := EEPROMStoragePlugin.nextFreeSector p in
  let upd :=
    EEPROMStoragePlugin.mkEntry
      (fst (MemoryUtils.safeCopy
              (EEPROMStoragePlugin.filename (EEPROMStoragePlugin.entry_at p slot))
              MAX_FILENAME_LENGTH name 0))
      start size (EEPROMStoragePlugin.not_size_t size)
      EEPROMStoragePlugin.STATUS_ACTIVE
      (EEPROMStoragePlugin.reserved (EEPROMStoragePlugin.entry_at p slot)) in
  let p3 :=
    EEPROMStoragePlugin.set_directory
      (EEPROMStoragePlugin.set_nextFreeSector p
         (start + EEPROMStoragePlugin.getSectorCount size))
      (<[slot := upd]> (EEPROMStoragePlugin.directory p)) in
  exists f2 f3,
    EEPROMStoragePlugin.writeFile p f name data size
    = (EEPROMStoragePlugin.mk
         (EEPROMStoragePlugin.initialized p3) (EEPROMStoragePlugin.debugEnabled p3)
         (EEPROMStoragePlugin.directory p3) (EEPROMStoragePlugin.nextFreeSector p3)
         (u32 (EEPROMStoragePlugin.totalFiles p3 + 1))
         (EEPROMStoragePlugin.deletedFiles p3),
       f3, size)
    /\ healthy f2
    /\ Flash.jedec f2 = Flash.jedec f
    /\ (forall a, Flash.mem f2 a
                  = written (Flash.mem f) (start * 4096)
                            (take (Z.to_nat size) data) a)
    /\ EEPROMStoragePlugin.saveDirectory p3 f2 = (f3, true)
    /\ (slot < length (EEPROMStoragePlugin.directory p))%nat
    /\ entry_layout upd.
Proof.
  intros Hi Hh Hlen Hlay Hnone Hslot Hsize Hdata Hstart Hfit start upd p3.
  assert (Hlt : (slot < length (EEPROMStoragePlugin.directory p))%nat).
  { unfold EEPROMStoragePlugin.findEmptyEntry in Hslot.
    apply findEmptyEntry_from_lt in Hslot. lia. }
  assert (Hupd : entry_layout upd).
  { pose proof (entry_at_lookup p slot Hlt) as He.
    rewrite Forall_lookup in Hlay. specialize (Hlay slot _ He).
    destruct Hlay as [Hn Hr]. split; [|exact Hr].
    unfold upd. cbn [EEPROMStoragePlugin.filename].
    rewrite safeCopy_length. exact Hn. }
  pose proof (getSectorCount_pos size Hsize) as Hcnt.
  change EEPROMStoragePlugin.TOTAL_SECTORS with 4096 in Hfit.
  assert (Hcover : size <= EEPROMStoragePlugin.getSectorCount size * 4096).
  { unfold EEPROMStoragePlugin.getSectorCount, u32, wrap, EEPROM_SECTOR_SIZE.
    rewrite Z.mod_small by lia.
    pose proof (Z.div_mod (size + 4096 - 1) 4096 ltac:(lia)).
    pose proof (Z.mod_pos_bound (size + 4096 - 1) 4096 ltac:(lia)). lia. }
  assert (Hal : (start * 4096) mod 256 = 0).
  { replace (start * 4096) with (start * 16 * 256) by lia.
    apply Z.mod_mul. lia. }
  destruct (writeFile_loop_healthy
              (length (take (Z.to_nat size) data)) f (start * 4096)
              (take (Z.to_nat size) data) 0 Hh)
    as (f2 & Hloop & Hh2 & Hj2 & Hm2);
    [unfold start; lia
    |rewrite length_take; unfold start; lia
    |intros _; rewrite Z.add_0_r; exact Hal
    |lia|].
  rewrite Z.add_0_r in Hm2.
  assert (Hlen3 : length (EEPROMStoragePlugin.directory p3) = 64%nat)
    by (unfold p3; cbn; rewrite length_insert; exact Hlen).
  assert (Hlay3 : Forall entry_layout (EEPROMStoragePlugin.directory p3))
    by (unfold p3; cbn; apply insert_layout; assumption).
  destruct (saveDirectory_outside p3 f2 Hh2 Hlen3 Hlay3)
    as (f3 & Hsave & Hh3 & Hj3 & Hm3).
  exists f2, f3.
  split; [|split; [exact Hh2|split; [exact Hj2|split; [exact Hm2|
           split; [exact Hsave|split; [exact Hlt|exact Hupd]]]]]].
  unfold EEPROMStoragePlugin.writeFile.
  rewrite Hi, Hnone, Hslot. cbn [negb orb].
  replace (size =? 0) with false by (symmetry; apply Z.eqb_neq; lia).
  unfold EEPROMStoragePlugin.allocateSectors.
  fold start.
  rewrite (u32_small (start + EEPROMStoragePlugin.getSectorCount size))
    by (unfold start; lia).
  change EEPROMStoragePlugin.TOTAL_SECTORS with 4096.
  replace (4096 <? start + EEPROMStoragePlugin.getSectorCount size) with false
    by (symmetry; apply Z.ltb_ge; unfold start; lia).
  replace (start =? 0) with false
    by (symmetry; apply Z.eqb_neq; unfold start; lia).
  unfold EEPROM_SECTOR_SIZE.
  rewrite (u32_small (start * 4096)) by (unfold start; lia).
  rewrite Hloop. cbn [negb].
  match goal with
  | |- context [EEPROMStoragePlugin.saveDirectory ?q f2] => change q with p3
  end.
  rewrite Hsave. reflexivity.
Qed.

(** X22.  On a chip that completes its operations, a [writeFile] under
    a new name into erased sectors succeeds and the chip then holds the
    bytes of the file from the first byte of the start sector on; the
    directory slot names that sector and the size.  ([readFile] does
    not find the slot, but the data is there.) *)
Theorem X22_written_content_is_on_the_chip :
  forall (p : EEPROMStoragePlugin.t) (f : Flash.t) (name data : list Z)
         (size : Z) (slot : nat),
    EEPROMStoragePlugin.initialized p = true ->
    healthy f ->
    length (EEPROMStoragePlugin.directory p) = 64%nat ->
    Forall entry_layout (EEPROMStoragePlugin.directory p) ->
    EEPROMStoragePlugin.findFileEntry p name = None ->
    EEPROMStoragePlugin.findEmptyEntry p = Some slot ->
    0 < size < 65536 ->
    size <= Z.of_nat (length data) ->
    Forall is_byte data ->
    let start := EEPROMStoragePlugin.nextFreeSector p in
    1 <= start ->
    start + EEPROMStoragePlugin.getSectorCount size
    <= EEPROMStoragePlugin.TOTAL_SECTORS ->
    (forall a, start * 4096 <= a < start * 4096 + size -> Flash.mem f a = 255) ->
    let '(p', f', stored) :=
      EEPROMStoragePlugin.writeFile p f name data size in
    stored = size
    /\ EEPROMStoragePlugin.status (EEPROMStoragePlugin.entry_at p' slot)
       = EEPROMStoragePlugin.STATUS_ACTIVE
    /\ EEPROMStoragePlugin.startSector (EEPROMStoragePlugin.entry_at p' slot)
       = start
    /\ EEPROMStoragePlugin.sizeBytes (EEPROMStoragePlugin.entry_at p' slot)
       = size
    /\ Flash.read_data f' (start * EEPROM_SECTOR_SIZE) size
       = take (Z.to_nat size) data.
Proof.
  intros p f name data size slot Hi Hh Hlen Hlay Hnone Hslot Hsize Hdata
         Hbytes start Hstart Hfit Herased.
  destruct (writeFile_fresh p f name data size slot Hi Hh Hlen Hlay Hnone
              Hslot Hsize Hdata Hstart Hfit)
    as (f2 & f3 & -> & Hh2 & Hj2 & Hm2 & Hsave & Hlt & Hupd).
  fold start in Hm2, Hsave.
  split; [reflexivity|].
  unfold EEPROMStoragePlugin.entry_at.
  cbn [EEPROMStoragePlugin.directory EEPROMStoragePlugin.set_directory].
  rewrite list_lookup_insert_eq by exact Hlt.
  cbn [default EEPROMStoragePlugin.status EEPROMStoragePlugin.startSector
       EEPROMStoragePlugin.sizeBytes].
  split; [reflexivity|]. split; [reflexivity|]. split; [reflexivity|].
  match type of Hsave with
  | EEPROMStoragePlugin.saveDirectory ?q f2 = _ =>
      destruct (saveDirectory_outside q f2 Hh2) as (f3' & Hs' & _ & _ & Hm3)
  end.
  { cbn. rewrite length_insert. exact Hlen. }
  { cbn. apply insert_layout; assumption. }
  rewrite Hsave in Hs'. injection Hs' as <-.
  pose proof (getSectorCount_pos size Hsize) as Hcnt.
  change EEPROMStoragePlugin.TOTAL_SECTORS with 4096 in Hfit.
  assert (Hcover : size <= EEPROMStoragePlugin.getSectorCount size * 4096).
  { unfold EEPROMStoragePlugin.getSectorCount, u32, wrap, EEPROM_SECTOR_SIZE.
    rewrite Z.mod_small by lia.
    pose proof (Z.div_mod (size + 4096 - 1) 4096 ltac:(lia)).
    pose proof (Z.mod_pos_bound (size + 4096 - 1) 4096 ltac:(lia)). lia. }
  unfold EEPROM_SECTOR_SIZE.
  apply read_data_lookup; [lia|lia|rewrite length_take; lia|].
  intros i Hi'. rewrite length_take in Hi'.
  rewrite Hm3 by lia. rewrite Hm2. unfold written.
  rewrite length_take.
  replace (start * 4096 <=? start * 4096 + Z.of_nat i) with true
    by (symmetry; apply Z.leb_le; lia).
  replace (start * 4096 + Z.of_nat i
           <? start * 4096 + Z.of_nat (Z.to_nat size `min` length data))
    with true by (symmetry; apply Z.ltb_lt; lia).
  cbn [andb].
  replace (Z.to_nat (start * 4096 + Z.of_nat i - start * 4096)) with i by lia.
  rewrite Herased by lia.
  destruct (lookup_lt_is_Some_2 (take (Z.to_nat size) data) i
              ltac:(rewrite length_take; lia)) as [b Hb].
  rewrite Hb. cbn [default]. f_equal. symmetry. apply land_255.
  assert (Hbt : Forall is_byte (take (Z.to_nat size) data))
    by (apply Forall_take; exact Hbytes).
  rewrite Forall_lookup in Hbt. exact (Hbt i b Hb).
Qed.

Lemma mounted_layout :
  Forall entry_layout (EEPROMStoragePlugin.directory (fst Scenario.mounted)).
Proof.
  apply List.Forall_forall. intros e He.
  assert (Hall : forallb
                   (fun e => Nat.eqb (length (EEPROMStoragePlugin.filename e)) 8
                             && Nat.eqb (length (EEPROMStoragePlugin.reserved e)) 3)
                   (EEPROMStoragePlugin.directory (fst Scenario.mounted))
                 = true) by (vm_compute; reflexivity).
  rewrite forallb_forall in Hall. specialize (Hall e He).
  apply andb_true_iff in Hall. destruct Hall as [H1 H2].
  split; apply Nat.eqb_eq; assumption.
Qed.

Lemma X22_witness :
  let w := EEPROMStoragePlugin.writeFile (fst Scenario.mounted)
             (snd Scenario.mounted) (cstr "data") [72; 105; 10] 3 in
  Flash.read_data (snd (fst w)) 4096 3 = [72; 105; 10].
Proof.
  intros w.
  pose proof (X22_written_content_is_on_the_chip (fst Scenario.mounted)
                (snd Scenario.mounted) (cstr "data") [72; 105; 10] 3 0%nat)
    as W.
  assert (H1 : EEPROMStoragePlugin.initialized (fst Scenario.mounted) = true)
    by (vm_compute; reflexivity).
  assert (H2 : healthy (snd Scenario.mounted))
    by (unfold healthy; vm_compute; reflexivity).
  assert (H3 : length (EEPROMStoragePlugin.directory (fst Scenario.mounted))
               = 64%nat) by (vm_compute; reflexivity).
  assert (H5 : EEPROMStoragePlugin.findFileEntry (fst Scenario.mounted)
                 (cstr "data") = None) by (vm_compute; reflexivity).
  assert (H6 : EEPROMStoragePlugin.findEmptyEntry (fst Scenario.mounted)
               = Some 0%nat) by (vm_compute; reflexivity).
  assert (H9 : Forall is_byte [72; 105; 10])
    by (apply bytes_b_ok; reflexivity).
  assert (H10 : EEPROMStoragePlugin.nextFreeSector (fst Scenario.mounted) = 1)
    by (vm_compute; reflexivity).
  specialize (W H1 H2 H3 mounted_layout H5 H6 ltac:(lia) ltac:(cbn; lia) H9).
  cbv zeta in W. rewrite H10 in W.
  specialize (W ltac:(lia) ltac:(vm_compute; discriminate)).
  assert (H13 : forall a, 1 * 4096 <= a < 1 * 4096 + 3 ->
                          Flash.mem (snd Scenario.mounted) a = 255).
  { intros a Ha.
    assert (Hc : a = 4096 \/ a = 4097 \/ a = 4098) by lia.
    destruct Hc as [ -> | [ -> | -> ] ]; vm_compute; reflexivity. }
  specialize (W H13). fold w in W. destruct w as [[p' f'] n].
  destruct W as (_ & _ & _ & _ & R). exact R.
Defined.

Lemma not_size_t_range (size : Z) :
  0 <= size < 65536 ->
  0 <= EEPROMStoragePlugin.not_size_t size < 2 ^ 32.
Proof.
  intros Hs. unfold EEPROMStoragePlugin.not_size_t, SIZE_T_BITS.
  change (2 ^ 16 - 1) with 65535.
  assert (H0 : 0 <= Z.lxor size 65535) by (apply Z.lxor_nonneg; lia).
  split; [exact H0|].
  destruct (Z.eq_dec (Z.lxor size 65535) 0) as [E|E]; [rewrite E; lia|].
  apply Z.log2_lt_pow2; [lia|].
  pose proof (Z.log2_lxor size 65535 ltac:(lia) ltac:(lia)) as L.
  assert (Z.log2 size < 16).
  { destruct (Z.eq_dec size 0) as [->|]; [cbn; lia|].
    apply Z.log2_lt_pow2; lia. }
  change (Z.log2 65535) with 15 in L. lia.
Qed.

Lemma before_nul_bytes (l : list Z) :
  Forall is_byte l -> Forall is_byte (before_nul l).
Proof.
  intros H. rewrite <- before_nul_prefix. apply Forall_take. exact H.
Qed.

(** X23.  A file that [writeFile] has stored does not survive a
    restart: on a chip that completes its operations the directory is
    saved with the new slot ACTIVE, and the next [initialize] loads it,
    finds that the slot fails the mount-time check and marks it
    DELETED. *)
Theorem X23_written_file_is_lost_at_restart :
  forall (p : EEPROMStoragePlugin.t) (f : Flash.t) (name data : list Z)
         (size : Z) (slot : nat),
    EEPROMStoragePlugin.initialized p = true ->
    healthy f ->
    (Flash.jedec f =? 0) || (Flash.jedec f =? 16777215) = false ->
    directory_typed (EEPROMStoragePlugin.directory p) ->
    Forall is_byte name ->
    EEPROMStoragePlugin.findFileEntry p name = None ->
    EEPROMStoragePlugin.findEmptyEntry p = Some slot ->
    0 < size < 65536 ->
    size <= Z.of_nat (length data) ->
    1 <= EEPROMStoragePlugin.nextFreeSector p ->
    EEPROMStoragePlugin.nextFreeSector p
    + EEPROMStoragePlugin.getSectorCount size
    <= EEPROMStoragePlugin.TOTAL_SECTORS ->
    let '(p', f', stored) :=
      EEPROMStoragePlugin.writeFile p f name data size in
    stored = size
    /\ EEPROMStoragePlugin.status (EEPROMStoragePlugin.entry_at p' slot)
       = EEPROMStoragePlugin.STATUS_ACTIVE
    /\ let '(q, _, r) :=
         EEPROMStoragePlugin.initialize EEPROMStoragePlugin.ctor f' in
       r = STATUS_OK
       /\ EEPROMStoragePlugin.entry_at q slot
          = EEPROMStoragePlugin.set_status
              (EEPROMStoragePlugin.entry_at p' slot)
              EEPROMStoragePlugin.STATUS_DELETED.
Proof.
  intros p f name data size slot Hi Hh Hj [Hlen Hty] Hname Hnone Hslot Hsize
         Hdata Hstart Hfit.
  pose proof (typed_layout _ Hty) as Hlay.
  destruct (writeFile_fresh p f name data size slot Hi Hh Hlen Hlay Hnone
              Hslot Hsize Hdata Hstart Hfit)
    as (f2 & f3 & -> & Hh2 & Hj2 & Hm2 & Hsave & Hlt & Hupd).
  split; [reflexivity|].
  unfold EEPROMStoragePlugin.entry_at at 1.
  cbn [EEPROMStoragePlugin.directory EEPROMStoragePlugin.set_directory].
  rewrite list_lookup_insert_eq by exact Hlt.
  cbn [default EEPROMStoragePlugin.status].
  split; [reflexivity|].
  match type of Hsave with
  | EEPROMStoragePlugin.saveDirectory ?q f2 = _ => set (p3 := q) in *
  end.
  match goal with
  | |- context [<[slot := ?u]> (EEPROMStoragePlugin.directory p)] =>
      set (upd := u) in *
  end.
  change EEPROMStoragePlugin.TOTAL_SECTORS with 4096 in Hfit.
  pose proof (getSectorCount_pos size Hsize) as Hcnt.
  assert (Hold : entry_typed (EEPROMStoragePlugin.entry_at p slot)).
  { pose proof (entry_at_lookup p slot Hlt) as He.
    rewrite Forall_lookup in Hty. exact (Hty slot _ He). }
  assert (Htu : entry_typed upd).
  { destruct Hold as ([Hn Hr] & Hnb & Hrb & _).
    split; [exact Hupd|]. unfold upd.
    cbn [EEPROMStoragePlugin.filename EEPROMStoragePlugin.reserved
         EEPROMStoragePlugin.startSector EEPROMStoragePlugin.sizeBytes
         EEPROMStoragePlugin.sizeComplement EEPROMStoragePlugin.status].
    split; [|split; [exact Hrb|split; [lia|split; [lia|
             split; [apply not_size_t_range; lia|]]]]].
    - rewrite (safeCopy_result _ MAX_FILENAME_LENGTH name 0)
        by (unfold MAX_FILENAME_LENGTH; lia).
      cbn [fst]. apply Forall_app. split.
      + apply Forall_take, before_nul_bytes. exact Hname.
      + constructor; [unfold is_byte; lia|]. apply Forall_drop. exact Hnb.
    - unfold is_byte, EEPROMStoragePlugin.STATUS_ACTIVE. lia. }
  assert (Hty3 : directory_typed (EEPROMStoragePlugin.directory p3)).
  { unfold p3. cbn [EEPROMStoragePlugin.directory EEPROMStoragePlugin.set_directory].
    split; [rewrite length_insert; exact Hlen|].
    apply Forall_insert; assumption. }
  destruct (saveDirectory_read_back p3 f2 Hh2 Hty3)
    as (f3' & Hs' & Hh3 & Hj3 & Hread & _).
  rewrite Hsave in Hs'. injection Hs' as <-.
  unfold EEPROMStoragePlugin.initialize.
  cbn [EEPROMStoragePlugin.initialized EEPROMStoragePlugin.ctor].
  rewrite Hj3, Hj2, Hj.
  pose proof (loadDirectory_of_bytes EEPROMStoragePlugin.ctor f3 _ Hty3 Hread)
    as L.
  destruct (EEPROMStoragePlugin.loadDirectory EEPROMStoragePlugin.ctor f3)
    as [q1 loaded].
  cbn [fst snd] in L. destruct L as [-> Hq1]. cbn [negb].
  split; [reflexivity|].
  unfold EEPROMStoragePlugin.entry_at.
  cbn [EEPROMStoragePlugin.directory].
  rewrite Hq1. unfold p3.
  cbn [EEPROMStoragePlugin.directory EEPROMStoragePlugin.set_directory].
  rewrite list_lookup_fmap, !list_lookup_insert_eq by exact Hlt.
  cbn [fmap option_fmap option_map default]. unfold mount_checked.
  replace (EEPROMStoragePlugin.validateFileEntry upd) with false
    by (symmetry; apply written_entry_invalid).
  reflexivity.
Qed.

Lemma mounted_typed :
  directory_typed (EEPROMStoragePlugin.directory (fst Scenario.mounted)).
Proof.
  apply directory_typed_b_ok; vm_compute; reflexivity.
Qed.

Lemma X21_witness :
  let p := EEPROMStoragePlugin.set_directory EEPROMStoragePlugin.ctor
             (Scenario.overlong_entry :: Scenario.empty_slots 63) in
  EEPROMStoragePlugin.directory
    (fst (EEPROMStoragePlugin.loadDirectory EEPROMStoragePlugin.ctor
            (fst (EEPROMStoragePlugin.saveDirectory p Flash.blank))))
  = EEPROMStoragePlugin.directory p.
Proof.
  intros p.
  assert (Hty : directory_typed (EEPROMStoragePlugin.directory p))
    by (apply directory_typed_b_ok; vm_compute; reflexivity).
  pose proof (X21_directory_survives_save_and_load p EEPROMStoragePlugin.ctor
                Flash.blank eq_refl Hty) as W.
  destruct (EEPROMStoragePlugin.saveDirectory p Flash.blank) as [f1 saved].
  destruct W as (_ & _ & W). cbn [fst].
  destruct (EEPROMStoragePlugin.loadDirectory EEPROMStoragePlugin.ctor f1)
    as [q' loaded].
  destruct W as [_ W]. cbn [fst]. rewrite W. vm_compute. reflexivity.
Defined.

Lemma X23_witness :
  let w := EEPROMStoragePlugin.writeFile (fst Scenario.mounted)
             (snd Scenario.mounted) (cstr "data") [72; 105; 10] 3 in
  snd w = 3
  /\ EEPROMStoragePlugin.status
       (EEPROMStoragePlugin.entry_at
          (fst (fst (EEPROMStoragePlugin.initialize EEPROMStoragePlugin.ctor
                       (snd (fst w)))))
          0)
     = EEPROMStoragePlugin.STATUS_DELETED.
Proof.
  intros w.
  pose proof (X23_written_file_is_lost_at_restart (fst Scenario.mounted)
                (snd Scenario.mounted) (cstr "data") [72; 105; 10] 3 0%nat)
    as W.
  assert (H1 : EEPROMStoragePlugin.initialized (fst Scenario.mounted) = true)
    by (vm_compute; reflexivity).
  assert (H2 : healthy (snd Scenario.mounted))
    by (unfold healthy; vm_compute; reflexivity).
  assert (H3 : (Flash.jedec (snd Scenario.mounted) =? 0)
               || (Flash.jedec (snd Scenario.mounted) =? 16777215) = false)
    by (vm_compute; reflexivity).
  assert (H5 : Forall is_byte (cstr "data"))
    by (apply bytes_b_ok; reflexivity).
  assert (H6 : EEPROMStoragePlugin.findFileEntry (fst Scenario.mounted)
                 (cstr "data") = None) by (vm_compute; reflexivity).
  assert (H7 : EEPROMStoragePlugin.findEmptyEntry (fst Scenario.mounted)
               = Some 0%nat) by (vm_compute; reflexivity).
  assert (H10 : EEPROMStoragePlugin.nextFreeSector (fst Scenario.mounted) = 1)
    by (vm_compute; reflexivity).
  specialize (W H1 H2 H3 mounted_typed H5 H6 H7 ltac:(lia) ltac:(cbn; lia)).
  rewrite H10 in W.
  specialize (W ltac:(lia) ltac:(vm_compute; discriminate)).
  fold w in W. destruct w as [[p' f'] n]. cbn [fst snd].
  destruct W as (Hn & _ & W). split; [exact Hn|].
  destruct (EEPROMStoragePlugin.initialize EEPROMStoragePlugin.ctor f')
    as [[q g] r].
  destruct W as [_ W]. cbn [fst]. rewrite W. reflexivity.
Defined.

(** ** The hex stream: bytes and frames *)

Lemma below_forallb (P : Z -> bool) (k : nat) (n : Z) :
  forallb P (map Z.of_nat (seq 0 k)) = true ->
  0 <= n < Z.of_nat k ->
  P n = true.
Proof.
  intros Hall Hn. rewrite forallb_forall in Hall. apply Hall.
  apply in_map_iff. exists (Z.to_nat n). split; [lia|]. apply in_seq. lia.
Qed.

Lemma nibble_hex (n : Z) :
  0 <= n < 16 ->
  MemoryUtils.char_at SerialStoragePlugin.hexChars n <> 0
  /\ SerialStoragePlugin.nibble_of
       (MemoryUtils.char_at SerialStoragePlugin.hexChars n) = Some n.
Proof.
  intros Hn.
  pose proof (below_forallb
                (fun v =>
                   negb (MemoryUtils.char_at SerialStoragePlugin.hexChars v =? 0)
                   && match SerialStoragePlugin.nibble_of
                              (MemoryUtils.char_at SerialStoragePlugin.hexChars v)
                      with
                      | Some k => k =? v
                      | None => false
                      end)
                16 n ltac:(vm_compute; reflexivity) ltac:(lia)) as Hv.
  cbv beta in Hv. apply andb_true_iff in Hv as [H0 Hk].
  apply negb_true_iff, Z.eqb_neq in H0. split; [exact H0|].
  destruct (SerialStoragePlugin.nibble_of _) as [k|]; [|discriminate].
  apply Z.eqb_eq in Hk. congruence.
Qed.

Lemma nibbles_of_byte (b : Z) :
  0 <= b < 256 ->
  0 <= Z.land (Z.shiftr b 4) 15 < 16
  /\ 0 <= Z.land b 15 < 16
  /\ u8 (Z.lor (Z.shiftl (u8 (Z.lor (Z.shiftl 0 4) (Z.land (Z.shiftr b 4) 15))) 4)
               (Z.land b 15)) = b.
Proof.
  intros Hb.
  assert (Hall : forallb
                   (fun v =>
                      (0 <=? Z.land (Z.shiftr v 4) 15)
                      && (Z.land (Z.shiftr v 4) 15 <? 16)
                      && (0 <=? Z.land v 15) && (Z.land v 15 <? 16)
                      && (u8 (Z.lor (Z.shiftl
                                       (u8 (Z.lor (Z.shiftl 0 4)
                                                  (Z.land (Z.shiftr v 4) 15))) 4)
                                    (Z.land v 15)) =? v))
                   (map Z.of_nat (seq 0 256)) = true)
    by (vm_compute; reflexivity).
  rewrite forallb_forall in Hall.
  specialize (Hall b).
  assert (Hin : In b (map Z.of_nat (seq 0 256))).
  { apply in_map_iff. exists (Z.to_nat b). split; [lia|]. apply in_seq. lia. }
  specialize (Hall Hin).
  apply andb_true_iff in Hall as [Hall H5].
  apply andb_true_iff in Hall as [Hall H4].
  apply andb_true_iff in Hall as [Hall H3].
  apply andb_true_iff in Hall as [H1 H2].
  apply Z.leb_le in H1. apply Z.ltb_lt in H2. apply Z.leb_le in H3.
  apply Z.ltb_lt in H4. apply Z.eqb_eq in H5. auto.
Qed.

Lemma byteToHex_cells (value : Z) (dest : list Z) :
  (3 <= length dest)%nat ->
  SerialStoragePlugin.byteToHex value dest
  = hex_pair value ++ 0 :: drop 3 dest.
Proof.
  intros Hd. destruct dest as [|a [|b [|c rest]]]; cbn [length] in Hd; try lia.
  reflexivity.
Qed.

Lemma char_at_0 (x : Z) (l : list Z) : MemoryUtils.char_at (x :: l) 0 = x.
Proof. reflexivity. Qed.

Lemma char_at_1 (x y : Z) (l : list Z) :
  MemoryUtils.char_at (x :: y :: l) 1 = y.
Proof. reflexivity. Qed.

Lemma hexToByte_pair (b : Z) (rest : list Z) :
  0 <= b < 256 ->
  SerialStoragePlugin.hexToByte (hex_pair b ++ rest) = Some b.
Proof.
  intros Hb. destruct (nibbles_of_byte b Hb) as (Hh & Hl & Hv).
  destruct (nibble_hex _ Hh) as [Hh0 Hhn].
  destruct (nibble_hex _ Hl) as [Hl0 Hln].
  unfold SerialStoragePlugin.hexToByte, hex_pair. cbn [app].
  assert (Hlen : 2 <= MemoryUtils.safeStrlen
                        (MemoryUtils.char_at SerialStoragePlugin.hexChars
                           (Z.land (Z.shiftr b 4) 15)
                         :: MemoryUtils.char_at SerialStoragePlugin.hexChars
                              (Z.land b 15) :: rest) 3).
  { rewrite safeStrlen_scan by lia. cbn [before_nul].
    replace (MemoryUtils.char_at SerialStoragePlugin.hexChars
               (Z.land (Z.shiftr b 4) 15) =? 0) with false
      by (symmetry; apply Z.eqb_neq; exact Hh0).
    replace (MemoryUtils.char_at SerialStoragePlugin.hexChars
               (Z.land b 15) =? 0) with false
      by (symmetry; apply Z.eqb_neq; exact Hl0).
    cbn [length]. lia. }
  replace (MemoryUtils.safeStrlen _ 3 <? 2) with false
    by (symmetry; apply Z.ltb_ge; exact Hlen).
  rewrite char_at_0, char_at_1, Hhn, Hln, Hv. reflexivity.
Qed.

(** X24.  Round trip of one byte: the two characters that [byteToHex]
    writes for a byte are read back as that byte by [hexToByte],
    whatever follows them in the buffer. *)
Theorem X24_hex_byte_round_trip :
  forall (value : Z) (dest : list Z),
    0 <= value < 256 ->
    (3 <= length dest)%nat ->
    SerialStoragePlugin.hexToByte (SerialStoragePlugin.byteToHex value dest)
    = Some value
    /\ before_nul (SerialStoragePlugin.byteToHex value dest) = hex_pair value.
Proof.
  intros value dest Hv Hd. rewrite (byteToHex_cells value dest Hd). split.
  - apply hexToByte_pair. exact Hv.
  - apply before_nul_app.
    destruct (nibbles_of_byte value Hv) as (Hh & Hl & _).
    unfold hex_pair. repeat constructor; apply nibble_hex; assumption.
Qed.

Lemma X24_witness :
  SerialStoragePlugin.hexToByte
    (SerialStoragePlugin.byteToHex 165 (MemoryUtils.clearBuffer 4)) = Some 165.
Proof.
  apply (X24_hex_byte_round_trip 165 (MemoryUtils.clearBuffer 4)).
  - lia.
  - change (3 <= 4)%nat. lia.
Defined.

Lemma sent_more_refl (u : Uart.t) : sent_more u u [].
Proof. unfold sent_more. rewrite app_nil_r. auto. Qed.

Lemma sent_more_trans (u v w : Uart.t) (a b : list Z) :
  sent_more u v a -> sent_more v w b -> sent_more u w (a ++ b).
Proof.
  intros (H1 & H2 & H3) (K1 & K2 & K3). unfold sent_more.
  rewrite K1, H1, app_assoc. split; [reflexivity|]. split; congruence.
Qed.

Lemma print_sent_more (u : Uart.t) (s : list Z) :
  sent_more u (Uart.print u s) s.
Proof. unfold sent_more, Uart.print. cbn. auto. Qed.

Lemma same_transfer_state_refl (p : SerialStoragePlugin.t) :
  same_transfer_state p p.
Proof. unfold same_transfer_state. repeat split. Qed.

Lemma same_transfer_state_trans (p q r : SerialStoragePlugin.t) :
  same_transfer_state p q -> same_transfer_state q r ->
  same_transfer_state p r.
Proof.
  unfold same_transfer_state.
  intros (A1 & A2 & A3 & A4 & A5 & A6) (B1 & B2 & B3 & B4 & B5 & B6).
  repeat split; congruence.
Qed.

Lemma min_line_cases (n : Z) :
  0 < n ->
  0 < min n SerialStoragePlugin.HEX_BYTES_PER_LINE <= n.
Proof.
  intros Hn. unfold min, SerialStoragePlugin.HEX_BYTES_PER_LINE.
  destruct (n <? 32) eqn:E;
    [apply Z.ltb_lt in E | apply Z.ltb_ge in E]; lia.
Qed.

Lemma hexChars_hex_char (n : Z) :
  0 <= n < 16 -> hex_char (MemoryUtils.char_at SerialStoragePlugin.hexChars n).
Proof.
  intros Hn.
  pose proof (below_forallb
                (fun v =>
                   let c := MemoryUtils.char_at SerialStoragePlugin.hexChars v in
                   ((48 <=? c) && (c <=? 57)) || ((65 <=? c) && (c <=? 70)))
                16 n ltac:(vm_compute; reflexivity) ltac:(lia)) as Hv.
  cbv beta zeta in Hv. unfold hex_char.
  apply orb_true_iff in Hv as [Hv | Hv]; apply andb_true_iff in Hv as [H1 H2];
    apply Z.leb_le in H1; apply Z.leb_le in H2; [left | right]; lia.
Qed.

Lemma hex_text_cons (b : Z) (bs : list Z) :
  hex_text (b :: bs) = hex_pair b ++ hex_text bs.
Proof. reflexivity. Qed.

Lemma hex_text_app (xs ys : list Z) :
  hex_text (xs ++ ys) = hex_text xs ++ hex_text ys.
Proof. unfold hex_text. rewrite map_app, concat_app. reflexivity. Qed.

Lemma hex_text_length (bs : list Z) :
  length (hex_text bs) = (2 * length bs)%nat.
Proof.
  induction bs as [|b bs IH]; [reflexivity|].
  rewrite hex_text_cons, length_app, IH. cbn [length hex_pair]. lia.
Qed.

Lemma hex_pair_chars (b : Z) : is_byte b -> Forall hex_char (hex_pair b).
Proof.
  intros Hb. destruct (nibbles_of_byte b Hb) as (Hh & Hl & _).
  unfold hex_pair.
  constructor; [apply hexChars_hex_char; exact Hh|].
  constructor; [apply hexChars_hex_char; exact Hl|]. constructor.
Qed.

Lemma hex_text_chars (bs : list Z) :
  Forall is_byte bs -> Forall hex_char (hex_text bs).
Proof.
  induction 1 as [|b bs Hb Hbs IH]; [constructor|].
  rewrite hex_text_cons. apply Forall_app. split; [|exact IH].
  apply hex_pair_chars. exact Hb.
Qed.

Lemma hex_char_nonzero (l : list Z) :
  Forall hex_char l -> Forall (fun c => c <> 0) l.
Proof.
  intros H. eapply Forall_impl; [exact H|]. unfold hex_char. intros c Hc. lia.
Qed.

Lemma hex_char_in_line (l : list Z) : Forall hex_char l -> Forall in_line l.
Proof.
  intros H. eapply Forall_impl; [exact H|].
  unfold hex_char, in_line. intros c Hc. lia.
Qed.

(** *** Sending one short line *)

Lemma sendHexLine_loop_text (bs : list Z) :
  forall (i size : Z) (line hexByte : list Z),
    Forall is_byte bs ->
    length line = 64%nat ->
    (3 <= length hexByte)%nat ->
    0 <= i -> size <= 8 ->
    i + Z.of_nat (length bs) <= 8 ->
    (length (before_nul line) + 2 * length bs <= 63)%nat ->
    let '(line', hexByte') :=
      SerialStoragePlugin.sendHexLine_loop bs i size line hexByte in
    length line' = 64%nat
    /\ before_nul line' = before_nul line ++ hex_text bs
    /\ length hexByte' = length hexByte.
Proof.
  induction bs as [|b bs IH];
    intros i size line hexByte Hb Hl Hh Hi Hs Hn Hroom.
  - cbn. rewrite app_nil_r. auto.
  - inversion Hb as [|? ? Hb0 Hbs]; subst.
    cbn [SerialStoragePlugin.sendHexLine_loop].
    assert (Hlen1 : length (SerialStoragePlugin.byteToHex b hexByte)
                    = length hexByte).
    { unfold SerialStoragePlugin.byteToHex. rewrite !length_insert.
      reflexivity. }
    revert Hlen1. rewrite (byteToHex_cells b hexByte Hh). intros Hlen1.
    pose proof (appendString_fits line SerialStoragePlugin.sizeof_hexLineBuffer
                  (hex_pair b ++ 0 :: drop 3 hexByte)
                  ltac:(rewrite Hl; reflexivity) ltac:(reflexivity)) as A.
    cbv zeta in A.
    destruct (MemoryUtils.appendString line _ _) as [line1 ok].
    destruct A as (Hl1 & Hs1 & _).
    assert (Hnz : Forall (fun c => c <> 0) (hex_pair b))
      by (apply hex_char_nonzero, hex_pair_chars; exact Hb0).
    rewrite (before_nul_app _ _ Hnz) in Hs1.
    cbn [length] in Hroom, Hn.
    unfold SerialStoragePlugin.sizeof_hexLineBuffer in Hs1.
    replace (0 <? 64 - 1 - Z.of_nat (length (before_nul line))) with true in Hs1
      by (symmetry; apply Z.ltb_lt; lia).
    rewrite take_ge in Hs1 by (cbn [length hex_pair]; lia).
    replace (((i + 1) mod 8 =? 0) && (i <? size - 1)) with false.
    2:{ symmetry. apply andb_false_iff.
        destruct (Z.eq_dec i 7) as [-> | Hne].
        - right. apply Z.ltb_ge. lia.
        - left. apply Z.eqb_neq. rewrite Z.mod_small by lia. lia. }
    specialize (IH (i + 1) size line1 (hex_pair b ++ 0 :: drop 3 hexByte)
                   Hbs ltac:(lia) ltac:(lia) ltac:(lia) Hs ltac:(lia)).
    rewrite Hs1, length_app in IH. cbn [length hex_pair] in IH.
    specialize (IH ltac:(lia)).
    destruct (SerialStoragePlugin.sendHexLine_loop bs (i + 1) size line1 _)
      as [line' hexByte'].
    destruct IH as (K1 & K2 & K3).
    split; [exact K1|]. split; [|lia].
    rewrite K2, hex_text_cons, <- app_assoc. reflexivity.
Qed.

Lemma before_nul_clearBuffer (n : Z) :
  before_nul (MemoryUtils.clearBuffer n) = [].
Proof.
  unfold MemoryUtils.clearBuffer. destruct (Z.to_nat n); reflexivity.
Qed.

Lemma sendHexLine_text (p : SerialStoragePlugin.t) (u : Uart.t)
  (data : list Z) (size address : Z) :
  SerialStoragePlugin.debugEnabled p = false ->
  (3 <= length (SerialStoragePlugin.hexByteBuffer p))%nat ->
  0 < size <= 8 ->
  size <= Z.of_nat (length data) ->
  Forall is_byte data ->
  let '(p', u') := SerialStoragePlugin.sendHexLine p u data size address in
  sent_more u u' (hex_text (take (Z.to_nat size) data) ++ Uart.CRLF)
  /\ same_transfer_state p p'
  /\ length (SerialStoragePlugin.hexByteBuffer p')
     = length (SerialStoragePlugin.hexByteBuffer p).
Proof.
  intros Hdbg Hhb Hsize Hdata Hbytes.
  unfold SerialStoragePlugin.sendHexLine.
  replace (size =? 0) with false by (symmetry; apply Z.eqb_neq; lia).
  replace (SerialStoragePlugin.HEX_BYTES_PER_LINE <? size) with false
    by (symmetry; apply Z.ltb_ge; unfold SerialStoragePlugin.HEX_BYTES_PER_LINE;
        lia).
  rewrite Hdbg. cbn [orb].
  pose proof (sendHexLine_loop_text (take (Z.to_nat size) data) 0 size
                (MemoryUtils.clearBuffer SerialStoragePlugin.sizeof_hexLineBuffer)
                (SerialStoragePlugin.hexByteBuffer p)
                (Forall_take _ _ _ Hbytes) eq_refl Hhb ltac:(lia)
                ltac:(lia)) as L.
  rewrite length_take, before_nul_clearBuffer in L.
  specialize (L ltac:(lia) ltac:(cbn [length]; lia)).
  destruct (SerialStoragePlugin.sendHexLine_loop _ 0 size _ _)
    as [line2 hexByte].
  destruct L as (L1 & L2 & L3). cbn [app] in L2.
  split.
  - rewrite c_str_before_nul, L2.
    eapply sent_more_trans; apply print_sent_more.
  - split; [|exact L3].
    unfold same_transfer_state, SerialStoragePlugin.set_buffers. cbn.
    repeat split.
Qed.

Lemma streamFile_loop_nil (fuel : nat) (p : SerialStoragePlugin.t)
  (u : Uart.t) (name : list Z) (address totalSent size : Z) :
  SerialStoragePlugin.streamFile_loop fuel p u name [] address totalSent size
  = (p, u, totalSent).
Proof. destruct fuel; reflexivity. Qed.

(** What a short transfer puts on the line. *)
Lemma streamFile_short (p : SerialStoragePlugin.t) (u : Uart.t)
  (name data : list Z) (size : Z) :
  SerialStoragePlugin.isReady p u = true ->
  SerialStoragePlugin.transferInProgress p = false ->
  SerialStoragePlugin.debugEnabled p = false ->
  (3 <= length (SerialStoragePlugin.hexByteBuffer p))%nat ->
  0 < size <= 8 ->
  size <= Z.of_nat (length data) ->
  Forall is_byte data ->
  let '(p', u', sent) := SerialStoragePlugin.streamFile p u name data size in
  SerialStoragePlugin.isReady p' u' = true
  /\ Uart.tx u'
     = Uart.tx u
       ++ (cstr "BEGIN:" ++ name) ++ Uart.CRLF
       ++ (cstr "SIZE:" ++ Uart.printNumber size) ++ Uart.CRLF
       ++ hex_text (take (Z.to_nat size) data) ++ Uart.CRLF
       ++ (cstr "END:" ++ name) ++ Uart.CRLF.
Proof.
  intros Hready Hidle Hdbg Hhb Hsize Hdata Hbytes.
  unfold SerialStoragePlugin.streamFile.
  rewrite Hready, Hidle. cbn [negb orb].
  replace (size =? 0) with false by (symmetry; apply Z.eqb_neq; lia).
  set (p1 := SerialStoragePlugin.mk _ _ true _ _ _ _ _).
  set (u1 := SerialStoragePlugin.sendProtocolHeader u name size).
  set (content := take (Z.to_nat size) data).
  assert (Hclen : length content = Z.to_nat size)
    by (unfold content; rewrite length_take; lia).
  destruct (length content) as [|fuel] eqn:Efuel; [lia|].
  cbn [SerialStoragePlugin.streamFile_loop].
  rewrite Efuel.
  replace (0 <? Z.of_nat (S fuel)) with true by (symmetry; apply Z.ltb_lt; lia).
  assert (Hmin : min (Z.of_nat (S fuel)) SerialStoragePlugin.HEX_BYTES_PER_LINE
                 = size).
  { unfold min, SerialStoragePlugin.HEX_BYTES_PER_LINE.
    replace (Z.of_nat (S fuel) <? 32) with true
      by (symmetry; apply Z.ltb_lt; lia). lia. }
  rewrite Hmin.
  pose proof (sendHexLine_text p1 u1 content size 0 Hdbg Hhb Hsize
                ltac:(rewrite Efuel; lia)
                (Forall_take _ _ _ Hbytes)) as L.
  destruct (SerialStoragePlugin.sendHexLine p1 u1 content size 0) as [p2 u2].
  destruct L as ((T1 & T2 & T3) & (Q1 & Q2 & Q3 & Q4 & Q5 & Q6) & _).
  replace ((0 + size) mod 1024 =? 0) with false
    by (symmetry; apply Z.eqb_neq; rewrite Z.mod_small by lia; lia).
  rewrite drop_ge by lia. rewrite streamFile_loop_nil.
  assert (Hcc : take (Z.to_nat size) content = content)
    by (apply take_ge; lia).
  rewrite Hcc in T1.
  unfold SerialStoragePlugin.isReady, SerialStoragePlugin.isSerialReady in *.
  apply andb_true_iff in Hready as [Hinit Hrdy].
  cbn [SerialStoragePlugin.debugEnabled SerialStoragePlugin.initialized].
  rewrite Q2, Q1. unfold p1 at 1 2 3.
  cbn [SerialStoragePlugin.debugEnabled SerialStoragePlugin.initialized].
  rewrite Hdbg, Hinit. cbn [andb].
  unfold SerialStoragePlugin.sendProtocolFooter, Uart.print.
  cbn [Uart.tx Uart.ready]. rewrite T1, T2.
  split; [exact Hrdy|].
  unfold u1, SerialStoragePlugin.sendProtocolHeader, Uart.print. cbn [Uart.tx].
  rewrite <- !app_assoc. reflexivity.
Qed.

(** *** Receiving what a short transfer sent *)

Lemma receiveFile_loop_eq (rx line received : list Z) (maxSize : Z) :
  SerialStoragePlugin.receiveFile_loop rx line received maxSize
  = if maxSize <=? Z.of_nat (length received) then Some (received, rx)
    else
      match rx with
      | [] => Some (received, [])
      | ch :: rx' =>
          if (ch =? 13) || (ch =? 10) then
            if 0 <? Z.of_nat (length line) then
              match SerialStoragePlugin.process_line line received maxSize with
              | None => None
              | Some received1 =>
                  SerialStoragePlugin.receiveFile_loop rx' [] received1 maxSize
              end
            else SerialStoragePlugin.receiveFile_loop rx' line received maxSize
          else if Z.of_nat (length line) <? 255
          then SerialStoragePlugin.receiveFile_loop rx' (line ++ [ch]) received
                                                    maxSize
          else SerialStoragePlugin.receiveFile_loop rx' line received maxSize
      end.
Proof. destruct rx; reflexivity. Qed.

Lemma receive_chars (l : list Z) :
  forall (rx line received : list Z) (maxSize : Z),
    Forall in_line l ->
    Z.of_nat (length received) < maxSize ->
    (length line + length l <= 255)%nat ->
    SerialStoragePlugin.receiveFile_loop (l ++ rx) line received maxSize
    = SerialStoragePlugin.receiveFile_loop rx (line ++ l) received maxSize.
Proof.
  induction l as [|c l IH]; intros rx line received maxSize Hl Hr Hlen.
  - rewrite app_nil_r. reflexivity.
  - inversion Hl as [|? ? [Hc1 Hc2] Hl']; subst.
    cbn [app length] in *. rewrite receiveFile_loop_eq.
    replace (maxSize <=? Z.of_nat (length received)) with false
      by (symmetry; apply Z.leb_gt; lia).
    replace (c =? 13) with false by (symmetry; apply Z.eqb_neq; exact Hc1).
    replace (c =? 10) with false by (symmetry; apply Z.eqb_neq; exact Hc2).
    cbn [orb].
    replace (Z.of_nat (length line) <? 255) with true
      by (symmetry; apply Z.ltb_lt; lia).
    rewrite IH; [|exact Hl'|exact Hr|rewrite length_app; cbn [length]; lia].
    rewrite <- app_assoc. reflexivity.
Qed.

Lemma receive_line_end (rx line received : list Z) (maxSize : Z) :
  line <> [] ->
  Z.of_nat (length received) < maxSize ->
  SerialStoragePlugin.receiveFile_loop (Uart.CRLF ++ rx) line received maxSize
  = match SerialStoragePlugin.process_line line received maxSize with
    | None => None
    | Some received1 =>
        if maxSize <=? Z.of_nat (length received1)
        then Some (received1, 10 :: rx)
        else SerialStoragePlugin.receiveFile_loop rx [] received1 maxSize
    end.
Proof.
  intros Hne Hr. unfold Uart.CRLF. cbn [app].
  rewrite receiveFile_loop_eq.
  replace (maxSize <=? Z.of_nat (length received)) with false
    by (symmetry; apply Z.leb_gt; lia).
  cbn [Z.eqb Pos.eqb orb].
  replace (0 <? Z.of_nat (length line)) with true
    by (symmetry; apply Z.ltb_lt; destruct line; [contradiction|cbn; lia]).
  destruct (SerialStoragePlugin.process_line line received maxSize)
    as [received1|]; [|reflexivity].
  rewrite receiveFile_loop_eq.
  destruct (maxSize <=? Z.of_nat (length received1)); [reflexivity|].
  reflexivity.
Qed.

Lemma process_protocol_line (tag rest received : list Z) (maxSize : Z) :
  tag = cstr "BEGIN:" \/ tag = cstr "END:" \/ tag = cstr "SIZE:" ->
  SerialStoragePlugin.process_line (tag ++ rest) received maxSize
  = Some received.
Proof.
  intros Htag. unfold SerialStoragePlugin.process_line.
  assert (Hsw : MemoryUtils.startsWith (tag ++ rest)
                  (Z.of_nat (length (tag ++ rest))) tag = true).
  { apply startsWith_prefix. split.
    - destruct Htag as [ -> | [ -> | -> ]]; discriminate.
    - exists rest. reflexivity. }
  destruct Htag as [ -> | [ -> | -> ]]; rewrite Hsw.
  - reflexivity.
  - rewrite orb_true_r. reflexivity.
  - rewrite orb_true_r. reflexivity.
Qed.

Lemma not_hex_prefix (pre line : list Z) :
  In 58 pre ->
  Forall hex_char line ->
  MemoryUtils.startsWith line (Z.of_nat (length line)) pre = false.
Proof.
  intros Hin Hline.
  destruct (MemoryUtils.startsWith line (Z.of_nat (length line)) pre) eqn:E;
    [|reflexivity].
  apply startsWith_prefix in E as [_ [k ->]].
  apply Forall_app in Hline as [Hpre _].
  rewrite List.Forall_forall in Hpre. specialize (Hpre 58 Hin).
  unfold hex_char in Hpre. lia.
Qed.

Lemma decode_pairs (bs : list Z) :
  forall (fuel : nat) (hs : list Z) (i : Z) (received : list Z) (maxSize : Z),
    Forall is_byte bs ->
    0 <= i ->
    drop (Z.to_nat i) hs = hex_text bs ->
    (length bs <= fuel)%nat ->
    Z.of_nat (length received) + Z.of_nat (length bs) <= maxSize ->
    SerialStoragePlugin.decode_loop fuel hs i (i + 2 * Z.of_nat (length bs))
                                    received maxSize
    = received ++ bs.
Proof.
  induction bs as [|b bs IH];
    intros fuel hs i received maxSize Hb Hi Hd Hfuel Hmax.
  - rewrite app_nil_r. destruct fuel; [reflexivity|].
    cbn [SerialStoragePlugin.decode_loop length].
    replace (i <? i + 2 * Z.of_nat 0 - 1) with false
      by (symmetry; apply Z.ltb_ge; lia).
    reflexivity.
  - inversion Hb as [|? ? Hb0 Hbs]; subst.
    destruct fuel as [|fuel]; [cbn in Hfuel; lia|].
    cbn [length] in *.
    cbn [SerialStoragePlugin.decode_loop].
    replace (i <? i + 2 * Z.of_nat (S (length bs)) - 1) with true
      by (symmetry; apply Z.ltb_lt; lia).
    replace (Z.of_nat (length received) <? maxSize) with true
      by (symmetry; apply Z.ltb_lt; lia).
    cbn [andb]. rewrite Hd, hex_text_cons, (hexToByte_pair b _ Hb0).
    replace (i + 2 * Z.of_nat (S (length bs)))
      with ((i + 2) + 2 * Z.of_nat (length bs)) by lia.
    rewrite IH.
    + rewrite <- app_assoc. reflexivity.
    + exact Hbs.
    + lia.
    + replace (Z.to_nat (i + 2)) with (Z.to_nat i + 2)%nat by lia.
      rewrite <- drop_drop, Hd, hex_text_cons. reflexivity.
    + lia.
    + rewrite length_app. cbn [length]. lia.
Qed.

Lemma process_hex_line (bs received : list Z) (maxSize : Z) :
  bs <> [] ->
  Forall is_byte bs ->
  (length bs <= 127)%nat ->
  Z.of_nat (length received) + Z.of_nat (length bs) <= maxSize ->
  SerialStoragePlugin.process_line (hex_text bs) received maxSize
  = Some (received ++ bs).
Proof.
  intros Hne Hb Hlen Hmax.
  pose proof (hex_text_chars bs Hb) as Hchars.
  pose proof (hex_text_length bs) as Hlt.
  unfold SerialStoragePlugin.process_line.
  rewrite !not_hex_prefix; try exact Hchars;
    try (vm_compute; tauto).
  cbn [orb].
  destruct (MemoryUtils.findChar (hex_text bs)
              (Z.of_nat (length (hex_text bs))) (chr ":")) as [colonPos|] eqn:Ef.
  { exfalso. unfold MemoryUtils.findChar in Ef.
    apply (findChar_loop_first _ (hex_text bs) 0) in Ef; [|lia].
    destruct Ef as (Hr & Hc & _).
    unfold MemoryUtils.char_at in Hc.
    destruct (hex_text bs !! Z.to_nat colonPos) as [c|] eqn:El.
    - rewrite Forall_lookup in Hchars. specialize (Hchars _ _ El).
      change (c = 58) in Hc. unfold hex_char in Hchars. lia.
    - apply lookup_ge_None in El. lia. }
  rewrite safeStrlen_scan by lia.
  rewrite (before_nul_id _ (hex_char_nonzero _ Hchars)), Hlt.
  rewrite Z.min_r by lia.
  assert (Hpos : (0 < length bs)%nat)
    by (destruct bs; [contradiction|cbn; lia]).
  replace (Z.of_nat (2 * length bs) =? 0) with false
    by (symmetry; apply Z.eqb_neq; lia).
  f_equal.
  replace (Z.of_nat (2 * length bs)) with (0 + 2 * Z.of_nat (length bs)) by lia.
  apply decode_pairs; try assumption; try lia.
  reflexivity.
Qed.

Lemma printNumber_digit (n : Z) :
  0 <= n < 10 -> Uart.printNumber n = [48 + n].
Proof.
  intros Hn. unfold Uart.printNumber. cbn [Uart.printNumber_loop].
  rewrite Z.div_small, Z.mod_small by lia. reflexivity.
Qed.

(** The receive loop on the characters of a short transfer. *)
Lemma receive_short (name bs : list Z) (size maxSize : Z) :
  Forall in_line name ->
  (length name <= 249)%nat ->
  bs <> [] ->
  Forall is_byte bs ->
  Z.of_nat (length bs) = size ->
  size <= 8 ->
  size <= maxSize ->
  exists rest,
    SerialStoragePlugin.receiveFile_loop
      ((cstr "BEGIN:" ++ name) ++ Uart.CRLF
       ++ (cstr "SIZE:" ++ Uart.printNumber size) ++ Uart.CRLF
       ++ hex_text bs ++ Uart.CRLF
       ++ (cstr "END:" ++ name) ++ Uart.CRLF)
      [] [] maxSize
    = Some (bs, rest).
Proof.
  intros Hname Hnlen Hne Hb Hsize H8 Hmax.
  assert (Hpos : 0 < size)
    by (destruct bs; [contradiction|cbn [length] in Hsize; lia]).
  rewrite printNumber_digit by lia.
  assert (Htag : forall tag, Forall in_line tag -> (length tag <= 6)%nat ->
                             Forall in_line (tag ++ name)
                             /\ (length (tag ++ name) <= 255)%nat).
  { intros tag Ht Hl. split; [apply Forall_app; auto|].
    rewrite length_app. lia. }
  assert (Hin : forall s : string, forallb (fun c => negb ((c =? 13) || (c =? 10)))
                                     (cstr s) = true ->
                       Forall in_line (cstr s)).
  { intros s Hs. rewrite forallb_forall in Hs. apply List.Forall_forall.
    intros c Hc. specialize (Hs c Hc). unfold in_line.
    destruct (c =? 13) eqn:E1; [discriminate|].
    destruct (c =? 10) eqn:E2; [discriminate|].
    apply Z.eqb_neq in E1. apply Z.eqb_neq in E2. auto. }
  (* BEGIN line *)
  destruct (Htag (cstr "BEGIN:") (Hin "BEGIN:"%string eq_refl)
                 ltac:(cbn; lia)) as [B1 B2].
  rewrite receive_chars; [|exact B1|cbn [length]; lia|cbn [length]; lia].
  rewrite app_nil_l.
  rewrite receive_line_end; [|discriminate|cbn [length]; lia].
  rewrite process_protocol_line by auto.
  replace (maxSize <=? Z.of_nat (length (@nil Z))) with false
    by (symmetry; apply Z.leb_gt; cbn [length]; lia).
  (* SIZE line *)
  rewrite receive_chars;
    [|apply Forall_app_2;
      [apply (Hin "SIZE:"%string eq_refl)
      |apply Forall_cons_2; [unfold in_line; lia|apply Forall_nil_2]]
     |cbn [length]; lia|rewrite length_app; cbn; lia].
  rewrite app_nil_l.
  rewrite receive_line_end; [|discriminate|cbn [length]; lia].
  rewrite process_protocol_line by auto.
  replace (maxSize <=? Z.of_nat (length (@nil Z))) with false
    by (symmetry; apply Z.leb_gt; cbn [length]; lia).
  (* the hex line *)
  pose proof (hex_text_length bs) as Hlt.
  rewrite receive_chars;
    [|apply hex_char_in_line, hex_text_chars; exact Hb
     |cbn [length]; lia|cbn [length]; lia].
  rewrite app_nil_l.
  rewrite receive_line_end;
    [|intros E; rewrite E in Hlt; cbn [length] in Hlt; lia|cbn [length]; lia].
  rewrite process_hex_line; [|exact Hne|exact Hb|lia|cbn [length]; lia].
  cbn [app].
  destruct (maxSize <=? Z.of_nat (length bs)) eqn:Efull; [eauto|].
  apply Z.leb_gt in Efull.
  (* END line *)
  destruct (Htag (cstr "END:") (Hin "END:"%string eq_refl)
                 ltac:(cbn; lia)) as [E1 E2].
  replace ((cstr "END:" ++ name) ++ Uart.CRLF)
    with ((cstr "END:" ++ name) ++ Uart.CRLF ++ [])
    by (rewrite app_nil_r; reflexivity).
  rewrite receive_chars; [|exact E1|lia|cbn [length]; lia].
  rewrite app_nil_l.
  rewrite receive_line_end; [|discriminate|lia].
  rewrite process_protocol_line by auto.
  replace (maxSize <=? Z.of_nat (length bs)) with false
    by (symmetry; apply Z.leb_gt; lia).
  rewrite receiveFile_loop_eq.
  replace (maxSize <=? Z.of_nat (length bs)) with false
    by (symmetry; apply Z.leb_gt; lia).
  eauto.
Qed.

(** X26.  A file of at most eight bytes sent by [streamFile] with
    debugging off comes back unchanged through [receiveFile] when the
    characters are fed back, for every receive buffer that is large
    enough. *)
Theorem X26_short_file_round_trip :
  forall (p : SerialStoragePlugin.t) (u : Uart.t) (name data : list Z)
         (size maxSize timeoutMs : Z),
    SerialStoragePlugin.isReady p u = true ->
    SerialStoragePlugin.transferInProgress p = false ->
    SerialStoragePlugin.debugEnabled p = false ->
    length (SerialStoragePlugin.hexByteBuffer p) = 4%nat ->
    Uart.tx u = [] ->
    Forall in_line name ->
    (length name <= 249)%nat ->
    Forall is_byte data ->
    0 < size <= 8 ->
    size <= Z.of_nat (length data) ->
    size <= maxSize ->
    0 < timeoutMs ->
    let '(p', u', sent) := SerialStoragePlugin.streamFile p u name data size in
    exists u'',
      SerialStoragePlugin.receiveFile p' (Scenario.loopback u') maxSize timeoutMs
      = Some (u'', take (Z.to_nat size) data).
Proof.
  intros p u name data size maxSize timeoutMs Hready Hidle Hdbg Hhb Htx Hname
         Hnlen Hbytes Hsize Hdata Hmax Htime.
  pose proof (streamFile_short p u name data size Hready Hidle Hdbg
                ltac:(lia) Hsize Hdata Hbytes) as S.
  destruct (SerialStoragePlugin.streamFile p u name data size)
    as [[p' u'] sent].
  destruct S as [Hr' Ht'].
  unfold SerialStoragePlugin.receiveFile.
  assert (Hr2 : SerialStoragePlugin.isReady p' (Scenario.loopback u') = true)
    by exact Hr'.
  rewrite Hr2. cbn [negb orb].
  replace (maxSize =? 0) with false by (symmetry; apply Z.eqb_neq; lia).
  replace (timeoutMs <=? 0) with false by (symmetry; apply Z.leb_gt; lia).
  unfold Scenario.loopback at 1. cbn [Uart.rx].
  rewrite Ht', Htx. rewrite app_nil_l.
  assert (Hlen : length (take (Z.to_nat size) data) = Z.to_nat size)
    by (rewrite length_take; lia).
  destruct (receive_short name (take (Z.to_nat size) data) size maxSize
              Hname Hnlen) as [rest Hrest].
  - intros E. rewrite E in Hlen. cbn [length] in Hlen. lia.
  - apply Forall_take. exact Hbytes.
  - lia.
  - lia.
  - exact Hmax.
  - rewrite Hrest. eauto.
Qed.

Lemma X26_witness :
  exists u'',
    (let '(p', u', sent) :=
       SerialStoragePlugin.streamFile Scenario.serial_ready Scenario.host
         (cstr "A") [72; 105; 10] 3 in
     SerialStoragePlugin.receiveFile p' (Scenario.loopback u') 16 1000)
    = Some (u'', [72; 105; 10]).
Proof.
  pose proof (X26_short_file_round_trip Scenario.serial_ready Scenario.host
                (cstr "A") [72; 105; 10] 3 16 1000
                eq_refl eq_refl eq_refl eq_refl eq_refl
                ltac:(repeat constructor; discriminate)
                ltac:(cbn; lia)
                ltac:(repeat constructor; lia)
                ltac:(lia) ltac:(cbn; lia) ltac:(lia) ltac:(lia)) as W.
  destruct (SerialStoragePlugin.streamFile Scenario.serial_ready Scenario.host
              (cstr "A") [72; 105; 10] 3) as [[p' u'] sent].
  exact W.
Defined.

(** *** What a transfer sends *)

Lemma take_take_app (n : nat) (a b : list Z) :
  take n (take n a ++ b) = take n (a ++ b).
Proof.
  destruct (Nat.le_gt_cases (length a) n) as [Hle | Hgt].
  - rewrite (take_ge a) by exact Hle. reflexivity.
  - rewrite (take_app_le a) by lia.
    rewrite take_app_le by (rewrite length_take; lia).
    rewrite take_take. f_equal. lia.
Qed.

Lemma appendString_line (dest src : list Z) :
  length dest = 64%nat ->
  (length (before_nul dest) <= 63)%nat ->
  let '(dest', _) :=
    MemoryUtils.appendString dest SerialStoragePlugin.sizeof_hexLineBuffer src in
  length dest' = 64%nat
  /\ before_nul dest' = take 63 (before_nul dest ++ before_nul src).
Proof.
  intros Hlen Hs.
  pose proof (appendString_fits dest SerialStoragePlugin.sizeof_hexLineBuffer src
                ltac:(rewrite Hlen; reflexivity) ltac:(reflexivity)) as A.
  cbv zeta in A.
  destruct (MemoryUtils.appendString dest _ src) as [dest' ok].
  destruct A as (Hl & Hb & _). split; [lia|].
  rewrite Hb. unfold SerialStoragePlugin.sizeof_hexLineBuffer.
  destruct (0 <? 64 - 1 - Z.of_nat (length (before_nul dest))) eqn:E;
    [apply Z.ltb_lt in E | apply Z.ltb_ge in E].
  - rewrite take_app_ge by lia. f_equal. f_equal. lia.
  - rewrite take_app_le by lia. symmetry. apply take_ge. lia.
Qed.

Lemma sendHexLine_loop_line (bs : list Z) :
  forall (i size : Z) (line hexByte : list Z),
    Forall is_byte bs ->
    length line = 64%nat ->
    (length (before_nul line) <= 63)%nat ->
    (3 <= length hexByte)%nat ->
    let '(line', hexByte') :=
      SerialStoragePlugin.sendHexLine_loop bs i size line hexByte in
    length line' = 64%nat
    /\ before_nul line' = take 63 (before_nul line ++ spaced_hex i size bs)
    /\ length hexByte' = length hexByte.
Proof.
  induction bs as [|b bs IH]; intros i size line hexByte Hb Hl Hs Hh.
  - cbn. rewrite app_nil_r, take_ge by lia. auto.
  - inversion Hb as [|? ? Hb0 Hbs]; subst.
    cbn [SerialStoragePlugin.sendHexLine_loop spaced_hex].
    assert (Hlen1 : length (SerialStoragePlugin.byteToHex b hexByte)
                    = length hexByte).
    { unfold SerialStoragePlugin.byteToHex. rewrite !length_insert.
      reflexivity. }
    revert Hlen1. rewrite (byteToHex_cells b hexByte Hh). intros Hlen1.
    pose proof (appendString_line line (hex_pair b ++ 0 :: drop 3 hexByte)
                  Hl Hs) as A.
    destruct (MemoryUtils.appendString line _ _) as [line1 ok].
    destruct A as (Hl1 & Hs1).
    assert (Hnz : Forall (fun c => c <> 0) (hex_pair b))
      by (apply hex_char_nonzero, hex_pair_chars; exact Hb0).
    rewrite (before_nul_app _ _ Hnz) in Hs1.
    set (sep := if ((i + 1) mod 8 =? 0) && (i <? size - 1) then [32] else [])
      in *.
    set (line2 := if ((i + 1) mod 8 =? 0) && (i <? size - 1)
                  then fst (MemoryUtils.appendString line1
                              SerialStoragePlugin.sizeof_hexLineBuffer
                              (cstr " "))
                  else line1).
    assert (Hs1' : (length (before_nul line1) <= 63)%nat)
      by (rewrite Hs1, length_take; lia).
    assert (H2 : length line2 = 64%nat
                 /\ before_nul line2 = take 63 (before_nul line1 ++ sep)).
    { unfold line2, sep.
      destruct (((i + 1) mod 8 =? 0) && (i <? size - 1)).
      - pose proof (appendString_line line1 (cstr " ") Hl1 Hs1') as A2.
        destruct (MemoryUtils.appendString line1 _ (cstr " ")) as [l2 ok2].
        exact A2.
      - rewrite app_nil_r, take_ge by lia. auto. }
    destruct H2 as [Hl2 Hs2].
    specialize (IH (i + 1) size line2 (hex_pair b ++ 0 :: drop 3 hexByte)
                   Hbs Hl2 ltac:(rewrite Hs2, length_take; lia) ltac:(lia)).
    destruct (SerialStoragePlugin.sendHexLine_loop bs (i + 1) size line2 _)
      as [line' hexByte'].
    destruct IH as (K1 & K2 & K3).
    split; [exact K1|]. split; [|lia].
    rewrite K2, Hs2, take_take_app, <- app_assoc, Hs1, take_take_app,
      <- !app_assoc.
    reflexivity.
Qed.

Lemma format_address_chars (address : Z) :
  Forall (fun c => c <> 0) (SerialStoragePlugin.format_address address)
  /\ length (SerialStoragePlugin.format_address address) = 9%nat.
Proof.
  split; [|reflexivity].
  unfold SerialStoragePlugin.format_address.
  apply Forall_app_2.
  - apply Forall_fmap, Forall_true. intros k. cbn.
    apply nibble_hex. apply Z.mod_pos_bound. lia.
  - apply Forall_cons_2; [discriminate | apply Forall_nil_2].
Qed.

Lemma sendHexLine_line (p : SerialStoragePlugin.t) (u : Uart.t)
  (data : list Z) (size address : Z) :
  (3 <= length (SerialStoragePlugin.hexByteBuffer p))%nat ->
  0 < size <= 32 ->
  size <= Z.of_nat (length data) ->
  Forall is_byte data ->
  let '(p', u') := SerialStoragePlugin.sendHexLine p u data size address in
  sent_more u u'
    (data_line (SerialStoragePlugin.debugEnabled p) address
               (take (Z.to_nat size) data) ++ Uart.CRLF)
  /\ same_transfer_state p p'
  /\ length (SerialStoragePlugin.hexByteBuffer p')
     = length (SerialStoragePlugin.hexByteBuffer p).
Proof.
  intros Hhb Hsize Hdata Hbytes.
  unfold SerialStoragePlugin.sendHexLine.
  replace (size =? 0) with false by (symmetry; apply Z.eqb_neq; lia).
  replace (SerialStoragePlugin.HEX_BYTES_PER_LINE <? size) with false
    by (symmetry; apply Z.ltb_ge; unfold SerialStoragePlugin.HEX_BYTES_PER_LINE;
        lia).
  cbn [orb].
  set (line0 := MemoryUtils.clearBuffer SerialStoragePlugin.sizeof_hexLineBuffer).
  set (prefix := if SerialStoragePlugin.debugEnabled p
                 then SerialStoragePlugin.format_address address else []).
  set (line1 := if SerialStoragePlugin.debugEnabled p
                then fst (MemoryUtils.safeCopy line0
                            SerialStoragePlugin.sizeof_hexLineBuffer
                            (SerialStoragePlugin.format_address address) 0)
                else line0).
  assert (H1 : length line1 = 64%nat /\ before_nul line1 = prefix
               /\ (length prefix <= 9)%nat).
  { unfold line1, prefix. destruct (SerialStoragePlugin.debugEnabled p).
    - destruct (format_address_chars address) as [Hnz Hlen].
      pose proof (safeCopy_result line0 SerialStoragePlugin.sizeof_hexLineBuffer
                    (SerialStoragePlugin.format_address address) 0
                    eq_refl ltac:(reflexivity) ltac:(lia)) as R.
      cbv zeta in R. rewrite R. cbn [fst].
      rewrite (before_nul_id _ Hnz), Hlen.
      change (Z.to_nat
                (Z.min (if 0 =? 0
                        then SerialStoragePlugin.sizeof_hexLineBuffer - 1
                        else Z.min 0 (SerialStoragePlugin.sizeof_hexLineBuffer - 1))
                       (Z.of_nat 9))) with 9%nat.
      rewrite take_ge by lia.
      split; [rewrite length_app, Hlen; reflexivity|].
      split; [apply before_nul_app; exact Hnz | lia].
    - split; [reflexivity|]. split; [apply before_nul_clearBuffer|].
      cbn. lia. }
  destruct H1 as (Hl1 & Hs1 & Hp).
  pose proof (sendHexLine_loop_line (take (Z.to_nat size) data) 0 size
                line1 (SerialStoragePlugin.hexByteBuffer p)
                (Forall_take _ _ _ Hbytes) Hl1 ltac:(rewrite Hs1; lia) Hhb) as L.
  destruct (SerialStoragePlugin.sendHexLine_loop _ 0 size line1 _)
    as [line2 hexByte].
  destruct L as (L1 & L2 & L3).
  split.
  - rewrite c_str_before_nul, L2, Hs1. unfold data_line. fold prefix.
    rewrite length_take.
    replace (Z.of_nat (Z.to_nat size `min` length data)) with size by lia.
    eapply sent_more_trans; apply print_sent_more.
  - split; [|exact L3].
    unfold same_transfer_state, SerialStoragePlugin.set_buffers. cbn.
    repeat split.
Qed.

Lemma sendProgressUpdate_line (p : SerialStoragePlugin.t) (u : Uart.t)
  (name : list Z) (sent total : Z) :
  sent_more u (SerialStoragePlugin.sendProgressUpdate p u name sent total)
            (if SerialStoragePlugin.debugEnabled p
             then progress_line name sent total else []).
Proof.
  unfold SerialStoragePlugin.sendProgressUpdate.
  destruct (SerialStoragePlugin.debugEnabled p).
  - change (negb true) with false. cbv iota zeta.
    unfold progress_line. rewrite !app_assoc.
    do 9 (eapply sent_more_trans; [|apply print_sent_more]).
    apply print_sent_more.
  - change (negb false) with true. cbv iota. apply sent_more_refl.
Qed.

Lemma streamFile_loop_lines (fuel : nat) :
  forall (p : SerialStoragePlugin.t) (u : Uart.t) (name srcData : list Z)
         (address totalSent size : Z),
    (length srcData <= fuel)%nat ->
    Forall is_byte srcData ->
    (3 <= length (SerialStoragePlugin.hexByteBuffer p))%nat ->
    let '(p', u', sent) :=
      SerialStoragePlugin.streamFile_loop fuel p u name srcData address
                                          totalSent size in
    sent = totalSent + Z.of_nat (length srcData)
    /\ same_transfer_state p p'
    /\ sent_more u u'
         (stream_lines (SerialStoragePlugin.debugEnabled p) name size
                       (chunks32_fuel fuel srcData) address totalSent).
Proof.
  induction fuel as [|fuel IH];
    intros p u name srcData address totalSent size Hfuel Hbytes Hhb.
  - destruct srcData; [|cbn in Hfuel; lia]. cbn.
    split; [lia|]. split; [apply same_transfer_state_refl|].
    apply sent_more_refl.
  - cbn [SerialStoragePlugin.streamFile_loop chunks32_fuel].
    destruct srcData as [|b rest].
    { cbn. split; [lia|]. split; [apply same_transfer_state_refl|].
      apply sent_more_refl. }
    set (src := b :: rest) in *.
    assert (Hpos : 0 < Z.of_nat (length src)) by (unfold src; cbn; lia).
    replace (0 <? Z.of_nat (length src)) with true
      by (symmetry; apply Z.ltb_lt; exact Hpos).
    pose proof (min_line_cases _ Hpos) as Hl.
    set (lineSize := min (Z.of_nat (length src))
                         SerialStoragePlugin.HEX_BYTES_PER_LINE) in *.
    assert (Hls : Z.to_nat lineSize = Nat.min 32 (length src)).
    { unfold lineSize, min, SerialStoragePlugin.HEX_BYTES_PER_LINE.
      destruct (Z.of_nat (length src) <? 32) eqn:E;
        [apply Z.ltb_lt in E | apply Z.ltb_ge in E]; lia. }
    assert (Htake : take (Z.to_nat lineSize) src = take 32 src).
    { rewrite Hls. destruct (Nat.le_gt_cases 32 (length src)).
      - rewrite Nat.min_l by lia. reflexivity.
      - rewrite Nat.min_r by lia. rewrite !take_ge by lia. reflexivity. }
    assert (Hdrop : drop (Z.to_nat lineSize) src = drop 32 src).
    { rewrite Hls. destruct (Nat.le_gt_cases 32 (length src)).
      - rewrite Nat.min_l by lia. reflexivity.
      - rewrite Nat.min_r by lia. rewrite !drop_ge by lia. reflexivity. }
    assert (Hlen : Z.of_nat (length (take 32 src)) = lineSize).
    { rewrite <- Htake, length_take. lia. }
    pose proof (sendHexLine_line p u src lineSize address Hhb
                  ltac:(unfold SerialStoragePlugin.HEX_BYTES_PER_LINE in *;
                        unfold lineSize, min in *;
                        destruct (Z.of_nat (length src) <? 32) eqn:E;
                        [apply Z.ltb_lt in E | apply Z.ltb_ge in E]; lia)
                  ltac:(lia) Hbytes) as L.
    destruct (SerialStoragePlugin.sendHexLine p u src lineSize address)
      as [p1 u1].
    destruct L as (Hu1 & Hp1 & Hh1).
    rewrite Htake in Hu1.
    pose proof Hp1 as (_ & Hdbg & _).
    cbn [stream_lines]. rewrite Hlen, Hdrop.
    set (u2 := if (totalSent + lineSize) mod 1024 =? 0
               then SerialStoragePlugin.sendProgressUpdate p1 u1 name
                      (totalSent + lineSize) size
               else u1).
    assert (Hu2 : sent_more u1 u2
                    (if SerialStoragePlugin.debugEnabled p
                        && ((totalSent + lineSize) mod 1024 =? 0)
                     then progress_line name (totalSent + lineSize) size
                     else [])).
    { unfold u2. destruct ((totalSent + lineSize) mod 1024 =? 0).
      - rewrite andb_true_r, <- Hdbg. apply sendProgressUpdate_line.
      - rewrite andb_false_r. apply sent_more_refl. }
    specialize (IH p1 u2 name (drop 32 src)
                   (u32 (address + lineSize)) (totalSent + lineSize) size).
    rewrite length_drop in IH.
    specialize (IH ltac:(lia) (Forall_drop _ _ _ Hbytes) ltac:(lia)).
    destruct (SerialStoragePlugin.streamFile_loop fuel p1 u2 name _ _ _ size)
      as [[p' u'] sent].
    destruct IH as (Hs & Hp & Hu3). rewrite Hdbg in Hu3.
    split; [rewrite Hs; lia|].
    split; [eapply same_transfer_state_trans; eassumption|].
    rewrite app_assoc.
    eapply sent_more_trans; [exact Hu1|].
    eapply sent_more_trans; eassumption.
Qed.

(** X25.  A transfer that [streamFile] accepts (plugin ready, no
    transfer running, at least one byte) reports every byte as sent and
    sends exactly: the BEGIN and SIZE header; one data line per run of
    32 bytes, each the hex digits of its bytes with a blank behind every
    eighth byte but the last, cut to 63 characters and ended by CR LF;
    the END footer.  With debugging on each data line starts with its
    address, a progress line follows every 1024 bytes and a summary
    line ends the transfer.  Afterwards no transfer is running, the
    file counter is one higher and the byte counter [size] higher. *)
Theorem X25_streamFile_frames_and_counts :
  forall (p : SerialStoragePlugin.t) (u : Uart.t) (name data : list Z)
         (size : Z),
    SerialStoragePlugin.isReady p u = true ->
    SerialStoragePlugin.transferInProgress p = false ->
    length (SerialStoragePlugin.hexByteBuffer p) = 4%nat ->
    0 < size <= Z.of_nat (length data) ->
    Forall is_byte data ->
    let '(p', u', sent) := SerialStoragePlugin.streamFile p u name data size in
    let debug := SerialStoragePlugin.debugEnabled p in
    sent = size
    /\ SerialStoragePlugin.transferInProgress p' = false
    /\ SerialStoragePlugin.totalFilesTransferred p'
       = u32 (SerialStoragePlugin.totalFilesTransferred p + 1)
    /\ SerialStoragePlugin.totalBytesTransferred p'
       = u32 (SerialStoragePlugin.totalBytesTransferred p + size)
    /\ SerialStoragePlugin.isReady p' u' = true
    /\ Uart.tx u'
       = Uart.tx u
         ++ (cstr "BEGIN:" ++ name ++ Uart.CRLF
             ++ cstr "SIZE:" ++ Uart.printNumber size ++ Uart.CRLF)
         ++ stream_lines debug name size
                         (chunks32 (take (Z.to_nat size) data)) 0 0
         ++ (cstr "END:" ++ name ++ Uart.CRLF)
         ++ (if debug
             then cstr "SerialStoragePlugin: Streamed "
                  ++ Uart.printNumber size ++ cstr " bytes as "
                  ++ name ++ Uart.CRLF
             else []).
Proof.
  intros p u name data size Hready Hidle Hhb Hsize Hbytes.
  unfold SerialStoragePlugin.streamFile.
  rewrite Hready, Hidle. cbn [negb orb].
  replace (size =? 0) with false by (symmetry; apply Z.eqb_neq; lia).
  set (p1 := SerialStoragePlugin.mk _ _ true _ _ _ _ _).
  set (u1 := SerialStoragePlugin.sendProtocolHeader u name size).
  pose proof (streamFile_loop_lines (length (take (Z.to_nat size) data)) p1 u1
                name (take (Z.to_nat size) data) 0 0 size ltac:(lia)
                (Forall_take _ _ _ Hbytes)
                ltac:(unfold p1; cbn [SerialStoragePlugin.hexByteBuffer]; lia))
    as L.
  fold (chunks32 (take (Z.to_nat size) data)) in L.
  destruct (SerialStoragePlugin.streamFile_loop _ p1 u1 name _ 0 0 size)
    as [[p2 u2] sent].
  destruct L as (Hs & (Hp1 & Hp2 & Hp3 & Hp4 & Hp5 & Hp6) & Hb1 & Hb2 & Hb3).
  rewrite length_take in Hs.
  assert (Hsent : sent = size) by lia. clear Hs. subst sent.
  cbn [SerialStoragePlugin.transferInProgress
       SerialStoragePlugin.totalFilesTransferred
       SerialStoragePlugin.totalBytesTransferred
       SerialStoragePlugin.debugEnabled].
  rewrite Hp5, Hp6, Hp2. unfold p1 at 1 2 3.
  cbn [SerialStoragePlugin.totalFilesTransferred
       SerialStoragePlugin.totalBytesTransferred
       SerialStoragePlugin.debugEnabled].
  cbv zeta.
  split; [reflexivity|]. split; [reflexivity|]. split; [reflexivity|].
  split; [reflexivity|].
  unfold SerialStoragePlugin.isReady, SerialStoragePlugin.isSerialReady in *.
  apply andb_true_iff in Hready as [Hinit Hrdy].
  assert (Hr1 : Uart.ready u1 = Uart.ready u) by reflexivity.
  assert (Ht1 : Uart.tx u1
                = Uart.tx u ++ cstr "BEGIN:" ++ name ++ Uart.CRLF
                  ++ cstr "SIZE:" ++ Uart.printNumber size ++ Uart.CRLF).
  { unfold u1, SerialStoragePlugin.sendProtocolHeader, Uart.print. cbn [Uart.tx].
    rewrite <- !app_assoc. reflexivity. }
  assert (Hd1 : SerialStoragePlugin.debugEnabled p1
                = SerialStoragePlugin.debugEnabled p) by reflexivity.
  rewrite Hd1 in Hb1.
  split.
  - cbn [SerialStoragePlugin.initialized]. rewrite Hp1. unfold p1.
    cbn [SerialStoragePlugin.initialized]. rewrite Hinit. cbn [andb].
    destruct (SerialStoragePlugin.debugEnabled p); cbn; congruence.
  - destruct (SerialStoragePlugin.debugEnabled p);
      unfold SerialStoragePlugin.sendProtocolFooter, Uart.println, Uart.print;
      cbn [Uart.tx]; rewrite Hb1, Ht1; rewrite <- !app_assoc;
      try rewrite app_nil_r; reflexivity.
Qed.

Lemma X25_witness :
  let r := SerialStoragePlugin.streamFile Scenario.serial_ready Scenario.host
             (cstr "A") [0; 1; 2; 3; 4; 5; 6; 7; 8] 9 in
  snd r = 9
  /\ Uart.tx (snd (fst r))
     = cstr "BEGIN:A" ++ Uart.CRLF ++ cstr "SIZE:9" ++ Uart.CRLF
       ++ cstr "0001020304050607 08" ++ Uart.CRLF
       ++ cstr "END:A" ++ Uart.CRLF.
Proof.
  intros r.
  pose proof (X25_streamFile_frames_and_counts Scenario.serial_ready
                Scenario.host (cstr "A") [0; 1; 2; 3; 4; 5; 6; 7; 8] 9
                eq_refl eq_refl eq_refl ltac:(cbn; lia)
                ltac:(apply bytes_b_ok; reflexivity)) as W.
  fold r in W. destruct r as [[p' u'] sent].
  destruct W as (Hs & _ & _ & _ & _ & Ht). cbn [fst snd].
  split; [exact Hs|]. rewrite Ht. reflexivity.
Defined.

(** ** The manager: file names and the self test *)

Lemma invalid_char_allowed (c : Z) :
  is_byte c ->
  FileSystemManager.invalid_char c = false <-> allowed_char c.
Proof.
  intros Hc. unfold is_byte in Hc.
  unfold FileSystemManager.invalid_char, FileSystemManager.signed_char,
    allowed_char.
  change (chr "/") with 47. change (chr "\") with 92. change (chr ":") with 58.
  change (chr "*") with 42. change (chr "?") with 63. change (chr "<") with 60.
  change (chr ">") with 62. change (chr "|") with 124.
  cbn [In].
  rewrite !orb_false_iff, !Z.eqb_neq, Z.ltb_ge.
  destruct (c <? 128) eqn:E;
    [apply Z.ltb_lt in E | apply Z.ltb_ge in E]; intuition lia.
Qed.

Lemma before_nul_char_at (l : list Z) (i : nat) :
  (i < length (before_nul l))%nat ->
  before_nul l !! i = Some (MemoryUtils.char_at l (Z.of_nat i)).
Proof.
  intros Hi. unfold MemoryUtils.char_at. rewrite Nat2Z.id.
  rewrite <- (before_nul_prefix l) at 1.
  rewrite lookup_take_lt by exact Hi.
  pose proof (before_nul_length l).
  destruct (lookup_lt_is_Some_2 l i ltac:(lia)) as [x Hx].
  rewrite Hx. reflexivity.
Qed.

(** X27.  [isValidFilename] accepts exactly the names of one to seven
    characters (up to the NUL) that are all printable 7-bit characters
    other than the nine reserved ones.  A name of eight characters, the
    size of a name buffer, is refused. *)
Theorem X27_isValidFilename_accepts :
  forall name : list Z,
    Forall is_byte name ->
    FileSystemManager.isValidFilename name = true
    <-> ((1 <= length (before_nul name) <= 7)%nat
         /\ Forall allowed_char (before_nul name)).
Proof.
  intros name Hbytes. unfold FileSystemManager.isValidFilename.
  rewrite safeStrlen_scan by (unfold MAX_FILENAME_LENGTH; lia).
  unfold MAX_FILENAME_LENGTH.
  set (s := before_nul name).
  assert (Hsb : Forall is_byte s).
  { unfold s. rewrite <- before_nul_prefix. apply Forall_take. exact Hbytes. }
  destruct (Z.le_gt_cases 8 (Z.of_nat (length s))) as [Hlong | Hshort].
  - rewrite Z.min_l by lia. cbn. split; [discriminate|]. intros [H _]. lia.
  - rewrite Z.min_r by lia.
    destruct (Nat.eq_dec (length s) 0%nat) as [H0 | Hpos].
    + rewrite H0. cbn. split; [discriminate|]. intros [H _]. lia.
    + replace (Z.of_nat (length s) =? 0) with false
        by (symmetry; apply Z.eqb_neq; lia).
      replace (8 <=? Z.of_nat (length s)) with false
        by (symmetry; apply Z.leb_gt; lia).
      cbn [orb]. rewrite Nat2Z.id, forallb_seq_lookup. split.
      * intros Hall. split; [lia|]. apply Forall_lookup. intros i c Hi.
        pose proof (lookup_lt_Some _ _ _ Hi) as Hlt.
        specialize (Hall i ltac:(lia)).
        unfold s in Hi, Hlt. rewrite (before_nul_char_at name i Hlt) in Hi.
        injection Hi as Hi. rewrite Hi in Hall.
        apply invalid_char_allowed.
        -- rewrite Forall_lookup in Hsb. apply (Hsb i).
           unfold s. rewrite (before_nul_char_at name i Hlt), Hi. reflexivity.
        -- apply negb_true_iff. exact Hall.
      * intros [_ Hall] i Hi.
        assert (Hlt : (i < length (before_nul name))%nat) by (fold s; lia).
        pose proof (before_nul_char_at name i Hlt) as Hc. fold s in Hc.
        rewrite Forall_lookup in Hall, Hsb.
        apply negb_true_iff, invalid_char_allowed.
        -- apply (Hsb i). exact Hc.
        -- apply (Hall i). exact Hc.
Qed.

Lemma X27_witness :
  FileSystemManager.isValidFilename (cstr "log.txt" ++ [0]) = true
  /\ FileSystemManager.isValidFilename (cstr "data_0001") = false.
Proof.
  split.
  - apply X27_isValidFilename_accepts.
    + apply bytes_b_ok. vm_compute. reflexivity.
    + assert (E : before_nul (cstr "log.txt" ++ [0])
                  = [108; 111; 103; 46; 116; 120; 116]) by reflexivity.
      rewrite E. split; [cbn [length]; lia|].
      repeat (apply Forall_cons_2;
                   [unfold allowed_char; cbn [In]; intuition lia|]).
      apply Forall_nil_2.
  - destruct (FileSystemManager.isValidFilename (cstr "data_0001")) eqn:E;
      [|reflexivity].
    apply X27_isValidFilename_accepts in E.
    + destruct E as [[_ E] _].
      assert (L : length (before_nul (cstr "data_0001")) = 9%nat)
        by reflexivity.
      rewrite L in E. lia.
    + apply bytes_b_ok. vm_compute. reflexivity.
Defined.

Section ManagerSelfTest.
Context {V : Type} `{SdSlot V}.

Lemma manager_refuses_long_name (m : FileSystemManager.t) (name data : list Z)
  (size : Z) :
  FileSystemManager.isValidFilename name = false ->
  FileSystemManager.writeFile m name data size
  = (if FileSystemManager.initialized m && negb (size =? 0)
     then match FileSystemManager.currentStorage m with
          | Some _ => FileSystemManager.debug m "FileSystemManager: Invalid filename"
          | None => m
          end
     else m,
     0).
Proof.
  intros Hname. unfold FileSystemManager.writeFile. rewrite Hname.
  destruct (FileSystemManager.initialized m), (size =? 0); cbn [negb orb andb];
    try reflexivity.
  destruct (FileSystemManager.currentStorage m); reflexivity.
Qed.

(** X28.  The manager's self test writes under the name "test.dat",
    which has eight characters and is refused by the manager's own name
    check.  So [testWrite] reports failure for every state of the
    manager and every non-empty test data, and no plugin is asked to do
    anything: the three plugins and their devices are as before. *)
Theorem X28_testWrite_always_fails :
  forall (m : FileSystemManager.t) (testData : option (list Z))
         (testSize : Z),
    (testData <> None -> testSize <> 0) ->
    exists m',
      FileSystemManager.testWrite m testData testSize = Some (m', false)
      /\ FileSystemManager.sdCardPlugin m' = FileSystemManager.sdCardPlugin m
      /\ FileSystemManager.eepromPlugin m' = FileSystemManager.eepromPlugin m
      /\ FileSystemManager.serialPlugin m' = FileSystemManager.serialPlugin m
      /\ FileSystemManager.totalFilesWritten m'
         = FileSystemManager.totalFilesWritten m.
Proof.
  intros m testData testSize Hsize.
  unfold FileSystemManager.testWrite.
  destruct (FileSystemManager.initialized m) eqn:Einit; cbn [negb];
    [|exists m; auto 6].
  destruct (FileSystemManager.currentStorage m) as [cur|] eqn:Ecur;
    [|exists m; auto 6].
  assert (Hname : FileSystemManager.isValidFilename (cstr "test.dat") = false)
    by reflexivity.
  set (ds := match testData with
             | None => (FileSystemManager.localTestData, 32)
             | Some d => (d, testSize)
             end).
  assert (Hds : snd ds <> 0).
  { unfold ds. destruct testData; cbn [snd]; [apply Hsize; discriminate|lia]. }
  destruct ds as [data size]. cbn [snd] in Hds.
  rewrite (manager_refuses_long_name m _ data size Hname), Einit, Ecur.
  replace (size =? 0) with false by (symmetry; apply Z.eqb_neq; exact Hds).
  cbn [negb andb].
  replace (0 =? size) with false by (symmetry; apply Z.eqb_neq; lia).
  cbn [negb].
  eexists. split; [reflexivity|].
  unfold FileSystemManager.debug.
  destruct (FileSystemManager.debugEnabled m); auto.
Qed.

End ManagerSelfTest.

Lemma X28_witness :
  exists m',
    FileSystemManager.testWrite (Main.fileSystemManager Scenario.booted) None 0
    = Some (m', false).
Proof.
  destruct (X28_testWrite_always_fails (Main.fileSystemManager Scenario.booted)
              None 0 ltac:(intros E; contradiction)) as (m' & Hm & _).
  exists m'. exact Hm.
Defined.

(** ** The SD card plugin *)

Section SdCardProperties.
Context {V : Type} `{SdSlot V}.

(** X29.  When the detect pin shows no card or the write-protect pin is
    set, [writeFile] and [deleteFile] report failure without one call
    into the SD library: the card is as before.  A plugin that was ready
    finds out at that moment and is not ready afterwards. *)
Theorem X29_sd_refuses_without_writable_card :
  forall (p : SDCardStoragePlugin.t) (v : V) (name data : list Z) (size : Z),
    no_writable_card v ->
    (let '(p', v', written) := SDCardStoragePlugin.writeFile p v name data size in
     written = 0 /\ v' = v
     /\ (SDCardStoragePlugin.isReady p = true -> size <> 0 ->
         SDCardStoragePlugin.isReady p' = false))
    /\ (let '(p', v', removed) := SDCardStoragePlugin.deleteFile p v name in
        removed = false /\ v' = v
        /\ (SDCardStoragePlugin.isReady p = true ->
            SDCardStoragePlugin.isReady p' = false)).
Proof.
  intros p v name data size Hcard.
  assert (Hst : negb (SDCardStoragePlugin.cardPresent
                        (SDCardStoragePlugin.checkCardStatus p v))
                || SDCardStoragePlugin.writeProtected
                     (SDCardStoragePlugin.checkCardStatus p v) = true).
  { unfold SDCardStoragePlugin.checkCardStatus. cbn.
    destruct Hcard as [E | E]; rewrite E; [reflexivity|].
    apply orb_true_r. }
  assert (Hnr : SDCardStoragePlugin.isReady
                  (SDCardStoragePlugin.checkCardStatus p v) = false).
  { unfold SDCardStoragePlugin.isReady.
    apply orb_true_iff in Hst as [E | E].
    - apply negb_true_iff in E. rewrite E, andb_false_r. reflexivity.
    - rewrite E. apply andb_false_r. }
  split.
  - unfold SDCardStoragePlugin.writeFile.
    destruct (SDCardStoragePlugin.isReady p) eqn:Er; cbn [negb orb].
    + destruct (size =? 0) eqn:Es.
      * apply Z.eqb_eq in Es. split; [reflexivity|]. split; [reflexivity|].
        intros _ Hs. contradiction.
      * rewrite Hst. auto.
    + split; [reflexivity|]. split; [reflexivity|]. discriminate.
  - unfold SDCardStoragePlugin.deleteFile.
    destruct (SDCardStoragePlugin.isReady p) eqn:Er; cbn [negb].
    + rewrite Hst. auto.
    + split; [reflexivity|]. split; [reflexivity|]. discriminate.
Qed.

Lemma sd_listed_name (name : list Z) :
  let shown :=
    MemoryUtils.c_str
      (fst (MemoryUtils.safeCopy (MemoryUtils.clearBuffer MAX_FILENAME_LENGTH)
                                 MAX_FILENAME_LENGTH name 0)) in
  shown = take 7 (before_nul name).
Proof.
  cbv zeta.
  pose proof (safeCopy_result (MemoryUtils.clearBuffer MAX_FILENAME_LENGTH)
                MAX_FILENAME_LENGTH name 0 eq_refl ltac:(reflexivity)
                ltac:(lia)) as R.
  cbv zeta in R. rewrite R. cbn [fst]. rewrite c_str_before_nul.
  change (if 0 =? 0 then MAX_FILENAME_LENGTH - 1
          else Z.min 0 (MAX_FILENAME_LENGTH - 1)) with 7.
  rewrite before_nul_app
    by (apply Forall_take, before_nul_nonzero).
  destruct (Z.le_gt_cases 7 (Z.of_nat (length (before_nul name)))) as [L | L].
  - rewrite Z.min_l by lia. reflexivity.
  - rewrite Z.min_r by lia. rewrite Nat2Z.id.
    rewrite !take_ge by lia. reflexivity.
Qed.

Lemma sd_listFiles_loop_names (entries : list (list Z * bool)) :
  forall fileCount maxFiles : Z,
    SDCardStoragePlugin.listFiles_loop entries fileCount maxFiles
    = take (Z.to_nat (maxFiles - fileCount))
           (map (fun e => before_nul (fst e)) (List.filter sd_listed entries)).
Proof.
  induction entries as [|[name isDirectory] rest IH];
    intros fileCount maxFiles.
  - cbn. rewrite take_nil. reflexivity.
  - cbn [SDCardStoragePlugin.listFiles_loop List.filter].
    assert (Hl : negb isDirectory
                 && (MemoryUtils.safeStrlen name MAX_FILENAME_LENGTH
                     <? MAX_FILENAME_LENGTH)
                 = sd_listed (name, isDirectory)).
    { unfold sd_listed. cbn [fst snd]. f_equal.
      rewrite safeStrlen_scan by (unfold MAX_FILENAME_LENGTH; lia).
      unfold MAX_FILENAME_LENGTH.
      destruct (length (before_nul name) <=? 7)%nat eqn:E;
        [apply Nat.leb_le in E; apply Z.ltb_lt
        |apply Nat.leb_gt in E; apply Z.ltb_ge]; lia. }
    rewrite Hl.
    destruct (fileCount <? maxFiles) eqn:E;
      [apply Z.ltb_lt in E | apply Z.ltb_ge in E].
    + destruct (sd_listed (name, isDirectory)) eqn:Es.
      * rewrite IH, sd_listed_name. cbn [map fst].
        replace (Z.to_nat (maxFiles - fileCount))
          with (S (Z.to_nat (maxFiles - (fileCount + 1)))) by lia.
        rewrite firstn_cons. f_equal.
        apply take_ge.
        unfold sd_listed in Es. cbn [fst snd] in Es.
        apply andb_true_iff in Es as [_ Es]. apply Nat.leb_le in Es. exact Es.
      * apply IH.
    + replace (Z.to_nat (maxFiles - fileCount)) with 0%nat by lia.
      rewrite take_0. reflexivity.
Qed.

(** X30.  [listFiles] of the SD plugin lists, in directory order, the
    names of the root entries that are files with a name of at most
    seven characters, up to [maxFiles] of them.  Directories and longer
    names are left out rather than cut.  Without an initialised plugin
    that has seen a card, or when the root cannot be opened, it lists
    nothing. *)
Theorem X30_sd_listFiles_names :
  forall (p : SDCardStoragePlugin.t) (v : V) (maxFiles : Z),
    SDCardStoragePlugin.listFiles p v maxFiles
    = if SDCardStoragePlugin.initialized p && SDCardStoragePlugin.cardPresent p
      then match SD_root_files v with
           | Some entries =>
               take (Z.to_nat maxFiles)
                    (map (fun e => before_nul (fst e))
                         (List.filter sd_listed entries))
           | None => []
           end
      else [].
Proof.
  intros p v maxFiles. unfold SDCardStoragePlugin.listFiles.
  destruct (SDCardStoragePlugin.initialized p); cbn [negb orb andb];
    [|reflexivity].
  destruct (SDCardStoragePlugin.cardPresent p); cbn [negb orb andb];
    [|reflexivity].
  destruct (maxFiles =? 0) eqn:E0.
  - apply Z.eqb_eq in E0. subst maxFiles. cbn [Z.to_nat].
    destruct (SD_root_files v); [rewrite take_0|]; reflexivity.
  - destruct (SD_root_files v) as [entries|]; [|reflexivity].
    rewrite sd_listFiles_loop_names, Z.sub_0_r. reflexivity.
Qed.

End SdCardProperties.

Lemma X29_witness :
  SDCardStoragePlugin.isReady Scenario.sd_ready = true
  /\ (let '(p', v', written) :=
        SDCardStoragePlugin.writeFile Scenario.sd_ready Scenario.card_protected
          (cstr "c.bin") [1; 2; 3] 3 in
      written = 0 /\ v' = Scenario.card_protected
      /\ SDCardStoragePlugin.isReady p' = false)
  /\ (let '(p', v', removed) :=
        SDCardStoragePlugin.deleteFile Scenario.sd_ready Scenario.card_removed
          (cstr "a.txt") in
      removed = false /\ v' = Scenario.card_removed
      /\ SDCardStoragePlugin.isReady p' = false).
Proof.
  split; [reflexivity|]. split.
  - pose proof (X29_sd_refuses_without_writable_card Scenario.sd_ready
                  Scenario.card_protected (cstr "c.bin") [1; 2; 3] 3
                  (or_intror eq_refl)) as [W _].
    destruct (SDCardStoragePlugin.writeFile Scenario.sd_ready
                Scenario.card_protected (cstr "c.bin") [1; 2; 3] 3)
      as [[p' v'] n].
    destruct W as (W1 & W2 & W3).
    split; [exact W1|]. split; [exact W2|]. apply W3; [reflexivity | lia].
  - pose proof (X29_sd_refuses_without_writable_card Scenario.sd_ready
                  Scenario.card_removed (cstr "a.txt") [] 0
                  (or_introl eq_refl)) as [_ W].
    destruct (SDCardStoragePlugin.deleteFile Scenario.sd_ready
                Scenario.card_removed (cstr "a.txt")) as [[p' v'] b].
    destruct W as (W1 & W2 & W3).
    split; [exact W1|]. split; [exact W2|]. apply W3. reflexivity.
Defined.

Lemma X30_witness :
  SDCardStoragePlugin.listFiles Scenario.sd_ready Scenario.card 4
  = [cstr "a.txt"; cstr "b.dat"]
  /\ SDCardStoragePlugin.listFiles Scenario.sd_ready Scenario.card 1
     = [cstr "a.txt"].
Proof.
  rewrite !X30_sd_listFiles_names. split; reflexivity.
Defined.
